(* ===== verification/_CoqProject ===== *)
-Q . S2P
Prelude.v
Fips180.v
Sha256.v
Bitcoin.v
Target.v
Settings.v
Srec.v
Bus.v
Rtos.v
Boot.v
IicCore.v
Eeprom.v
EepromLive.v
Json.v
Ina700.v
Protocol.v
Telemetry.v
Power.v
Beacon.v
TelemetryOk.v
Dashboard.v
Sockets.v
AppMain.v
Network.v
Stratum.v
StratumInv.v
Session.v
StratumTask.v
Silence.v
StratumTel.v
StratumFine.v
Secrecy.v
Quiesce.v
Firmware.v
Startup.v
