(* ===== verification/Prelude.v ===== *)
(** * SCU35 Bitcoin lottery miner: a verification of its firmware

    The repository builds a Bitcoin miner on an FPGA board: hash engines in
    hardware and, on a soft CPU, a bootloader and a FreeRTOS application in C.
    This library models the C code of src/software function by function and
    proves what it is there for: that the shares it submits are valid, that
    its settings survive power failures, that a damaged boot image is never
    started, that its drivers end whatever the hardware answers, and that its
    network services say what they do.

    ** The program and its models

    - common/sha256_sw.c: streaming SHA-256, midstate and tail words.  Fips180
      is the standard, Sha256 the code.
    - common/bitcoin.c: hex, double hash, header assembly (Bitcoin), decimal
      difficulty to 256-bit target on 1024-bit numbers (Target).
    - common/settings.c: two-slot settings store over a read and a write
      function pointer (Settings; the pointers are the class [Store]).
    - application/eeprom.c: the EEPROM driver behind those pointers (Eeprom:
      the code and that it tells the truth; EepromLive: that it succeeds).
      IicCore is the hardware it drives, the I2C core with its queues and
      flags and the memory chip with its pages and program cycle.
    - common/srec.c and bootloader/main.c: S-record parser (Srec) and the
      bootloader that loads, checks and starts the application (Boot).
    - common/console.c: UART driver, and the bus all drivers use (Bus).
    - common/json_helpers.h: typed access to JSON fields (Json).
    - common/ina700.c and application/power.c: sensor conversion (Ina700) and
      the sampling task with its I2C bus (Power).
    - common/miner_protocol.c: configuration requests, telemetry texts
      (Protocol).
    - application/dashboard.c: counters and events (Telemetry), the UDP beacon
      and its subscribers (Beacon), the TCP configuration server (Dashboard)
      and its sockets (Sockets); TelemetryOk: every operation keeps the
      statistics and the queued events within their types.
    - application/stratum.c: the pool client that owns the mining registers
      (Stratum: the code; StratumInv, Session: its invariants; StratumTask:
      the task as a transition system; Quiesce: its register protocol;
      Silence: the session loop as time passes; StratumTel: what it reports is
      within its types; StratumFine: the session loop in small steps; Secrecy:
      the client without its password).
    - application/main.c: the state the application starts with (AppMain) and
      the whole start with its calls and assertions (Startup).
    - application/port_hooks.c and configASSERT: assertions, fatal-error hooks
      and the tick timer (Rtos, with the calls to FreeRTOS and its stack).
    - application/NetworkInterface.c: set-up, reception, transmission, link
      state and interrupts between FreeRTOS+TCP and the vendor's Ethernet
      driver (Network).
    - the tasks together, on the settings, statistics and event queue they
      share, as one transition system (Firmware).

    ** How the code is modelled

    A C integer is a [Z] with its wrap-around written out ([+32], [u32], ...);
    an array is a list of fixed length; a struct is a record; the static
    variables of a file are one record that functions take and return.
    Fallible functions return their error value, an option or a sum.  Code
    that calls FreeRTOS or the IP stack keeps a history of its calls, answered
    by an arbitrary environment, and may stop for good ([rtos]).  Hardware
    is reached through the bus history: a device is any function from the
    history of accesses to the value a load returns, so a theorem holds for
    everything the hardware may do unless it names what it relies on
    ([EepromBus] and [PromptBus], [StoreLaws], [Clock], [EmacLaws],
    [QuietReceiver], [Peers]).  The I2C core and the memory chip work on their
    own between the accesses, as far and as well as an arbitrary environment
    lets them; [EepromBus] says that status bits and received bytes do not
    lie, [PromptBus] that nothing goes wrong and the core gets on.  coreJSON,
    FreeRTOS queues, sockets and the tick counter are classes or parameters, arbitrary in the theorems;
    each hypothesis about them has an instance in the examples.  Critical
    sections make the operations inside them single steps.  The settings lock
    keeps tasks that take it apart; the session loop reads the generation
    without it, so the assignment of new settings, the count of the save and
    its report are steps of their own in Firmware, and in Network interrupts
    come between the calls of [initialise].

    ** What is proved

    - Mining (StratumTask, Quiesce): every line sent as a share, rebuilt from
      its fields, is a header that meets the job's target; in every reachable
      state header, registers, job and texts belong together; extranonces are
      not reused; work registers change only on engines that were stopped,
      given time, cleared and drained; a session with a silent pool ends at
      its first passed deadline (Silence).
    - Arithmetic (Sha256, Bitcoin, Target): the hash is FIPS 180-4, the header
      has the wire layout, the target is the exact quotient, hex is inverse.
    - Storage (Settings, Eeprom, EepromLive): saves are atomic and durable
      whatever operation fails, damage of a byte is found (three unused bytes
      apart), what is saved is loaded; the EEPROM driver implements the store
      on a chip that may refuse any byte, and on hardware in order every read,
      write, save and load succeeds.
    - Boot (Srec, Boot): the parser accepts exactly the valid records, in
      bounds; the loader ends, and jumps only into a complete, verified image.
    - Services (Json, Ina700, Protocol, Telemetry, Beacon, Dashboard, Power,
      AppMain): requests change exactly what they say, are answered truthfully
      and survive a restart, the read-back keeps the password secret, messages
      are never cut and reach the subscribers, samples are exact and fresh,
      polling ends within its deadlines.
    - Secrecy: nothing the pool client reports, programs or submits depends on
      the pool password; a run with other passwords is the same but for the
      request for authorization.
    - The whole (Startup, Firmware, Sockets): the application starts completely
      or stops at the first call that fails; from any start, however the tasks
      interleave, statistics, events and samples stay within their types, so
      the beacon's guarantees hold without assumptions on the other tasks, and
      a pool session goes on only under the settings in use, as its generation
      test tells it (fewer than 2^32 saves, and a save is seen once it is
      counted); every connection is answered and its socket closed.
    - Network: interrupts find handlers and task, also in the middle of the
      set-up; buffers are neither lost nor used twice; the receive task empties
      its buffers; frames do not overrun their buffers as long as no frame is
      completed while the header of another is being checked; [receive_race]
      shows that without this proviso one may be copied unchecked.

    ** Fuel

    Loops of the code that are not structural run on fuel that is proved to be
    enough: [update_loop] takes the number of bytes, [zero_until] 64 steps,
    [divide] the 1024 bits, the EEPROM loops the number of bytes, [send_loop]
    the length of the text; the bootloader ends for every fuel above 0x800000
    (the flash size), the power task's waits for every fuel of 11 rounds or
    more (its 100 ms deadline at one tick per round).  Waits that the code
    itself counts (UART 1000000, SPI 1000000, EEPROM 100000) count down as
    written; on hardware in order the EEPROM waits end before that.

    ** Not modelled

    FreeRTOSIPConfig.h and the macros of FreeRTOSConfig.h that configure
    FreeRTOS, which is not part of the repository (the limits and rates the
    code uses are modelled).  Preemption inside a step of Firmware: other tasks
    run between the characters, results and slots the Stratum task handles,
    and between the turns of the other tasks (and inside a save, as said), while
    the code protects only its
    accesses to shared variables, by a lock or critical sections.  The power
    task takes turns in Firmware whether or not the hardware has its sensors.
    The hash engines (rtl), the Python dashboard, build scripts and test
    benches are not C code of the firmware. *)

From stdpp Require Export base numbers list strings.
From Stdlib Require Export ZArith Lia.
From coqutil Require Export Z.PushPullMod.

Declare Scope cword_scope.
Delimit Scope cword_scope with W.
#[global] Open Scope Z_scope.

(** ** Fixed-width C integers

    An unsigned w-bit object is a [Z] kept in [0 .. 2^w); the conversions
    below are C's conversions to [uint8_t], [uint16_t], [uint32_t],
    [uint64_t] and (two's complement) [int32_t]. *)
Definition u8 (z : Z) : Z := z `mod` 2 ^ 8.
Definition u16 (z : Z) : Z := z `mod` 2 ^ 16.
Definition u32 (z : Z) : Z := z `mod` 2 ^ 32.
Definition u64 (z : Z) : Z := z `mod` 2 ^ 64.
Definition s32 (z : Z) : Z :=
  let w := u32 z in if bool_decide (w < 2 ^ 31) then w else w - 2 ^ 32.

(** [x << n] on a 32-bit unsigned operand, and [~x]. *)
Definition shl32 (x n : Z) : Z := u32 (Z.shiftl x n).
Definition not32 (x : Z) : Z := u32 (Z.lnot x).

Notation "x '+32' y" := (u32 (x + y)) (at level 50, left associativity) : cword_scope.
Notation "x '-32' y" := (u32 (x - y)) (at level 50, left associativity) : cword_scope.
Notation "x '.&' y" := (Z.land x y) (at level 40, left associativity) : cword_scope.
Notation "x '.|' y" := (Z.lor x y) (at level 45, left associativity) : cword_scope.
Notation "x '.^' y" := (Z.lxor x y) (at level 43, left associativity) : cword_scope.
Notation "x '>>.' n" := (Z.shiftr x n) (at level 38, left associativity) : cword_scope.
Notation "x '<<.' n" := (shl32 x n) (at level 38, left associativity) : cword_scope.

(** The value ranges of the C types. *)
Definition in_bits (w z : Z) : Prop := 0 <= z < 2 ^ w.
Abbreviation is_u8 := (in_bits 8).
Abbreviation is_u16 := (in_bits 16).
Abbreviation is_u32 := (in_bits 32).
Abbreviation is_u64 := (in_bits 64).
Abbreviation is_bytes := (Forall (in_bits 8)).
Abbreviation is_words := (Forall (in_bits 32)).

#[global] Instance in_bits_dec w z : Decision (in_bits w z).
Proof. unfold in_bits. apply _. Defined.

(** ** Buffers

    A C array is the list of its elements.  [sub b off n] is the [n] bytes
    at [b+off]; [memcpy b off src] is the array after [memcpy(b+off,src,..)]
    (stdpp's [list_inserts]: what falls outside the array is not written);
    [b !!! i] is [b[i]], meaningful only for an index in range;
    a NUL-terminated string ends at the first zero element. *)
Definition sub {A} (b : list A) (off n : nat) : list A := take n (drop off b).
Definition memcpy {A} (b : list A) (off : nat) (src : list A) : list A :=
  list_inserts off src b.

(** The bytes of a string literal, without its terminating NUL. *)
Fixpoint str (s : string) : list Z :=
  match s with
  | EmptyString => []
  | String a s' => Z.of_N (Ascii.N_of_ascii a) :: str s'
  end.

(** The character constant ['c']. *)
Definition chr (s : string) : Z := str s !!! 0%nat.

(** [strlen]/the C string at the start of an array. *)
Fixpoint cstr (b : list Z) : list Z :=
  match b with
  | [] => []
  | c :: b' => if bool_decide (c = 0) then [] else c :: cstr b'
  end.

(** Little-endian positional value of a list of digits. *)
Fixpoint le_value (base : Z) (l : list Z) : Z :=
  match l with
  | [] => 0
  | d :: l' => d + base * le_value base l'
  end.

(** [for (i = lo; i < lo + n; i++) s = f(i, s);] *)
Definition for_loop {S} (lo n : nat) (f : nat → S → S) (s : S) : S :=
  foldl (λ s i, f i s) s (seq lo n).

(** ** Hint databases and tactics

    [cword] proves that C expressions stay in their width; [clen] pushes
    [length] through the buffer operations. *)
Create HintDb cword.
Create Rewrite HintDb cword.
Create Rewrite HintDb clen.

#[export] Hint Extern 1 (_ <= _) => lia : cword.
#[export] Hint Extern 1 (_ < _) => lia : cword.

(** Discharge a decidable hypothesis on concrete data. *)
Ltac by_decide := refine (bool_decide_unpack _ _); vm_compute; exact I.
Ltac cword := eauto 8 with cword; try lia.
(** [lia] with quotients and remainders by constants. *)
Ltac dlia := Zify.zify; Z.to_euclidean_division_equations; lia.

Ltac len := autorewrite with clen; first [lia | simpl; lia | done | idtac].

(** Case analysis on the boolean guards of the modelled code. *)
Ltac guards :=
  repeat match goal with
  | |- context [bool_decide ?P] => destruct (bool_decide_reflect P)
  | H : context [bool_decide ?P] |- _ => destruct (bool_decide_reflect P)
  | |- context [decide ?P] => destruct (decide P)
  | H : context [decide ?P] |- _ => destruct (decide P)
  end; simpl in *.

(** ** Ranges *)
Lemma in_bits_pow w z : in_bits w z → 0 <= w → ∀ i, w <= i → Z.testbit z i = false.
Proof.
  intros [Hz1 Hz2] Hw i Hi.
  rewrite <-(Z.mod_small z (2 ^ w)) by lia. by apply Z.mod_pow2_bits_high.
Qed.

Lemma in_bits_intro w z :
  0 <= w → 0 <= z → (∀ i, w <= i → Z.testbit z i = false) → in_bits w z.
Proof.
  intros Hw Hz Hi. split; [done|].
  cut (z = z `mod` 2 ^ w); [intros ->; apply Z.mod_pos_bound; lia|].
  rewrite <-Z.land_ones by done. apply Z.bits_inj'. intros i Hi0.
  rewrite Z.land_spec. destruct (decide (i < w)).
  - by rewrite Z.ones_spec_low, andb_true_r by lia.
  - by rewrite Hi by lia.
Qed.

Lemma in_bits_lor w x y : 0 <= w → in_bits w x → in_bits w y → in_bits w (Z.lor x y).
Proof.
  intros Hw Hx Hy. apply in_bits_intro; [done| |].
  - apply Z.lor_nonneg. unfold in_bits in *. lia.
  - intros i Hi. by rewrite Z.lor_spec, (in_bits_pow w x), (in_bits_pow w y).
Qed.

Lemma in_bits_lxor w x y : 0 <= w → in_bits w x → in_bits w y → in_bits w (Z.lxor x y).
Proof.
  intros Hw Hx Hy. apply in_bits_intro; [done| |].
  - apply Z.lxor_nonneg. unfold in_bits in *. lia.
  - intros i Hi. by rewrite Z.lxor_spec, (in_bits_pow w x), (in_bits_pow w y).
Qed.

Lemma in_bits_land_l w x y : 0 <= w → in_bits w x → in_bits w (Z.land x y).
Proof.
  intros Hw Hx. apply in_bits_intro; [done| |].
  - apply Z.land_nonneg. unfold in_bits in *. lia.
  - intros i Hi. by rewrite Z.land_spec, (in_bits_pow w x).
Qed.

Lemma in_bits_land_r w x y : 0 <= w → in_bits w y → in_bits w (Z.land x y).
Proof. intros. rewrite Z.land_comm. by apply in_bits_land_l. Qed.

Lemma in_bits_shiftr w x n : 0 <= n → in_bits w x → in_bits w (Z.shiftr x n).
Proof.
  unfold in_bits. intros Hn [H1 H2]. rewrite Z.shiftr_div_pow2 by done.
  assert (0 < 2 ^ n) by lia. split; [by apply Z.div_pos|].
  apply Z.le_lt_trans with x; [|done]. apply Z.div_le_upper_bound; nia.
Qed.

Lemma in_bits_shiftr_sub w n x : 0 <= n <= w → in_bits w x → in_bits (w - n) (Z.shiftr x n).
Proof.
  unfold in_bits. intros Hn [H1 H2]. rewrite Z.shiftr_div_pow2 by lia.
  split; [apply Z.div_pos; lia|]. apply Z.div_lt_upper_bound; [lia|].
  rewrite <-Z.pow_add_r by lia. by replace (n + (w - n)) with w by lia.
Qed.

Lemma in_bits_mono w w' x : 0 <= w <= w' → in_bits w x → in_bits w' x.
Proof.
  unfold in_bits. intros Hw [H1 H2]. split; [done|].
  apply Z.lt_le_trans with (2 ^ w); [done|]. apply Z.pow_le_mono_r; lia.
Qed.

Lemma u8_range z : is_u8 (u8 z).
Proof. by apply Z.mod_pos_bound. Qed.
Lemma u16_range z : is_u16 (u16 z).
Proof. by apply Z.mod_pos_bound. Qed.
Lemma u32_range z : is_u32 (u32 z).
Proof. by apply Z.mod_pos_bound. Qed.
Lemma u64_range z : is_u64 (u64 z).
Proof. by apply Z.mod_pos_bound. Qed.
Lemma u8_small z : is_u8 z → u8 z = z.
Proof. intros. by apply Z.mod_small. Qed.
Lemma u16_small z : is_u16 z → u16 z = z.
Proof. intros. by apply Z.mod_small. Qed.
Lemma u32_small z : is_u32 z → u32 z = z.
Proof. intros. by apply Z.mod_small. Qed.
Lemma u64_small z : is_u64 z → u64 z = z.
Proof. intros. by apply Z.mod_small. Qed.
Lemma shl32_range x n : is_u32 (shl32 x n).
Proof. apply u32_range. Qed.
Lemma not32_range x : is_u32 (not32 x).
Proof. apply u32_range. Qed.

(** The 32-bit forms of the bitwise rules, as [auto] uses them. *)
Lemma u32_lor x y : is_u32 x → is_u32 y → is_u32 (Z.lor x y).
Proof. by apply in_bits_lor. Qed.
Lemma u32_lxor x y : is_u32 x → is_u32 y → is_u32 (Z.lxor x y).
Proof. by apply in_bits_lxor. Qed.
Lemma u32_land x y : is_u32 x → is_u32 (Z.land x y).
Proof. by apply in_bits_land_l. Qed.
Lemma u8_u32 x : is_u8 x → is_u32 x.
Proof. by apply in_bits_mono. Qed.

#[export] Hint Resolve u8_range u16_range u32_range u64_range shl32_range not32_range
  u32_lor u32_lxor u32_land u8_u32 : cword.
#[export] Hint Rewrite @length_app @length_take @length_drop @length_insert
  @length_replicate @length_inserts @length_fmap @length_rev @length_cons length_seq : clen.

(** ** Buffer lemmas *)
Section buffers.
Context {A : Type}.
Implicit Types b src : list A.

Lemma length_memcpy b off src : length (memcpy b off src) = length b.
Proof. apply length_inserts. Qed.

Lemma length_sub b off n : (off + n <= length b)%nat → length (sub b off n) = n.
Proof. unfold sub. intros. rewrite length_take, length_drop. lia. Qed.

(** A copy that fits replaces exactly its window. *)
Lemma memcpy_eq b off src :
  (off + length src <= length b)%nat →
  memcpy b off src = take off b ++ src ++ drop (off + length src) b.
Proof.
  unfold memcpy. revert off. induction src as [|x src IH]; intros off Hlen.
  - simpl. by rewrite Nat.add_0_r, take_drop.
  - simpl in *. rewrite IH by lia. rewrite insert_take_drop.
    2: { rewrite !length_app, length_take, length_drop. lia. }
    rewrite take_app_le by (rewrite length_take; lia).
    rewrite take_take, Nat.min_l by lia. f_equal.
    rewrite drop_app_ge by (rewrite length_take; lia).
    rewrite length_take, Nat.min_l by lia.
    replace (S off - S off)%nat with 0%nat by lia. simpl.
    by replace (S (off + length src)) with (off + S (length src))%nat by lia.
Qed.

Lemma sub_memcpy_same b off src :
  (off + length src <= length b)%nat → sub (memcpy b off src) off (length src) = src.
Proof.
  intros. unfold sub. rewrite memcpy_eq by done.
  rewrite drop_app_length' by (rewrite length_take; lia).
  by rewrite take_app_length' by done.
Qed.

Lemma sub_memcpy_before b off src p n :
  (off + length src <= length b)%nat → (p + n <= off)%nat →
  sub (memcpy b off src) p n = sub b p n.
Proof.
  intros. unfold sub. rewrite memcpy_eq by done.
  rewrite drop_app_le by (rewrite length_take; lia).
  rewrite take_app_le by (rewrite length_drop, length_take; lia).
  rewrite <-(take_drop off b) at 2.
  rewrite (drop_app_le (take off b)) by (rewrite length_take; lia).
  by rewrite take_app_le by (rewrite length_drop, length_take; lia).
Qed.

Lemma sub_memcpy_after b off src p n :
  (off + length src <= length b)%nat → (off + length src <= p)%nat →
  sub (memcpy b off src) p n = sub b p n.
Proof.
  intros. unfold sub. rewrite memcpy_eq by done. f_equal.
  rewrite app_assoc, drop_app_ge by (rewrite length_app, length_take; lia).
  rewrite length_app, length_take, drop_drop. f_equal. lia.
Qed.

Lemma lookup_sub b off n i : (i < n)%nat → sub b off n !! i = b !! (off + i)%nat.
Proof. intros. unfold sub. by rewrite lookup_take_lt, lookup_drop by done. Qed.

Lemma take_sub b n : take n b = sub b 0 n.
Proof. done. Qed.

(** Writing one element after another is one copy. *)
Lemma memcpy_snoc b off src x :
  memcpy b off (src ++ [x]) = <[(off + length src)%nat := x]> (memcpy b off src).
Proof.
  unfold memcpy. revert off. induction src as [|y src IH]; intros off; simpl.
  - by rewrite Nat.add_0_r.
  - rewrite IH, list_insert_insert_ne by lia.
    by replace (off + S (length src))%nat with (S off + length src)%nat by lia.
Qed.

Lemma memcpy_app b off src1 src2 :
  memcpy b off (src1 ++ src2) = memcpy (memcpy b off src1) (off + length src1) src2.
Proof.
  induction src2 as [|x src2 IH] using rev_ind; [by rewrite app_nil_r|].
  rewrite app_assoc, !memcpy_snoc, IH, length_app. f_equal. lia.
Qed.

Lemma sub_app b off n m : sub b off (n + m) = sub b off n ++ sub b (off + n) m.
Proof. unfold sub. by rewrite <-take_take_drop, drop_drop. Qed.

(** A copy inside a window, seen through the window. *)
Lemma sub_memcpy_inside b p off src n :
  (off + length src <= n)%nat →
  sub (memcpy b (p + off) src) p n = memcpy (sub b p n) off src.
Proof.
  unfold memcpy, sub. revert off. induction src as [|x src IH]; intros off Hn; [done|].
  simpl in *. rewrite drop_insert_ge, take_insert_lt by lia.
  rewrite <-Nat.add_succ_r, IH by lia. f_equal. lia.
Qed.

Lemma sub_ext b b' p n :
  (∀ i, (p <= i < p + n)%nat → b' !! i = b !! i) → sub b' p n = sub b p n.
Proof.
  intros Hi. apply list_eq. intros i. destruct (decide (i < n)%nat).
  - rewrite !lookup_sub by done. apply Hi. lia.
  - unfold sub. by rewrite !lookup_take_ge by lia.
Qed.

Lemma sub_sub b p n q k : (q + k <= n)%nat → sub (sub b p n) q k = sub b (p + q) k.
Proof.
  intros. unfold sub. rewrite skipn_firstn_comm, take_take, Nat.min_l by lia.
  by rewrite drop_drop.
Qed.
End buffers.
#[export] Hint Rewrite @length_memcpy : clen.

Lemma lookup_total_alt_lt (l : list Z) i : (i < length l)%nat → l !! i = Some (l !!! i).
Proof. intros. by apply list_lookup_lookup_total_lt. Qed.

Lemma Forall_memcpy {A} (P : A → Prop) b off src :
  Forall P b → Forall P src → Forall P (memcpy b off src).
Proof.
  unfold memcpy. intros Hb Hs. revert off. induction Hs; intros; simpl; [done|].
  by apply Forall_insert.
Qed.

Lemma Forall_sub {A} (P : A → Prop) (b : list A) off n : Forall P b → Forall P (sub b off n).
Proof. intros. unfold sub. by apply Forall_take, Forall_drop. Qed.
#[export] Hint Resolve Forall_memcpy Forall_sub Forall_take Forall_drop Forall_app_2 : cword.

(** An array of [n] bytes. *)
Definition bytes_n (n : nat) (l : list Z) : Prop := length l = n ∧ is_bytes l.

Lemma is_bytes_lookup (l : list Z) i : is_bytes l → is_u8 (l !!! i).
Proof.
  intros Hl. destruct (decide (i < length l)%nat).
  - eapply Forall_lookup_1; [done|]. by apply lookup_total_alt_lt.
  - rewrite list_lookup_total_alt, lookup_ge_None_2 by lia. done.
Qed.

Lemma is_words_lookup (l : list Z) i : is_words l → is_u32 (l !!! i).
Proof.
  intros Hl. destruct (decide (i < length l)%nat).
  - eapply Forall_lookup_1; [done|]. by apply lookup_total_alt_lt.
  - rewrite list_lookup_total_alt, lookup_ge_None_2 by lia. done.
Qed.
#[export] Hint Resolve is_bytes_lookup is_words_lookup : cword.

(** ** Fields of a word *)

(** Disjoint fields: [|] is addition. *)
Lemma lor_fields hi lo n : 0 <= n → in_bits n lo → Z.lor (hi * 2 ^ n) lo = hi * 2 ^ n + lo.
Proof.
  intros Hn Hlo. symmetry. apply Z.add_nocarry_lor.
  apply Z.bits_inj'. intros i Hi. rewrite Z.land_spec, Z.bits_0.
  destruct (decide (i < n)).
  - by rewrite Z.mul_pow2_bits_low by lia.
  - by rewrite (in_bits_pow n lo), andb_false_r by (done || lia).
Qed.

Lemma lor_fields' hi lo n : 0 <= n → in_bits n lo → Z.lor lo (hi * 2 ^ n) = lo + hi * 2 ^ n.
Proof. intros. rewrite Z.lor_comm, lor_fields by done. lia. Qed.

(** A shift that stays inside 32 bits is a multiplication. *)
Lemma shl32_small x w n : 0 <= w → 0 <= n → w + n <= 32 → in_bits w x → shl32 x n = x * 2 ^ n.
Proof.
  intros Hw Hn Hwn [H1 H2]. unfold shl32. rewrite Z.shiftl_mul_pow2 by done.
  apply u32_small. split; [lia|]. apply Z.lt_le_trans with (2 ^ w * 2 ^ n); [nia|].
  rewrite <-Z.pow_add_r by done. by apply Z.pow_le_mono_r.
Qed.

(** The bits a 32-bit left shift pushes out are lost. *)
Lemma shl32_mod x n : 0 <= n <= 32 → shl32 x n = x `mod` 2 ^ (32 - n) * 2 ^ n.
Proof.
  intros Hn. unfold shl32, u32. rewrite Z.shiftl_mul_pow2 by lia.
  replace (2 ^ 32) with (2 ^ (32 - n) * 2 ^ n)
    by (rewrite <-Z.pow_add_r by lia; f_equal; lia).
  apply Zmult_mod_distr_r.
Qed.

Lemma not32_sub x : is_u32 x → not32 x = 2 ^ 32 - 1 - x.
Proof.
  intros [H1 H2]. unfold not32, Z.lnot. rewrite <-(u32_small (2 ^ 32 - 1 - x)) by (split; lia).
  unfold u32. rewrite <-(Z.mod_add (Z.pred (- x)) 1 (2 ^ 32)) by lia. f_equal. lia.
Qed.

(** Masking a field in place. *)
Lemma land_field x w n :
  0 <= w → 0 <= n → Z.land x (Z.ones w * 2 ^ n) = (x / 2 ^ n) `mod` 2 ^ w * 2 ^ n.
Proof.
  intros Hw Hn. rewrite <-Z.land_ones, <-Z.shiftr_div_pow2, <-!Z.shiftl_mul_pow2 by done.
  apply Z.bits_inj'. intros i Hi. rewrite Z.land_spec, !Z.shiftl_spec by done.
  destruct (decide (i < n)).
  - by rewrite !(Z.testbit_neg_r _ (i - n)), andb_false_r by lia.
  - rewrite Z.land_spec, Z.shiftr_spec by lia. by replace (i - n + n) with i by lia.
Qed.

(** ** Loops *)

Lemma fmap_seq_lookup (l : list Z) n : length l = n → (λ i, l !!! i) <$> seq 0 n = l.
Proof.
  intros <-. apply list_eq_same_length with (length l); [done|len|].
  intros i x y Hi. rewrite list_lookup_fmap, lookup_seq_lt by done. simpl.
  intros [= <-] Hy. by rewrite (list_lookup_total_correct _ _ _ Hy).
Qed.

(** The loop rule: an invariant indexed by the loop counter. *)
Lemma for_loop_ind {S} (I : nat → S → Prop) lo n f s :
  I lo s → (∀ i s, (lo <= i < lo + n)%nat → I i s → I (i + 1)%nat (f i s)) →
  I (lo + n)%nat (for_loop lo n f s).
Proof.
  unfold for_loop. revert lo s. induction n as [|n IH]; intros lo s H0 Hs; simpl.
  - by rewrite Nat.add_0_r.
  - replace (lo + Datatypes.S n)%nat with (Datatypes.S lo + n)%nat by lia.
    apply IH; [|intros; apply Hs; lia || done].
    rewrite <-Nat.add_1_r. apply Hs; [lia|done].
Qed.

Lemma for_loop_S {S} lo n (f : nat → S → S) s :
  for_loop lo (Datatypes.S n) f s = f (lo + n)%nat (for_loop lo n f s).
Proof. unfold for_loop. by rewrite seq_S, foldl_app. Qed.

(** A loop that writes one element after another is one copy. *)
Lemma for_loop_memcpy {A} (f : nat → A) n b p :
  for_loop 0 n (λ i b, <[(p + i)%nat := f i]> b) b = memcpy b p (f <$> seq 0 n).
Proof.
  induction n as [|n IH]; [done|]. rewrite for_loop_S, IH, seq_S, fmap_app.
  change (f <$> [(0 + n)%nat]) with [f n].
  by rewrite memcpy_snoc, length_fmap, length_seq.
Qed.

(** ** Modular arithmetic *)
Lemma u32_add_l x y : u32 (u32 x + y) = u32 (x + y).
Proof. apply Zplus_mod_idemp_l. Qed.
Lemma u32_add_r x y : u32 (x + u32 y) = u32 (x + y).
Proof. apply Zplus_mod_idemp_r. Qed.
#[export] Hint Rewrite u32_add_l u32_add_r : cword.

(** Equations between sums modulo [2^32], wherever the code reduces them. *)
Ltac u32_ring := unfold u32; Z.mod_equality.

(** ** Strings *)
Lemma cstr_app l r : Forall (λ c, c ≠ 0) l → cstr (l ++ 0 :: r) = l.
Proof. induction 1 as [|c l Hc Hl IH]; simpl; [done|]. rewrite IH. guards; done. Qed.

(** ** Positional values *)
Section le_value.
Context (base : Z) (Hbase : 0 < base).

Lemma le_value_app l1 l2 :
  le_value base (l1 ++ l2) = le_value base l1 + base ^ Z.of_nat (length l1) * le_value base l2.
Proof.
  induction l1 as [|d l1 IH]; [simpl; lia|]. cbn [le_value app length].
  rewrite IH, Nat2Z.inj_succ, Z.pow_succ_r by lia. lia.
Qed.

Lemma le_value_take_S l i :
  (i < length l)%nat →
  le_value base (take (S i) l) = le_value base (take i l) + base ^ Z.of_nat i * l !!! i.
Proof.
  intros Hi. rewrite (take_S_r l i (l !!! i)) by (by apply lookup_total_alt_lt).
  rewrite le_value_app, length_take, Nat.min_l by lia. simpl. lia.
Qed.

Lemma le_value_insert l i x :
  (i < length l)%nat →
  le_value base (<[i := x]> l) = le_value base l + base ^ Z.of_nat i * (x - l !!! i).
Proof.
  revert i. induction l as [|d l IH]; intros i Hi; [simpl in Hi; lia|].
  destruct i as [|i]; [simpl; lia|]. change (<[S i:=x]> (d :: l)) with (d :: <[i:=x]> l).
  cbn [le_value]. simpl in Hi. rewrite IH by lia.
  change ((d :: l) !!! S i) with (l !!! i). rewrite Nat2Z.inj_succ, Z.pow_succ_r by lia. lia.
Qed.

Lemma le_value_bound l :
  Forall (λ d, 0 <= d < base) l → 0 <= le_value base l < base ^ Z.of_nat (length l).
Proof.
  induction 1 as [|d l Hd Hl IH]; [simpl; lia|]. cbn [le_value length].
  rewrite Nat2Z.inj_succ, Z.pow_succ_r by lia. nia.
Qed.

Lemma le_value_replicate n : le_value base (replicate n 0) = 0.
Proof. induction n as [|n IH]; simpl; [done|]. rewrite IH. lia. Qed.
End le_value.

(** Bit [j] of limb [i] is bit [w * i + j] of the value. *)
Lemma le_value_testbit w l i j :
  0 <= w → Forall (in_bits w) l → 0 <= j < w → (i < length l)%nat →
  Z.testbit (le_value (2 ^ w) l) (w * Z.of_nat i + j) = Z.testbit (l !!! i) j.
Proof.
  intros Hw Hl Hj. revert i. induction Hl as [|d l Hd Hl IH]; intros i Hi; simpl in Hi; [lia|].
  cbn [le_value]. rewrite Z.mul_comm, Z.add_comm, <-lor_fields, Z.lor_spec by done.
  destruct i as [|i].
  - rewrite Z.mul_pow2_bits_low by lia. simpl. f_equal. lia.
  - rewrite Z.mul_pow2_bits, (in_bits_pow w d) by (done || lia). rewrite orb_false_r.
    change ((d :: l) !!! S i) with (l !!! i). rewrite <-IH by lia. f_equal. lia.
Qed.
