(* ===== verification/Fips180.v ===== *)
(** * FIPS 180-4: the specification of SHA-256

    Written from the standard's text, arithmetically where the firmware uses
    bit tricks: rotation is division and remainder, a word is the big-endian
    value of four bytes, padding is one expression on the whole message and
    the message schedule grows as a list.  [Sha256.v] proves the streaming C
    code equal to it. *)
From S2P Require Import Prelude.

Module Fips.

(** Section 3.2: rotation and shift of 32-bit words. *)
Definition ROTR (n x : Z) : Z := x / 2 ^ n + (x `mod` 2 ^ n) * 2 ^ (32 - n).
Definition SHR (n x : Z) : Z := x / 2 ^ n.

(** Section 4.1.2: the logical functions. *)
Definition Ch (x y z : Z) : Z := Z.lxor (Z.land x y) (Z.land (2 ^ 32 - 1 - x) z).
Definition Maj (x y z : Z) : Z := Z.lxor (Z.lxor (Z.land x y) (Z.land x z)) (Z.land y z).
Definition Sigma0 (x : Z) : Z := Z.lxor (Z.lxor (ROTR 2 x) (ROTR 13 x)) (ROTR 22 x).
Definition Sigma1 (x : Z) : Z := Z.lxor (Z.lxor (ROTR 6 x) (ROTR 11 x)) (ROTR 25 x).
Definition sigma0 (x : Z) : Z := Z.lxor (Z.lxor (ROTR 7 x) (ROTR 18 x)) (SHR 3 x).
Definition sigma1 (x : Z) : Z := Z.lxor (Z.lxor (ROTR 17 x) (ROTR 19 x)) (SHR 10 x).

(** Sections 4.2.2 and 5.3.3: the first 32 bits of the fractional parts of
    the cube roots of the first 64 primes and of the square roots of the
    first eight.  [frac_root k p] is the largest [r] with
    [r^k <= p * 2^(32 k)], modulo [2^32], found by bisection over 36 bits. *)
Fixpoint root_bits (k p : Z) (i : nat) (r : Z) : Z :=
  match i with
  | O => r
  | S i =>
      let r' := r + 2 ^ Z.of_nat i in
      root_bits k p i (if bool_decide (r' ^ k <= p * 2 ^ (32 * k)) then r' else r)
  end.
Definition frac_root (k p : Z) : Z := root_bits k p 37 0 `mod` 2 ^ 32.

(** The primes below [n], by trial division. *)
Definition is_prime (n : nat) : bool :=
  bool_decide (2 <= n)%nat &&
  forallb (λ d, negb (bool_decide (n `mod` d = 0)%nat)) (seq 2 (n - 2)).
Definition primes_upto (n : nat) : list Z := Z.of_nat <$> List.filter is_prime (seq 0 n).

Definition K : list Z := frac_root 3 <$> primes_upto 312.
Definition H0 : list Z := frac_root 2 <$> primes_upto 20.

(** Section 5.1.1: [1], then the least number of zero bits that leaves room
    for the 64-bit length, then the length in bits. *)
Fixpoint be_value (l : list Z) (acc : Z) : Z :=
  match l with
  | [] => acc
  | b :: l => be_value l (acc * 256 + b)
  end.
Fixpoint be_bytes (n : nat) (z : Z) : list Z :=
  match n with
  | O => []
  | S n => (z / 256 ^ Z.of_nat n) `mod` 256 :: be_bytes n z
  end.
Definition zeros (len : nat) : nat := Z.to_nat ((55 - Z.of_nat len) `mod` 64).
Definition pad (m : list Z) : list Z :=
  m ++ 0x80 :: replicate (zeros (length m)) 0 ++ be_bytes 8 (8 * Z.of_nat (length m)).

(** Section 6.2.2. *)
Definition block_words (block : list Z) : list Z :=
  (λ i, be_value (sub block (4 * i) 4) 0) <$> seq 0 16.

Definition extend (W : list Z) : list Z :=
  let t := length W in
  W ++ [(sigma1 (W !!! (t - 2)%nat) + W !!! (t - 7)%nat +
         sigma0 (W !!! (t - 15)%nat) + W !!! (t - 16)%nat) `mod` 2 ^ 32].
Definition schedule (n : nat) (W : list Z) : list Z := Nat.iter n extend W.

Definition step (v : Z * Z * Z * Z * Z * Z * Z * Z) (KW : Z * Z) :=
  let '(a, b, c, d, e, f, g, h) := v in
  let T1 := h + Sigma1 e + Ch e f g + fst KW + snd KW in
  let T2 := Sigma0 a + Maj a b c in
  ((T1 + T2) `mod` 2 ^ 32, a, b, c, (d + T1) `mod` 2 ^ 32, e, f, g).

Definition compress (H block : list Z) : list Z :=
  match H with
  | [a; b; c; d; e; f; g; h] =>
      let W := schedule 48 (block_words block) in
      let '(a', b', c', d', e', f', g', h') :=
        foldl step (a, b, c, d, e, f, g, h) (zip K W) in
      (λ z, z `mod` 2 ^ 32) <$>
        [a + a'; b + b'; c + c'; d + d'; e + e'; f + f'; g + g'; h + h']
  | _ => []
  end.

(** [absorb f n H m]: [f] over the first [n] 64-byte blocks of [m]. *)
Fixpoint absorb (f : list Z → list Z → list Z) (n : nat) (H m : list Z) : list Z :=
  match n with
  | O => H
  | S n => absorb f n (f H (take 64 m)) (drop 64 m)
  end.

Definition digest (H : list Z) : list Z := H ≫= be_bytes 4.

Definition sha256 (m : list Z) : list Z :=
  digest (absorb compress (length (pad m) / 64) H0 (pad m)).
End Fips.
