(* ===== verification/Sha256.v ===== *)
(** * SHA-256 (src/software/common/sha256_sw.c)

    The streaming SHA-256 of the firmware, translated function by function,
    with FIPS 180-4 ([Fips180.v]) as its specification.  The theorems show
    that the round constants are the ones FIPS prescribes, that the unrolled
    buffering of [sha256_update]/[sha256_final] computes FIPS SHA-256 of the
    concatenation of everything that was fed, however it was cut into calls,
    and that midstate and tail words carry what the hash engines need. *)
From S2P Require Import Prelude.
From S2P Require Import Fips180.
Local Open Scope cword_scope.

(** ** The code *)

(** Four constants per row, as the source lays them out. *)
Definition k_sha256 : list Z := Eval cbv in concat
  [[0x428a2f98; 0x71374491; 0xb5c0fbcf; 0xe9b5dba5];
   [0x3956c25b; 0x59f111f1; 0x923f82a4; 0xab1c5ed5];
   [0xd807aa98; 0x12835b01; 0x243185be; 0x550c7dc3];
   [0x72be5d74; 0x80deb1fe; 0x9bdc06a7; 0xc19bf174];
   [0xe49b69c1; 0xefbe4786; 0x0fc19dc6; 0x240ca1cc];
   [0x2de92c6f; 0x4a7484aa; 0x5cb0a9dc; 0x76f988da];
   [0x983e5152; 0xa831c66d; 0xb00327c8; 0xbf597fc7];
   [0xc6e00bf3; 0xd5a79147; 0x06ca6351; 0x14292967];
   [0x27b70a85; 0x2e1b2138; 0x4d2c6dfc; 0x53380d13];
   [0x650a7354; 0x766a0abb; 0x81c2c92e; 0x92722c85];
   [0xa2bfe8a1; 0xa81a664b; 0xc24b8b70; 0xc76c51a3];
   [0xd192e819; 0xd6990624; 0xf40e3585; 0x106aa070];
   [0x19a4c116; 0x1e376c08; 0x2748774c; 0x34b0bcb5];
   [0x391c0cb3; 0x4ed8aa4a; 0x5b9cca4f; 0x682e6ff3];
   [0x748f82ee; 0x78a5636f; 0x84c87814; 0x8cc70208];
   [0x90befffa; 0xa4506ceb; 0xbef9a3f7; 0xc67178f2]].

Definition rotr32 (x n : Z) : Z := (x >>. n) .| (x <<. (32 - n)).

(** [load_be32(p + off)]. *)
Definition load_be32 (p : list Z) (off : nat) : Z :=
  (p !!! off <<. 24) .| (p !!! (off + 1)%nat <<. 16) .|
  (p !!! (off + 2)%nat <<. 8) .| p !!! (off + 3)%nat.

(** [store_be32(p + off, x)]. *)
Definition store_be32 (p : list Z) (off : nat) (x : Z) : list Z :=
  let p := <[off := u8 (x >>. 24)]> p in
  let p := <[(off + 1)%nat := u8 (x >>. 16)]> p in
  let p := <[(off + 2)%nat := u8 (x >>. 8)]> p in
  <[(off + 3)%nat := u8 x]> p.

(** [sha256_ctx_t]. *)
Record sha256_ctx := SHA256_CTX {
  h : list Z;          (* uint32_t h[8] *)
  bit_count : Z;       (* uint64_t *)
  buffer : list Z;     (* uint8_t buffer[64] *)
  buffer_len : nat     (* size_t *)
}.

(** [sha256_init] leaves the buffer as it is. *)
Definition sha256_init (ctx : sha256_ctx) : sha256_ctx :=
  {| h := [0x6a09e667; 0xbb67ae85; 0x3c6ef372; 0xa54ff53a;
           0x510e527f; 0x9b05688c; 0x1f83d9ab; 0x5be0cd19];
     bit_count := 0; buffer := buffer ctx; buffer_len := 0 |}.

(** The first loop of [sha256_compress]: [w[0..15]] from the block. *)
Definition load_block (block : list Z) (w : list Z) : list Z :=
  for_loop 0 16 (λ i w, <[i := load_be32 block (i * 4)]> w) w.

(** The body of its second loop, [w[i]] for [16 <= i]. *)
Definition expand_word (i : nat) (w : list Z) : list Z :=
  let s0 := rotr32 (w !!! (i - 15)%nat) 7 .^ rotr32 (w !!! (i - 15)%nat) 18
            .^ (w !!! (i - 15)%nat >>. 3) in
  let s1 := rotr32 (w !!! (i - 2)%nat) 17 .^ rotr32 (w !!! (i - 2)%nat) 19
            .^ (w !!! (i - 2)%nat >>. 10) in
  <[i := w !!! (i - 16)%nat +32 s0 +32 w !!! (i - 7)%nat +32 s1]> w.

(** The working variables [a .. h]. *)
Definition work : Type := Z * Z * Z * Z * Z * Z * Z * Z.

(** The body of the third loop: one round. *)
Definition round (w : list Z) (i : nat) (v : work) : work :=
  let '(a, b, c, d, e, f, g, h) := v in
  let s1 := rotr32 e 6 .^ rotr32 e 11 .^ rotr32 e 25 in
  let ch := (e .& f) .^ (not32 e .& g) in
  let temp1 := h +32 s1 +32 ch +32 k_sha256 !!! i +32 w !!! i in
  let s0 := rotr32 a 2 .^ rotr32 a 13 .^ rotr32 a 22 in
  let maj := (a .& b) .^ (a .& c) .^ (b .& c) in
  let temp2 := s0 +32 maj in
  (temp1 +32 temp2, a, b, c, d +32 temp1, e, f, g).

Definition sha256_compress (state block : list Z) : list Z :=
  let w := load_block block (replicate 64 0) in
  let w := for_loop 16 48 expand_word w in
  let v := (state !!! 0%nat, state !!! 1%nat, state !!! 2%nat, state !!! 3%nat,
            state !!! 4%nat, state !!! 5%nat, state !!! 6%nat, state !!! 7%nat) in
  let '(a, b, c, d, e, f, g, h) := for_loop 0 64 (round w) v in
  [state !!! 0%nat +32 a; state !!! 1%nat +32 b; state !!! 2%nat +32 c;
   state !!! 3%nat +32 d; state !!! 4%nat +32 e; state !!! 5%nat +32 f;
   state !!! 6%nat +32 g; state !!! 7%nat +32 h].

(** The body of the loop of [sha256_update] on the first [take] bytes. *)
Definition absorb_chunk (ctx : sha256_ctx) (chunk : list Z) : sha256_ctx :=
  let buf := memcpy (buffer ctx) (buffer_len ctx) chunk in
  let n := (buffer_len ctx + length chunk)%nat in
  if bool_decide (n = 64%nat)
  then {| h := sha256_compress (h ctx) buf; bit_count := bit_count ctx;
          buffer := buf; buffer_len := 0 |}
  else {| h := h ctx; bit_count := bit_count ctx; buffer := buf; buffer_len := n |}.

(** [take = (len < room) ? len : room]. *)
Definition chunk_size (ctx : sha256_ctx) (data : list Z) : nat :=
  let room := (64 - buffer_len ctx)%nat in
  if bool_decide (length data < room)%nat then length data else room.

(** [while (len > 0)]: returns the context and the data not yet consumed
    when the fuel ends. *)
Fixpoint update_loop (fuel : nat) (ctx : sha256_ctx) (data : list Z) : sha256_ctx * list Z :=
  match fuel with
  | O => (ctx, data)
  | S fuel =>
      if bool_decide (data = []) then (ctx, data) else
      let n := chunk_size ctx data in
      update_loop fuel (absorb_chunk ctx (take n data)) (drop n data)
  end.

Definition sha256_update (ctx : sha256_ctx) (data : list Z) : sha256_ctx :=
  let ctx := {| h := h ctx; bit_count := u64 (bit_count ctx + u64 (Z.of_nat (length data) * 8));
                buffer := buffer ctx; buffer_len := buffer_len ctx |} in
  fst (update_loop (length data) ctx data).

(** [ctx->buffer[ctx->buffer_len++] = x]. *)
Definition push (ctx : sha256_ctx) (x : Z) : sha256_ctx :=
  {| h := h ctx; bit_count := bit_count ctx;
     buffer := <[buffer_len ctx := x]> (buffer ctx);
     buffer_len := buffer_len ctx + 1 |}.

(** [while (ctx->buffer_len < limit) ctx->buffer[ctx->buffer_len++] = 0;] *)
Fixpoint zero_until (fuel limit : nat) (ctx : sha256_ctx) : sha256_ctx :=
  match fuel with
  | O => ctx
  | S fuel => if bool_decide (buffer_len ctx < limit)%nat
              then zero_until fuel limit (push ctx 0) else ctx
  end.

Definition sha256_final (ctx : sha256_ctx) : sha256_ctx * list Z :=
  let bits := bit_count ctx in
  let ctx := push ctx 0x80 in
  let ctx :=
    if bool_decide (56 < buffer_len ctx)%nat then
      let ctx := zero_until 64 64 ctx in
      {| h := sha256_compress (h ctx) (buffer ctx); bit_count := bit_count ctx;
         buffer := buffer ctx; buffer_len := 0 |}
    else ctx in
  let ctx := zero_until 64 56 ctx in
  let buf := for_loop 0 8
    (λ i b, <[(56 + i)%nat := u8 (bits >>. (56 - Z.of_nat i * 8))]> b) (buffer ctx) in
  let hs := sha256_compress (h ctx) buf in
  let ctx := {| h := hs; bit_count := bit_count ctx; buffer := buf;
                buffer_len := buffer_len ctx |} in
  (ctx, for_loop 0 8 (λ i d, store_be32 d (i * 4) (hs !!! i)) (replicate 32 0)).

(** A context object before [sha256_init]: its contents are arbitrary, and
    only the 64 bytes of its buffer survive [sha256_init]. *)
Definition local_ctx : sha256_ctx := SHA256_CTX (replicate 8 0) 0 (replicate 64 0) 0.

Definition bitcoin_header_midstate (header80 : list Z) : list Z :=
  let ctx := sha256_init local_ctx in
  let ctx := sha256_update ctx (take 64 header80) in
  for_loop 0 8 (λ i m, <[i := h ctx !!! i]> m) (replicate 8 0).

Definition bitcoin_header_tail_words (header80 : list Z) : list Z :=
  for_loop 0 4 (λ i t, <[i := load_be32 header80 (64 + i * 4)]> t) (replicate 4 0).

(** ** Words *)

Lemma rotr32_ROTR n x : is_u32 x → 0 < n < 32 → rotr32 x n = Fips.ROTR n x.
Proof.
  intros Hx Hn. unfold rotr32, Fips.ROTR. rewrite shl32_mod by lia.
  replace (32 - (32 - n)) with n by lia.
  rewrite lor_fields' by (try apply in_bits_shiftr_sub; done || lia).
  by rewrite Z.shiftr_div_pow2 by lia.
Qed.

Lemma rotr32_range x n : is_u32 x → 0 <= n → is_u32 (rotr32 x n).
Proof. intros. apply u32_lor; [by apply in_bits_shiftr|apply shl32_range]. Qed.
#[export] Hint Resolve rotr32_range : cword.

Lemma load_be32_value p off :
  is_bytes p → (off + 4 <= length p)%nat → load_be32 p off = Fips.be_value (sub p off 4) 0.
Proof.
  intros Hp Hlen. unfold load_be32.
  assert (sub p off 4 = [p !!! off; p !!! (off + 1)%nat; p !!! (off + 2)%nat;
                         p !!! (off + 3)%nat]) as ->.
  { apply list_eq_same_length with 4%nat; [done|by rewrite length_sub|].
    intros i x y Hi. rewrite lookup_sub, lookup_total_alt_lt by lia.
    intros [= <-]. destruct i as [|[|[|[|]]]]; simpl; try lia; intros [= <-]; f_equal; lia. }
  pose proof (is_bytes_lookup p off Hp) as B0. pose proof (is_bytes_lookup p (off + 1) Hp) as B1.
  pose proof (is_bytes_lookup p (off + 2) Hp) as B2.
  pose proof (is_bytes_lookup p (off + 3) Hp) as B3.
  rewrite (shl32_small _ 8 24), (shl32_small _ 8 16), (shl32_small _ 8 8) by (done || lia).
  unfold in_bits in *. simpl Fips.be_value.
  rewrite (lor_fields _ _ 24) by (unfold in_bits; lia).
  set (x := p !!! off) in *. set (y := p !!! (off + 1)%nat) in *.
  replace (x * 2 ^ 24 + y * 2 ^ 16) with ((x * 2 ^ 8 + y) * 2 ^ 16) by lia.
  rewrite lor_fields by (unfold in_bits; lia).
  set (z := p !!! (off + 2)%nat) in *.
  replace ((x * 2 ^ 8 + y) * 2 ^ 16 + z * 2 ^ 8)
    with (((x * 2 ^ 8 + y) * 2 ^ 8 + z) * 2 ^ 8) by lia.
  rewrite lor_fields by (unfold in_bits; lia). lia.
Qed.

Lemma load_be32_range p off : is_bytes p → is_u32 (load_be32 p off).
Proof. intros. unfold load_be32. repeat apply u32_lor; eauto with cword. Qed.
#[export] Hint Resolve load_be32_range : cword.

(** ** Compression *)

(** The next cell of a partly filled array. *)
Lemma insert_snoc (W : list Z) n x :
  <[length W := x]> (W ++ replicate (S n) 0) = (W ++ [x]) ++ replicate n 0.
Proof.
  replace (length W) with (length W + 0)%nat by lia.
  by rewrite insert_app_r, <-app_assoc.
Qed.

Lemma load_block_words block :
  is_bytes block → length block = 64%nat →
  load_block block (replicate 64 0) = Fips.block_words block ++ replicate 48 0.
Proof.
  intros Hb Hl. unfold load_block, Fips.block_words.
  apply (for_loop_ind (λ i w, w =
    ((λ j, Fips.be_value (sub block (4 * j) 4) 0) <$> seq 0 i) ++ replicate (64 - i) 0)
    0 16); [done|].
  intros i w Hi ->. replace (64 - i)%nat with (S (64 - (i + 1))) by lia.
  set (W := (_ <$> _)).
  assert (Hlen : length W = i) by (unfold W; len).
  rewrite <-Hlen at 1. rewrite insert_snoc. f_equal.
  rewrite (Nat.add_1_r i), seq_S, fmap_app. simpl. unfold W. do 2 f_equal.
  rewrite load_be32_value by (done || lia). do 2 f_equal. lia.
Qed.

Lemma expand_word_extend W n :
  (16 <= length W)%nat → is_words W →
  expand_word (length W) (W ++ replicate (S n) 0) = Fips.extend W ++ replicate n 0.
Proof.
  intros Hl HW. unfold expand_word, Fips.extend. rewrite insert_snoc. do 3 f_equal.
  rewrite !lookup_total_app_l by lia.
  unfold Fips.sigma0, Fips.sigma1, Fips.SHR.
  rewrite !rotr32_ROTR, !Z.shiftr_div_pow2 by (cword || lia).
  u32_ring.
Qed.

Lemma block_words_ok block :
  is_bytes block → length block = 64%nat →
  length (Fips.block_words block) = 16%nat ∧ is_words (Fips.block_words block).
Proof.
  intros Hb Hl. unfold Fips.block_words. rewrite length_fmap, length_seq. split; [done|].
  apply Forall_fmap, Forall_forall. intros i Hi%elem_of_seq. simpl.
  rewrite <-load_be32_value by (done || lia). cword.
Qed.

Lemma schedule_ok n W :
  is_words W → length (Fips.schedule n W) = (length W + n)%nat ∧ is_words (Fips.schedule n W).
Proof.
  intros HW. induction n as [|n [IHl IHw]]; [split; [simpl; lia|done]|].
  change (Fips.schedule (S n) W) with (Fips.extend (Fips.schedule n W)).
  unfold Fips.extend. rewrite length_app. simpl length. split; [lia|].
  apply Forall_app. split; [done|]. apply Forall_singleton. apply u32_range.
Qed.

Lemma message_schedule block :
  is_bytes block → length block = 64%nat →
  for_loop 16 48 expand_word (load_block block (replicate 64 0))
  = Fips.schedule 48 (Fips.block_words block).
Proof.
  intros Hb Hl. destruct (block_words_ok block Hb Hl) as [Hl16 Hw].
  rewrite load_block_words by done.
  pose proof (for_loop_ind (λ i w, w =
    Fips.schedule (i - 16) (Fips.block_words block) ++ replicate (64 - i) 0)
    16 48 expand_word (Fips.block_words block ++ replicate 48 0)) as IH.
  simpl (16 + 48)%nat in IH. rewrite IH; [by rewrite app_nil_r|done|].
  intros i w Hi ->. destruct (schedule_ok (i - 16) _ Hw) as [Hn Hs].
  replace (64 - i)%nat with (S (64 - (i + 1))) by lia.
  replace i with (length (Fips.schedule (i - 16) (Fips.block_words block))) at 1 by lia.
  rewrite expand_word_extend by (lia || done).
  by replace (i + 1 - 16)%nat with (S (i - 16)) by lia.
Qed.

(** ** Rounds *)

Lemma k_sha256_length : length k_sha256 = 64%nat.
Proof. done. Qed.

(** The working variables are 32-bit words. *)
Definition is_work (v : work) : Prop :=
  let '(a, b, c, d, e, f, g, h) := v in
  is_u32 a ∧ is_u32 b ∧ is_u32 c ∧ is_u32 d ∧ is_u32 e ∧ is_u32 f ∧ is_u32 g ∧ is_u32 h.

Lemma round_step w i v :
  is_work v → round w i v = Fips.step v (k_sha256 !!! i, w !!! i) ∧ is_work (round w i v).
Proof.
  destruct v as [[[[[[[a b] c] d] e] f] g] hh].
  intros (Ha & Hb & Hc & Hd & He & Hf & Hg & Hh). split.
  - unfold round, Fips.step, Fips.Sigma0, Fips.Sigma1, Fips.Ch, Fips.Maj.
    rewrite !rotr32_ROTR, not32_sub by (done || lia).
    simpl fst. simpl snd.
    repeat match goal with |- (_, _) = (_, _) => apply f_equal2 end;
      try done; u32_ring.
  - unfold round, is_work. split_and!; cword.
Qed.

Lemma rounds_foldl W v n :
  is_work v → length W = 64%nat → (n <= 64)%nat →
  for_loop 0 n (round W) v = foldl Fips.step v (zip (take n k_sha256) (take n W)) ∧
  is_work (for_loop 0 n (round W) v).
Proof.
  intros Hv HW. induction n as [|n IH]; intros Hn; [done|].
  destruct IH as [IHe IHw]; [lia|]. rewrite for_loop_S. simpl (0 + n)%nat.
  destruct (round_step W n _ IHw) as [Hr Hwk]. split; [|done].
  rewrite Hr, IHe.
  pose proof k_sha256_length as HK.
  rewrite (take_S_r k_sha256 n (k_sha256 !!! n)) by (apply lookup_total_alt_lt; lia).
  rewrite (take_S_r W n (W !!! n)) by (apply lookup_total_alt_lt; lia).
  by rewrite zip_with_app, foldl_app by (rewrite !length_take; lia).
Qed.

(** A chaining value: eight words. *)
Definition is_state (H : list Z) : Prop := length H = 8%nat ∧ is_words H.
(** A message block: 64 bytes. *)
Definition is_block (b : list Z) : Prop := length b = 64%nat ∧ is_bytes b.

Lemma k_sha256_K : k_sha256 = Fips.K.
Proof. vm_compute. reflexivity. Qed.

Lemma sha256_compress_fips state block :
  is_state state → is_block block → sha256_compress state block = Fips.compress state block.
Proof.
  intros [Hs Hsw] [Hb Hbb]. unfold sha256_compress. rewrite message_schedule by done.
  destruct (block_words_ok block Hbb Hb) as [Hl16 Hw].
  destruct (schedule_ok 48 _ Hw) as [Hl Hwords]. rewrite Hl16 in Hl.
  destruct state as [|s0 [|s1 [|s2 [|s3 [|s4 [|s5 [|s6 [|s7 [|]]]]]]]]];
    try discriminate Hs.
  unfold Fips.compress. set (W := Fips.schedule 48 _) in *. cbn [lookup_total list_lookup_total].
  pose proof (rounds_foldl W (s0, s1, s2, s3, s4, s5, s6, s7) 64) as [-> _]; [|done..|].
  { repeat match goal with H : is_words (_ :: _) |- _ => apply Forall_cons in H as [? H] end.
    unfold is_work. by split_and!. }
  rewrite (take_ge k_sha256), (take_ge W), k_sha256_K by (rewrite ?k_sha256_length, ?Hl; lia).
  by destruct (foldl _ _ _) as [[[[[[[? ?] ?] ?] ?] ?] ?] ?].
Qed.

Lemma sha256_compress_state state block :
  length state = 8%nat → is_state (sha256_compress state block).
Proof.
  intros. unfold sha256_compress.
  destruct (for_loop _ _ _ _) as [[[[[[[? ?] ?] ?] ?] ?] ?] ?].
  split; [done|]. repeat constructor; apply u32_range.
Qed.

(** ** Streaming *)

#[local] Opaque sha256_compress Fips.compress.

Lemma absorb_app f n k H m m' :
  length m = (64 * n)%nat →
  Fips.absorb f (n + k) H (m ++ m') = Fips.absorb f k (Fips.absorb f n H m) m'.
Proof.
  revert H m. induction n as [|n IH]; intros H m Hm.
  - destruct m; [done|simpl in Hm; lia].
  - simpl. rewrite take_app_le, drop_app_le by lia. apply IH. rewrite length_drop. lia.
Qed.

(** The context after feeding [m]: the full blocks are compressed, the rest
    is in the buffer, and the bit count is that of [m]. *)
Record ctx_inv (m : list Z) (ctx : sha256_ctx) : Prop := {
  inv_len : (length m `mod` 64 = buffer_len ctx)%nat;
  inv_buf : length (buffer ctx) = 64%nat;
  inv_part : take (buffer_len ctx) (buffer ctx) = drop (64 * (length m / 64)) m;
  inv_h : h ctx = Fips.absorb sha256_compress (length m / 64)
            (h (sha256_init local_ctx)) (take (64 * (length m / 64)) m);
  inv_bits : bit_count ctx = u64 (8 * Z.of_nat (length m))
}.

(** Everything of the invariant but the bit count, which [sha256_update]
    advances first. *)
Definition ctx_mid (m : list Z) (ctx : sha256_ctx) : Prop :=
  ctx_inv m {| h := h ctx; bit_count := u64 (8 * Z.of_nat (length m));
               buffer := buffer ctx; buffer_len := buffer_len ctx |}.

Ltac ctx_cbn := cbn [h bit_count buffer buffer_len] in *.

Lemma absorb_chunk_mid m ctx chunk :
  ctx_mid m ctx → (buffer_len ctx + length chunk <= 64)%nat →
  ctx_mid (m ++ chunk) (absorb_chunk ctx chunk).
Proof.
  intros [Hlen Hbuf Hpart Hh _] Hfit. ctx_cbn.
  pose proof (Nat.div_mod_eq (length m) 64) as Hdm.
  set (q := (length m / 64)%nat) in *.
  unfold absorb_chunk. destruct (bool_decide_reflect (buffer_len ctx + length chunk = 64)%nat) as [E|E].
  - assert (length (m ++ chunk) / 64 = q + 1)%nat as Hq.
    { rewrite length_app. symmetry. apply (Nat.div_unique _ 64 _ 0); lia. }
    constructor; ctx_cbn; rewrite ?Hq.
    + rewrite length_app. symmetry. apply (Nat.mod_unique _ 64 (q + 1)); lia.
    + by rewrite length_memcpy.
    + rewrite drop_ge; [done|]. rewrite length_app. lia.
    + rewrite take_ge by (rewrite length_app; lia).
      rewrite <-(take_drop (64 * q) m), <-app_assoc.
      rewrite absorb_app by (rewrite length_take; lia). rewrite <-Hh. cbn [Fips.absorb].
      rewrite take_ge; [|rewrite length_app, length_drop; lia].
      rewrite <-Hpart, memcpy_eq by lia.
      by rewrite (drop_ge _ (_ + _)), app_nil_r by lia.
    + done.
  - assert (length (m ++ chunk) / 64 = q)%nat as Hq.
    { rewrite length_app. symmetry.
      apply (Nat.div_unique _ 64 _ (buffer_len ctx + length chunk)); lia. }
    constructor; ctx_cbn; rewrite ?Hq.
    + rewrite length_app. symmetry. apply (Nat.mod_unique _ 64 q); lia.
    + by rewrite length_memcpy.
    + rewrite memcpy_eq by lia. rewrite app_assoc, take_app_length'
        by (rewrite length_app, length_take; lia).
      by rewrite Hpart, drop_app_le by lia.
    + by rewrite take_app_le by lia.
    + done.
Qed.

Lemma ctx_mid_len m ctx : ctx_mid m ctx → (buffer_len ctx < 64)%nat.
Proof. intros [Hlen _ _ _ _]. ctx_cbn. rewrite <-Hlen. by apply Nat.mod_upper_bound. Qed.

Lemma chunk_size_fits ctx data :
  (buffer_len ctx < 64)%nat → data ≠ [] →
  (0 < chunk_size ctx data <= length data ∧ buffer_len ctx + chunk_size ctx data <= 64)%nat.
Proof.
  intros Hl Hne. assert (length data ≠ 0)%nat by (by destruct data).
  unfold chunk_size. guards; lia.
Qed.

(** Every pass of the loop takes at least one byte, so the data's length is
    enough fuel; at the end nothing is left. *)
Lemma update_loop_mid fuel m ctx data :
  ctx_mid m ctx → (length data <= fuel)%nat →
  ctx_mid (m ++ data) (fst (update_loop fuel ctx data)) ∧
  snd (update_loop fuel ctx data) = [] ∧
  bit_count (fst (update_loop fuel ctx data)) = bit_count ctx.
Proof.
  revert m ctx data. induction fuel as [|fuel IH]; intros m ctx data Hm Hf; simpl.
  - destruct data; [|simpl in Hf; lia]. by rewrite app_nil_r.
  - destruct (bool_decide_reflect (data = [])) as [->|Hne]; [by rewrite app_nil_r|].
    pose proof (ctx_mid_len _ _ Hm) as Hlt.
    pose proof (chunk_size_fits ctx data Hlt Hne) as Hn. set (n := chunk_size ctx data) in *.
    replace (m ++ data) with ((m ++ take n data) ++ drop n data)
      by (by rewrite <-app_assoc, take_drop).
    destruct (IH (m ++ take n data) (absorb_chunk ctx (take n data)) (drop n data))
      as (H1 & H2 & H3).
    + apply absorb_chunk_mid; [done|]. rewrite length_take. lia.
    + rewrite length_drop. lia.
    + split_and!; [done..|]. rewrite H3. unfold absorb_chunk. by case_bool_decide.
Qed.

Lemma sha256_update_inv m ctx data :
  ctx_inv m ctx → ctx_inv (m ++ data) (sha256_update ctx data).
Proof.
  intros Hm. unfold sha256_update. set (ctx' := SHA256_CTX _ _ _ _).
  destruct (update_loop_mid (length data) m ctx' data) as (H1 & _ & H3); [|done|].
  - destruct Hm. by constructor.
  - destruct H1 as [? ? ? ? _]. ctx_cbn. constructor; try done.
    rewrite H3. unfold ctx'. ctx_cbn. rewrite (inv_bits _ _ Hm), length_app. unfold u64.
    rewrite <-Zplus_mod. f_equal. lia.
Qed.

Lemma sha256_init_inv ctx : length (buffer ctx) = 64%nat → ctx_inv [] (sha256_init ctx).
Proof. by constructor. Qed.

(** Feeding a list of pieces, one call each. *)
Lemma sha256_updates_inv ctx pieces :
  length (buffer ctx) = 64%nat →
  ctx_inv (concat pieces) (foldl sha256_update (sha256_init ctx) pieces).
Proof.
  intros Hb. rewrite <-(app_nil_l (concat pieces)).
  generalize (sha256_init_inv ctx Hb). generalize ([] : list Z) (sha256_init ctx).
  induction pieces as [|p ps IH]; intros m c Hc; simpl; [by rewrite app_nil_r|].
  rewrite app_assoc. apply IH. by apply sha256_update_inv.
Qed.

(** ** Padding *)

Lemma zero_until_spec fuel limit ctx :
  (buffer_len ctx <= limit)%nat → (limit - buffer_len ctx <= fuel)%nat →
  zero_until fuel limit ctx =
  {| h := h ctx; bit_count := bit_count ctx;
     buffer := memcpy (buffer ctx) (buffer_len ctx) (replicate (limit - buffer_len ctx) 0);
     buffer_len := limit |}.
Proof.
  revert ctx. induction fuel as [|fuel IH]; intros ctx Hl Hf; simpl; [|case_bool_decide].
  - replace limit with (buffer_len ctx) by lia. rewrite Nat.sub_diag. by destruct ctx.
  - rewrite IH; unfold push; ctx_cbn; try lia. f_equal.
    replace (limit - buffer_len ctx)%nat with (S (limit - (buffer_len ctx + 1))) by lia.
    unfold memcpy. simpl. rewrite list_insert_inserts_lt by lia. by rewrite Nat.add_1_r.
  - replace limit with (buffer_len ctx) by lia. rewrite Nat.sub_diag. by destruct ctx.
Qed.

Lemma u8_shiftr x k : 0 <= k → u8 (x >>. (8 * k)) = (x / 256 ^ k) `mod` 256.
Proof. intros Hk. unfold u8. by rewrite Z.shiftr_div_pow2, Z.pow_mul_r by lia. Qed.

(** The eight length bytes, most significant first. *)
Lemma length_bytes bits buf :
  is_u64 bits → length buf = 64%nat →
  for_loop 0 8 (λ i b, <[(56 + i)%nat := u8 (bits >>. (56 - Z.of_nat i * 8))]> b) buf
  = take 56 buf ++ Fips.be_bytes 8 bits.
Proof.
  intros Hbits Hb.
  unfold for_loop. simpl foldl. simpl Fips.be_bytes. rewrite <-!u8_shiftr by lia.
  rewrite <-(take_drop 56 buf) at 1. assert (length (drop 56 buf) = 8%nat) as Hd by len.
  assert (length (take 56 buf) = 56%nat) as Ht by len.
  destruct (drop 56 buf) as [|? [|? [|? [|? [|? [|? [|? [|? [|]]]]]]]]]; try discriminate Hd.
  rewrite !insert_app_r_alt by (rewrite ?Ht; lia). rewrite Ht. done.
Qed.

(** The context after the [0x80] byte and zeros up to [limit]. *)
Lemma padded_ctx ctx limit :
  length (buffer ctx) = 64%nat → (buffer_len ctx + 1 <= limit <= 64)%nat →
  let c1 := zero_until 64 limit (push ctx 0x80) in
  h c1 = h ctx ∧ length (buffer c1) = 64%nat ∧
  take limit (buffer c1) =
  take (buffer_len ctx) (buffer ctx) ++ 0x80 :: replicate (limit - 1 - buffer_len ctx) 0.
Proof.
  intros Hb Hl. cbn zeta. rewrite zero_until_spec by (unfold push; ctx_cbn; lia).
  unfold push. ctx_cbn. split_and!; [done|len|]. rewrite memcpy_eq by len.
  rewrite app_assoc, take_app_length' by len.
  rewrite insert_take_drop, take_app_ge by len. rewrite length_take, Nat.min_l by lia.
  replace (buffer_len ctx + 1 - buffer_len ctx)%nat with 1%nat by lia.
  rewrite <-app_assoc. simpl. do 3 f_equal. lia.
Qed.

Lemma absorb_snoc f q H full block :
  length full = (64 * q)%nat → length block = 64%nat →
  Fips.absorb f (q + 1) H (full ++ block) = f (Fips.absorb f q H full) block.
Proof. intros. rewrite absorb_app by done. simpl. by rewrite take_ge by lia. Qed.

Lemma length_be_bytes n z : length (Fips.be_bytes n z) = n.
Proof. induction n; simpl; auto. Qed.
#[export] Hint Rewrite length_be_bytes : clen.

(** The state [sha256_final] ends with is that of the padded message. *)
Lemma sha256_final_absorb m ctx :
  ctx_inv m ctx → 8 * Z.of_nat (length m) < 2 ^ 64 →
  h (fst (sha256_final ctx)) =
  Fips.absorb sha256_compress (length (Fips.pad m) / 64)
    (h (sha256_init local_ctx)) (Fips.pad m).
Proof.
  intros [Hlen Hbuf Hpart Hh Hbits] Hmax.
  pose proof (Nat.div_mod_eq (length m) 64) as Hdm.
  pose proof (Nat.mod_upper_bound (length m) 64 ltac:(done)) as Hr.
  rewrite Hlen in Hdm, Hr. set (q := (length m / 64)%nat) in *.
  rewrite u64_small in Hbits by (split; lia).
  assert (is_u64 (bit_count ctx)) as Hu by (rewrite Hbits; split; lia).
  assert (Fips.pad m = take (64 * q) m ++ (take (buffer_len ctx) (buffer ctx) ++
    0x80 :: replicate (Fips.zeros (length m)) 0 ++ Fips.be_bytes 8 (bit_count ctx))) as Hpad.
  { rewrite Hpart, app_assoc, take_drop, Hbits. done. }
  assert (length (take (64 * q) m) = (64 * q)%nat) as Hfull by len.
  unfold sha256_final. cbn zeta. cbn [fst]. ctx_cbn.
  change (buffer_len (push ctx 0x80)) with (buffer_len ctx + 1)%nat.
  destruct (bool_decide_reflect (56 < buffer_len ctx + 1)%nat) as [Hcase|Hcase].
  - assert (Fips.zeros (length m) = (63 - buffer_len ctx) + 56)%nat as Hz.
    { unfold Fips.zeros. clear - Hdm Hr Hcase. dlia. }
    set (c1 := zero_until 64 64 (push ctx 0x80)).
    destruct (padded_ctx ctx 64 Hbuf ltac:(lia)) as (Hh1 & Hc1 & Hb1). fold c1 in Hh1, Hc1, Hb1.
    rewrite take_ge in Hb1 by lia.
    rewrite zero_until_spec by (ctx_cbn; lia). ctx_cbn.
    rewrite (length_bytes (bit_count ctx) _ Hu) by len.
    rewrite memcpy_eq by len. rewrite take_0, app_nil_l, take_app_length' by len.
    rewrite Hh1, Hh.
    rewrite <-absorb_snoc by len. rewrite <-absorb_snoc by (rewrite ?length_app; len).
    assert (Fips.pad m = (take (64 * q) m ++ buffer c1) ++
      replicate (56 - 0) 0 ++ Fips.be_bytes 8 (bit_count ctx)) as ->.
    { rewrite Hpad, Hb1, Hz, replicate_add. by rewrite <-!app_assoc. }
    f_equal. apply (Nat.div_unique _ 64 _ 0); len.
  - assert (Fips.zeros (length m) = 55 - buffer_len ctx)%nat as Hz.
    { unfold Fips.zeros. clear - Hdm Hr Hcase. dlia. }
    set (c1 := zero_until 64 56 (push ctx 0x80)).
    destruct (padded_ctx ctx 56 Hbuf ltac:(lia)) as (Hh1 & Hc1 & Hb1). fold c1 in Hh1, Hc1, Hb1.
    rewrite (length_bytes (bit_count ctx) _ Hu Hc1), Hh1, Hh.
    rewrite <-absorb_snoc by len.
    assert (Fips.pad m = take (64 * q) m ++ take 56 (buffer c1) ++
      Fips.be_bytes 8 (bit_count ctx)) as ->.
    { rewrite Hpad, Hb1, Hz. by rewrite <-!app_assoc. }
    f_equal. apply (Nat.div_unique _ 64 _ 0); len.
Qed.

(** ** The digest *)

Lemma digest_loop hs :
  length hs = 8%nat →
  for_loop 0 8 (λ i d, store_be32 d (i * 4) (hs !!! i)) (replicate 32 0) = Fips.digest hs.
Proof.
  intros Hl. destruct hs as [|? [|? [|? [|? [|? [|? [|? [|? [|]]]]]]]]]; try discriminate Hl.
  unfold Fips.digest. simpl. rewrite <-!u8_shiftr by lia. simpl (8 * _).
  by rewrite !Z.shiftr_0_r.
Qed.

Lemma absorb_state n H m :
  is_state H → is_state (Fips.absorb sha256_compress n H m).
Proof.
  revert H m. induction n as [|n IH]; intros H m HH; simpl; [done|].
  apply IH, sha256_compress_state, HH.
Qed.

Lemma absorb_fips n H m :
  is_state H → is_bytes m → length m = (64 * n)%nat →
  Fips.absorb sha256_compress n H m = Fips.absorb Fips.compress n H m.
Proof.
  revert H m. induction n as [|n IH]; intros H m HH Hm Hl; simpl; [done|].
  assert (is_block (take 64 m)) by (split; [len|cword]).
  rewrite <-sha256_compress_fips by done.
  apply IH; [by apply sha256_compress_state, HH|cword|len].
Qed.

Lemma pad_blocks m : ∃ n, length (Fips.pad m) = (64 * n)%nat.
Proof.
  exists (Z.to_nat (1 - (55 - Z.of_nat (length m)) / 64)).
  assert (length (Fips.pad m) = length m + 9 + Fips.zeros (length m))%nat as ->
    by (unfold Fips.pad; len).
  unfold Fips.zeros. pose proof (Z.mod_pos_bound (55 - Z.of_nat (length m)) 64).
  pose proof (Z.div_mod (55 - Z.of_nat (length m)) 64). lia.
Qed.

Lemma be_bytes_bytes n z : is_bytes (Fips.be_bytes n z).
Proof. induction n; simpl; constructor; [apply Z.mod_pos_bound; lia|done]. Qed.

Lemma pad_bytes m : is_bytes m → is_bytes (Fips.pad m).
Proof.
  intros. unfold Fips.pad. apply Forall_app. split; [done|]. constructor; [done|].
  apply Forall_app. split; [by apply Forall_replicate|apply be_bytes_bytes].
Qed.

Lemma init_state : is_state (h (sha256_init local_ctx)).
Proof. split; [done|]. by repeat constructor. Qed.

Lemma init_H0 : h (sha256_init local_ctx) = Fips.H0.
Proof. vm_compute. reflexivity. Qed.

Lemma zero_until_h fuel limit ctx : h (zero_until fuel limit ctx) = h ctx.
Proof. revert ctx. induction fuel; intros; simpl; [done|]. case_bool_decide; [|done]. by rewrite IHfuel. Qed.

Lemma sha256_final_digest ctx :
  length (h ctx) = 8%nat → snd (sha256_final ctx) = Fips.digest (h (fst (sha256_final ctx))).
Proof.
  intros Hl. unfold sha256_final. cbn zeta. cbn [fst snd]. ctx_cbn.
  apply digest_loop, sha256_compress_state. rewrite zero_until_h.
  destruct (bool_decide _); ctx_cbn; [|done].
  apply sha256_compress_state. by rewrite zero_until_h.
Qed.

Lemma sha256_final_fips m ctx :
  ctx_inv m ctx → is_bytes m → 8 * Z.of_nat (length m) < 2 ^ 64 →
  snd (sha256_final ctx) = Fips.sha256 m.
Proof.
  intros Hm Hb Hmax. destruct (pad_blocks m) as [n Hn].
  assert (length (Fips.pad m) / 64 = n)%nat as Hq
    by (rewrite Hn, Nat.mul_comm; by apply Nat.div_mul).
  rewrite sha256_final_digest, (sha256_final_absorb m) by
    (done || (rewrite (inv_h _ _ Hm); apply absorb_state, init_state)).
  unfold Fips.sha256. rewrite Hq, <-init_H0.
  by rewrite absorb_fips by (apply init_state || (by apply pad_bytes) || done).
Qed.

(** One call of init, update and final on any context object. *)
Lemma sha256_once ctx m :
  length (buffer ctx) = 64%nat → is_bytes m → 8 * Z.of_nat (length m) < 2 ^ 64 →
  snd (sha256_final (sha256_update (sha256_init ctx) m)) = Fips.sha256 m.
Proof.
  intros Hb Hm Hmax. apply sha256_final_fips; [|done..].
  rewrite <-(app_nil_l m). by apply sha256_update_inv, sha256_init_inv.
Qed.

Lemma length_digest H : length H = 8%nat → length (Fips.digest H) = 32%nat.
Proof.
  intros Hl. destruct H as [|? [|? [|? [|? [|? [|? [|? [|? [|]]]]]]]]]; try discriminate Hl. done.
Qed.

Lemma sha256_length m : is_bytes m → length (Fips.sha256 m) = 32%nat.
Proof.
  intros Hm. unfold Fips.sha256. destruct (pad_blocks m) as [n Hn]. apply length_digest.
  assert (length (Fips.pad m) / 64 = n)%nat as ->
    by (rewrite Hn, Nat.mul_comm; by apply Nat.div_mul).
  rewrite <-init_H0, <-absorb_fips by (apply init_state || (by apply pad_bytes) || done).
  apply absorb_state, init_state.
Qed.

Lemma sha256_bytes m : is_bytes (Fips.sha256 m).
Proof.
  unfold Fips.sha256, Fips.digest. apply Forall_bind, Forall_forall.
  intros. apply be_bytes_bytes.
Qed.

(** ** Midstate and tail words *)

Lemma fill_loop n (f : nat → Z) :
  for_loop 0 n (λ i t, <[i := f i]> t) (replicate n 0) = f <$> seq 0 n.
Proof.
  enough (∀ k, (k <= n)%nat → for_loop 0 k (λ i t, <[i := f i]> t) (replicate n 0)
    = (f <$> seq 0 k) ++ replicate (n - k) 0) as H.
  { rewrite H by done. by rewrite Nat.sub_diag, app_nil_r. }
  induction k as [|k IH]; intros Hk; [by rewrite Nat.sub_0_r|].
  rewrite for_loop_S, IH by lia. simpl (0 + k)%nat.
  replace (n - k)%nat with (S (n - S k)) by lia.
  replace k with (length (f <$> seq 0 k)) at 1 by len.
  by rewrite insert_snoc, seq_S, fmap_app.
Qed.

Lemma midstate_compress header :
  length header = 80%nat →
  bitcoin_header_midstate header =
  sha256_compress (h (sha256_init local_ctx)) (take 64 header).
Proof.
  intros Hl. unfold bitcoin_header_midstate. cbn zeta. rewrite fill_loop.
  pose proof (sha256_update_inv [] _ (take 64 header) (sha256_init_inv local_ctx eq_refl)) as Hi.
  assert (length (take 64 header) = 64%nat) as Ht by len.
  rewrite app_nil_l in Hi. rewrite (inv_h _ _ Hi), Ht. simpl (64 / 64)%nat. simpl (64 * 1)%nat.
  rewrite (take_ge (take 64 header) 64) by lia. cbn [Fips.absorb].
  rewrite (take_ge (take 64 header) 64) by lia.
  apply fmap_seq_lookup, sha256_compress_state, init_state.
Qed.

(** Big-endian bytes and value are inverse. *)
Lemma be_value_acc l acc :
  Fips.be_value l acc = acc * 256 ^ Z.of_nat (length l) + Fips.be_value l 0.
Proof.
  revert acc. induction l as [|b l IH]; intros acc; [simpl; lia|].
  cbn [Fips.be_value length]. rewrite IH, (IH (0 * 256 + b)), Nat2Z.inj_succ, Z.pow_succ_r by lia.
  lia.
Qed.

Lemma be_value_snoc l b : Fips.be_value (l ++ [b]) 0 = Fips.be_value l 0 * 256 + b.
Proof.
  generalize 0. induction l as [|x l IH]; intros acc; [done|]. simpl. apply IH.
Qed.

Lemma be_value_bound l : is_bytes l → 0 <= Fips.be_value l 0 < 256 ^ Z.of_nat (length l).
Proof.
  induction 1 as [|b l Hb Hl IH]; [simpl; lia|]. cbn [Fips.be_value length].
  rewrite be_value_acc, Nat2Z.inj_succ, Z.pow_succ_r by lia. unfold in_bits in Hb. nia.
Qed.

Lemma be_bytes_add n k z : (n <= k)%nat → ∀ c, Fips.be_bytes n (z + c * 256 ^ Z.of_nat k) = Fips.be_bytes n z.
Proof.
  intros Hk c. revert Hk. induction n as [|n IH]; intros Hk; simpl; [done|].
  rewrite IH by lia. f_equal.
  replace (Z.of_nat k) with (Z.of_nat (k - n - 1) + 1 + Z.of_nat n) by lia.
  rewrite !Z.pow_add_r, !Z.mul_assoc, Z.div_add by lia.
  apply Z_mod_plus_full.
Qed.

Lemma be_value_bytes n z : Fips.be_value (Fips.be_bytes n z) 0 = z `mod` 256 ^ Z.of_nat n.
Proof.
  induction n as [|n IH]; [simpl; by rewrite Z.mod_1_r|].
  cbn [Fips.be_bytes Fips.be_value]. rewrite be_value_acc, IH, length_be_bytes.
  rewrite Nat2Z.inj_succ, Z.pow_succ_r, (Z.mul_comm 256), Z.rem_mul_r by lia. lia.
Qed.

Lemma be_bytes_value l : is_bytes l → Fips.be_bytes (length l) (Fips.be_value l 0) = l.
Proof.
  induction 1 as [|b l Hb Hl IH]; [done|]. cbn [Fips.be_value length Fips.be_bytes].
  pose proof (be_value_bound l Hl). unfold in_bits in Hb.
  rewrite be_value_acc, Z.add_comm, Z.div_add, Z.div_small, be_bytes_add, IH by lia.
  f_equal. apply Z.mod_small. lia.
Qed.

(** The big-endian bytes of the four tail words are the header's last
    sixteen bytes. *)
Lemma tail_words_bytes header :
  length header = 80%nat → is_bytes header →
  bitcoin_header_tail_words header ≫= Fips.be_bytes 4 = drop 64 header.
Proof.
  intros Hl Hb. unfold bitcoin_header_tail_words. rewrite fill_loop.
  assert (∀ off, (off + 4 <= 80)%nat →
    Fips.be_bytes 4 (load_be32 header off) = sub header off 4) as Hw.
  { intros off Hoff. rewrite load_be32_value by (done || lia).
    rewrite <-(be_bytes_value (sub header off 4)) at 2 by cword.
    by rewrite length_sub by lia. }
  cbn [seq fmap list_fmap mbind list_bind]. rewrite !Hw, app_nil_r by lia.
  replace (drop 64 header) with (sub header 64 (4 + (4 + (4 + 4))))
    by (unfold sub; apply take_ge; len).
  by rewrite !sub_app.
Qed.

(** ** Properties *)

(** C9. Streaming correctness of [sha256_init], [sha256_update] and
    [sha256_final]: for every context object, and every way to cut a message
    shorter than 2^61 bytes into calls of [sha256_update], the digest
    returned is the FIPS 180-4 SHA-256 of the whole message. *)
Theorem sha256_streaming ctx pieces :
  length (buffer ctx) = 64%nat → is_bytes (concat pieces) →
  8 * Z.of_nat (length (concat pieces)) < 2 ^ 64 →
  snd (sha256_final (foldl sha256_update (sha256_init ctx) pieces)) =
  Fips.sha256 (concat pieces).
Proof. intros. apply sha256_final_fips; [by apply sha256_updates_inv|done..]. Qed.

Lemma sha256_streaming_witness :
  snd (sha256_final (foldl sha256_update (sha256_init local_ctx) [str "a"; str "bc"])) =
  Fips.sha256 (str "abc").
Proof.
  apply (sha256_streaming local_ctx [str "a"; str "bc"]).
  - reflexivity.
  - repeat (constructor; [by vm_compute|]). constructor.
  - by vm_compute.
Defined.

(** The tables of the code are those FIPS 180-4 prescribes, computed from
    the primes: [k_sha256] holds the first 32 fractional bits of the cube
    roots of the first 64 primes, and [sha256_init] stores those of the
    square roots of the first eight. *)
Theorem sha256_constants :
  k_sha256 = Fips.K ∧ h (sha256_init local_ctx) = Fips.H0 ∧
  Fips.primes_upto 20 = [2; 3; 5; 7; 11; 13; 17; 19] ∧ length (Fips.primes_upto 312) = 64%nat.
Proof. split_and!; [apply k_sha256_K|apply init_H0|by vm_compute..]. Qed.

Lemma update_loop_done fuel ctx data :
  length (buffer ctx) = 64%nat → (buffer_len ctx < 64)%nat → (length data <= fuel)%nat →
  ∃ ctx', length (buffer ctx') = 64%nat ∧ (buffer_len ctx' < 64)%nat ∧
    ∀ extra, update_loop (fuel + extra) ctx data = (ctx', []).
Proof.
  revert ctx data. induction fuel as [|fuel IH]; intros ctx data Hb Hl Hf.
  - destruct data; [|simpl in Hf; lia]. exists ctx. split_and!; [done..|]. by intros [|].
  - simpl. case_bool_decide as Hd; [subst; by exists ctx|].
    pose proof (chunk_size_fits ctx data Hl Hd) as Hn. apply IH.
    + unfold absorb_chunk. case_bool_decide; ctx_cbn; len.
    + unfold absorb_chunk. case_bool_decide as E; ctx_cbn; [lia|].
      rewrite length_take in *. lia.
    + rewrite length_drop. lia.
Qed.

(** The loop of [sha256_update] terminates and stays inside the 64-byte
    buffer: from any context whose fill level is below 64, every chunk it
    copies is non-empty and fits behind the fill level, the length of the
    data is enough fuel to consume it all, the fill level is again below 64,
    and more fuel changes nothing. *)
Theorem sha256_update_terminates ctx data :
  length (buffer ctx) = 64%nat → (buffer_len ctx < 64)%nat →
  (data ≠ [] → (0 < chunk_size ctx data ∧ buffer_len ctx + chunk_size ctx data <= 64)%nat) ∧
  ∃ ctx', length (buffer ctx') = 64%nat ∧ (buffer_len ctx' < 64)%nat ∧
    ∀ extra, update_loop (length data + extra) ctx data = (ctx', []).
Proof.
  intros Hb Hl. split.
  - intros Hne. pose proof (chunk_size_fits ctx data Hl Hne). lia.
  - by apply update_loop_done.
Qed.

Lemma sha256_update_terminates_witness :
  ∃ ctx', length (buffer ctx') = 64%nat ∧ (buffer_len ctx' < 64)%nat ∧
    ∀ extra, update_loop (3 + extra) local_ctx (str "abc") = (ctx', []).
Proof.
  apply (sha256_update_terminates local_ctx (str "abc")); [reflexivity|simpl; lia].
Defined.

(** C10. What the hash engines get is enough: resuming FIPS compression from
    the midstate with the four tail words, the padding of an 80-byte message
    and its length gives the SHA-256 of the whole header. *)
Theorem midstate_tail_resume header :
  length header = 80%nat → is_bytes header →
  Fips.digest (Fips.compress (bitcoin_header_midstate header)
    ((bitcoin_header_tail_words header ≫= Fips.be_bytes 4) ++
     0x80 :: replicate 39 0 ++ Fips.be_bytes 8 640)) = Fips.sha256 header.
Proof.
  intros Hl Hb. rewrite tail_words_bytes, midstate_compress by done.
  assert (Fips.pad header = take 64 header ++
    (drop 64 header ++ 0x80 :: replicate 39 0 ++ Fips.be_bytes 8 640)) as Hp.
  { unfold Fips.pad. rewrite Hl, app_assoc, take_drop. done. }
  unfold Fips.sha256. rewrite Hp, <-init_H0.
  assert (length (take 64 header) = 64%nat) as Ht by len.
  set (blk := drop 64 header ++ _). assert (length blk = 64%nat) as Hk by (unfold blk; len).
  rewrite length_app, Ht, Hk. change ((64 + 64) / 64)%nat with (1 + 1)%nat.
  rewrite absorb_app, sha256_compress_fips by (done || apply init_state || (split; [done|cword])).
  cbn [Fips.absorb]. rewrite (take_ge (take 64 header)), (take_ge blk) by lia. reflexivity.
Qed.

Lemma midstate_tail_resume_witness :
  let header := replicate 80 1 in
  Fips.digest (Fips.compress (bitcoin_header_midstate header)
    ((bitcoin_header_tail_words header ≫= Fips.be_bytes 4) ++
     0x80 :: replicate 39 0 ++ Fips.be_bytes 8 640)) = Fips.sha256 header.
Proof.
  apply (midstate_tail_resume (replicate 80 1)); [reflexivity|].
  apply Forall_replicate. by vm_compute.
Defined.
