(* ===== verification/Bitcoin.v ===== *)
(** * Headers and hex strings (src/software/common/bitcoin.c, lines 1-35)

    [hex_decode], [hex_encode], [sha256d], [bitcoin_swap32] and
    [bitcoin_build_header]: how the firmware turns the pool's hex fields into
    the 80-byte header it mines.  Characters are byte values; every test of
    the code compares with an ASCII constant, so the signedness of [char]
    plays no role.  The difficulty conversion of the same file is in
    [Target.v]. *)
From S2P Require Import Prelude.
From S2P Require Import Fips180.
From S2P Require Import Sha256.
Local Open Scope cword_scope.

(** ** The code *)

(** The digit value of the nested conditional, [-1] for no digit. *)
Definition hex_val (c : Z) : Z :=
  if bool_decide (chr "0" <= c ∧ c <= chr "9") then c - chr "0"
  else if bool_decide (chr "a" <= c ∧ c <= chr "f") then c - chr "a" + 10
  else if bool_decide (chr "A" <= c ∧ c <= chr "F") then c - chr "A" + 10
  else -1.

(** The loop of [hex_decode] from index [i] on; [false] is [return -1]. *)
Fixpoint hex_decode_loop (s : list Z) (i : nat) (out : list Z) : bool * list Z :=
  match s with
  | [] => (true, out)
  | c :: s =>
      let v := hex_val c in
      if bool_decide (v < 0) then (false, out) else
      let out := if Nat.even i then <[(i / 2)%nat := u8 (Z.shiftl v 4)]> out
                 else <[(i / 2)%nat := out !!! (i / 2)%nat .| u8 v]> out in
      hex_decode_loop s (i + 1) out
  end.

(** The result code and the output array after the call. *)
Definition hex_decode (s : list Z) (out : list Z) (cap : nat) : Z * list Z :=
  let n := length s in
  if Nat.odd n || bool_decide (cap < n / 2)%nat then (-1, out) else
  match hex_decode_loop s 0 out with
  | (true, out) => (Z.of_nat (n / 2), out)
  | (false, out) => (-1, out)
  end.

Definition hex_digits : list Z := str "0123456789abcdef".

Definition hex_encode (bytes out : list Z) : list Z :=
  let n := length bytes in
  let out := for_loop 0 n (λ i out,
    let out := <[(i * 2)%nat := hex_digits !!! Z.to_nat (bytes !!! i >>. 4)]> out in
    <[(i * 2 + 1)%nat := hex_digits !!! Z.to_nat (bytes !!! i .& 15)]> out) out in
  <[(2 * n)%nat := 0]> out.

Definition sha256d (bytes : list Z) : list Z :=
  let c := sha256_update (sha256_init local_ctx) bytes in
  let '(c, out) := sha256_final c in
  let c := sha256_update (sha256_init c) out in
  snd (sha256_final c).

Definition bitcoin_swap32 (x : Z) : Z :=
  (x <<. 24) .| ((x <<. 8) .& 0xff0000) .| ((x >>. 8) .& 0xff00) .| (x >>. 24).

(** The merkle root: the coinbase is hashed in four updates, then folded
    with the branches. *)
Definition merkle_root (coin1 extra1 extra2 coin2 : list Z) (branches : list (list Z)) : list Z :=
  let ctx := sha256_init local_ctx in
  let ctx := sha256_update ctx coin1 in
  let ctx := sha256_update ctx extra1 in
  let ctx := sha256_update ctx extra2 in
  let ctx := sha256_update ctx coin2 in
  let '(ctx, root) := sha256_final ctx in
  let ctx := sha256_update (sha256_init ctx) root in
  let root := snd (sha256_final ctx) in
  fst (foldl (λ '(root, pair64) branch,
    let pair64 := memcpy (memcpy pair64 0 root) 32 branch in
    (sha256d pair64, pair64)) (root, replicate 64 0) branches).

(** [header] is the array the call fills. *)
Definition bitcoin_build_header (version prev bits time coin1 extra1 extra2 coin2 : list Z)
    (branches : list (list Z)) (header : list Z) : list Z :=
  let root := merkle_root coin1 extra1 extra2 coin2 branches in
  let header := for_loop 0 4 (λ i header,
    let header := <[i := version !!! (3 - i)%nat]> header in
    let header := <[(68 + i)%nat := time !!! (3 - i)%nat]> header in
    <[(72 + i)%nat := bits !!! (3 - i)%nat]> header) header in
  let header := for_loop 0 32 (λ i header,
    <[(4 + i)%nat := prev !!! Z.to_nat (Z.lxor (Z.of_nat i) 3)]> header) header in
  let header := memcpy header 36 root in
  memcpy header 76 (replicate 4 0).

(** ** Specification *)

(** The bytes a hex string denotes, two digits each. *)
Fixpoint hex_pairs (s : list Z) : option (list Z) :=
  match s with
  | [] => Some []
  | a :: b :: s =>
      if bool_decide (hex_val a < 0 ∨ hex_val b < 0) then None
      else l ← hex_pairs s; Some (16 * hex_val a + hex_val b :: l)
  | _ => None
  end.

(** The lower-case hex string of some bytes. *)
Definition to_hex (l : list Z) : list Z :=
  l ≫= λ b, [hex_digits !!! Z.to_nat (b / 16); hex_digits !!! Z.to_nat (b `mod` 16)].

Module BlockSpec.
(** SHA-256 twice, the hash of every Bitcoin object. *)
Definition hash256 (m : list Z) : list Z := Fips.sha256 (Fips.sha256 m).
(** The merkle root from a leaf and its branch. *)
Definition root (leaf : list Z) (branches : list (list Z)) : list Z :=
  foldl (λ r b, hash256 (r ++ b)) leaf branches.
(** Bytes reversed within each 32-bit word. *)
Fixpoint swap_words (l : list Z) : list Z :=
  match l with
  | a :: b :: c :: d :: l => d :: c :: b :: a :: swap_words l
  | _ => []
  end.
(** The serialized header with a zero nonce: little-endian version,
    previous-block hash, merkle root, little-endian time and target bits. *)
Definition header (version prev root time bits : list Z) : list Z :=
  rev version ++ swap_words prev ++ root ++ rev time ++ rev bits ++ [0; 0; 0; 0].
End BlockSpec.

(** ** Hex *)

Lemma hex_val_range c : hex_val c = -1 ∨ 0 <= hex_val c < 16.
Proof. unfold hex_val, chr. simpl. guards; lia. Qed.

Lemma hex_pairs_length s l : hex_pairs s = Some l → length s = (2 * length l)%nat.
Proof.
  revert l. induction s as [s IH] using (induction_ltof1 _ (@length Z)). unfold ltof in IH.
  intros l. destruct s as [|a [|b s]]; simpl; [by intros [= <-]|done|].
  case_bool_decide; [done|]. destruct (hex_pairs s) as [l'|] eqn:E; simpl; [|done].
  intros [= <-]. apply IH in E; simpl; lia.
Qed.

Lemma hex_pairs_bytes s l : hex_pairs s = Some l → is_bytes l.
Proof.
  revert l. induction s as [s IH] using (induction_ltof1 _ (@length Z)). unfold ltof in IH.
  intros l. destruct s as [|a [|b s]]; simpl; [by intros [= <-]|done|].
  case_bool_decide as Hd; [done|]. destruct (hex_pairs s) as [l'|] eqn:E; simpl; [|done].
  intros [= <-]. constructor; [|apply (IH s); simpl; [lia|done]].
  destruct (hex_val_range a), (hex_val_range b); split; lia.
Qed.

(** What [hex_decode_loop] does from an even index: on success it stores the
    denoted bytes, on failure it has touched nothing outside its window. *)
Lemma hex_decode_loop_spec n s k out :
  length s = (2 * n)%nat → (k + n <= length out)%nat →
  match hex_pairs s with
  | Some l => hex_decode_loop s (2 * k) out = (true, memcpy out k l)
  | None => ∃ out', hex_decode_loop s (2 * k) out = (false, out') ∧
      length out' = length out ∧ take k out' = take k out ∧
      drop (k + n) out' = drop (k + n) out
  end.
Proof.
  revert s k out. induction n as [|n IH]; intros s k out Hs Ho.
  { destruct s; [done|simpl in Hs; lia]. }
  destruct s as [|a [|b s]]; [simpl in Hs; lia..|]. cbn [hex_pairs hex_decode_loop].
  assert (Nat.even (2 * k) = true ∧ Nat.even (2 * k + 1) = false ∧
    (2 * k / 2 = k)%nat ∧ ((2 * k + 1) / 2 = k)%nat) as (-> & -> & -> & ->).
  { rewrite Nat.even_mul, Nat.even_add, Nat.even_mul. split_and!; [done..| |].
    - symmetry. apply (Nat.div_unique _ _ _ 0); lia.
    - symmetry. apply (Nat.div_unique _ _ _ 1); lia. }
  destruct (bool_decide_reflect (hex_val a < 0 ∨ hex_val b < 0)) as [Hbad|Hok].
  - destruct (bool_decide_reflect (hex_val a < 0)) as [Ha|Ha]; [by exists out|].
    destruct (bool_decide_reflect (hex_val b < 0)) as [Hb|Hb]; [|lia].
    exists (<[k:=u8 (Z.shiftl (hex_val a) 4)]> out). split_and!; [done|len| |].
    + by rewrite take_insert_ge by lia.
    + by rewrite drop_insert_lt by lia.
  - destruct (bool_decide_reflect (hex_val a < 0)) as [Ha|Ha]; [lia|].
    destruct (bool_decide_reflect (hex_val b < 0)) as [Hb|Hb]; [lia|].
    rewrite list_lookup_total_insert_eq by lia. rewrite list_insert_insert_eq.
    assert (u8 (Z.shiftl (hex_val a) 4) .| u8 (hex_val b) = 16 * hex_val a + hex_val b) as ->.
    { destruct (hex_val_range a), (hex_val_range b); try lia.
      rewrite Z.shiftl_mul_pow2, !u8_small by (lia || (split; lia)).
      rewrite lor_fields by (lia || (split; lia)). lia. }
    replace (2 * k + 1 + 1)%nat with (2 * (k + 1))%nat by lia.
    set (x := 16 * hex_val a + hex_val b).
    specialize (IH s (k + 1)%nat (<[k:=x]> out)). simpl in Hs.
    destruct (hex_pairs s) as [l|] eqn:E; cbn [mbind option_bind].
    + rewrite IH by len. f_equal. unfold memcpy. simpl.
      rewrite list_insert_inserts_lt by lia. by rewrite Nat.add_1_r.
    + destruct IH as (o' & H1 & H2 & H3 & H4); [lia|len|]. exists o'.
      rewrite length_insert in H2. split_and!; [done|done| |].
      * apply (f_equal (take k)) in H3. rewrite !take_take, Nat.min_l in H3 by lia.
        by rewrite H3, take_insert_ge by lia.
      * replace (k + S n)%nat with (k + 1 + n)%nat by lia.
        by rewrite H4, drop_insert_lt by lia.
Qed.

Lemma hex_decode_spec s out cap :
  (cap <= length out)%nat →
  match hex_pairs s with
  | Some l => if bool_decide (length l <= cap)%nat
              then hex_decode s out cap = (Z.of_nat (length l), memcpy out 0 l)
              else hex_decode s out cap = (-1, out)
  | None => fst (hex_decode s out cap) = -1 ∧
      length (snd (hex_decode s out cap)) = length out ∧
      drop (length s / 2) (snd (hex_decode s out cap)) = drop (length s / 2) out
  end.
Proof.
  intros Hcap. unfold hex_decode.
  destruct (Nat.odd (length s)) eqn:Eodd; cbn [orb].
  { destruct (hex_pairs s) eqn:E; [|done]. apply hex_pairs_length in E.
    by rewrite E, Nat.odd_mul in Eodd. }
  assert (∃ n, length s = (2 * n)%nat) as [n Hn].
  { apply Nat.even_spec. by rewrite <-Nat.negb_odd, Eodd. }
  assert (length s / 2 = n)%nat as -> by (rewrite Hn, Nat.mul_comm; by apply Nat.div_mul).
  pose proof (hex_decode_loop_spec n s 0 out Hn) as Hl. simpl (2 * 0)%nat in Hl.
  destruct (hex_pairs s) as [l|] eqn:E.
  - apply hex_pairs_length in E. assert (length l = n) as -> by lia.
    guards; try lia; [|done]. by rewrite Hl by lia.
  - guards; [done|]. destruct Hl as (o & -> & H1 & _ & H3); [lia|done].
Qed.

Lemma shiftr4 b : b >>. 4 = b / 16.
Proof. by rewrite Z.shiftr_div_pow2. Qed.
Lemma land15 b : b .& 15 = b `mod` 16.
Proof. change 15 with (Z.ones 4). by rewrite Z.land_ones. Qed.

Lemma to_hex_cons b l :
  to_hex (b :: l) =
  hex_digits !!! Z.to_nat (b / 16) :: hex_digits !!! Z.to_nat (b `mod` 16) :: to_hex l.
Proof. done. Qed.

Lemma length_to_hex l : length (to_hex l) = (2 * length l)%nat.
Proof. induction l as [|b l IH]; [done|]. rewrite to_hex_cons. len. Qed.

Lemma to_hex_snoc l b :
  to_hex (l ++ [b]) = (to_hex l ++ [hex_digits !!! Z.to_nat (b / 16)]) ++
                      [hex_digits !!! Z.to_nat (b `mod` 16)].
Proof. unfold to_hex. by rewrite bind_app, <-app_assoc. Qed.

Lemma hex_encode_to_hex bytes out :
  hex_encode bytes out = memcpy out 0 (to_hex bytes ++ [0]).
Proof.
  unfold hex_encode. rewrite memcpy_snoc, length_to_hex. f_equal.
  enough (∀ k, (k <= length bytes)%nat → for_loop 0 k _ out = memcpy out 0 (to_hex (take k bytes)))
    as H by (by rewrite H, take_ge).
  induction k as [|k IH]; intros Hk; [done|]. rewrite for_loop_S, IH by lia.
  rewrite (take_S_r _ _ (bytes !!! k)) by (apply lookup_total_alt_lt; lia).
  rewrite to_hex_snoc, !memcpy_snoc, length_app, length_to_hex, length_take, shiftr4, land15.
  f_equal; [cbn [length]; lia|]. f_equal. lia.
Qed.

Lemma hex_val_digit d : 0 <= d < 16 → hex_val (hex_digits !!! Z.to_nat d) = d.
Proof.
  intros Hd.
  assert (d ∈ seqZ 0 16) as Hin by (apply elem_of_seqZ; lia).
  revert d Hin Hd. cut (Forall (λ d, hex_val (hex_digits !!! Z.to_nat d) = d) (seqZ 0 16)).
  { intros HF d Hin _. by eapply Forall_forall in HF. }
  repeat constructor.
Qed.

Lemma hex_pairs_to_hex l : is_bytes l → hex_pairs (to_hex l) = Some l.
Proof.
  induction 1 as [|b l [Hb1 Hb2] Hl IH]; [done|]. rewrite to_hex_cons. cbn [hex_pairs].
  pose proof (Z.mod_pos_bound b 16). pose proof (Z.div_mod b 16).
  assert (0 <= b / 16 < 16) by (split; [apply Z.div_pos|apply Z.div_lt_upper_bound]; lia).
  rewrite !hex_val_digit by lia. guards; [lia|]. rewrite IH. simpl. do 2 f_equal. lia.
Qed.

Lemma to_hex_nonzero l : is_bytes l → Forall (λ c, c ≠ 0) (to_hex l).
Proof.
  induction 1 as [|b l [Hb1 Hb2] Hl IH]; [constructor|]. rewrite to_hex_cons.
  pose proof (Z.mod_pos_bound b 16).
  assert (0 <= b / 16 < 16) by (split; [apply Z.div_pos|apply Z.div_lt_upper_bound]; lia).
  pose proof (hex_val_digit (b / 16)). pose proof (hex_val_digit (b `mod` 16)).
  assert (hex_val 0 = -1) as HZ by done.
  repeat constructor; [..|done]; intros E; rewrite E in *; lia.
Qed.

(** ** Hashes and headers *)

Lemma sha256_final_buffer ctx :
  length (buffer ctx) = 64%nat → length (buffer (fst (sha256_final ctx))) = 64%nat.
Proof.
  assert (∀ fuel limit c, length (buffer (zero_until fuel limit c)) = length (buffer c)) as Hz.
  { induction fuel as [|fuel IH]; intros limit c; simpl; [done|].
    case_bool_decide; [|done]. rewrite IH. simpl. len. }
  intros Hb. unfold sha256_final. cbn zeta. cbn [fst buffer].
  apply (for_loop_ind (λ _ b, length b = 64%nat)).
  - rewrite Hz. destruct (bool_decide _); cbn [buffer]; rewrite ?Hz; simpl; len.
  - intros i b _ Hlb. len.
Qed.

Lemma sha256d_hash256 m :
  is_bytes m → 8 * Z.of_nat (length m) < 2 ^ 64 → sha256d m = BlockSpec.hash256 m.
Proof.
  intros Hm Hl. unfold sha256d.
  pose proof (sha256_once local_ctx m eq_refl Hm Hl) as H1.
  pose proof (sha256_final_buffer (sha256_update (sha256_init local_ctx) m)) as Hb.
  destruct (sha256_final _) as [c out]. cbn [fst snd] in *. subst out.
  apply sha256_once; [|apply sha256_bytes|by rewrite sha256_length].
  apply Hb. apply (inv_buf ([] ++ m)). by apply sha256_update_inv, sha256_init_inv.
Qed.

Lemma hash256_ok m : is_bytes (BlockSpec.hash256 m) ∧ (is_bytes m → length (BlockSpec.hash256 m) = 32%nat).
Proof. split; [apply sha256_bytes|]. intros. apply sha256_length, sha256_bytes. Qed.

Lemma pair_copy (pair64 root branch : list Z) :
  length pair64 = 64%nat → length root = 32%nat → length branch = 32%nat →
  memcpy (memcpy pair64 0 root) 32 branch = root ++ branch.
Proof.
  intros. rewrite !memcpy_eq by len. rewrite take_0, app_nil_l.
  rewrite take_app_length', drop_ge, app_nil_r by len. done.
Qed.

Lemma merkle_fold branches root pair64 :
  is_bytes root → length root = 32%nat → length pair64 = 64%nat →
  Forall (λ b, length b = 32%nat ∧ is_bytes b) branches →
  fst (foldl (λ '(root, pair64) branch,
    let pair64 := memcpy (memcpy pair64 0 root) 32 branch in
    (sha256d pair64, pair64)) (root, pair64) branches) = BlockSpec.root root branches.
Proof.
  intros Hr Hlr Hp HF. revert root pair64 Hr Hlr Hp.
  induction HF as [|b bs [Hb Hbb] HF IH]; intros root pair64 Hr Hlr Hp; [done|].
  cbn [foldl]. rewrite pair_copy by done. unfold BlockSpec.root. cbn [foldl].
  assert (is_bytes (root ++ b)) by cword.
  rewrite sha256d_hash256 by (done || len).
  apply IH; [apply hash256_ok|by apply hash256_ok|len].
Qed.

Definition coinbase_ok (coin1 extra1 extra2 coin2 : list Z) : Prop :=
  is_bytes (coin1 ++ extra1 ++ extra2 ++ coin2) ∧
  8 * Z.of_nat (length (coin1 ++ extra1 ++ extra2 ++ coin2)) < 2 ^ 64.

Lemma merkle_root_spec coin1 extra1 extra2 coin2 branches :
  coinbase_ok coin1 extra1 extra2 coin2 →
  Forall (λ b, length b = 32%nat ∧ is_bytes b) branches →
  merkle_root coin1 extra1 extra2 coin2 branches =
  BlockSpec.root (BlockSpec.hash256 (coin1 ++ extra1 ++ extra2 ++ coin2)) branches.
Proof.
  intros [Hb Hl] HF. unfold merkle_root. cbn zeta.
  pose proof (sha256_updates_inv local_ctx [coin1; extra1; extra2; coin2] eq_refl) as Hi.
  cbn [foldl concat] in Hi. rewrite app_nil_r in Hi.
  set (c := sha256_update _ coin2) in *.
  pose proof (sha256_final_fips _ _ Hi Hb Hl) as H1.
  pose proof (sha256_final_buffer c (inv_buf _ _ Hi)) as Hbuf.
  destruct (sha256_final c) as [c' root]. cbn [fst snd] in *. subst root.
  rewrite sha256_once by (done || apply sha256_bytes || by rewrite sha256_length).
  apply merkle_fold; [apply hash256_ok|by apply hash256_ok|len|done].
Qed.

(** Take a list of known length apart. *)
Ltac list_elems l Hl :=
  repeat (destruct l as [|? l]; [discriminate Hl|]);
  destruct l; [clear Hl|discriminate Hl].

Lemma header_fields version prev root time bits header :
  length version = 4%nat → length prev = 32%nat → length root = 32%nat →
  length time = 4%nat → length bits = 4%nat → length header = 80%nat →
  (let header := for_loop 0 4 (λ i header,
    let header := <[i := version !!! (3 - i)%nat]> header in
    let header := <[(68 + i)%nat := time !!! (3 - i)%nat]> header in
    <[(72 + i)%nat := bits !!! (3 - i)%nat]> header) header in
  let header := for_loop 0 32 (λ i header,
    <[(4 + i)%nat := prev !!! Z.to_nat (Z.lxor (Z.of_nat i) 3)]> header) header in
  memcpy (memcpy header 36 root) 76 (replicate 4 0)) =
  BlockSpec.header version prev root time bits.
Proof.
  intros Hv Hp Hr Ht Hb Hh.
  list_elems version Hv. list_elems prev Hp. list_elems root Hr.
  list_elems time Ht. list_elems bits Hb. list_elems header Hh. reflexivity.
Qed.

Lemma swap32_value x :
  is_u32 x → ∃ b0 b1 b2 b3,
    is_u8 b0 ∧ is_u8 b1 ∧ is_u8 b2 ∧ is_u8 b3 ∧
    x = Fips.be_value [b3; b2; b1; b0] 0 ∧
    bitcoin_swap32 x = Fips.be_value [b0; b1; b2; b3] 0.
Proof.
  intros [Hx1 Hx2].
  exists (x `mod` 2 ^ 8), ((x / 2 ^ 8) `mod` 2 ^ 8), ((x / 2 ^ 16) `mod` 2 ^ 8), (x / 2 ^ 24).
  assert (∀ z, is_u8 (z `mod` 2 ^ 8)) as Hm by (intros; by apply Z.mod_pos_bound).
  assert (is_u8 (x / 2 ^ 24)) as H3 by (split; [|apply Z.div_lt_upper_bound]; try apply Z.div_pos; lia).
  split_and!; [apply Hm..|done| |].
  - cbn [Fips.be_value]. clear Hm H3. dlia.
  - unfold bitcoin_swap32. rewrite !shl32_mod by lia.
    change 0xff0000 with (Z.ones 8 * 2 ^ 16). change 0xff00 with (Z.ones 8 * 2 ^ 8).
    rewrite !land_field, !Z.shiftr_div_pow2 by lia.
    replace (x `mod` 2 ^ (32 - 8) * 2 ^ 8 / 2 ^ 16) with ((x / 2 ^ 8) `mod` 2 ^ 16)
      by (clear; simpl (2 ^ (32 - 8)); dlia).
    replace (((x / 2 ^ 8) `mod` 2 ^ 16) `mod` 2 ^ 8) with ((x / 2 ^ 8) `mod` 2 ^ 8)
      by (clear; dlia).
    rewrite Z.div_div by lia. change (2 ^ 8 * 2 ^ 8) with (2 ^ 16).
    change (2 ^ (32 - 24)) with (2 ^ 8).
    generalize (Hm x) (Hm (x / 2 ^ 8)) (Hm (x / 2 ^ 16)) H3.
    generalize (x `mod` 2 ^ 8) ((x / 2 ^ 8) `mod` 2 ^ 8) ((x / 2 ^ 16) `mod` 2 ^ 8) (x / 2 ^ 24).
    intros b0 b1 b2 b3 [? ?] [? ?] [? ?] [? ?]. cbn [Fips.be_value].
    rewrite (lor_fields b0 (b1 * 2 ^ 16) 24) by (lia || (split; lia)).
    replace (b0 * 2 ^ 24 + b1 * 2 ^ 16) with ((b0 * 2 ^ 8 + b1) * 2 ^ 16) by lia.
    rewrite lor_fields by (lia || (split; lia)).
    replace ((b0 * 2 ^ 8 + b1) * 2 ^ 16 + b2 * 2 ^ 8) with (((b0 * 2 ^ 8 + b1) * 2 ^ 8 + b2) * 2 ^ 8) by lia.
    rewrite lor_fields by (lia || (split; lia)). lia.
Qed.

Lemma root_ok leaf branches :
  is_bytes leaf → length leaf = 32%nat → Forall (λ b, length b = 32%nat ∧ is_bytes b) branches →
  is_bytes (BlockSpec.root leaf branches) ∧ length (BlockSpec.root leaf branches) = 32%nat.
Proof.
  intros Hb Hl HF. revert leaf Hb Hl.
  induction HF as [|b bs [H1 H2] HF IH]; intros leaf Hb Hl; [done|].
  apply IH; [apply hash256_ok|]. apply hash256_ok. cword.
Qed.

(** ** Properties *)

Lemma build_header_spec version prev bits time coin1 extra1 extra2 coin2 branches header :
  length version = 4%nat → length prev = 32%nat → length bits = 4%nat → length time = 4%nat →
  length header = 80%nat → coinbase_ok coin1 extra1 extra2 coin2 →
  Forall (λ b, length b = 32%nat ∧ is_bytes b) branches →
  bitcoin_build_header version prev bits time coin1 extra1 extra2 coin2 branches header =
  BlockSpec.header version prev
    (BlockSpec.root (BlockSpec.hash256 (coin1 ++ extra1 ++ extra2 ++ coin2)) branches)
    time bits.
Proof.
  intros Hv Hp Hb Ht Hh Hc HF. unfold bitcoin_build_header. rewrite merkle_root_spec by done.
  apply header_fields; try done.
  apply root_ok; [apply hash256_ok|apply hash256_ok, Hc|done].
Qed.

(** C11. [bitcoin_build_header] serializes the block header: byte-reversed
    version, the previous hash with every 32-bit word byte-swapped, the
    merkle root obtained by double SHA-256 of the coinbase folded with the
    branches, byte-reversed time and bits, and a zero nonce; the previous
    contents of the array do not show. *)
Theorem build_header_layout version prev bits time coin1 extra1 extra2 coin2 branches header :
  length version = 4%nat → length prev = 32%nat → length bits = 4%nat → length time = 4%nat →
  length header = 80%nat → coinbase_ok coin1 extra1 extra2 coin2 →
  Forall (λ b, length b = 32%nat ∧ is_bytes b) branches →
  bitcoin_build_header version prev bits time coin1 extra1 extra2 coin2 branches header =
  BlockSpec.header version prev
    (BlockSpec.root (BlockSpec.hash256 (coin1 ++ extra1 ++ extra2 ++ coin2)) branches)
    time bits.
Proof. apply build_header_spec. Qed.

(** The genesis block: its coinbase split as a pool would, version, time and
    bits as Stratum sends them. *)
Definition genesis_coinbase : list Z := default [] (hex_pairs (str
  "01000000010000000000000000000000000000000000000000000000000000000000000000ffffffff4d04ffff001d0104455468652054696d65732030332f4a616e2f32303039204368616e63656c6c6f72206f6e206272696e6b206f66207365636f6e64206261696c6f757420666f722062616e6b73ffffffff0100f2052a01000000434104678afdb0fe5548271967f1a67130b7105cd6a828e03909a67962e0ea1f61deb649f6bc3f4cef38c4f35504e51ec112de5c384df7ba0b8d578a4c702b6bf11d5fac00000000")).
Definition genesis_header : list Z :=
  bitcoin_build_header [0; 0; 0; 1] (replicate 32 0) [0x1d; 0; 0xff; 0xff]
    [0x49; 0x5f; 0xab; 0x29] (take 50 genesis_coinbase) (sub genesis_coinbase 50 10)
    (sub genesis_coinbase 60 4) (drop 64 genesis_coinbase) [] (replicate 80 0).

(** With its nonce the header hashes to the well-known block id. *)
Example genesis_block_id :
  to_hex (rev (sha256d (memcpy genesis_header 76 [0x1d; 0xac; 0x2b; 0x7c]))) =
  str "000000000019d6689c085ae165831e934ff763ae46a2a6c172b3f1b60a8ce26f".
Proof. vm_compute. reflexivity. Qed.

Lemma build_header_layout_witness :
  genesis_header = BlockSpec.header [0; 0; 0; 1] (replicate 32 0)
    (BlockSpec.root (BlockSpec.hash256 (take 50 genesis_coinbase ++ sub genesis_coinbase 50 10
      ++ sub genesis_coinbase 60 4 ++ drop 64 genesis_coinbase)) [])
    [0x49; 0x5f; 0xab; 0x29] [0x1d; 0; 0xff; 0xff].
Proof.
  apply build_header_layout; try reflexivity; [|constructor].
  split; [by_decide|by vm_compute].
Defined.

(** [sha256d] is SHA-256 applied twice, and always 32 bytes. *)
Theorem sha256d_correct m :
  is_bytes m → 8 * Z.of_nat (length m) < 2 ^ 64 →
  sha256d m = Fips.sha256 (Fips.sha256 m) ∧ length (sha256d m) = 32%nat.
Proof.
  intros Hm Hl. rewrite sha256d_hash256 by done. split; [done|]. by apply hash256_ok.
Qed.

Lemma sha256d_correct_witness :
  sha256d (str "hello") = Fips.sha256 (Fips.sha256 (str "hello")) ∧
  length (sha256d (str "hello")) = 32%nat.
Proof. apply sha256d_correct; [by_decide|by vm_compute]. Defined.

(** [hex_decode] is total and exact: a string of hex digit pairs that
    fits the capacity is stored as the bytes it denotes, with their number
    returned and the rest of the array unchanged; one that does not fit is
    rejected untouched; any other string gives -1, and nothing at or after
    half its length has been written. *)
Theorem hex_decode_correct s out cap :
  (cap <= length out)%nat →
  match hex_pairs s with
  | Some l => if bool_decide (length l <= cap)%nat
              then hex_decode s out cap = (Z.of_nat (length l), memcpy out 0 l)
              else hex_decode s out cap = (-1, out)
  | None => fst (hex_decode s out cap) = -1 ∧
      length (snd (hex_decode s out cap)) = length out ∧
      drop (length s / 2) (snd (hex_decode s out cap)) = drop (length s / 2) out
  end.
Proof. apply hex_decode_spec. Qed.

Lemma hex_decode_correct_witness : hex_decode (str "00fF") [1; 2; 3] 2 = (2, [0; 255; 3]).
Proof. apply (hex_decode_correct (str "00fF") [1; 2; 3] 2). simpl. lia. Defined.

(** Round trip: decoding what [hex_encode] wrote gives the bytes back,
    and the text is NUL-terminated after exactly two characters per byte. *)
Theorem hex_roundtrip bytes text out cap :
  is_bytes bytes → (2 * length bytes < length text)%nat → (length bytes <= cap <= length out)%nat →
  let enc := hex_encode bytes text in
  hex_decode (take (2 * length bytes) enc) out cap =
    (Z.of_nat (length bytes), memcpy out 0 bytes) ∧
  enc !! (2 * length bytes)%nat = Some 0 ∧ cstr enc = to_hex bytes.
Proof.
  intros Hb Ht Hc enc.
  assert (enc = to_hex bytes ++ 0 :: drop (2 * length bytes + 1) text) as He.
  { unfold enc. rewrite hex_encode_to_hex, memcpy_eq by (len; rewrite length_to_hex; len).
    rewrite take_0, length_app, length_to_hex. cbn [app]. by rewrite <-app_assoc. }
  rewrite He, <-length_to_hex. split_and!.
  - rewrite take_app_length. pose proof (hex_decode_spec (to_hex bytes) out cap) as Hs.
    rewrite hex_pairs_to_hex in Hs by done. guards; [apply Hs|]; lia.
  - by rewrite lookup_app_r, Nat.sub_diag by done.
  - apply cstr_app. by apply to_hex_nonzero.
Qed.

Lemma hex_roundtrip_witness :
  hex_decode (take 4 (hex_encode [0; 255] (replicate 5 9))) [7; 7; 7] 3 = (2, [0; 255; 7]).
Proof.
  apply (hex_roundtrip [0; 255] (replicate 5 9) [7; 7; 7] 3); [by_decide|simpl; lia..].
Defined.

(** [bitcoin_swap32] reverses the four bytes of a word; it is its own
    inverse. *)
Theorem swap32_reverses x :
  is_u32 x →
  Fips.be_bytes 4 (bitcoin_swap32 x) = rev (Fips.be_bytes 4 x) ∧
  bitcoin_swap32 (bitcoin_swap32 x) = x.
Proof.
  intros Hx. destruct (swap32_value x Hx) as (b0 & b1 & b2 & b3 & H0 & H1 & H2 & H3 & Hv & Hs).
  assert (∀ a b c d, is_u8 a → is_u8 b → is_u8 c → is_u8 d →
    Fips.be_bytes 4 (Fips.be_value [a; b; c; d] 0) = [a; b; c; d]) as Hbv.
  { intros a b c d ????. apply (be_bytes_value [a; b; c; d]). by rewrite !Forall_cons, Forall_nil. }
  split; [by rewrite Hs, Hv, !Hbv by done|].
  assert (is_u32 (bitcoin_swap32 x)) as Hr.
  { rewrite Hs. apply (be_value_bound [b0; b1; b2; b3]). by rewrite !Forall_cons, Forall_nil. }
  destruct (swap32_value _ Hr) as (c0 & c1 & c2 & c3 & K0 & K1 & K2 & K3 & Kv & Ks).
  rewrite Ks, Hv. f_equal.
  assert ([c3; c2; c1; c0] = [b0; b1; b2; b3]) as [= -> -> -> ->]; [|done].
  rewrite <-(Hbv c3 c2 c1 c0), <-(Hbv b0 b1 b2 b3) by done. by rewrite <-Kv, Hs.
Qed.

Lemma swap32_reverses_witness :
  Fips.be_bytes 4 (bitcoin_swap32 0x1dac2b7c) = rev (Fips.be_bytes 4 0x1dac2b7c) ∧
  bitcoin_swap32 (bitcoin_swap32 0x1dac2b7c) = 0x1dac2b7c.
Proof. apply swap32_reverses. by_decide. Defined.
