(* ===== verification/Target.v ===== *)
(** * Difficulty to target (src/software/common/bitcoin.c, lines 36-86)

    [bitcoin_target] reads a JSON-style decimal difficulty and divides the
    difficulty-one target by it, exactly, on 1024-bit numbers of 32 limbs.
    The theorems give the function's complete behaviour: it accepts exactly
    the decimal numbers of its grammar within its limits and returns
    floor(0xffff * 2^208 / D), saturated to 2^256 - 1. *)
From S2P Require Import Prelude.
Local Open Scope cword_scope.

(** ** The code *)

(** [typedef uint32_t big[32]], least significant limb first. *)
Abbreviation big := (list Z).
Definition big_zero : big := replicate 32 0.

(** Returns 0 or -1 and the array after the call. *)
Definition multiply10 (a : big) (add : Z) : Z * big :=
  let '(a, carry) := for_loop 0 32 (λ i '(a, carry),
    let carry := u64 (carry + a !!! i * 10) in
    (<[i := u32 carry]> a, carry >>. 32)) (a, add) in
  (if bool_decide (carry ≠ 0) then -1 else 0, a).

(** The loop of [compare] with [i] limbs left to look at. *)
Fixpoint compare_from (i : nat) (a b : big) : Z :=
  match i with
  | O => 0
  | S i => if bool_decide (a !!! i ≠ b !!! i)
           then if bool_decide (a !!! i > b !!! i) then 1 else -1
           else compare_from i a b
  end.
Definition compare (a b : big) : Z := compare_from 32 a b.

Definition subtract (a b : big) : big :=
  fst (for_loop 0 32 (λ i '(a, borrow),
    let sub := u64 (b !!! i + borrow) in
    let old := a !!! i in
    (<[i := old -32 u32 sub]> a, if bool_decide (old < sub) then 1 else 0)) (a, 0)).

(** The local variables of the scan of the mantissa. *)
Record scan := Scan {
  denominator : big; digits : nat; fractional : nat; point : bool; nonzero : bool
}.

Definition scan0 : scan := Scan big_zero 0 0 false false.

(** One character of the first loop; [None] is [return -1]. *)
Definition scan_char (st : scan) (c : Z) : option scan :=
  if bool_decide (c = chr ".") then
    if point st || bool_decide (digits st = 0%nat) then None
    else Some (Scan (denominator st) (digits st) (fractional st) true (nonzero st))
  else if bool_decide (c < chr "0") || bool_decide (c > chr "9") ||
          bool_decide (64 < digits st + 1)%nat then None
  else
    let fractional' := if point st then (fractional st + 1)%nat else fractional st in
    let nonzero' := nonzero st || bool_decide (c ≠ chr "0") in
    let '(rc, den) := multiply10 (denominator st) (c - chr "0") in
    if bool_decide (rc ≠ 0) then None
    else Some (Scan den (digits st + 1) fractional' (point st) nonzero').

(** The first loop: up to the end or an exponent mark. *)
Fixpoint scan_mantissa (s : list Z) (st : scan) : option (scan * list Z) :=
  match s with
  | [] => Some (st, [])
  | c :: s' =>
      if bool_decide (c = chr "e") || bool_decide (c = chr "E") then Some (st, s)
      else st' ← scan_char st c; scan_mantissa s' st'
  end.

(** The digits of the exponent. *)
Fixpoint scan_exponent (s : list Z) (exponent : Z) : option Z :=
  match s with
  | [] => Some exponent
  | c :: s =>
      if bool_decide (c < chr "0") || bool_decide (c > chr "9") || bool_decide (exponent > 128)
      then None
      else scan_exponent s (exponent * 10 + c - chr "0")
  end.

(** [if (p < n) { ... }]: the exponent with its sign. *)
Definition read_exponent (rest : list Z) : option Z :=
  match rest with
  | [] => Some 0
  | _ :: rest =>
      let '(negative, ds) := match rest with
        | c :: ds => if bool_decide (c = chr "+") || bool_decide (c = chr "-")
                     then (bool_decide (c = chr "-"), ds) else (false, rest)
        | [] => (false, rest)
        end in
      if bool_decide (ds = []) then None else
      e ← scan_exponent ds 0;
      Some (if negative : bool then - e else e)
  end.

(** [for (i < k) if (multiply10(a, 0)) return -1;] *)
Fixpoint scale10 (k : nat) (a : big) : option big :=
  match k with
  | O => Some a
  | S k => let '(rc, a) := multiply10 a 0 in
           if bool_decide (rc ≠ 0) then None else scale10 k a
  end.

(** [remainder = remainder << 1 | carry], limb by limb. *)
Definition shift_in (remainder : big) (carry : Z) : big :=
  fst (for_loop 0 32 (λ i '(r, carry),
    let next := r !!! i >>. 31 in
    (<[i := (r !!! i <<. 1) .| carry]> r, next)) (remainder, carry)).

(** The body of the division loop at [bit]. *)
Definition divide_bit (numerator denominator : big) (bit : nat)
    (st : big * list Z * bool) : big * list Z * bool :=
  let '(remainder, out, overflow) := st in
  let carry := (numerator !!! (bit / 32)%nat >>. Z.of_nat (bit `mod` 32)%nat) .& 1 in
  let remainder := shift_in remainder carry in
  if bool_decide (compare remainder denominator >= 0) then
    let remainder := subtract remainder denominator in
    if bool_decide (256 <= bit)%nat then (remainder, out, true)
    else (remainder, <[(7 - bit / 32)%nat :=
            out !!! (7 - bit / 32)%nat .| (1 <<. Z.of_nat (bit `mod` 32)%nat)]> out, overflow)
  else (remainder, out, overflow).

(** The loop with [k] bits left: [bit = k-1, ..., 0]. *)
Fixpoint divide (k : nat) (numerator denominator : big) (st : big * list Z * bool)
    : big * list Z * bool :=
  match k with
  | O => st
  | S bit => divide bit numerator denominator (divide_bit numerator denominator bit st)
  end.

(** [None] is [return -1], which leaves [out] alone. *)
Definition bitcoin_target (s : list Z) : option (list Z) :=
  if bool_decide (length s = 0%nat) || bool_decide (80 < length s)%nat then None else
  '(st, rest) ← scan_mantissa s scan0;
  if negb (nonzero st) || (point st && bool_decide (fractional st = 0%nat)) then None else
  e ← read_exponent rest;
  let exponent := e - Z.of_nat (fractional st) in
  if bool_decide (exponent > 128) || bool_decide (exponent < -128) then None else
  let numerator := <[6%nat := 0xffff0000]> big_zero in
  den ← scale10 (Z.to_nat exponent) (denominator st);
  num ← scale10 (Z.to_nat (- exponent)) numerator;
  let '(_, out, overflow) := divide 1024 num den (big_zero, replicate 8 0, false) in
  Some (if overflow : bool then replicate 8 (2 ^ 32 - 1) else out).

(** ** Limb arithmetic *)

Definition big_val (a : big) : Z := le_value (2 ^ 32) a.
Definition is_big (a : big) : Prop := length a = 32%nat ∧ is_words a.

Lemma big_val_bound a : is_big a → 0 <= big_val a < 2 ^ 1024.
Proof. intros [Hl Ha]. pose proof (le_value_bound (2 ^ 32) ltac:(done) a Ha) as H. by rewrite Hl in H. Qed.

Lemma is_big_insert a i x : is_big a → is_u32 x → is_big (<[i := x]> a).
Proof. intros [Hl Ha] Hx. split; [len|by apply Forall_insert]. Qed.

Lemma big_zero_ok : is_big big_zero.
Proof. split; [done|]. by apply Forall_replicate. Qed.

(** The rule for a loop over the limbs that carries a value: if every step
    keeps [f i] of limb, carry and carry out balanced, the whole loop keeps
    the balance of the numbers. *)
Lemma limb_loop (σ : Z) (step : Z → nat → Z → Z * Z) (g : nat → Z) (C : Z → Prop) a c0 :
  is_big a → C c0 →
  (∀ c i x, C c → is_u32 x → (i < 32)%nat → x = a !!! i →
    is_u32 (fst (step c i x)) ∧ C (snd (step c i x)) ∧
    fst (step c i x) + 2 ^ 32 * (σ * snd (step c i x)) = x + g i + σ * c) →
  let r := for_loop 0 32 (λ i '(a, c),
    let '(x, c) := step c i (a !!! i) in (<[i := x]> a, c)) (a, c0) in
  is_big (fst r) ∧ C (snd r) ∧
  big_val (fst r) + 2 ^ 1024 * (σ * snd r) =
  big_val a + le_value (2 ^ 32) (g <$> seq 0 32) + σ * c0.
Proof.
  intros Ha Hc Hs r.
  pose (I := λ (i : nat) (r : big * Z), is_big (fst r) ∧ C (snd r) ∧
    (∀ j, (i <= j)%nat → fst r !!! j = a !!! j) ∧
    big_val (fst r) + 2 ^ (32 * Z.of_nat i) * (σ * snd r) =
    big_val a + le_value (2 ^ 32) (g <$> seq 0 i) + σ * c0).
  assert (I 32%nat r) as (H1 & H2 & _ & H3); [|by split_and!].
  apply (for_loop_ind I 0 32).
  - unfold I. split_and!; [done..|]. simpl. lia.
  - intros i [a' c] Hi (Ha' & Hc' & Hsame & Hval). cbn [fst snd] in *.
    change (I (i + 1)%nat (let '(x, c) := step c i (a' !!! i) in (<[i := x]> a', c))).
    specialize (Hs c i (a' !!! i) Hc' ltac:(apply is_words_lookup, Ha') ltac:(lia)
      ltac:(apply Hsame; lia)).
    destruct (step c i (a' !!! i)) as [x c']. cbn [fst snd] in *.
    destruct Hs as (Hx & Hc'' & Heq). unfold I. cbn [fst snd]. split_and!.
    + by apply is_big_insert.
    + done.
    + intros j Hj. rewrite list_lookup_total_insert_ne by lia. apply Hsame. lia.
    + unfold big_val in *. rewrite le_value_insert by (done || (destruct Ha'; lia)).
      rewrite Nat.add_1_r, seq_S, fmap_app, le_value_app by done. simpl (0 + i)%nat.
      rewrite length_fmap, length_seq, Nat2Z.inj_succ, Z.mul_succ_r, Z.pow_add_r by lia.
      rewrite <-Z.pow_mul_r by lia. cbn [fmap list_fmap le_value]. nia.
Qed.

Lemma le_value_const_scale (f : nat → Z) k n :
  le_value (2 ^ 32) ((λ i, k * f i) <$> seq 0 n) = k * le_value (2 ^ 32) (f <$> seq 0 n).
Proof.
  generalize 0%nat. induction n as [|n IH]; intros lo; [simpl; lia|].
  cbn [seq]. rewrite !fmap_cons. cbn [le_value]. rewrite IH. ring.
Qed.

Lemma big_val_seq a : is_big a → le_value (2 ^ 32) ((λ i, a !!! i) <$> seq 0 32) = big_val a.
Proof.
  intros [Hl _]. unfold big_val. f_equal. by apply fmap_seq_lookup.
Qed.

(** [multiply10] multiplies by ten and adds a digit, and fails exactly when
    the result needs more than 1024 bits. *)
Lemma multiply10_spec a add :
  is_big a → 0 <= add < 10 →
  let '(rc, a') := multiply10 a add in
  is_big a' ∧
  if bool_decide (10 * big_val a + add < 2 ^ 1024)
  then rc = 0 ∧ big_val a' = 10 * big_val a + add else rc = -1.
Proof.
  intros Ha Hadd.
  unfold multiply10.
  pose proof (limb_loop 1 (λ c i x, (u32 (u64 (c + x * 10)), u64 (c + x * 10) >>. 32))
    (λ i, 9 * a !!! i) (λ c, 0 <= c < 10) a add Ha Hadd) as H. cbv beta iota zeta in H.
  destruct (for_loop _ _ _ _) as [a' c]. cbn [fst snd] in H.
  rewrite le_value_const_scale, big_val_seq in H by done.
  destruct H as (Ha' & Hc & Hv).
  { intros c' i x Hc' [Hx1 Hx2] _ <-. rewrite u64_small by (split; lia).
    split; [apply u32_range|]. rewrite Z.shiftr_div_pow2 by lia. unfold u32. clear - Hc' Hx1 Hx2. split; dlia. }
  split; [done|]. pose proof (big_val_bound a' Ha').
  case_bool_decide; case_bool_decide; try lia.
Qed.

Lemma subtract_spec a b :
  is_big a → is_big b → big_val b <= big_val a →
  is_big (subtract a b) ∧ big_val (subtract a b) = big_val a - big_val b.
Proof.
  intros Ha Hb Hle. unfold subtract.
  pose proof (limb_loop (-1) (λ c i x, (x -32 u32 (u64 (b !!! i + c)),
      if bool_decide (x < u64 (b !!! i + c)) then 1 else 0))
    (λ i, -1 * b !!! i) (λ c, 0 <= c < 2) a 0 Ha ltac:(cbv beta; lia)) as H. cbv beta iota zeta in H.
  destruct (for_loop _ _ _ _) as [a' c]. cbn [fst snd] in *.
  rewrite le_value_const_scale, big_val_seq in H by done.
  destruct H as (Ha' & Hc & Hv).
  { intros c' i x Hc' [Hx1 Hx2] _ _. destruct (is_words_lookup b i (proj2 Hb)) as [Hb1 Hb2].
    rewrite u64_small by (split; lia). split; [apply u32_range|].
    unfold u32. clear - Hc' Hx1 Hx2 Hb1 Hb2. case_bool_decide; split; try lia; dlia. }
  split; [done|]. pose proof (big_val_bound a' Ha'). pose proof (big_val_bound b Hb).
  pose proof (big_val_bound a Ha). lia.
Qed.

Lemma shift_in_spec r carry :
  is_big r → 0 <= carry < 2 → 2 * big_val r + carry < 2 ^ 1024 →
  is_big (shift_in r carry) ∧ big_val (shift_in r carry) = 2 * big_val r + carry.
Proof.
  intros Hr Hc0 Hmax. unfold shift_in.
  pose proof (limb_loop 1 (λ c i x, ((x <<. 1) .| c, x >>. 31))
    (λ i, 1 * r !!! i) (λ c, 0 <= c < 2) r carry Hr Hc0) as H. cbv beta iota zeta in H.
  destruct (for_loop _ _ _ _) as [r' c]. cbn [fst snd] in *.
  rewrite le_value_const_scale, big_val_seq in H by done.
  destruct H as (Hr' & Hc & Hv).
  { intros c' i x Hc' [Hx1 Hx2] _ <-. rewrite shl32_mod by lia.
    rewrite lor_fields, Z.shiftr_div_pow2 by (lia || (split; lia)).
    change (2 ^ (32 - 1)) with (2 ^ 31). clear - Hc' Hx1 Hx2. unfold in_bits. split_and!; dlia. }
  split; [done|]. pose proof (big_val_bound r' Hr'). lia.
Qed.

Lemma compare_from_spec i a b :
  is_big a → is_big b → (i <= 32)%nat →
  compare_from i a b =
  Z.sgn (le_value (2 ^ 32) (take i a) - le_value (2 ^ 32) (take i b)).
Proof.
  intros Ha Hb. induction i as [|i IH]; intros Hi; [done|]. cbn [compare_from].
  destruct Ha as [Hla Hwa], Hb as [Hlb Hwb].
  rewrite !le_value_take_S by (done || lia).
  pose proof (is_words_lookup a i Hwa). pose proof (is_words_lookup b i Hwb).
  pose proof (le_value_bound (2 ^ 32) ltac:(done) (take i a) ltac:(by apply Forall_take)) as Ba.
  pose proof (le_value_bound (2 ^ 32) ltac:(done) (take i b) ltac:(by apply Forall_take)) as Bb.
  rewrite length_take, Nat.min_l in Ba, Bb by lia.
  case_bool_decide as Hne; [case_bool_decide as Hgt|].
  - symmetry. apply Z.sgn_pos. nia.
  - symmetry. apply Z.sgn_neg. nia.
  - rewrite IH by lia. f_equal. replace (a !!! i) with (b !!! i) by lia. lia.
Qed.

Lemma compare_spec a b : is_big a → is_big b → compare a b = Z.sgn (big_val a - big_val b).
Proof.
  intros Ha Hb. unfold compare. rewrite compare_from_spec by done.
  by rewrite !take_ge by (destruct Ha, Hb; lia).
Qed.

(** ** Long division *)

(** The target as a number: [out[0]] is the most significant word. *)
Definition target_val (out : list Z) : Z := le_value (2 ^ 32) (rev out).
Definition is_target (out : list Z) : Prop := length out = 8%nat ∧ is_words out.

Lemma is_target_rev out : is_target out → length (rev out) = 8%nat ∧ is_words (rev out).
Proof. intros [Hl Hw]. split; [by rewrite length_rev|]. by apply Forall_rev. Qed.

Lemma lor_bit w m : is_u32 w → 0 <= m < 32 → Z.testbit w m = false → w .| (1 <<. m) = w + 2 ^ m.
Proof.
  intros Hw Hm Hb. rewrite (shl32_small 1 1 m) by (lia || done). rewrite Z.mul_1_l.
  symmetry. apply Z.add_nocarry_lor. apply Z.bits_inj'. intros i Hi.
  rewrite Z.land_spec, Z.bits_0. destruct (decide (i = m)) as [->|Hne]; [by rewrite Hb|].
  by rewrite Z.pow2_bits_false, andb_false_r by lia.
Qed.

Lemma set_target_bit out bit :
  is_target out → (bit < 256)%nat → Z.testbit (target_val out) (Z.of_nat bit) = false →
  let out' := <[(7 - bit / 32)%nat :=
    out !!! (7 - bit / 32)%nat .| (1 <<. Z.of_nat (bit `mod` 32)%nat)]> out in
  is_target out' ∧ target_val out' = target_val out + 2 ^ Z.of_nat bit.
Proof.
  intros Ho Hb Ht out'. destruct (is_target_rev out Ho) as [Hrl Hrw]. destruct Ho as [Hl Hw].
  pose proof (Nat.div_mod_eq bit 32) as Hdm.
  pose proof (Nat.mod_upper_bound bit 32 ltac:(done)) as Hm.
  assert (bit / 32 < 8)%nat as Hj by (apply Nat.Div0.div_lt_upper_bound; lia).
  set (j := (bit / 32)%nat) in *. set (m := (bit `mod` 32)%nat) in *.
  replace (Z.of_nat bit) with (32 * Z.of_nat j + Z.of_nat m) in * by lia.
  unfold target_val in Ht. rewrite le_value_testbit in Ht by (done || lia).
  assert (rev out !!! j = out !!! (7 - j)%nat) as Hr.
  { clear -Hl Hj. do 8 (destruct out as [|? out]; [discriminate Hl|]).
    destruct out; [|discriminate Hl]. do 8 (destruct j as [|j]; [reflexivity|]). lia. }
  rewrite Hr in Ht. pose proof (is_words_lookup out (7 - j) Hw) as Hu.
  assert (out !!! (7 - j)%nat .| (1 <<. Z.of_nat m) = out !!! (7 - j)%nat + 2 ^ Z.of_nat m) as Hlor
    by (apply lor_bit; (done || lia)).
  unfold out'. split.
  - split; [len|]. apply Forall_insert; [done|]. apply u32_lor; [done|apply shl32_range].
  - rewrite Hlor. clear Hlor Hu Ht Hr Hrl Hrw Hw out' Hdm.
    rewrite Z.pow_add_r by lia. generalize (2 ^ Z.of_nat m). intros p.
    do 8 (destruct out as [|? out]; [discriminate Hl|]). destruct out; [|discriminate Hl].
    unfold target_val.
    do 8 (destruct j as [|j]; [cbn [insert list_insert lookup_total list_lookup_total rev app
      le_value Nat.sub]; simpl (2 ^ (32 * _)); lia|]). lia.
Qed.

(** One step of binary long division. *)
Lemma division_step n D :
  0 < D →
  let r := 2 * ((n / 2) `mod` D) + n `mod` 2 in
  let one := if bool_decide (D <= r) then 1 else 0 in
  n `mod` D = r - one * D ∧ n / D = 2 * (n / 2 / D) + one.
Proof.
  intros HD r one. pose proof (Z.div_mod n 2 ltac:(lia)) as Hn.
  pose proof (Z.div_mod (n / 2) D ltac:(lia)) as Hd.
  pose proof (Z.mod_pos_bound (n / 2) D HD) as Hr. pose proof (Z.mod_pos_bound n 2 ltac:(lia)).
  assert (0 <= r - one * D < D) as Hone by (unfold one; case_bool_decide; unfold r in *; lia).
  assert (n = D * (2 * (n / 2 / D) + one) + (r - one * D)) as Heq by (unfold r; lia).
  split; symmetry; [eapply Z.mod_unique|eapply Z.div_unique]; eauto.
Qed.

Section division.
Context (num den : big) (Hnum : is_big num) (Hden : is_big den).
Context (Hpos : 0 < big_val den) (Hmax : big_val den <= 2 ^ 1023).

(** The quotient of the [k]-bit-shifted numerator, back in place. *)
Definition quot_at (k : nat) : Z :=
  big_val num / 2 ^ Z.of_nat k / big_val den * 2 ^ Z.of_nat k.

(** The state of the division with [k] bits to go. *)
Definition division_inv (k : nat) (st : big * list Z * bool) : Prop :=
  let '(r, out, overflow) := st in
  is_big r ∧ big_val r = (big_val num / 2 ^ Z.of_nat k) `mod` big_val den ∧
  is_target out ∧ target_val out = quot_at k `mod` 2 ^ 256 ∧
  overflow = bool_decide (2 ^ 256 <= quot_at k).

Lemma quot_at_step bit b :
  b = (big_val num / 2 ^ Z.of_nat bit) `mod` 2 →
  let r := 2 * ((big_val num / 2 ^ Z.of_nat (S bit)) `mod` big_val den) + b in
  let one := if bool_decide (big_val den <= r) then 1 else 0 in
  (big_val num / 2 ^ Z.of_nat bit) `mod` big_val den = r - one * big_val den ∧
  quot_at bit = quot_at (S bit) + one * 2 ^ Z.of_nat bit.
Proof.
  intros -> r one. subst r one. unfold quot_at.
  rewrite Nat2Z.inj_succ, Z.pow_succ_r, (Z.mul_comm 2 (2 ^ _)), <-Z.div_div by lia.
  destruct (division_step (big_val num / 2 ^ Z.of_nat bit) (big_val den) Hpos) as [H1 H2].
  split; [done|]. rewrite H2. lia.
Qed.

Lemma numerator_bit bit :
  (bit < 1024)%nat →
  (num !!! (bit / 32)%nat >>. Z.of_nat (bit `mod` 32)%nat) .& 1 =
  (big_val num / 2 ^ Z.of_nat bit) `mod` 2.
Proof.
  intros Hb. pose proof (Nat.div_mod_eq bit 32) as Hdm.
  pose proof (Nat.mod_upper_bound bit 32 ltac:(done)) as Hm.
  change 1 with (Z.ones 1). rewrite Z.land_ones, <-Z.shiftr_div_pow2 by lia.
  change (2 ^ 1) with 2. rewrite <-!Z.bit0_mod, !Z.shiftr_spec, !Z.add_0_l by lia. f_equal.
  replace (Z.of_nat bit) with (32 * Z.of_nat (bit / 32) + Z.of_nat (bit `mod` 32)) by lia.
  symmetry. apply le_value_testbit; [lia|apply Hnum|lia|].
  rewrite (proj1 Hnum). apply Nat.Div0.div_lt_upper_bound. lia.
Qed.

(** Below bit [k] the quotient so far is zero, so the next bit is free. *)
Lemma quot_at_low k : ∃ c, 0 <= c ∧ quot_at k = c * 2 ^ Z.of_nat k.
Proof.
  exists (big_val num / 2 ^ Z.of_nat k / big_val den). split; [|done].
  pose proof (big_val_bound num Hnum). repeat apply Z.div_pos; lia.
Qed.

Lemma quot_step_mod bit one :
  (bit < 256)%nat → 0 <= one <= 1 →
  (quot_at (S bit) + one * 2 ^ Z.of_nat bit) `mod` 2 ^ 256 =
    quot_at (S bit) `mod` 2 ^ 256 + one * 2 ^ Z.of_nat bit ∧
  Z.testbit (quot_at (S bit) `mod` 2 ^ 256) (Z.of_nat bit) = false ∧
  (2 ^ 256 <= quot_at (S bit) + one * 2 ^ Z.of_nat bit ↔ 2 ^ 256 <= quot_at (S bit)).
Proof.
  intros Hb Hone. destruct (quot_at_low (S bit)) as (c & Hc & ->).
  assert (2 ^ 256 = 2 ^ (256 - Z.of_nat (S bit)) * 2 ^ Z.of_nat (S bit)) as H256
    by (rewrite <-Z.pow_add_r by lia; f_equal; lia).
  assert (2 ^ Z.of_nat (S bit) = 2 * 2 ^ Z.of_nat bit) as HS
    by (rewrite Nat2Z.inj_succ, Z.pow_succ_r; lia).
  set (P := 2 ^ (256 - Z.of_nat (S bit))) in *. assert (0 < P) by (unfold P; lia).
  assert (0 < 2 ^ Z.of_nat bit) as Hp by lia. set (t := 2 ^ Z.of_nat bit) in *.
  pose proof (Z.mod_pos_bound c P ltac:(lia)). pose proof (Z.div_mod c P ltac:(lia)).
  assert ((c * 2 ^ Z.of_nat (S bit)) `mod` 2 ^ 256 = c `mod` P * 2 ^ Z.of_nat (S bit)) as Hmod
    by (rewrite H256; apply Zmult_mod_distr_r).
  split_and!.
  - rewrite Hmod. symmetry.
    apply (Z.mod_unique _ _ (c / P)); [left; rewrite H256, HS; nia|]. rewrite H256, HS. nia.
  - rewrite Hmod. by apply Z.mul_pow2_bits_low; lia.
  - rewrite H256, HS. split; intros; nia.
Qed.

Lemma divide_bit_inv bit st :
  (bit < 1024)%nat → division_inv (S bit) st → division_inv bit (divide_bit num den bit st).
Proof.
  intros Hb. destruct st as [[r out] ov]. intros (Hr & Hrv & Ho & Hov & Hovf). unfold divide_bit.
  rewrite numerator_bit by done. set (b := (big_val num / 2 ^ Z.of_nat bit) `mod` 2).
  assert (0 <= b < 2) as Hb2 by (apply Z.mod_pos_bound; lia).
  destruct (quot_at_step bit b eq_refl) as [Hmod Hq]. rewrite <-Hrv in Hmod, Hq.
  pose proof (Z.mod_pos_bound (big_val num / 2 ^ Z.of_nat (S bit)) _ Hpos) as Hlt.
  rewrite <-Hrv in Hlt.
  destruct (shift_in_spec r b Hr Hb2) as [Hs Hsv]; [lia|].
  rewrite compare_spec, Hsv by done.
  destruct (decide (big_val den <= 2 * big_val r + b)) as [Hge|Hge].
  - rewrite (bool_decide_true (big_val den <= _)) in Hmod, Hq by done.
    rewrite bool_decide_true by lia.
    destruct (subtract_spec _ den Hs Hden ltac:(lia)) as [Hsub Hsubv].
    destruct (decide (256 <= bit)%nat) as [Hhi|Hlo].
    + rewrite bool_decide_true by done. unfold division_inv. split_and!; [done|lia|done| |].
      * rewrite Hov, Hq. replace (Z.of_nat bit) with (Z.of_nat (bit - 256) + 256) by lia.
        by rewrite Z.pow_add_r, Z.mul_1_l, Z_mod_plus_full by lia.
      * symmetry. apply bool_decide_true. destruct (quot_at_low (S bit)) as (c & Hc & ->) in Hq.
        assert (2 ^ 256 <= 2 ^ Z.of_nat bit) by (apply Z.pow_le_mono_r; lia). nia.
    + rewrite bool_decide_false by lia. destruct (quot_step_mod bit 1) as (H1 & H2 & H3); [lia..|].
      rewrite <-Hov in H2. destruct (set_target_bit out bit Ho ltac:(lia) H2) as [Ht Htv].
      unfold division_inv. split_and!; [done|lia|apply Ht..| |].
      * rewrite Htv, Hov, Hq, H1. lia.
      * rewrite Hovf, Hq. by apply bool_decide_ext.
  - rewrite (bool_decide_false (big_val den <= _)) in Hmod, Hq by done.
    rewrite bool_decide_false by lia. rewrite Z.mul_0_l, Z.add_0_r in Hq.
    unfold division_inv. rewrite Hq. by split_and!; [done|lia|..].
Qed.

Lemma divide_inv k st : (k <= 1024)%nat → division_inv k st → division_inv 0 (divide k num den st).
Proof.
  revert st. induction k as [|k IH]; intros st Hk Hst; [done|].
  apply IH; [lia|]. by apply divide_bit_inv.
Qed.

(** The division loop computes the quotient modulo 2^256 and flags overflow. *)
Lemma divide_spec :
  let '(_, out, overflow) := divide 1024 num den (big_zero, replicate 8 0, false) in
  is_target out ∧ target_val out = (big_val num / big_val den) `mod` 2 ^ 256 ∧
  overflow = bool_decide (2 ^ 256 <= big_val num / big_val den).
Proof.
  pose proof (divide_inv 1024 (big_zero, replicate 8 0, false) ltac:(done)) as H.
  destruct (divide _ _ _ _) as [[r out] ov]. unfold division_inv, quot_at in H.
  simpl (2 ^ Z.of_nat 0) in H. rewrite Z.div_1_r, Z.mul_1_r in H. apply H.
  rewrite (Z.div_small (big_val num)) by (apply (big_val_bound num Hnum)).
  rewrite Z.mod_0_l, Z.div_0_l, Z.mul_0_l by lia.
  by split_and!; [apply big_zero_ok| |split; [|apply Forall_replicate]|..].
Qed.
End division.

(** Repeated multiplication by ten; it cannot fail below 10^256. *)
Lemma scale10_spec k a :
  is_big a → big_val a * 10 ^ Z.of_nat k < 2 ^ 1024 →
  ∃ a', scale10 k a = Some a' ∧ is_big a' ∧ big_val a' = big_val a * 10 ^ Z.of_nat k.
Proof.
  revert a. induction k as [|k IH]; intros a Ha Hlt.
  { exists a. split_and!; [done..|simpl; lia]. }
  rewrite Nat2Z.inj_succ, Z.pow_succ_r in * by lia. cbn [scale10].
  pose proof (multiply10_spec a 0 Ha ltac:(lia)) as Hm. destruct (multiply10 a 0) as [rc a1].
  assert (0 < 10 ^ Z.of_nat k) by lia. pose proof (big_val_bound a Ha).
  rewrite bool_decide_true in Hm by nia. destruct Hm as (Ha1 & -> & Hv).
  rewrite bool_decide_false by lia. destruct (IH a1 Ha1) as (a' & H1 & H2 & H3); [nia|].
  exists a'. split_and!; [done..|]. rewrite H3, Hv. lia.
Qed.

(** ** The grammar of difficulties *)

Module Decimal.
(** An unsigned decimal number as JSON writes it: integer digits, optional
    fraction, optional exponent with mark and sign. *)
Record number := Number {
  int_part : list Z;
  frac_part : option (list Z);
  exp_part : option (bool * option bool * list Z)  (* upper-case mark, minus sign, digits *)
}.

Abbreviation is_digits := (Forall (λ d, 0 <= d < 10)).
Definition chars (ds : list Z) : list Z := (λ d, chr "0" + d) <$> ds.

Definition wf (x : number) : Prop :=
  int_part x ≠ [] ∧ is_digits (int_part x) ∧
  (∀ f, frac_part x = Some f → f ≠ [] ∧ is_digits f) ∧
  (∀ m s e, exp_part x = Some (m, s, e) → e ≠ [] ∧ is_digits e).

Definition render_sign (s : option bool) : list Z :=
  match s with Some true => str "-" | Some false => str "+" | None => [] end.
Definition render_frac (f : option (list Z)) : list Z :=
  match f with Some f => chr "." :: chars f | None => [] end.
Definition render_exp (e : option (bool * option bool * list Z)) : list Z :=
  match e with
  | Some (m, s, e) => (if m : bool then chr "E" else chr "e") :: render_sign s ++ chars e
  | None => []
  end.
Definition render (x : number) : list Z :=
  chars (int_part x) ++ render_frac (frac_part x) ++ render_exp (exp_part x).

Definition value_from (v : Z) (ds : list Z) : Z := foldl (λ v d, 10 * v + d) v ds.
Definition frac_digits (x : number) : list Z := default [] (frac_part x).
Definition mantissa (x : number) : Z := value_from 0 (int_part x ++ frac_digits x).
Definition exp_value (e : option (bool * option bool * list Z)) : Z :=
  match e with
  | Some (_, Some true, e) => - value_from 0 e
  | Some (_, _, e) => value_from 0 e
  | None => 0
  end.
(** The number is [mantissa x * 10 ^ exponent x]. *)
Definition exponent (x : number) : Z := exp_value (exp_part x) - Z.of_nat (length (frac_digits x)).
End Decimal.
Import Decimal.

(** The difficulty-one target. *)
Definition target1 : Z := 0xffff * 2 ^ 208.

(** floor(target1 / (m * 10^e)). *)
Definition target_div (m e : Z) : Z :=
  if bool_decide (0 <= e) then target1 / (m * 10 ^ e) else target1 * 10 ^ (- e) / m.

(** What [bitcoin_target] promises for a decimal number. *)
Definition target_spec (x : number) : option Z :=
  if bool_decide (80 < length (render x))%nat ||
     bool_decide (64 < length (int_part x ++ frac_digits x))%nat ||
     bool_decide (mantissa x = 0) || bool_decide (128 < Z.abs (exponent x))
  then None else Some (Z.min (2 ^ 256 - 1) (target_div (mantissa x) (exponent x))).

(** ** Scanning *)

Definition scan_ok (st : scan) (v : Z) (n f : nat) (p : bool) : Prop :=
  is_big (denominator st) ∧ big_val (denominator st) = v ∧ digits st = n ∧
  fractional st = f ∧ point st = p ∧ nonzero st = bool_decide (v ≠ 0) ∧
  0 <= v < 10 ^ Z.of_nat n.

Lemma scan_digit st v n f p d :
  scan_ok st v n f p → 0 <= d < 10 →
  if bool_decide (64 <= n)%nat then scan_char st (chr "0" + d) = None
  else ∃ st', scan_char st (chr "0" + d) = Some st' ∧
    scan_ok st' (10 * v + d) (n + 1) (if p then f + 1 else f)%nat p.
Proof.
  intros (Hb & Hv & Hn & Hf & Hp & Hz & Hlt) Hd. unfold scan_char.
  change (chr ".") with 46. change (chr "0") with 48. change (chr "9") with 57.
  rewrite (bool_decide_false (_ = 46)) by lia. rewrite (bool_decide_false (_ < 48)) by lia.
  rewrite (bool_decide_false (_ > 57)) by lia. cbn [orb].
  destruct (decide (64 <= n)%nat).
  { rewrite !bool_decide_true by lia. done. }
  rewrite !(bool_decide_false (64 <= n)%nat), (bool_decide_false (64 < _)%nat) by lia.
  replace (48 + d - 48) with d by lia.
  pose proof (multiply10_spec (denominator st) d Hb Hd) as Hm.
  destruct (multiply10 _ _) as [rc den]. destruct Hm as [Hden Hm].
  assert (10 * v + d < 10 ^ Z.of_nat (n + 1)) as Hup.
  { rewrite Nat2Z.inj_add, Z.pow_add_r by lia. change (10 ^ Z.of_nat 1) with 10. lia. }
  assert (10 ^ Z.of_nat (n + 1) <= 10 ^ 64) by (apply Z.pow_le_mono_r; lia).
  assert (10 ^ 64 < 2 ^ 1024) by (by vm_compute).
  rewrite bool_decide_true in Hm by lia. destruct Hm as [-> Hval].
  rewrite bool_decide_false by lia. eexists. split; [done|].
  unfold scan_ok. cbn [denominator digits fractional point nonzero]. rewrite Hp, Hf, Hz.
  split_and!; [exact Hden|lia|lia|reflexivity|reflexivity| |lia|exact Hup].
  rewrite <-bool_decide_or. apply bool_decide_ext. lia.
Qed.

Lemma scan_char_mark c rest st :
  (c = chr "e" ∨ c = chr "E") → scan_mantissa (c :: rest) st = Some (st, c :: rest).
Proof. intros Hc. cbn [scan_mantissa]. rewrite <-bool_decide_or. by rewrite bool_decide_true. Qed.

Lemma scan_mantissa_char c rest st :
  c ≠ chr "e" → c ≠ chr "E" →
  scan_mantissa (c :: rest) st = st' ← scan_char st c; scan_mantissa rest st'.
Proof. intros. cbn [scan_mantissa]. by rewrite !bool_decide_false. Qed.

Lemma scan_digits ds rest st v n f p :
  scan_ok st v n f p → is_digits ds →
  if bool_decide (64 < n + length ds)%nat
  then (64 < n + length ds)%nat → ds ≠ [] → scan_mantissa (chars ds ++ rest) st = None
  else ∃ st', scan_mantissa (chars ds ++ rest) st = scan_mantissa rest st' ∧
    scan_ok st' (value_from v ds) (n + length ds) (if p then f + length ds else f)%nat p.
Proof.
  intros Hst Hds. revert st v n f Hst.
  induction Hds as [|d ds Hd Hds IH]; intros st v n f Hst.
  - case_bool_decide; [done|]. exists st. split; [done|]. cbn [length value_from foldl].
    rewrite !Nat.add_0_r. by destruct p.
  - assert (chars (d :: ds) ++ rest = (chr "0" + d) :: (chars ds ++ rest)) as -> by done.
    rewrite scan_mantissa_char by (change (chr "0") with 48; change (chr "e") with 101;
      change (chr "E") with 69; lia).
    pose proof (scan_digit st v n f p d Hst Hd) as Hs. cbn [length].
    destruct (decide (64 <= n)%nat) as [Hn|Hn].
    + rewrite bool_decide_true in Hs by done. rewrite Hs. rewrite bool_decide_true by lia. done.
    + rewrite bool_decide_false in Hs by done. destruct Hs as (st' & -> & Hst').
      cbn [mbind option_bind]. specialize (IH st' _ _ _ Hst').
      replace (n + S (length ds))%nat with (n + 1 + length ds)%nat by lia.
      case_bool_decide as Hlen.
      * intros _ _. apply IH; [lia|]. intros ->. simpl in Hlen. lia.
      * destruct IH as (st'' & H1 & H2). exists st''. split; [done|].
        cbn [value_from foldl]. destruct p; [|done].
        by replace (f + S (length ds))%nat with (f + 1 + length ds)%nat by lia.
Qed.

Lemma scan_stop e st : scan_mantissa (render_exp e) st = Some (st, render_exp e).
Proof.
  destruct e as [[[m s] e]|]; [|done]. apply scan_char_mark. destruct m; auto.
Qed.

Lemma scan0_ok : scan_ok scan0 0 0 0 false.
Proof. unfold scan_ok. by split_and!; [apply big_zero_ok|..]. Qed.

Lemma scan_point st v n rest :
  scan_ok st v n 0 false → (0 < n)%nat →
  ∃ st', scan_mantissa (chr "." :: rest) st = scan_mantissa rest st' ∧ scan_ok st' v n 0 true.
Proof.
  intros (Hb & Hv & Hn & Hf & Hp & Hz & Hlt) Hpos.
  rewrite scan_mantissa_char by done. unfold scan_char.
  rewrite bool_decide_true by done. rewrite Hp, bool_decide_false by lia. cbn [orb].
  eexists. split; [done|]. by unfold scan_ok.
Qed.

Lemma scan_number x :
  wf x →
  let n := length (int_part x ++ frac_digits x) in
  if bool_decide (64 < n)%nat then scan_mantissa (render x) scan0 = None
  else ∃ st p, scan_mantissa (render x) scan0 = Some (st, render_exp (exp_part x)) ∧
    scan_ok st (mantissa x) n (length (frac_digits x)) p ∧
    (p = true → frac_digits x ≠ []).
Proof.
  intros (Hi & Hid & Hf & _) n. unfold n, render, mantissa, frac_digits in *.
  destruct (frac_part x) as [f|]; cbn [render_frac default]; rewrite length_app.
  - destruct (Hf f eq_refl) as [Hfne Hfd]. cbn [default] in *.
    pose proof (scan_digits (int_part x) ((chr "." :: chars f) ++ render_exp (exp_part x)) scan0 0 0 0
      false scan0_ok Hid) as Hs.
    assert (0 < length (int_part x))%nat by (by destruct (int_part x); [|simpl; lia]).
    simpl (0 + _)%nat in Hs. destruct (decide (64 < length (int_part x))%nat).
    { rewrite bool_decide_true in Hs by done. rewrite bool_decide_true by (simpl; lia).
      by apply Hs. }
    rewrite bool_decide_false in Hs by done. destruct Hs as (st1 & -> & H1).
    rewrite <-app_comm_cons.
    destruct (scan_point st1 _ _ (chars f ++ render_exp (exp_part x)) H1) as (st2 & -> & H2); [done|].
    pose proof (scan_digits f (render_exp (exp_part x)) st2 _ _ _ _ H2 Hfd) as Hs2.
    unfold id. case_bool_decide; [by apply Hs2|].
    destruct Hs2 as (st3 & -> & H3). exists st3, true. rewrite scan_stop. split; [done|].
    split; [|done]. unfold value_from in *. by rewrite foldl_app.
  - cbn [default from_option]. rewrite !app_nil_r, !app_nil_l, Nat.add_0_r.
    pose proof (scan_digits (int_part x) (render_exp (exp_part x)) scan0 0 0 0
      false scan0_ok Hid) as Hs.
    simpl (0 + _)%nat in Hs. case_bool_decide; [by apply Hs|].
    destruct Hs as (st & -> & H1). exists st, false. rewrite scan_stop. by split_and!.
Qed.

Lemma value_from_ge v ds : 0 <= v → is_digits ds → v <= value_from v ds.
Proof.
  intros Hv Hd. revert v Hv. induction Hd as [|d ds Hd Hds IH]; intros v Hv; [done|].
  cbn [value_from foldl]. specialize (IH (10 * v + d) ltac:(lia)). unfold value_from in *. lia.
Qed.

Lemma scan_exponent_spec ds e :
  0 <= e → is_digits ds →
  scan_exponent (chars ds) e = Some (value_from e ds) ∨
  scan_exponent (chars ds) e = None ∧ 1290 <= value_from e ds.
Proof.
  intros He Hds. revert e He. induction Hds as [|d ds Hd Hds IH]; intros e He; [by left|].
  cbn [chars fmap list_fmap scan_exponent value_from foldl].
  change (chr "0") with 48. change (chr "9") with 57.
  rewrite (bool_decide_false (_ < 48)), (bool_decide_false (_ > 57)) by lia. cbn [orb].
  case_bool_decide.
  - right. split; [done|]. pose proof (value_from_ge (10 * e + d) ds ltac:(lia) Hds).
    unfold value_from in *. lia.
  - replace (e * 10 + (48 + d) - 48) with (10 * e + d) by lia. apply IH. lia.
Qed.

Lemma read_exponent_spec e :
  (∀ m s ds, e = Some (m, s, ds) → ds ≠ [] ∧ is_digits ds) →
  read_exponent (render_exp e) = Some (exp_value e) ∨
  read_exponent (render_exp e) = None ∧ 1290 <= Z.abs (exp_value e).
Proof.
  intros Hwf. destruct e as [[[m s] ds]|]; [|by left].
  destruct (Hwf m s ds eq_refl) as [Hne Hds]. cbn [render_exp read_exponent exp_value].
  pose proof (value_from_ge 0 ds ltac:(done) Hds) as H0.
  assert (chars ds ≠ []) as Hc by (by destruct ds).
  assert (∃ c r, chars ds = c :: r ∧ c ≠ chr "+" ∧ c ≠ chr "-") as (c & r & Hcr & Hp & Hm).
  { destruct Hds as [|d ds Hd Hds]; [done|]. exists (chr "0" + d), (chars ds).
    change (chr "0") with 48. change (chr "+") with 43. change (chr "-") with 45.
    split; [done|lia]. }
  destruct s as [[]|]; cbn [render_sign str app].
  - rewrite (bool_decide_true (_ = chr "-")), orb_true_r by done.
    rewrite (bool_decide_false (chars ds = [])) by done.
    destruct (scan_exponent_spec ds 0 ltac:(done) Hds) as [->|[-> ?]]; [by left|right; split; [done|lia]].
  - rewrite (bool_decide_true (_ = chr "+")), (bool_decide_false (_ = chr "-")) by done.
    cbn [orb]. rewrite (bool_decide_false (chars ds = [])) by done.
    destruct (scan_exponent_spec ds 0 ltac:(done) Hds) as [->|[-> ?]]; [by left|right; split; [done|lia]].
  - rewrite Hcr, (bool_decide_false (c = chr "+") Hp), (bool_decide_false (c = chr "-") Hm).
    cbn [orb]. rewrite <-Hcr, (bool_decide_false (chars ds = []) Hc).
    destruct (scan_exponent_spec ds 0 ltac:(done) Hds) as [->|[-> ?]]; [by left|right; split; [done|lia]].
Qed.

(** Both scaled operands stay far below 1024 bits. *)
Lemma scale_bound m k A :
  0 <= m <= A → (k <= 128)%nat → A * 10 ^ 128 < 2 ^ 1023 → m * 10 ^ Z.of_nat k < 2 ^ 1023.
Proof.
  intros Hm Hk. assert (0 < 10 ^ Z.of_nat k <= 10 ^ 128) as Hp.
  { change 128 with (Z.of_nat 128). split; [by apply Z.pow_pos_nonneg; lia|].
    apply Z.pow_le_mono_r; lia. }
  revert Hp. generalize (10 ^ Z.of_nat k) (10 ^ 128) (2 ^ 1023). intros p B M Hp Hlt. nia.
Qed.

Lemma big_val_target1 : big_val (<[6%nat := 0xffff0000]> big_zero) = target1.
Proof. by vm_compute. Qed.

(** The last stage: exact scaling and division. *)
Lemma target_stage st m n f p e :
  scan_ok st m n f p → (n <= 64)%nat → 0 < m → Z.abs e <= 128 →
  ∃ den num out ov,
    scale10 (Z.to_nat e) (denominator st) = Some den ∧
    scale10 (Z.to_nat (- e)) (<[6%nat := 0xffff0000]> big_zero) = Some num ∧
    (∃ r, divide 1024 num den (big_zero, replicate 8 0, false) = (r, out, ov)) ∧
    let out := if ov : bool then replicate 8 (2 ^ 32 - 1) else out in
    is_target out ∧ target_val out = Z.min (2 ^ 256 - 1) (target_div m e).
Proof.
  intros (Hb & Hv & Hn & _ & _ & _ & Hlt) Hn64 Hm He.
  assert (m <= 10 ^ 64) as Hm64.
  { apply Z.le_trans with (10 ^ Z.of_nat n); [lia|]. apply (Z.pow_le_mono_r 10 _ 64); lia. }
  assert (2 ^ 1023 < 2 ^ 1024) as H1024 by done.
  assert (is_big (<[6%nat := 0xffff0000]> big_zero)) as Hnb
    by (apply is_big_insert; [apply big_zero_ok|done]).
  assert (m * 10 ^ Z.of_nat (Z.to_nat e) < 2 ^ 1023) as Hsd
    by (apply (scale_bound m _ (10 ^ 64)); [lia|lia|done]).
  assert (target1 * 10 ^ Z.of_nat (Z.to_nat (- e)) < 2 ^ 1023) as Hsn
    by (apply (scale_bound target1 _ target1); [done|lia|done]).
  destruct (scale10_spec (Z.to_nat e) (denominator st) Hb) as (den & Hd1 & Hd2 & Hd3);
    [rewrite Hv; by etrans|].
  destruct (scale10_spec (Z.to_nat (- e)) _ Hnb) as (num & Hn1 & Hn2 & Hn3);
    [rewrite big_val_target1; by etrans|].
  rewrite Hv in Hd3. rewrite big_val_target1 in Hn3. exists den, num.
  assert (0 < big_val den) as Hdp by (rewrite Hd3; apply Z.mul_pos_pos; [done|by apply Z.pow_pos_nonneg; lia]).
  assert (big_val den <= 2 ^ 1023) as Hdm by (rewrite Hd3; by apply Z.lt_le_incl).
  pose proof (divide_spec num den Hn2 Hd2 Hdp Hdm) as Hdiv.
  destruct (divide _ _ _ _) as [[r out] ov]. destruct Hdiv as (Ho & Hov & Hovf).
  exists out, ov. split_and!; [done|done|by exists r|].
  assert (big_val num / big_val den = target_div m e) as Hq.
  { rewrite Hn3, Hd3. unfold target_div. destruct (decide (0 <= e)).
    - rewrite bool_decide_true by done. replace (Z.to_nat (- e)) with 0%nat by lia.
      rewrite Z2Nat.id by done. simpl (10 ^ Z.of_nat 0). by rewrite Z.mul_1_r.
    - rewrite bool_decide_false by done. replace (Z.to_nat e) with 0%nat by lia.
      rewrite Z2Nat.id by lia. simpl (10 ^ Z.of_nat 0). by rewrite Z.mul_1_r. }
  rewrite Hq in *. subst ov. case_bool_decide as Hbig.
  - split; [split; [done|by apply Forall_replicate]|].
    replace (target_val (replicate 8 (2 ^ 32 - 1))) with (2 ^ 256 - 1) by (by vm_compute). lia.
  - split; [done|]. rewrite Hov, Z.mod_small; [lia|]. split; [|lia]. rewrite <-Hq.
    apply Z.div_pos; [apply (big_val_bound num Hn2)|done].
Qed.

Lemma render_nonempty x : wf x → length (render x) ≠ 0%nat.
Proof. intros (Hi & _). unfold render, chars. destruct (int_part x); [done|]. simpl. lia. Qed.

Lemma value_from_mantissa_nonneg x : wf x → 0 <= mantissa x.
Proof.
  intros (_ & Hi & Hf & _). apply (value_from_ge 0); [done|]. apply Forall_app. split; [done|].
  unfold frac_digits. destruct (frac_part x) as [f|]; [by apply Hf|constructor].
Qed.

Lemma bitcoin_target_render x :
  wf x →
  match bitcoin_target (render x) with
  | Some out => is_target out ∧ target_spec x = Some (target_val out)
  | None => target_spec x = None
  end.
Proof.
  intros Hwf. pose proof (render_nonempty x Hwf) as Hne. pose proof (scan_number x Hwf) as Hs.
  pose proof (value_from_mantissa_nonneg x Hwf) as Hm0. cbv zeta in Hs.
  unfold bitcoin_target, target_spec. rewrite (bool_decide_false (_ = 0%nat)) by done. cbn [orb].
  destruct (bool_decide (80 < length (render x))%nat); [done|]. cbn [orb].
  set (n := length (int_part x ++ frac_digits x)) in *.
  destruct (bool_decide_reflect (64 < n)%nat) as [Hn|Hn]; [by rewrite Hs|]. cbn [orb].
  destruct Hs as (st & p & -> & Hok & Hp). cbn [mbind option_bind].
  assert (scan_ok st (mantissa x) n (length (frac_digits x)) p) as Hok' by done.
  destruct Hok as (_ & _ & _ & Hf & Hpt & Hz & _). rewrite Hz, Hpt, Hf.
  assert (p && bool_decide (length (frac_digits x) = 0%nat) = false) as ->.
  { destruct p; [|done]. specialize (Hp eq_refl). apply bool_decide_false.
    by intros ?%nil_length_inv. }
  rewrite orb_false_r, <-bool_decide_not. destruct (decide (mantissa x = 0)) as [Hm|Hm].
  { rewrite !bool_decide_true by lia. done. }
  rewrite !(bool_decide_false (mantissa x = 0)), (bool_decide_false (¬ _)) by lia. cbn [orb].
  assert (length (frac_digits x) <= 64)%nat as Hfl by (unfold n in Hn; rewrite length_app in Hn; lia).
  destruct (read_exponent_spec (exp_part x)) as [->|[-> Hbig]]; [apply Hwf| |].
  - cbn [mbind option_bind]. fold (exponent x).
    destruct (decide (128 < Z.abs (exponent x))) as [He|He].
    { rewrite (bool_decide_true (128 < _)) by done. rewrite <-bool_decide_or, bool_decide_true by lia. done. }
    rewrite (bool_decide_false (128 < _)), <-bool_decide_or, bool_decide_false by lia.
    destruct (target_stage st (mantissa x) n _ p (exponent x) Hok')
      as (den & num & out & ov & -> & -> & (r & Hd) & Hout); [lia..|].
    cbn [mbind option_bind]. rewrite Hd. cbv zeta in Hout. destruct Hout as [H1 H2].
    split; [exact H1|]. by rewrite H2.
  - cbn [mbind option_bind]. rewrite bool_decide_true; [done|]. unfold exponent. lia.
Qed.

(** ** Everything accepted is a number *)

Lemma is_digit_char c :
  ¬ c < chr "0" → ¬ c > chr "9" → ∃ d, 0 <= d < 10 ∧ c = chr "0" + d.
Proof. change (chr "0") with 48. change (chr "9") with 57. intros. exists (c - 48). lia. Qed.

Lemma scan_char_inv st c st' :
  scan_char st c = Some st' →
  (c = chr "." ∧ point st = false ∧ digits st ≠ 0%nat ∧ point st' = true ∧
   fractional st' = fractional st) ∨
  (∃ d, 0 <= d < 10 ∧ c = chr "0" + d ∧ point st' = point st ∧ digits st' = (digits st + 1)%nat ∧
   fractional st' = if point st then (fractional st + 1)%nat else fractional st).
Proof.
  unfold scan_char. case_bool_decide as Hc.
  - destruct (point st) eqn:Hp; [done|]. cbn [orb]. case_bool_decide; [done|].
    intros [= <-]. by left.
  - rewrite <-!bool_decide_or. case_bool_decide as Hd; [done|].
    destruct (multiply10 _ _) as [rc den]. case_bool_decide; [done|]. intros [= <-]. right.
    destruct (is_digit_char c) as (d & Hd1 & Hd2); [tauto..|]. by exists d.
Qed.

(** What a successful scan has read from a state that has seen the point,
    and from one that has not. *)
Lemma scan_mantissa_inv s st st' rest :
  scan_mantissa s st = Some (st', rest) →
  (rest = [] ∨ ∃ m r, rest = (if m : bool then chr "E" else chr "e") :: r) ∧
  ∃ ds, is_digits ds ∧
    if point st then
      s = chars ds ++ rest ∧ point st' = true ∧ fractional st' = (fractional st + length ds)%nat
    else
      (s = chars ds ++ rest ∧ point st' = false ∧ digits st' = (digits st + length ds)%nat) ∨
      (∃ fs, is_digits fs ∧ s = chars ds ++ chr "." :: chars fs ++ rest ∧ point st' = true ∧
        (digits st + length ds ≠ 0)%nat ∧ fractional st' = (fractional st + length fs)%nat).
Proof.
  revert st. induction s as [|c s IH]; intros st.
  { intros [= <- <-]. split; [by left|]. exists []. split; [constructor|].
    destruct (point st); [|left]; split_and!; try done; simpl; lia. }
  cbn [scan_mantissa]. rewrite <-bool_decide_or. case_bool_decide as Hmark.
  { intros [= <- <-]. split.
    - right. destruct Hmark as [->| ->]; [by exists false, s|by exists true, s].
    - exists []. split; [constructor|].
      destruct (point st); [|left]; split_and!; try done; simpl; lia. }
  destruct (scan_char st c) as [st1|] eqn:Ec; [|done]. cbn [mbind option_bind]. intros H.
  destruct (IH st1 H) as [Hrest (ds & Hds & Hcase)]. split; [done|].
  destruct (scan_char_inv st c st1 Ec) as
    [(-> & Hp & Hd & Hp1 & Hf1)|(d & Hd & -> & Hp1 & Hd1 & Hf1)].
  - rewrite Hp1 in Hcase. rewrite Hp. destruct Hcase as (-> & Hp' & Hf').
    exists []. split; [constructor|]. right. exists ds. split_and!; [done..| |]; simpl; lia.
  - exists (d :: ds). split; [by constructor|]. rewrite Hp1 in Hcase.
    destruct (point st); cbn [length].
    + destruct Hcase as (-> & Hp' & Hf'). split_and!; [done..|lia].
    + destruct Hcase as [(-> & Hp' & Hd')|(fs & Hfs & -> & Hp' & Hd' & Hf')].
      * left. split_and!; [done..|lia].
      * right. exists fs. split_and!; [done..|lia|lia].
Qed.

Lemma scan_exponent_inv s e v :
  scan_exponent s e = Some v → ∃ ds, is_digits ds ∧ s = chars ds.
Proof.
  revert e. induction s as [|c s IH]; intros e; [by exists []|]. cbn [scan_exponent].
  rewrite <-!bool_decide_or. case_bool_decide as Hc; [done|]. intros H.
  destruct (IH _ H) as (ds & Hds & ->).
  destruct (is_digit_char c) as (d & Hd & ->); [tauto..|]. exists (d :: ds). by split; [constructor|].
Qed.

Lemma read_exponent_inv (m : bool) r v :
  read_exponent ((if m then chr "E" else chr "e") :: r) = Some v →
  ∃ s ds, ds ≠ [] ∧ is_digits ds ∧ r = render_sign s ++ chars ds.
Proof.
  cbn [read_exponent].
  assert (∀ s, (∃ v, scan_exponent s 0 = Some v) → s ≠ [] →
    ∃ ds, ds ≠ [] ∧ is_digits ds ∧ s = chars ds) as Hd.
  { intros s [w Hw] Hne. destruct (scan_exponent_inv _ _ _ Hw) as (ds & Hds & ->).
    exists ds. split_and!; [by intros ->|done..]. }
  destruct r as [|c r]; [by rewrite bool_decide_true|].
  rewrite <-bool_decide_or. destruct (decide (c = chr "+" ∨ c = chr "-")) as [Hs|Hs].
  - rewrite bool_decide_true by done. case_bool_decide as Hne; [done|].
    destruct (scan_exponent r 0) as [w|] eqn:Ew; [|done]. intros _.
    destruct (Hd r) as (ds & H1 & H2 & ->); [by exists w|done|].
    destruct Hs as [->| ->]; [exists (Some false), ds|exists (Some true), ds]; done.
  - rewrite bool_decide_false by done. case_bool_decide as Hne; [done|].
    destruct (scan_exponent (c :: r) 0) as [w|] eqn:Ew; [|done]. intros _.
    destruct (Hd (c :: r)) as (ds & H1 & H2 & H3); [by exists w|done|]. exists None, ds. done.
Qed.

Lemma bitcoin_target_number s out :
  bitcoin_target s = Some out → ∃ x, wf x ∧ s = render x.
Proof.
  unfold bitcoin_target. rewrite <-bool_decide_or. case_bool_decide as Hlen; [done|].
  destruct (scan_mantissa s scan0) as [[st rest]|] eqn:Es; [|done]. cbn [mbind option_bind].
  destruct (nonzero st) eqn:Hnz; [|done]. cbn [negb orb].
  destruct (point st && bool_decide (fractional st = 0%nat)) eqn:Hpf; [done|].
  destruct (read_exponent rest) as [e|] eqn:Ee; [|done]. intros _.
  destruct (scan_mantissa_inv _ _ _ _ Es) as (Hrest & ds & Hds & Hcase). cbn [point scan0] in Hcase.
  assert (∃ ex, rest = render_exp ex ∧
    ∀ m s ds, ex = Some (m, s, ds) → ds ≠ [] ∧ is_digits ds) as (ex & -> & Hex).
  { destruct Hrest as [->|(m & r & ->)]; [by exists None|].
    destruct (read_exponent_inv _ _ _ Ee) as (sg & es & H1 & H2 & ->).
    exists (Some (m, sg, es)). split; [done|]. by intros ??? [= <- <- <-]. }
  destruct Hcase as [(-> & Hp & Hd)|(fs & Hfs & -> & Hp & Hd & Hf)].
  - exists (Number ds None ex). split; [|done]. split_and!; try done. cbn [int_part].
    intros ->. cbn in Es. rewrite scan_stop in Es. by injection Es as <-.
  - rewrite Hp, Hf in Hpf. cbn [fractional scan0 andb] in Hpf. apply bool_decide_eq_false in Hpf.
    exists (Number ds (Some fs) ex). split.
    + split_and!; try done; cbn [int_part frac_part].
      * intros ->. simpl in Hd. done.
      * intros f [= <-]. split; [|done]. intros ->. simpl in Hpf. done.
    + unfold render. cbn [int_part frac_part exp_part render_frac]. done.
Qed.

(** ** Properties *)

(** The result is always eight words. *)
Lemma bitcoin_target_words s out : bitcoin_target s = Some out → is_target out.
Proof.
  intros Hs. destruct (bitcoin_target_number s out Hs) as (x & Hwf & ->).
  pose proof (bitcoin_target_render x Hwf) as Hr. by rewrite Hs in Hr; apply Hr.
Qed.

(** C12. Exactness of the difficulty conversion: on every decimal number the
    function returns the words of floor(0xffff * 2^208 / D), saturated to
    2^256 - 1, computed without rounding; it fails only for text longer than
    80 characters, more than 64 mantissa digits, a zero difficulty or a
    decimal exponent outside -128 .. 128. *)
Theorem bitcoin_target_exact x :
  wf x →
  match bitcoin_target (render x) with
  | Some out => is_target out ∧ target_spec x = Some (target_val out)
  | None => target_spec x = None
  end.
Proof. apply bitcoin_target_render. Qed.

(** [0.0001], the difficulty the miner suggests to the pool. *)
Definition example_number : number := Number [0] (Some [0; 0; 0; 1]) None.

Lemma bitcoin_target_exact_witness :
  ∃ out, bitcoin_target (str "0.0001") = Some out ∧
    target_val out = target1 * 10000.
Proof.
  assert (wf example_number) as Hwf.
  { split_and!; [done|by repeat constructor|by intros f [= <-]; split; [done|repeat constructor]|done]. }
  pose proof (bitcoin_target_exact example_number Hwf) as H.
  change (render example_number) with (str "0.0001") in H.
  destruct (bitcoin_target (str "0.0001")) as [out|] eqn:E; [|vm_compute in H; discriminate H].
  exists out. split; [reflexivity|]. destruct H as [_ H]. injection H as <-. vm_compute. reflexivity.
Defined.

(** C13. Nothing but decimal numbers is accepted: if [bitcoin_target]
    succeeds, its input is the text of a number of the grammar (so empty
    input, a missing integer or fraction digit, a sign, blanks, a bare
    exponent mark and any other character are all rejected). *)
Theorem bitcoin_target_rejects s out :
  bitcoin_target s = Some out → ∃ x, wf x ∧ s = render x.
Proof. apply bitcoin_target_number. Qed.

Lemma bitcoin_target_rejects_witness :
  ∃ x, wf x ∧ str "1e3" = render x.
Proof. eapply (bitcoin_target_rejects (str "1e3")). vm_compute. reflexivity. Defined.
