(* ===== verification/Settings.v ===== *)
(** * Settings store (src/software/common/settings.c, settings.h)

    The miner's settings live in two 512-byte EEPROM slots.  A save writes
    the slot that is not in use, checks it by reading it back and writes its
    commit byte last.  The code reaches the EEPROM only through two function
    pointers; they are the operations of the class [Store], and [StoreLaws]
    says what the settings code relies on.  The theorems: the two-slot update
    is atomic whatever operation fails, a completed save is what the next
    load returns, and a damaged record is not accepted. *)
From S2P Require Import Prelude.
Local Open Scope cword_scope.

(** ** The device interface: [settings_read] and [settings_write]

    [None] and [false] stand for a nonzero return value.  The [size] of a
    write is the length of its data. *)
Class Store (D : Type) := {
  store_read : Z → nat → D → option (list Z) * D;
  store_write : Z → list Z → D → bool * D;
}.

(** What a write that reports failure may leave behind: anything inside its
    window, nothing outside; a write of one byte happens or does not. *)
Definition partial_write (a : nat) (src m m' : list Z) : Prop :=
  length m' = length m ∧
  (∀ i, (i < a ∨ a + length src <= i)%nat → m' !! i = m !! i) ∧
  (length src = 1%nat → m' = m ∨ m' = memcpy m a src).

(** A device holds 8192 bytes; reads do not change them and tell the truth
    when they succeed; writes of bytes inside the settings area change what
    they are asked to.  Any operation may fail at any time. *)
Class StoreLaws (D : Type) `{Store D} := {
  contents : D → list Z;
  contents_length : ∀ d, Z.of_nat (length (contents d)) = 8192;
  read_keeps : ∀ a n d, 0 <= a → a + Z.of_nat n <= 8192 → contents (snd (store_read a n d)) = contents d;
  read_true : ∀ a n d b, 0 <= a → a + Z.of_nat n <= 8192 →
    fst (store_read a n d) = Some b → b = sub (contents d) (Z.to_nat a) n;
  write_done : ∀ a src d, 0x1000 <= a → a + Z.of_nat (length src) <= 0x1400 → is_bytes src →
    fst (store_write a src d) = true →
    contents (snd (store_write a src d)) = memcpy (contents d) (Z.to_nat a) src;
  write_failed : ∀ a src d, 0x1000 <= a → a + Z.of_nat (length src) <= 0x1400 → is_bytes src →
    fst (store_write a src d) = false →
    partial_write (Z.to_nat a) src (contents d) (contents (snd (store_write a src d)));
}.

(** A device on which no operation in its range fails. *)
Class Reliable (D : Type) `{Store D} := {
  read_reliable : ∀ a n d, 0 <= a → a + Z.of_nat n <= 8192 → is_Some (fst (store_read a n d));
  write_reliable : ∀ a src d, 0x1000 <= a → a + Z.of_nat (length src) <= 0x1400 →
    fst (store_write a src d) = true;
}.

(** ** The code *)

Definition COMMIT : Z := 0xa5.
Definition SETTINGS_SLOT_SIZE : nat := 512.
Definition SETTINGS_SLOT0 : Z := 0x1000.
Definition SETTINGS_SLOT1 : Z := 0x1200.

Record miner_settings := MinerSettings {
  mac : list Z; port : Z; host : list Z; worker : list Z; password : list Z
}.

(** The file's [u32] and [put32]. *)
Definition load32 (b : list Z) (p : nat) : Z :=
  b !!! p .| b !!! (p + 1)%nat <<. 8 .| b !!! (p + 2)%nat <<. 16 .| b !!! (p + 3)%nat <<. 24.
Definition put32 (b : list Z) (p : nat) (n : Z) : list Z :=
  for_loop 0 4 (λ i b, <[(p + i)%nat := u8 (n >>. (8 * Z.of_nat i))]> b) b.

(** One bit and one byte of the CRC register. *)
Definition crc_bit (c : Z) : Z := c >>. 1 .^ ((0 -32 (c .& 1)) .& 0xedb88320).
Definition crc_byte (c b : Z) : Z := for_loop 0 8 (λ _ c, crc_bit c) (c .^ b).
Definition crc (p : list Z) : Z := not32 (foldl crc_byte (not32 0) p).

Definition settings_defaults : miner_settings :=
  MinerSettings [2; 0; 0; 0x11; 0x22; 0x33] 3333 (replicate 96 0) (replicate 128 0) (replicate 64 0).

(** The loop of [string_ok] over the array [s] of [n] characters. *)
Fixpoint string_ok (s : list Z) : bool :=
  match s with
  | [] => false
  | c :: s =>
      if bool_decide (c = 0) then true
      else if bool_decide (c < 32) || bool_decide (c > 126) || bool_decide (c = 34) ||
              bool_decide (c = chr "\") then false
      else string_ok s
  end.

Definition host_char (c : Z) : bool :=
  (bool_decide (c >= chr "a") && bool_decide (c <= chr "z")) ||
  (bool_decide (c >= chr "A") && bool_decide (c <= chr "Z")) ||
  (bool_decide (c >= chr "0") && bool_decide (c <= chr "9")) ||
  bool_decide (c = chr ".") || bool_decide (c = chr "-").

(** [for(p=s->host;*p;p++)if(!...)return 0;] *)
Fixpoint host_ok (p : list Z) : bool :=
  match p with
  | [] => true
  | c :: p => if bool_decide (c = 0) then true else if host_char c then host_ok p else false
  end.

Definition settings_valid (s : miner_settings) : bool :=
  let any := for_loop 0 6 (λ i any, any .| mac s !!! i) 0 in
  if bool_decide (any = 0) || bool_decide (mac s !!! 0%nat .& 1 ≠ 0) || bool_decide (port s = 0)
  then false
  else if negb (string_ok (host s)) || negb (string_ok (worker s)) || negb (string_ok (password s))
  then false
  else host_ok (host s).

Definition unpack (b : list Z) : miner_settings :=
  MinerSettings (sub b 16 6) (u16 (b !!! 22%nat .| Z.shiftl (b !!! 23%nat) 8))
    (sub b 24 96) (sub b 120 128) (sub b 248 64).

Definition magic : list Z := str "S35C".

Definition record_valid (b : list Z) : bool :=
  if bool_decide (sub b 0 4 ≠ magic) || bool_decide (b !!! 4%nat ≠ 1) ||
     bool_decide (b !!! 511%nat ≠ COMMIT) || bool_decide (load32 b 504 ≠ crc (sub b 0 504))
  then false
  else settings_valid (unpack b).

(** The choice [read_slots] makes once both slots are in memory. *)
Definition choose (b0 b1 : list Z) : Z :=
  let a := record_valid b0 in
  let c := record_valid b1 in
  if negb a && negb c then -1
  else if negb a then 1
  else if negb c then 0
  else if bool_decide (s32 (load32 b1 8 -32 load32 b0 8) > 0) then 1 else 0.

(** The record [settings_save] builds in [b], commit byte still zero. *)
Definition build_record (s : miner_settings) (seq : Z) : list Z :=
  let b := replicate 512 0 in
  let b := memcpy b 0 magic in
  let b := <[4%nat := 1]> b in
  let b := put32 b 8 seq in
  let b := memcpy b 16 (mac s) in
  let b := <[22%nat := u8 (port s)]> b in
  let b := <[23%nat := u8 (port s >>. 8)]> b in
  let b := memcpy b 24 (host s) in
  let b := memcpy b 120 (worker s) in
  let b := memcpy b 248 (password s) in
  put32 b 504 (crc (sub b 0 504)).

Section operations.
Context {D : Type} `{Store D}.

(** Returns -2, -1, 0 or 1 and the two buffers (unspecified after -2). *)
Definition read_slots (d : D) : Z * list Z * list Z * D :=
  let '(r0, d) := store_read SETTINGS_SLOT0 512 d in
  match r0 with
  | None => (-2, [], [], d)
  | Some b0 =>
      let '(r1, d) := store_read SETTINGS_SLOT1 512 d in
      match r1 with
      | None => (-2, b0, [], d)
      | Some b1 => (choose b0 b1, b0, b1, d)
      end
  end.

Definition settings_load (d : D) : Z * miner_settings * D :=
  let '(slot, b0, b1, d) := read_slots d in
  if bool_decide (slot = -2) then (-1, settings_defaults, d)
  else if bool_decide (slot < 0) then (0, settings_defaults, d)
  else (1, unpack (if bool_decide (slot = 1) then b1 else b0), d).

(** [write(addr+511,&commit,1)||write(addr,b,511)||read(addr,verify,512)||
    memcmp(b,verify,512)]: true when one of them failed. *)
Definition write_body (addr : Z) (b : list Z) (d : D) : bool * D :=
  let '(ok, d) := store_write (addr + 511) [0] d in
  if negb ok then (true, d) else
  let '(ok, d) := store_write addr (take 511 b) d in
  if negb ok then (true, d) else
  let '(verify, d) := store_read addr 512 d in
  match verify with
  | None => (true, d)
  | Some verify => (bool_decide (b ≠ verify), d)
  end.

(** [write(addr+511,&commit,1)||read(addr,verify,512)||!record_valid(verify)] *)
Definition write_commit (addr : Z) (d : D) : bool * D :=
  let '(ok, d) := store_write (addr + 511) [COMMIT] d in
  if negb ok then (true, d) else
  let '(verify, d) := store_read addr 512 d in
  match verify with
  | None => (true, d)
  | Some verify => (negb (record_valid verify), d)
  end.

Definition settings_save (s : miner_settings) (d : D) : Z * D :=
  if negb (settings_valid s) then (-1, d) else
  let '(active, b0, b1, d) := read_slots d in
  if bool_decide (active = -2) then (-1, d) else
  let seq := if bool_decide (active < 0) then 0
             else load32 (if bool_decide (active = 1) then b1 else b0) 8 +32 1 in
  let addr := if bool_decide (active = 0) then SETTINGS_SLOT1 else SETTINGS_SLOT0 in
  let b := build_record s seq in
  let '(failed, d) := write_body addr b d in
  if failed then (-1, d) else
  let '(failed, d) := write_commit addr d in
  if failed then (-1, d) else (0, d).
End operations.

(** ** The CRC *)

Lemma lxor_cancel_r a b p : a .^ p = b .^ p → a = b.
Proof.
  intros Heq. rewrite <-(Z.lxor_0_r a), <-(Z.lxor_0_r b), <-(Z.lxor_nilpotent p).
  by rewrite <-!Z.lxor_assoc, Heq.
Qed.

Lemma crc_bit_eq c :
  crc_bit c = c / 2 .^ (if Z.odd c then 0xedb88320 else 0).
Proof.
  unfold crc_bit. rewrite Z.shiftr_div_pow2 by done. f_equal.
  change (c .& 1) with (c .& Z.ones 1).
  rewrite (Z.land_ones c 1), Zmod_odd by done.
  by destruct (Z.odd c).
Qed.

Lemma crc_bit_range c : is_u32 c → is_u32 (crc_bit c).
Proof.
  intros Hc. rewrite crc_bit_eq. apply u32_lxor; [unfold in_bits in *; dlia|].
  by destruct (Z.odd c).
Qed.

(** The polynomial has its top bit set, so the shifted-out bit can be
    recovered: the step is injective. *)
Lemma crc_bit_inj c c' : is_u32 c → is_u32 c' → crc_bit c = crc_bit c' → c = c'.
Proof.
  intros Hc Hc' Heq. rewrite !crc_bit_eq in Heq.
  assert (∀ x, is_u32 x → Z.testbit (x / 2 .^ (if Z.odd x then 0xedb88320 else 0)) 31 = Z.odd x) as Htop.
  { intros x Hx. rewrite Z.lxor_spec, (in_bits_pow 31 (x / 2)) by (unfold in_bits in *; dlia).
    by destruct (Z.odd x). }
  assert (Z.odd c = Z.odd c') as Hodd by (rewrite <-(Htop c), Heq by done; by apply Htop).
  rewrite Hodd in Heq. apply lxor_cancel_r in Heq.
  pose proof (Zmod_odd c) as Hm. pose proof (Zmod_odd c') as Hm'. rewrite Hodd in Hm. dlia.
Qed.

Lemma crc_byte_range c b : is_u32 c → is_u8 b → is_u32 (crc_byte c b).
Proof.
  intros Hc Hb. unfold crc_byte. apply (for_loop_ind (λ _, in_bits 32)); [by cword|].
  intros. by apply crc_bit_range.
Qed.

Lemma crc_bits_inj n c c' :
  is_u32 c → is_u32 c' →
  for_loop 0 n (λ _ c, crc_bit c) c = for_loop 0 n (λ _ c, crc_bit c) c' → c = c'.
Proof.
  intros Hc Hc'. induction n as [|n IH]; [done|]. rewrite !for_loop_S. intros Heq.
  apply IH, crc_bit_inj; [..|done];
    apply (for_loop_ind (λ _, in_bits 32)); try done; intros; by apply crc_bit_range.
Qed.

Lemma crc_byte_inj c c' b b' :
  is_u32 c → is_u32 c' → is_u8 b → is_u8 b' →
  crc_byte c b = crc_byte c' b' → c .^ b = c' .^ b'.
Proof.
  unfold crc_byte. intros ???? Heq. apply (crc_bits_inj 8); [by cword..|exact Heq].
Qed.

Lemma crc_fold_range c p : is_u32 c → is_bytes p → is_u32 (foldl crc_byte c p).
Proof.
  intros Hc Hp. revert c Hc. induction Hp as [|b p Hb Hp IH]; intros; [done|].
  apply IH. by apply crc_byte_range.
Qed.

Lemma crc_fold_inj p c c' :
  is_bytes p → is_u32 c → is_u32 c' → foldl crc_byte c p = foldl crc_byte c' p → c = c'.
Proof.
  intros Hp. revert c c'. induction Hp as [|b p Hb Hp IH]; intros c c' Hc Hc' Heq; [done|].
  simpl in Heq. apply IH in Heq; [|by apply crc_byte_range..].
  apply crc_byte_inj in Heq; [|done..]. by eapply lxor_cancel_r.
Qed.

Lemma not32_inj a b : is_u32 a → is_u32 b → not32 a = not32 b → a = b.
Proof. intros Ha Hb. rewrite (not32_sub a), (not32_sub b) by done. lia. Qed.

(** Two messages that differ in one byte have different CRCs. *)
Lemma crc_single_byte p x y q :
  is_bytes (p ++ x :: q) → is_u8 y → crc (p ++ x :: q) = crc (p ++ y :: q) → x = y.
Proof.
  rewrite Forall_app, Forall_cons. intros (Hp & Hx & Hq) Hy.
  assert (is_u32 (not32 0)) as H1 by by cword.
  assert (is_u32 (foldl crc_byte (not32 0) p)) as Hc by by apply crc_fold_range.
  unfold crc. rewrite !foldl_app. simpl.
  intros Heq. apply not32_inj in Heq; [|by apply crc_fold_range, Hq; apply crc_byte_range..].
  apply crc_fold_inj, crc_byte_inj in Heq; [|by (done || apply crc_byte_range)..].
  rewrite !(Z.lxor_comm (foldl _ _ _)) in Heq. by eapply lxor_cancel_r.
Qed.

(** ** The record layout *)

(** The arrays of a [miner_settings] have their declared sizes. *)
Definition settings_ok (s : miner_settings) : Prop :=
  (length (mac s) = 6%nat ∧ length (host s) = 96%nat ∧
   length (worker s) = 128%nat ∧ length (password s) = 64%nat) ∧
  is_bytes (mac s) ∧ is_u16 (port s) ∧ is_bytes (host s) ∧ is_bytes (worker s) ∧
  is_bytes (password s).

#[global] Instance settings_ok_dec s : Decision (settings_ok s).
Proof. unfold settings_ok. apply _. Defined.

Definition le32 (n : Z) : list Z := (λ i, u8 (n >>. (8 * Z.of_nat i))) <$> seq 0 4.

Lemma put32_memcpy b p n : put32 b p n = memcpy b p (le32 n).
Proof. apply (for_loop_memcpy (λ i, u8 (n >>. (8 * Z.of_nat i)))). Qed.

Lemma le32_bytes n : is_bytes (le32 n).
Proof. unfold le32. repeat constructor; apply u8_range. Qed.

(** [u32] reads what [put32] wrote. *)
Lemma load32_le32 b p n :
  (p + 4 <= length b)%nat → is_u32 n → sub b p 4 = le32 n → load32 b p = n.
Proof.
  intros Hp Hn Hs.
  assert (∀ i, (i < 4)%nat → b !!! (p + i)%nat = u8 (n >>. (8 * Z.of_nat i))) as Hb.
  { intros i Hi. apply list_lookup_total_correct. rewrite <-(lookup_sub b p 4), Hs by done.
    unfold le32. rewrite list_lookup_fmap, lookup_seq_lt by done. done. }
  unfold load32. rewrite <-(Nat.add_0_r p) at 1. rewrite !Hb by lia.
  change (n >>. (8 * Z.of_nat 0)) with (Z.shiftr n 0).
  rewrite !(shl32_small _ 8) by (done || apply u8_range).
  rewrite !Z.shiftr_div_pow2 by lia. change (8 * Z.of_nat 1) with 8.
  change (8 * Z.of_nat 2) with 16. change (8 * Z.of_nat 3) with 24. unfold u8, in_bits in *.
  rewrite (lor_fields' _ _ 8) by (done || unfold in_bits; dlia).
  rewrite (lor_fields' _ _ 16) by (done || unfold in_bits; dlia).
  rewrite (lor_fields' _ _ 24) by (done || unfold in_bits; dlia). dlia.
Qed.

Lemma insert_memcpy (b : list Z) i x : <[i := x]> b = memcpy b i [x].
Proof. done. Qed.

Lemma sub_memcpy_eq (b : list Z) off src n :
  n = length src → (off + n <= length b)%nat → sub (memcpy b off src) off n = src.
Proof. intros ->. apply sub_memcpy_same. Qed.

(** Reading a field of a buffer built by copies. *)
Ltac field :=
  repeat first
    [ rewrite sub_memcpy_eq by len
    | rewrite sub_memcpy_before by len
    | rewrite sub_memcpy_after by len ].

(** The record before its checksum. *)
Definition record_body (s : miner_settings) (seq : Z) : list Z :=
  memcpy (memcpy (memcpy (memcpy (memcpy (memcpy (memcpy (memcpy (memcpy (replicate 512 0)
    0 magic) 4 [1]) 8 (le32 seq)) 16 (mac s)) 22 [u8 (port s)]) 23 [u8 (port s >>. 8)])
    24 (host s)) 120 (worker s)) 248 (password s).

Lemma build_record_eq s seq :
  build_record s seq =
  memcpy (record_body s seq) 504 (le32 (crc (sub (record_body s seq) 0 504))).
Proof. unfold build_record. by rewrite !put32_memcpy. Qed.

Lemma length_le32 n : length (le32 n) = 4%nat.
Proof. done. Qed.
#[local] Hint Rewrite length_le32 : clen.

Lemma length_record_body s seq : length (record_body s seq) = 512%nat.
Proof. unfold record_body. len. Qed.
#[local] Hint Rewrite length_record_body : clen.

Lemma length_build_record s seq : length (build_record s seq) = 512%nat.
Proof. rewrite build_record_eq. len. Qed.
#[local] Hint Rewrite length_build_record : clen.

Lemma build_record_bytes s seq : settings_ok s → bytes_n 512 (build_record s seq).
Proof.
  intros [_ (Hm & _ & Hh & Hw & Hp)]. split; [apply length_build_record|].
  rewrite build_record_eq. unfold record_body.
  repeat apply Forall_memcpy; try done; try apply le32_bytes; try (apply Forall_singleton, u8_range).
  - apply Forall_replicate. unfold in_bits. lia.
  - by_decide.
  - by_decide.
Qed.

Lemma sub_lookup_total (b : list Z) i x : sub b i 1 = [x] → b !!! i = x.
Proof.
  intros Hs. apply list_lookup_total_correct. rewrite <-(Nat.add_0_r i).
  by rewrite <-(lookup_sub b i 1), Hs by lia.
Qed.

(** The record as it lies in a slot, with commit byte [c]. *)
Definition slot_record (s : miner_settings) (seq c : Z) : list Z :=
  memcpy (build_record s seq) 511 [c].

Section record.
Context (s : miner_settings) (seq c : Z).
Hypothesis (Hs : settings_ok s) (Hseq : is_u32 seq).
Let r := slot_record s seq c.

#[local] Ltac fields_of :=
  unfold r, slot_record; rewrite ?build_record_eq; unfold record_body;
  destruct Hs as [(Hm & Hh & Hw & Hp) _]; field; try done.

Lemma slot_record_length : length r = 512%nat.
Proof. unfold r, slot_record. len. Qed.
#[local] Hint Rewrite slot_record_length : clen.

Lemma slot_record_seq : load32 r 8 = seq.
Proof. apply load32_le32; [len|done|]. fields_of. Qed.

Lemma slot_record_commit : r !!! 511%nat = c.
Proof. apply sub_lookup_total. fields_of. Qed.

Lemma slot_record_crc : load32 r 504 = crc (sub r 0 504).
Proof.
  apply load32_le32; [len|apply not32_range|]. unfold r, slot_record.
  rewrite build_record_eq. by field.
Qed.

Lemma slot_record_unpack : unpack r = s.
Proof.
  unfold unpack.
  assert (r !!! 22%nat = u8 (port s)) as -> by (apply sub_lookup_total; fields_of).
  assert (r !!! 23%nat = u8 (port s >>. 8)) as -> by (apply sub_lookup_total; fields_of).
  destruct Hs as (_ & _ & Hport & _).
  assert (u16 (u8 (port s) .| Z.shiftl (u8 (port s >>. 8)) 8) = port s) as ->.
  { rewrite Z.shiftl_mul_pow2, Z.shiftr_div_pow2, lor_fields' by (done || apply u8_range).
    unfold u16, u8, in_bits in *. dlia. }
  destruct s as [m p h w pw]; f_equal; fields_of.
Qed.

(** A complete record of valid settings is valid exactly when committed. *)
Lemma slot_record_valid : settings_valid s = true → record_valid r = bool_decide (c = COMMIT).
Proof.
  intros Hv. unfold record_valid. rewrite slot_record_unpack, slot_record_commit, slot_record_crc, Hv.
  assert (sub r 0 4 = magic) as -> by fields_of.
  assert (r !!! 4%nat = 1) as -> by (apply sub_lookup_total; fields_of).
  rewrite (bool_decide_false (magic ≠ magic)), (bool_decide_false (1 ≠ 1)),
    (bool_decide_false (crc _ ≠ _)), orb_false_r by tauto.
  simpl. guards; done.
Qed.
End record.

(** An uncommitted slot is invalid whatever else it holds. *)
Lemma record_uncommitted b : b !!! 511%nat ≠ COMMIT → record_valid b = false.
Proof.
  intros Hb. unfold record_valid. rewrite (bool_decide_true (_ ≠ COMMIT)) by done.
  by rewrite orb_true_r.
Qed.

(** ** The two slots *)

Definition slot (a : Z) (m : list Z) : list Z := sub m (Z.to_nat a) 512.

(** What the EEPROM contents stand for: the settings in force. *)
Definition stored (m : list Z) : option miner_settings :=
  let b0 := slot SETTINGS_SLOT0 m in
  let b1 := slot SETTINGS_SLOT1 m in
  if bool_decide (choose b0 b1 = -1) then None
  else Some (unpack (if bool_decide (choose b0 b1 = 1) then b1 else b0)).

#[local] Opaque record_valid unpack load32 settings_valid.

Lemma choose_cases b0 b1 :
  (choose b0 b1 = -1 ∧ record_valid b0 = false ∧ record_valid b1 = false) ∨
  (choose b0 b1 = 0 ∧ record_valid b0 = true) ∨
  (choose b0 b1 = 1 ∧ record_valid b1 = true).
Proof.
  unfold choose. destruct (record_valid b0), (record_valid b1); cbn; try tauto.
  case_bool_decide; tauto.
Qed.

Definition is_slot (a : Z) : Prop := a = SETTINGS_SLOT0 ∨ a = SETTINGS_SLOT1.

Lemma record_valid_settings b : record_valid b = true → settings_valid (unpack b) = true.
Proof. with_strategy transparent [record_valid] unfold record_valid. by case_match. Qed.

Lemma unpack_shape b :
  length b = 512%nat →
  length (host (unpack b)) = 96%nat ∧ length (worker (unpack b)) = 128%nat ∧ is_u16 (port (unpack b)).
Proof.
  intros Hb. with_strategy transparent [unpack] unfold unpack. cbn [host worker port].
  split_and!; [apply length_sub; lia..|apply u16_range].
Qed.

Lemma unpack_ok b : bytes_n 512 b → settings_ok (unpack b).
Proof.
  intros [Hl Hb]. destruct (unpack_shape b Hl) as (Lh & Lw & Hp). unfold settings_ok.
  split_and!; try done; with_strategy transparent [unpack] unfold unpack; cbn [mac host worker password];
    first [apply length_sub; lia|by apply Forall_sub].
Qed.

Lemma slot_size a m : Z.of_nat (length m) = 8192 → is_slot a → length (slot a m) = 512%nat.
Proof.
  intros Hm Ha. unfold slot. apply length_sub.
  destruct Ha as [-> | ->]; unfold SETTINGS_SLOT0, SETTINGS_SLOT1; lia.
Qed.

(** Settings in force are valid and have the sizes of their arrays. *)
Lemma stored_shape m x :
  Z.of_nat (length m) = 8192 → stored m = Some x →
  settings_valid x = true ∧ length (host x) = 96%nat ∧ length (worker x) = 128%nat ∧ is_u16 (port x).
Proof.
  intros Hm. unfold stored. pose proof (λ a, slot_size a m Hm) as Hl.
  destruct (choose_cases (slot SETTINGS_SLOT0 m) (slot SETTINGS_SLOT1 m))
    as [(-> & _)|[(-> & Hv)|(-> & Hv)]]; [done|..]; intros [= <-];
    (split; [by apply record_valid_settings|]); apply unpack_shape, Hl; [by left|by right].
Qed.

Lemma stored_ok m x : bytes_n (Z.to_nat 8192) m → stored m = Some x → settings_ok x.
Proof.
  intros [Hl Hb]. assert (Z.of_nat (length m) = 8192) as Hm by lia. unfold stored.
  assert (∀ a, is_slot a → bytes_n 512 (slot a m)) as Hs
    by (intros a Ha; split; [by apply slot_size|by apply Forall_sub]).
  case_bool_decide; [done|]. intros [= <-]. apply unpack_ok. case_bool_decide; apply Hs; [by right|by left].
Qed.

(** The slot a save writes, and its sequence number. *)
Definition target_slot (m : list Z) : Z :=
  if bool_decide (choose (slot SETTINGS_SLOT0 m) (slot SETTINGS_SLOT1 m) = 0)
  then SETTINGS_SLOT1 else SETTINGS_SLOT0.
Definition next_seq (m : list Z) : Z :=
  let b0 := slot SETTINGS_SLOT0 m in
  let b1 := slot SETTINGS_SLOT1 m in
  let active := choose b0 b1 in
  if bool_decide (active < 0) then 0
  else load32 (if bool_decide (active = 1) then b1 else b0) 8 +32 1.

(** Outside the 512 bytes at [a] nothing changed. *)
Definition frame (a : Z) (m m' : list Z) : Prop :=
  length m' = length m ∧
  ∀ i, (i < Z.to_nat a ∨ Z.to_nat a + 512 <= i)%nat → m' !! i = m !! i.

Definition other (a : Z) : Z :=
  if bool_decide (a = SETTINGS_SLOT0) then SETTINGS_SLOT1 else SETTINGS_SLOT0.


Lemma target_is_slot m : is_slot (target_slot m).
Proof. unfold target_slot, is_slot. guards; tauto. Qed.

Lemma next_seq_u32 m : is_u32 (next_seq m).
Proof. unfold next_seq. case_bool_decide; [done|apply u32_range]. Qed.

Lemma frame_refl a m : frame a m m.
Proof. done. Qed.

Lemma frame_trans a m1 m2 m3 : frame a m1 m2 → frame a m2 m3 → frame a m1 m3.
Proof. intros [H1 H2] [H3 H4]. split; [congruence|]. intros. by rewrite H4, H2. Qed.

Lemma frame_other a m m' : is_slot a → frame a m m' → slot (other a) m' = slot (other a) m.
Proof.
  intros Ha [_ Hf]. unfold slot. apply sub_ext. intros i Hi. apply Hf.
  destruct Ha as [-> | ->].
  - change (other SETTINGS_SLOT0) with 0x1200 in Hi. change SETTINGS_SLOT0 with 0x1000. lia.
  - change (other SETTINGS_SLOT1) with 0x1000 in Hi. change SETTINGS_SLOT1 with 0x1200. lia.
Qed.

(** Sequence numbers are compared modulo 2^32. *)
Lemma seq_newer x : s32 ((x +32 1) -32 x) = 1 ∧ s32 (x -32 (x +32 1)) = -1.
Proof.
  replace ((x +32 1) -32 x) with (u32 1) by u32_ring.
  by replace (x -32 (x +32 1)) with (u32 (-1)) by u32_ring.
Qed.

Lemma stored_unchanged m m' :
  frame (target_slot m) m m' →
  slot (target_slot m) m' = slot (target_slot m) m ∨
  record_valid (slot (target_slot m) m') = false →
  stored m' = stored m.
Proof.
  intros Hf%frame_other; [|apply target_is_slot]. revert Hf.
  unfold stored, target_slot, other.
  destruct (choose_cases (slot SETTINGS_SLOT0 m) (slot SETTINGS_SLOT1 m))
    as [(Hc & H0 & H1)|[(Hc & H0)|(Hc & H1)]]; rewrite Hc; simpl; intros Hf [Hs|Hs];
    rewrite ?Hf, ?Hs, ?Hc; try done;
    unfold choose; rewrite ?Hf, ?Hs, ?H0, ?H1; done.
Qed.

Lemma stored_new m m' s :
  settings_ok s → settings_valid s = true → frame (target_slot m) m m' →
  slot (target_slot m) m' = slot_record s (next_seq m) COMMIT →
  stored m' = Some s.
Proof.
  intros Hs Hv Hf%frame_other Hnew; [|apply target_is_slot].
  pose proof (slot_record_valid s (next_seq m) COMMIT Hs (next_seq_u32 m) Hv) as Hr.
  pose proof (slot_record_seq s (next_seq m) COMMIT Hs (next_seq_u32 m)) as Hq.
  pose proof (slot_record_unpack s (next_seq m) COMMIT Hs (next_seq_u32 m)) as Hu.
  rewrite bool_decide_true in Hr by done. rewrite <-Hnew in Hr, Hq, Hu.
  revert Hf Hr Hq Hu. clear Hnew. unfold stored, target_slot, next_seq, other.
  destruct (seq_newer (load32 (slot SETTINGS_SLOT0 m) 8)) as [Hlt _].
  destruct (seq_newer (load32 (slot SETTINGS_SLOT1 m) 8)) as [_ Hgt].
  destruct (choose_cases (slot SETTINGS_SLOT0 m) (slot SETTINGS_SLOT1 m)) as [(Hc & H0 & H1)|[(Hc & H0)|(Hc & H1)]];
    rewrite Hc; simpl; intros Hf Hr Hq Hu; unfold choose; rewrite Hf, Hr, ?Hq, ?H0, ?H1, ?Hlt, ?Hgt;
    simpl; by rewrite Hu.
Qed.

Section device.
Context {D : Type} `{StoreLaws D}.
Implicit Types d : D.

Lemma slot_read_keeps a d : is_slot a → contents (snd (store_read a 512 d)) = contents d.
Proof. intros [-> | ->]; by apply read_keeps. Qed.

Lemma read_slots_spec d :
  ∃ active b0 b1 d', read_slots d = (active, b0, b1, d') ∧ contents d' = contents d ∧
    (active = -2 ∨
     b0 = slot SETTINGS_SLOT0 (contents d) ∧ b1 = slot SETTINGS_SLOT1 (contents d) ∧
     active = choose b0 b1).
Proof.
  unfold read_slots.
  pose proof (slot_read_keeps SETTINGS_SLOT0 d (or_introl eq_refl)) as K0.
  pose proof (read_true SETTINGS_SLOT0 512 d) as T0.
  destruct (store_read SETTINGS_SLOT0 512 d) as [[b0|] d1]; cbn in K0, T0; [|by eauto 10].
  pose proof (slot_read_keeps SETTINGS_SLOT1 d1 (or_intror eq_refl)) as K1.
  pose proof (read_true SETTINGS_SLOT1 512 d1) as T1.
  destruct (store_read SETTINGS_SLOT1 512 d1) as [[b1|] d2]; cbn in K1, T1.
  - rewrite <-K0. eexists _, _, _, _. split; [done|]. split; [done|]. right.
    rewrite (T0 b0), (T1 b1), K0 by done. done.
  - eexists _, _, _, _. split; [done|]. split; [congruence|]. by left.
Qed.

(** A write inside a slot, seen as a change of that slot. *)
Lemma slot_write a off src d :
  is_slot a → (off + length src <= 512)%nat → is_bytes src →
  let '(ok, d') := store_write (a + Z.of_nat off) src d in
  frame a (contents d) (contents d') ∧
  (ok = true → slot a (contents d') = memcpy (slot a (contents d)) off src) ∧
  (ok = false → length src = 1%nat → slot a (contents d') = slot a (contents d) ∨
     slot a (contents d') = memcpy (slot a (contents d)) off src) ∧
  (ok = false → ∀ i, (i < 512)%nat → (i < off ∨ off + length src <= i)%nat →
     slot a (contents d') !! i = slot a (contents d) !! i).
Proof.
  intros Ha Hoff Hsrc. assert (0x1000 <= a ∧ a <= 0x1200) as Hr by (destruct Ha as [-> | ->]; done).
  pose proof (contents_length d) as Hl.
  pose proof (write_done (a + Z.of_nat off) src d ltac:(lia) ltac:(lia) Hsrc) as Hd.
  pose proof (write_failed (a + Z.of_nat off) src d ltac:(lia) ltac:(lia) Hsrc) as Hf.
  replace (Z.to_nat (a + Z.of_nat off)) with (Z.to_nat a + off)%nat in * by lia.
  destruct (store_write (a + Z.of_nat off) src d) as [[] d']; cbn in Hd, Hf; unfold slot.
  - rewrite Hd by done. rewrite sub_memcpy_inside by done. split; [|done].
    split; [apply length_memcpy|]. intros i Hi. unfold memcpy.
    destruct Hi; [by rewrite list_lookup_inserts_lt by lia|by rewrite list_lookup_inserts_ge by lia].
  - destruct (Hf eq_refl) as (Hlen & Hout & Hone). split; [|split; [done|split]].
    + split; [done|]. intros i Hi. apply Hout. lia.
    + intros _ H1. destruct (Hone H1) as [-> | ->]; [by left|right].
      by rewrite sub_memcpy_inside by done.
    + intros _ i Hi Hio. rewrite !lookup_sub by done. apply Hout. lia.
Qed.

Lemma slot_length a d : is_slot a → length (slot a (contents d)) = 512%nat.
Proof. intros Ha. apply slot_size; [apply contents_length|done]. Qed.

Lemma slot_read a d b d' :
  is_slot a → store_read a 512 d = (Some b, d') → b = slot a (contents d).
Proof.
  intros Ha Hr. apply read_true; [by destruct Ha as [-> | ->]..|]. by rewrite Hr.
Qed.

(** The two writes of the body leave the record in its slot. *)
Lemma body_landed a b d d1 d2 :
  is_slot a → bytes_n 512 b → b !!! 511%nat = 0 →
  store_write (a + 511) [0] d = (true, d1) → store_write a (take 511 b) d1 = (true, d2) →
  slot a (contents d2) = b.
Proof.
  intros Ha [Hb Hbb] H511 E1 E2. assert (length (take 511 b) = 511%nat) as Ht by len.
  pose proof (slot_write a 511 [0] d Ha ltac:(simpl; lia) ltac:(by_decide)) as W1.
  pose proof (slot_write a 0 (take 511 b) d1 Ha ltac:(lia) ltac:(by apply Forall_take)) as W2.
  change (Z.of_nat 511) with 511 in W1. change (Z.of_nat 0) with 0 in W2.
  rewrite Z.add_0_r in W2. rewrite E1 in W1. rewrite E2 in W2.
  destruct W1 as (_ & T1 & _), W2 as (_ & T2 & _).
  assert (slot a (contents d1) !! 511%nat = Some 0) as Hz.
  { rewrite T1 by done. apply list_lookup_insert_eq. rewrite slot_length by done. lia. }
  assert (b !! 511%nat = Some 0) as Hz' by (rewrite <-H511; apply lookup_total_alt_lt; lia).
  rewrite (T2 eq_refl), memcpy_eq by (rewrite (slot_length _ _ Ha); lia).
  rewrite Ht. simpl (take 0 _). simpl (0 + 511)%nat. rewrite app_nil_l.
  rewrite <-(take_drop 511 b) at 2. f_equal.
  rewrite (drop_S (slot a (contents d1)) 0 511), (drop_S b 0 511) by exact Hz || exact Hz'.
  by rewrite !drop_ge by (rewrite ?(slot_length _ _ Ha); lia).
Qed.

Lemma write_body_spec a b d :
  is_slot a → bytes_n 512 b → b !!! 511%nat = 0 →
  let '(failed, d') := write_body a b d in
  frame a (contents d) (contents d') ∧
  (slot a (contents d') = slot a (contents d) ∨ slot a (contents d') !!! 511%nat = 0) ∧
  (failed = false → slot a (contents d') = b).
Proof.
  intros Ha [Hb Hbb] H511. unfold write_body.
  pose proof (slot_write a 511 [0] d Ha ltac:(simpl; lia) ltac:(by_decide)) as W1.
  change (Z.of_nat 511) with 511 in W1.
  destruct (store_write (a + 511) [0] d) as [[] d1] eqn:E1; cbn [negb];
    destruct W1 as (F1 & T1 & P1 & _).
  2: { split; [done|]. split; [|done]. destruct (P1 eq_refl eq_refl) as [?| ->]; [by left|right].
       apply sub_lookup_total, sub_memcpy_eq; [done|]. by rewrite slot_length. }
  assert (length (take 511 b) = 511%nat) as Ht by len.
  pose proof (slot_write a 0 (take 511 b) d1 Ha ltac:(lia) ltac:(by apply Forall_take)) as W2.
  change (Z.of_nat 0) with 0 in W2. rewrite Z.add_0_r in W2.
  destruct (store_write a (take 511 b) d1) as [[] d2] eqn:E2; cbn [negb];
    destruct W2 as (F2 & T2 & _ & P2); pose proof (frame_trans _ _ _ _ F1 F2) as F.
  2: { split; [done|]. split; [right|done]. apply list_lookup_total_correct.
       rewrite P2, T1 by (done || lia). apply list_lookup_insert_eq.
       rewrite slot_length by done. lia. }
  pose proof (body_landed a b d d1 d2 Ha (conj Hb Hbb) H511 E1 E2) as Hs.
  pose proof (slot_read_keeps a d2 Ha) as K.
  destruct (store_read a 512 d2) as [[v|] d3]; cbn in K; rewrite K; (split; [done|]);
    (split; [right; by rewrite Hs|]); intros; done.
Qed.

Lemma write_commit_spec a s seq d :
  is_slot a → settings_ok s → is_u32 seq → settings_valid s = true →
  slot a (contents d) = build_record s seq →
  let '(failed, d') := write_commit a d in
  frame a (contents d) (contents d') ∧
  (slot a (contents d') = build_record s seq ∨
   slot a (contents d') = slot_record s seq COMMIT) ∧
  (failed = false → slot a (contents d') = slot_record s seq COMMIT).
Proof.
  intros Ha Hs Hq Hv Hb. unfold write_commit.
  pose proof (slot_write a 511 [COMMIT] d Ha ltac:(simpl; lia) ltac:(by_decide)) as W.
  change (Z.of_nat 511) with 511 in W. rewrite Hb in W.
  destruct (store_write (a + 511) [COMMIT] d) as [[] d1]; cbn [negb];
    destruct W as (F & T & P & _).
  2: { split; [done|]. split; [|done]. by apply P. }
  pose proof (slot_read_keeps a d1 Ha) as K.
  destruct (store_read a 512 d1) as [[v|] d2]; cbn in K; rewrite K;
    (split; [done|]); (split; [right; by apply T|intros; by apply T]).
Qed.
End device.

(** ** The contract of a save *)

(** What a save may do to the settings in force, by its return value. *)
Inductive save_step (s : miner_settings) (old : option miner_settings) :
    Z → option miner_settings → Prop :=
| save_refused : save_step s old (-1) old
| save_late : settings_valid s = true → save_step s old (-1) (Some s)
| save_done : settings_valid s = true → save_step s old 0 (Some s).

Lemma save_step_zero s old new : save_step s old 0 new → new = Some s.
Proof. by inversion 1. Qed.

Section theorems.
Context {D : Type} `{StoreLaws D}.
Implicit Types d : D.

Lemma build_record_uncommitted s seq :
  settings_ok s → is_u32 seq → build_record s seq !!! 511%nat = 0.
Proof.
  intros Hs Hq. apply sub_lookup_total. rewrite build_record_eq. unfold record_body.
  destruct Hs as [(? & ? & ? & ?) _]. by field.
Qed.

Lemma settings_save_step s d :
  settings_ok s →
  let '(rc, d') := settings_save s d in
  save_step s (stored (contents d)) rc (stored (contents d')) ∧
  frame (target_slot (contents d)) (contents d) (contents d').
Proof.
  intros Hs. unfold settings_save.
  destruct (settings_valid s) eqn:Hv; cbn [negb]; [|by split; [constructor|]].
  destruct (read_slots_spec d) as (active & b0 & b1 & d1 & -> & Hc & Ha).
  rewrite <-Hc in *. clear d Hc. case_bool_decide as H2; [by split; [constructor|]|].
  destruct Ha as [?|(-> & -> & ->)]; [done|]. fold (next_seq (contents d1)).
  fold (target_slot (contents d1)).
  pose proof (target_is_slot (contents d1)) as Hslot. pose proof (next_seq_u32 (contents d1)) as Hq.
  set (a := target_slot (contents d1)) in *. set (seq := next_seq (contents d1)) in *.
  pose proof (write_body_spec a (build_record s seq) d1 Hslot (build_record_bytes _ _ Hs)
    (build_record_uncommitted _ _ Hs Hq)) as W1.
  destruct (write_body a (build_record s seq) d1) as [failed d2]. destruct W1 as (F1 & P1 & T1).
  assert (stored (contents d2) = stored (contents d1)) as Hold.
  { apply stored_unchanged; [done|]. fold a. destruct P1 as [?|Hz]; [by left|right].
    apply record_uncommitted. by rewrite Hz. }
  destruct failed; [rewrite Hold; by split; [constructor|]|].
  pose proof (write_commit_spec a s seq d2 Hslot Hs Hq Hv (T1 eq_refl)) as W2.
  destruct (write_commit a d2) as [failed d3]. destruct W2 as (F2 & P2 & T2).
  pose proof (frame_trans _ _ _ _ F1 F2) as F.
  assert (slot a (contents d3) = slot_record s seq COMMIT → stored (contents d3) = Some s) as Hnew
    by (intros; by apply (stored_new (contents d1))).
  destruct failed; [|rewrite Hnew by auto; by split; [constructor|]].
  split; [|done]. destruct P2 as [Hb|Hb]; [|rewrite Hnew by done; by constructor].
  rewrite (stored_unchanged (contents d1) (contents d3)); [constructor|done|right].
  fold a. rewrite Hb. apply record_uncommitted. by rewrite build_record_uncommitted.
Qed.

(** Saves one after another, with their return values. *)
Fixpoint run_saves (ss : list miner_settings) (d : D) : list Z * D :=
  match ss with
  | [] => ([], d)
  | s :: ss =>
      let '(rc, d) := settings_save s d in
      let '(rcs, d) := run_saves ss d in
      (rc :: rcs, d)
  end.

Lemma run_saves_stored ss x d :
  Forall settings_ok ss → stored (contents d) = Some x →
  ∃ y, In y (x :: ss) ∧ stored (contents (snd (run_saves ss d))) = Some y.
Proof.
  intros Hss. revert x d. induction Hss as [|s ss Hs Hss IH]; intros x d Hx.
  - exists x. split; [by left|done].
  - simpl. pose proof (settings_save_step s d Hs) as Hstep.
    destruct (settings_save s d) as [rc d1]. destruct Hstep as [Hstep _].
    assert (∃ z, (x = z ∨ s = z) ∧ stored (contents d1) = Some z) as (z & Hz & Hd1).
    { rewrite Hx in Hstep. inversion Hstep; eauto. }
    destruct (IH z d1 Hd1) as (y & Hy & Hd). destruct (run_saves ss d1) as [rcs d2].
    exists y. split; [|done]. destruct Hy as [<-|Hy]; [|by right; right].
    destruct Hz as [-> | ->]; [by left|by right; left].
Qed.

Lemma settings_load_spec d :
  let '(rc, s, d') := settings_load d in
  contents d' = contents d ∧
  (rc = -1 ∧ s = settings_defaults ∨
   match stored (contents d) with
   | Some x => rc = 1 ∧ s = x
   | None => rc = 0 ∧ s = settings_defaults
   end).
Proof.
  unfold settings_load.
  destruct (read_slots_spec d) as (active & b0 & b1 & d1 & -> & Hc & Ha).
  case_bool_decide as H2; [by split; [|left]|].
  destruct Ha as [?|(-> & -> & ->)]; [done|]. unfold stored.
  destruct (choose_cases (slot SETTINGS_SLOT0 (contents d)) (slot SETTINGS_SLOT1 (contents d)))
    as [(-> & _)|[(-> & _)|(-> & _)]]; simpl; auto.
Qed.

Section reliable.
Context `{!Reliable D}.

Lemma read_slots_reliable d : fst (fst (fst (read_slots d))) ≠ -2.
Proof.
  unfold read_slots.
  destruct (read_reliable SETTINGS_SLOT0 512 d) as [b0 Hb0]; [done..|].
  destruct (store_read SETTINGS_SLOT0 512 d) as [r0 d1]; simpl in Hb0; subst r0.
  destruct (read_reliable SETTINGS_SLOT1 512 d1) as [b1 Hb1]; [done..|].
  destruct (store_read SETTINGS_SLOT1 512 d1) as [r1 d2]; simpl in Hb1; subst r1. simpl.
  destruct (choose_cases b0 b1) as [(-> & _)|[(-> & _)|(-> & _)]]; done.
Qed.

Lemma write_body_reliable a b d :
  is_slot a → bytes_n 512 b → b !!! 511%nat = 0 → fst (write_body a b d) = false.
Proof.
  intros Ha [Hb Hbb] H511.
  assert (0x1000 <= a <= 0x1200) as Hr by (destruct Ha as [-> | ->]; done).
  unfold write_body. assert (length (take 511 b) = 511%nat) as Ht by len.
  pose proof (write_reliable (a + 511) [0] d ltac:(lia) ltac:(simpl; lia)) as R1.
  destruct (store_write (a + 511) [0] d) as [[] d1] eqn:E1; [|done]. cbn [negb].
  pose proof (write_reliable a (take 511 b) d1 ltac:(lia) ltac:(lia)) as R2.
  destruct (store_write a (take 511 b) d1) as [[] d2] eqn:E2; [|done]. cbn [negb].
  destruct (read_reliable a 512 d2) as [v Hv]; [lia..|].
  destruct (store_read a 512 d2) as [r d3] eqn:E3. simpl in Hv. subst r.
  rewrite (slot_read a d2 v d3 Ha E3), (body_landed a b d d1 d2) by done.
  apply bool_decide_false. tauto.
Qed.

Lemma write_commit_reliable a s seq d :
  is_slot a → settings_ok s → is_u32 seq → settings_valid s = true →
  slot a (contents d) = build_record s seq → fst (write_commit a d) = false.
Proof.
  intros Ha Hs Hq Hv Hb.
  assert (0x1000 <= a <= 0x1200) as Hr by (destruct Ha as [-> | ->]; done).
  pose proof (write_commit_spec a s seq d Ha Hs Hq Hv Hb) as W. unfold write_commit in *.
  pose proof (slot_write a 511 [COMMIT] d Ha ltac:(simpl; lia) ltac:(by_decide)) as W1.
  change (Z.of_nat 511) with 511 in W1.
  pose proof (write_reliable (a + 511) [COMMIT] d ltac:(lia) ltac:(simpl; lia)) as R1.
  destruct (store_write (a + 511) [COMMIT] d) as [[] d1] eqn:E1; [|done]. cbn [negb].
  destruct W1 as (_ & T & _). rewrite Hb in T.
  destruct (read_reliable a 512 d1) as [v Hrd]; [lia..|].
  destruct (store_read a 512 d1) as [r d2] eqn:E2. simpl in Hrd. subst r.
  rewrite (slot_read a d1 v d2 Ha E2), T by done. fold (slot_record s seq COMMIT).
  by rewrite slot_record_valid.
Qed.

Lemma settings_save_reliable s d :
  settings_ok s → settings_valid s = true → fst (settings_save s d) = 0.
Proof.
  intros Hs Hv. unfold settings_save. rewrite Hv. cbn [negb].
  pose proof (read_slots_reliable d) as Hr.
  destruct (read_slots_spec d) as (active & b0 & b1 & d1 & E & Hc & Ha). rewrite E in *.
  simpl in Hr. rewrite bool_decide_false by done.
  destruct Ha as [?|(-> & -> & ->)]; [done|]. rewrite <-Hc.
  fold (next_seq (contents d1)). fold (target_slot (contents d1)).
  pose proof (target_is_slot (contents d1)) as Hslot. pose proof (next_seq_u32 (contents d1)) as Hq.
  pose proof (write_body_spec _ _ d1 Hslot (build_record_bytes s _ Hs)
    (build_record_uncommitted _ _ Hs Hq)) as W1.
  pose proof (write_body_reliable _ _ d1 Hslot (build_record_bytes s _ Hs)
    (build_record_uncommitted _ _ Hs Hq)) as R1.
  destruct (write_body _ _ d1) as [failed d2]. simpl in R1. subst failed.
  destruct W1 as (_ & _ & Hb).
  pose proof (write_commit_reliable _ s _ d2 Hslot Hs Hq Hv (Hb eq_refl)) as R2.
  destruct (write_commit _ d2) as [failed d3]. simpl in R2. by subst failed.
Qed.

Lemma settings_load_reliable d : fst (fst (settings_load d)) ≠ -1.
Proof.
  unfold settings_load. pose proof (read_slots_reliable d) as Hr.
  destruct (read_slots d) as [[[active b0] b1] d1]. simpl in Hr.
  rewrite bool_decide_false by done. by case_bool_decide.
Qed.
End reliable.
End theorems.

(** ** Devices that answer alike

    When two devices answer every access in range alike, loads and saves go
    the same way on both. *)
Section simulation.
Context {D E : Type} `{Store D} `{Store E} (R : D → E → Prop).
Definition alike {A} (x : A * D) (y : A * E) : Prop := fst x = fst y ∧ R (snd x) (snd y).
Context (read_alike : ∀ a n d e, 0 <= a → a + Z.of_nat n <= 8192 → R d e → alike (store_read a n d) (store_read a n e)).
Context (write_alike : ∀ a src d e, 0x1000 <= a → a + Z.of_nat (length src) <= 0x1400 → is_bytes src → R d e →
  alike (store_write a src d) (store_write a src e)).

Lemma read_slots_alike d e : R d e → alike (read_slots d) (read_slots e).
Proof.
  intros HR. unfold read_slots. pose proof (read_alike SETTINGS_SLOT0 512 d e ltac:(done) ltac:(done) HR) as [E0 HR1].
  destruct (store_read SETTINGS_SLOT0 512 d) as [r0 d1], (store_read SETTINGS_SLOT0 512 e) as [x' e1].
  cbn [fst snd] in *. subst x'. destruct r0 as [b0|]; [|done].
  pose proof (read_alike SETTINGS_SLOT1 512 d1 e1 ltac:(done) ltac:(done) HR1) as [E1 HR2].
  destruct (store_read SETTINGS_SLOT1 512 d1) as [r1 d2], (store_read SETTINGS_SLOT1 512 e1) as [x' e2].
  cbn [fst snd] in *. subst x'. by destruct r1.
Qed.

Lemma write_read_alike {B} a off src (f : list Z → B) x d e :
  is_slot a → 0 <= off → off + Z.of_nat (length src) <= 512 → is_bytes src → R d e →
  alike
    (let '(ok, d) := store_write (a + off) src d in
     if negb ok then (x, d) else let '(v, d) := store_read a 512 d in (match v with None => x | Some v => f v end, d))
    (let '(ok, e) := store_write (a + off) src e in
     if negb ok then (x, e) else let '(v, e) := store_read a 512 e in (match v with None => x | Some v => f v end, e)).
Proof.
  intros Ha Ho Hl Hb HR. assert (0x1000 <= a <= 0x1200) as Hr by (destruct Ha as [-> | ->]; done).
  pose proof (write_alike (a + off) src d e ltac:(lia) ltac:(lia) Hb HR) as [E1 HR1].
  destruct (store_write (a + off) src d) as [ok d1], (store_write (a + off) src e) as [x' e1]. cbn [fst snd] in *. subst x'.
  destruct ok; cbn [negb]; [|done].
  pose proof (read_alike a 512 d1 e1 ltac:(lia) ltac:(lia) HR1) as [E2 HR2].
  by destruct (store_read a 512 d1) as [v d2], (store_read a 512 e1) as [? e2]; cbn [fst snd] in *; subst.
Qed.

Lemma write_body_alike a b d e :
  is_slot a → bytes_n 512 b → R d e → alike (write_body a b d) (write_body a b e).
Proof.
  intros Ha [Hl Hb] HR. assert (0x1000 <= a <= 0x1200) as Hr by (destruct Ha as [-> | ->]; done). unfold write_body.
  pose proof (write_alike (a + 511) [0] d e ltac:(lia) ltac:(simpl; lia) ltac:(by_decide) HR) as [E1 HR1].
  destruct (store_write (a + 511) [0] d) as [ok d1], (store_write (a + 511) [0] e) as [x' e1]. cbn [fst snd] in *. subst x'.
  destruct ok; cbn [negb]; [|done].
  pose proof (write_read_alike a 0 (take 511 b) (λ v, bool_decide (b ≠ v)) true d1 e1 Ha ltac:(lia)
    ltac:(rewrite length_take; lia) ltac:(by apply Forall_take) HR1) as W. rewrite Z.add_0_r in W.
  destruct (store_write a (take 511 b) d1) as [ok d2], (store_write a (take 511 b) e1) as [ok' e2].
  destruct ok, ok'; cbn [negb] in *; destruct (store_read a 512 d2) as [[v|] d3], (store_read a 512 e2) as [[v'|] e3]; done.
Qed.

Lemma write_commit_alike a d e : is_slot a → R d e → alike (write_commit a d) (write_commit a e).
Proof.
  intros Ha HR. unfold write_commit.
  pose proof (write_read_alike a 511 [COMMIT] (λ v, negb (record_valid v)) true d e Ha ltac:(lia) ltac:(simpl; lia)
    ltac:(by_decide) HR) as W.
  destruct (store_write (a + 511) [COMMIT] d) as [ok d1], (store_write (a + 511) [COMMIT] e) as [ok' e1].
  destruct ok, ok'; cbn [negb] in *; destruct (store_read a 512 d1) as [[v|] d2], (store_read a 512 e1) as [[v'|] e2]; done.
Qed.

Lemma settings_save_alike s d e : settings_ok s → R d e → alike (settings_save s d) (settings_save s e).
Proof.
  intros Hs HR. unfold settings_save. destruct (settings_valid s); cbn [negb]; [|done].
  destruct (read_slots_alike d e HR) as [Er HR1].
  destruct (read_slots d) as [[[active b0] b1] d1], (read_slots e) as [r e1]. cbn [fst snd] in *. subst r.
  case_bool_decide; [done|].
  set (a := if bool_decide (active = 0) then SETTINGS_SLOT1 else SETTINGS_SLOT0).
  assert (is_slot a) as Ha by (unfold a, is_slot; case_bool_decide; auto).
  set (b := build_record s _). assert (bytes_n 512 b) as Hb by (by apply build_record_bytes). clearbody a b.
  destruct (write_body_alike a b d1 e1 Ha Hb HR1) as [Eb HR2].
  destruct (write_body a b d1) as [failed d2], (write_body a b e1) as [x' e2]. cbn [fst snd] in *. subst x'.
  destruct failed; [done|]. destruct (write_commit_alike a d2 e2 Ha HR2) as [Ec HR3].
  destruct (write_commit a d2) as [failed d3], (write_commit a e2) as [x' e3]. cbn [fst snd] in *. subst x'. by destruct failed.
Qed.

Lemma settings_load_alike d e : R d e → alike (settings_load d) (settings_load e).
Proof.
  intros HR. unfold settings_load. destruct (read_slots_alike d e HR) as [Er HR1].
  destruct (read_slots d) as [[[active b0] b1] d1], (read_slots e) as [r e1]. cbn [fst snd] in *. subst r.
  by repeat case_bool_decide.
Qed.
End simulation.

(** ** Validity *)

Definition printable (c : Z) : Prop := 32 <= c <= 126 ∧ c ≠ 34 ∧ c ≠ chr "\".
Definition host_letter (c : Z) : Prop :=
  chr "a" <= c <= chr "z" ∨ chr "A" <= c <= chr "Z" ∨ chr "0" <= c <= chr "9" ∨
  c = chr "." ∨ c = chr "-".

(** The array holds a NUL-terminated string of characters in [P]. *)
Definition c_string (P : Z → Prop) (s : list Z) : Prop :=
  ∃ txt rest, s = txt ++ 0 :: rest ∧ Forall P txt.

Lemma c_string_cons (P : Z → Prop) c s :
  ¬ P 0 → c_string P (c :: s) ↔ c = 0 ∨ P c ∧ c_string P s.
Proof.
  intros HP. split.
  - intros ([|c' txt] & rest & [= -> ->] & Ht); [by left|right].
    apply Forall_cons in Ht as [? ?]. split; [done|]. by exists txt, rest.
  - intros [->|(Hc & txt & rest & -> & Ht)]; [by exists [], s|].
    exists (c :: txt), rest. split; [done|]. by constructor.
Qed.

Lemma c_string_nil P : ¬ c_string P [].
Proof. by intros ([] & ? & [=] & ?). Qed.

Lemma string_ok_iff s : string_ok s = true ↔ c_string printable s.
Proof.
  induction s as [|c s IH]; [split; [done|intros H; by apply c_string_nil in H]|].
  rewrite c_string_cons by (unfold printable; lia). simpl. rewrite <-IH. unfold printable.
  case_bool_decide; [tauto|].
  destruct (bool_decide_reflect (c < 32)), (bool_decide_reflect (c > 126)),
    (bool_decide_reflect (c = 34)), (bool_decide_reflect (c = chr "\")); simpl;
    intuition (done || lia).
Qed.

Lemma host_char_iff c : host_char c = true ↔ host_letter c.
Proof.
  unfold host_char, host_letter. rewrite !orb_true_iff, !andb_true_iff, !bool_decide_eq_true.
  intuition lia.
Qed.

Lemma host_letter_not_nul : ¬ host_letter 0.
Proof. unfold host_letter, chr. simpl. lia. Qed.

Lemma host_ok_iff s : c_string printable s → host_ok s = true ↔ c_string host_letter s.
Proof.
  induction s as [|c s IH]; [intros H; by apply c_string_nil in H|].
  rewrite c_string_cons by (unfold printable; lia). rewrite c_string_cons by apply host_letter_not_nul.
  simpl. rewrite <-host_char_iff. case_bool_decide; [tauto|].
  intros [?|[_ Hs]]; [done|]. rewrite <-(IH Hs). destruct (host_char c); intuition done.
Qed.

Lemma c_string_mono (P Q : Z → Prop) s : (∀ c, P c → Q c) → c_string P s → c_string Q s.
Proof. intros HPQ (txt & rest & -> & Ht). exists txt, rest. split; [done|]. by eapply Forall_impl. Qed.

Lemma any_spec (l : list Z) n :
  is_bytes l → (for_loop 0 n (λ i any, any .| l !!! i) 0 = 0 ↔ ∀ i, (i < n)%nat → l !!! i = 0).
Proof.
  intros Hl. induction n as [|n IH]; [split; [lia|done]|].
  rewrite for_loop_S, Z.lor_eq_0_iff, IH. simpl (0 + n)%nat. split.
  - intros [Hlt Hn] i Hi. destruct (decide (i = n)) as [->|]; [done|apply Hlt; lia].
  - intros Hall. split; [intros; apply Hall; lia|apply Hall; lia].
Qed.

(** What [settings_valid] accepts, in words: a nonzero unicast MAC address, a
    nonzero port, three terminated strings of characters that need no JSON
    escape, and a host name of letters, digits, dots and hyphens. *)
Definition valid_spec (s : miner_settings) : Prop :=
  ¬ (∀ i, (i < 6)%nat → mac s !!! i = 0) ∧ Z.even (mac s !!! 0%nat) = true ∧ port s ≠ 0 ∧
  c_string host_letter (host s) ∧ c_string printable (worker s) ∧ c_string printable (password s).

#[local] Transparent settings_valid record_valid unpack load32.

Lemma settings_valid_iff s : settings_ok s → settings_valid s = true ↔ valid_spec s.
Proof.
  intros (_ & Hm & _). unfold settings_valid, valid_spec. rewrite <-(any_spec _ _ Hm).
  assert (mac s !!! 0%nat .& 1 ≠ 0 ↔ Z.even (mac s !!! 0%nat) = false) as Hodd.
  { change 1 with (Z.ones 1) at 1. rewrite Z.land_ones, Zmod_even by done.
    by destruct (Z.even _). }
  assert (c_string host_letter (host s) → c_string printable (host s)) as Hhp.
  { apply c_string_mono. unfold host_letter, printable, chr. simpl. lia. }
  rewrite <-!string_ok_iff. pose proof (host_ok_iff (host s)) as Hh.
  rewrite <-string_ok_iff in Hh, Hhp.
  destruct (bool_decide_reflect (for_loop 0 6 (λ i any, any .| mac s !!! i) 0 = 0)); [cbn [orb]; intuition done|].
  destruct (bool_decide_reflect (mac s !!! 0%nat .& 1 ≠ 0)) as [Hb|Hb]; cbn [orb].
  { apply Hodd in Hb. rewrite Hb. intuition done. }
  assert (Z.even (mac s !!! 0%nat) = true) as -> by (destruct (Z.even _); [done|tauto]).
  case_bool_decide; [intuition done|].
  destruct (string_ok (host s)), (string_ok (worker s)), (string_ok (password s)); simpl;
    intuition done.
Qed.

(** ** Damage *)

Lemma load32_value b p :
  is_bytes b →
  load32 b p = b !!! p + b !!! (p + 1)%nat * 2 ^ 8 + b !!! (p + 2)%nat * 2 ^ 16
    + b !!! (p + 3)%nat * 2 ^ 24.
Proof.
  intros Hb. unfold load32.
  rewrite !(shl32_small _ 8) by (done || by apply is_bytes_lookup).
  pose proof (is_bytes_lookup b p Hb) as B0. pose proof (is_bytes_lookup b (p + 1) Hb) as B1.
  pose proof (is_bytes_lookup b (p + 2) Hb) as B2. unfold in_bits in *.
  rewrite (lor_fields' _ _ 8) by (done || unfold in_bits; lia).
  rewrite (lor_fields' _ _ 16) by (done || unfold in_bits; lia).
  rewrite (lor_fields' _ _ 24) by (done || unfold in_bits; lia). lia.
Qed.

(** A changed byte of a word changes the word. *)
Lemma load32_insert b p k x :
  is_bytes b → is_u8 x → (p + 4 <= length b)%nat → (k < 4)%nat →
  load32 (<[(p + k)%nat := x]> b) p = load32 b p → x = b !!! (p + k)%nat.
Proof.
  intros Hb Hx Hp Hk. rewrite !load32_value by (done || by apply Forall_insert).
  destruct k as [|[|[|[|]]]]; try lia; rewrite ?Nat.add_0_r;
    rewrite list_lookup_total_insert_eq, !list_lookup_total_insert_ne by lia; lia.
Qed.

Lemma load32_insert_out b p i x :
  (i < p ∨ p + 4 <= i)%nat → load32 (<[i := x]> b) p = load32 b p.
Proof. intros. unfold load32. by rewrite !list_lookup_total_insert_ne by lia. Qed.

Lemma crc_insert b i x :
  is_bytes b → is_u8 x → (i < length b)%nat → crc (<[i := x]> b) = crc b → x = b !!! i.
Proof.
  intros Hb Hx Hi. rewrite insert_take_drop by done.
  pose proof (take_drop_middle b i (b !!! i) (lookup_total_alt_lt b i Hi)) as Hmid.
  intros Heq. rewrite <-Hmid in Heq at 3. eapply crc_single_byte; [..|exact Heq].
  - apply Forall_app_2; [by apply Forall_take|]. constructor; [done|by apply Forall_drop].
  - by apply is_bytes_lookup.
Qed.

#[local] Opaque crc.

Lemma record_damage b i x :
  length b = 512%nat → is_bytes b → is_u8 x → x ≠ b !!! i → (i < 508 ∨ i = 511)%nat →
  record_valid b = true → record_valid (<[i := x]> b) = false.
Proof.
  intros Hl Hb Hx Hne Hi. unfold record_valid.
  destruct (bool_decide_reflect (b !!! 511%nat ≠ COMMIT)) as [|Hc]; [by rewrite !orb_true_r|].
  destruct (bool_decide_reflect (load32 b 504 ≠ crc (sub b 0 504))) as [|Hs];
    [by rewrite !orb_true_r|]. intros _.
  apply dec_stable in Hc, Hs.
  assert (<[i := x]> b !!! 511%nat ≠ COMMIT ∨
    load32 (<[i := x]> b) 504 ≠ crc (sub (<[i := x]> b) 0 504)) as [Hd|Hd].
  2: by rewrite (bool_decide_true (<[i := x]> b !!! 511%nat ≠ COMMIT)), !orb_true_r by done.
  2: by rewrite (bool_decide_true (load32 (<[i := x]> b) 504 ≠ _)), !orb_true_r by done.
  assert (i = 511 ∨ i < 504 ∨ 504 <= i < 508)%nat as [->|[Hlt|Hw]] by lia.
  - left. rewrite list_lookup_total_insert_eq by lia. congruence.
  - right. rewrite load32_insert_out, Hs by lia. rewrite <-!take_sub.
    rewrite take_insert_lt by done. intros Heq. apply Hne.
    rewrite (crc_insert (take 504 b) i x); [by rewrite lookup_total_take_lt|cword|done|len|done].
  - right. rewrite <-!take_sub, take_insert_ge in * by lia.
    intros Heq. apply Hne. replace i with (504 + (i - 504))%nat in * by lia.
    apply load32_insert; [done|done|lia|lia|]. by rewrite Heq, Hs.
Qed.

(** The three bytes between the checksum and the commit byte are not looked at. *)
Lemma record_unused b i x :
  (508 <= i < 511)%nat → record_valid (<[i := x]> b) = record_valid b ∧ unpack (<[i := x]> b) = unpack b.
Proof.
  intros Hi.
  assert (∀ p n, (p + n <= 508)%nat → sub (<[i := x]> b) p n = sub b p n) as Hs.
  { intros p n Hp. apply sub_ext. intros j Hj. by rewrite list_lookup_insert_ne by lia. }
  assert (unpack (<[i := x]> b) = unpack b) as Hu.
  { unfold unpack. rewrite !Hs, !list_lookup_total_insert_ne by lia. done. }
  split; [|done]. unfold record_valid. rewrite Hu, !Hs, load32_insert_out, !list_lookup_total_insert_ne by lia. done.
Qed.

(** ** A device that satisfies the laws

    A memory whose operations start to fail after a number of steps; a write
    that fails may leave half of its bytes. *)
Module FaultyRam.
Definition dev : Type := list Z * nat.
Definition size : nat := Z.to_nat 8192.
Definition cells (m : list Z) : list Z := resize size 0 m.

#[global] Instance ops : Store dev := {
  store_read a n d :=
    match snd d with
    | O => (None, d)
    | S k => (Some (sub (cells (fst d)) (Z.to_nat a) n), (fst d, k))
    end;
  store_write a src d :=
    match snd d with
    | O => (false, (memcpy (cells (fst d)) (Z.to_nat a) (take (length src / 2) src), O))
    | S k => (true, (memcpy (cells (fst d)) (Z.to_nat a) src, k))
    end;
}.

Lemma cells_length m : length (cells m) = size.
Proof. unfold cells. by rewrite length_resize. Qed.

Lemma cells_memcpy m a src : cells (memcpy (cells m) a src) = memcpy (cells m) a src.
Proof. unfold cells at 1. apply resize_all_alt. by rewrite length_memcpy, cells_length. Qed.

Lemma failed_write m a src :
  partial_write a src (cells m) (cells (memcpy (cells m) a (take (length src / 2) src))).
Proof.
  rewrite cells_memcpy.
  assert (length src / 2 <= length src)%nat by (apply Nat.Div0.div_le_upper_bound; lia).
  split; [apply length_memcpy|]. split.
  - intros i Hi. unfold memcpy. destruct Hi; [by rewrite list_lookup_inserts_lt by lia|].
    rewrite list_lookup_inserts_ge; [done|]. rewrite length_take. lia.
  - intros H1. left. by rewrite H1.
Qed.

#[global] Instance laws : StoreLaws dev.
Proof.
  refine {| contents d := cells (fst d) |}.
  - intros d. by rewrite cells_length.
  - intros a n [m [|k]] _ _; exact eq_refl.
  - intros a n [m [|k]] b _ _ [= <-]. exact eq_refl.
  - intros a src [m [|k]] _ _ _ [=]. apply cells_memcpy.
  - intros a src [m [|k]] _ _ _ [=]. apply failed_write.
Qed.

(** A memory that never fails, for the successful round trip. *)
Definition good : Type := list Z.
#[global] Instance good_ops : Store good := {
  store_read a n m := (Some (sub (cells m) (Z.to_nat a) n), m);
  store_write a src m := (true, memcpy (cells m) (Z.to_nat a) src);
}.
#[global] Instance good_laws : StoreLaws good.
Proof.
  refine {| contents m := cells m |}.
  - intros d. by rewrite cells_length.
  - intros a n d _ _. exact eq_refl.
  - intros a n d b _ _ [= <-]. exact eq_refl.
  - intros a src d _ _ _ _. apply cells_memcpy.
  - intros a src d _ _ _ [=].
Defined.
#[global] Instance good_reliable : Reliable good.
Proof. split; [by eexists|done]. Defined.
End FaultyRam.

Definition pad (n : nat) (s : string) : list Z := resize n 0 (str s).
Definition example_settings : miner_settings :=
  MinerSettings [2; 0; 0; 0x11; 0x22; 0x33] 3333 (pad 96 "pool.example.org") (pad 128 "worker.1")
    (pad 64 "x").

(** ** Claims *)

(** C14. The settings update is atomic.  On any device that obeys the laws
    (every read and write of which may fail, a failing write leaving anything
    behind in its window), a save of settings of the declared sizes either
    leaves the settings in force as they were, and reports -1, or puts exactly
    the new ones in force; it reports 0 only in the second case, and only the
    512 bytes of the slot that is not in use are ever written. *)
Theorem settings_save_atomic {D} `{StoreLaws D} (s : miner_settings) (d : D) :
  settings_ok s →
  let '(rc, d') := settings_save s d in
  save_step s (stored (contents d)) rc (stored (contents d')) ∧
  frame (target_slot (contents d)) (contents d) (contents d').
Proof. apply settings_save_step. Qed.

(** The power fails while the record is being written (fourth operation). *)
Lemma settings_save_atomic_witness :
  let d : FaultyRam.dev := ([], 3%nat) in
  settings_save example_settings d = (-1, snd (settings_save example_settings d)) ∧
  save_step example_settings (stored (contents d)) (-1)
    (stored (contents (snd (settings_save example_settings d)))).
Proof.
  cbv zeta.
  assert (settings_ok example_settings) as Hok
    by (refine (bool_decide_unpack _ _); vm_compute; exact I).
  pose proof (settings_save_atomic example_settings (([], 3%nat) : FaultyRam.dev) Hok) as H.
  assert (fst (settings_save example_settings (([], 3%nat) : FaultyRam.dev)) = -1) as Hrc
    by (vm_compute; reflexivity).
  destruct (settings_save example_settings (([], 3%nat) : FaultyRam.dev)) as [rc d'].
  cbn [fst snd] in *. subst rc. split; [reflexivity|apply H].
Defined.

(** What was saved is loaded.  On a device that does not fail, saving
    valid settings returns 0 and the next load returns 1 with exactly those
    settings, whatever the EEPROM held before (sequence number wrap-around
    included); invalid settings are refused without touching the device. *)
Theorem save_load_roundtrip {D} `{StoreLaws D} `{!Reliable D} (s : miner_settings) (d : D) :
  settings_ok s →
  if settings_valid s then
    let '(rc, d') := settings_save s d in
    rc = 0 ∧ fst (settings_load d') = (1, s)
  else settings_save s d = (-1, d).
Proof.
  intros Hs. destruct (settings_valid s) eqn:Hv; [|unfold settings_save; by rewrite Hv].
  pose proof (settings_save_step s d Hs) as Hstep.
  pose proof (settings_save_reliable s d Hs Hv) as Hrc.
  destruct (settings_save s d) as [rc d']. simpl in Hrc. subst rc. split; [done|].
  destruct Hstep as [Hstep _]. pose proof (settings_load_spec d') as Hload.
  pose proof (settings_load_reliable d') as Hok.
  destruct (settings_load d') as [[rc x] d2]. simpl in Hok |- *.
  rewrite (save_step_zero _ _ _ Hstep) in Hload.
  destruct Hload as [_ [[? _]|[-> ->]]]; [done|done].
Qed.

Lemma save_load_roundtrip_witness :
  fst (settings_load (snd (settings_save example_settings ([] : FaultyRam.good)))) =
  (1, example_settings).
Proof.
  assert (settings_ok example_settings) as Hok
    by (refine (bool_decide_unpack _ _); vm_compute; exact I).
  pose proof (save_load_roundtrip example_settings ([] : FaultyRam.good) Hok) as H.
  assert (settings_valid example_settings = true) as Hv by (vm_compute; reflexivity).
  rewrite Hv in H.
  destruct (settings_save example_settings ([] : FaultyRam.good)) as [rc d']. apply H.
Defined.

(** C29. Saves are durable over any later history.  Once a save has returned 0,
    then after any sequence of further saves, with whatever failures, the
    settings in force are that save's or those of one of the later ones; the
    store never falls back to older or default settings. *)
Theorem saves_durable {D} `{StoreLaws D} (s : miner_settings) (later : list miner_settings) (d : D) :
  settings_ok s → Forall settings_ok later → fst (settings_save s d) = 0 →
  ∃ y, In y (s :: later) ∧
    stored (contents (snd (run_saves later (snd (settings_save s d))))) = Some y.
Proof.
  intros Hs Hl Hrc. apply run_saves_stored; [done|].
  pose proof (settings_save_step s d Hs) as Hstep.
  destruct (settings_save s d) as [rc d']. simpl in *. subst rc. by eapply save_step_zero, Hstep.
Qed.

(** The power fails in the middle of the second save. *)
Lemma saves_durable_witness :
  let d : FaultyRam.dev := ([], 9%nat) in
  ∃ y, In y [example_settings; example_settings] ∧
    stored (contents (snd (run_saves [example_settings] (snd (settings_save example_settings d))))) = Some y.
Proof.
  assert (settings_ok example_settings) as Hok
    by (refine (bool_decide_unpack _ _); vm_compute; exact I).
  apply (saves_durable example_settings [example_settings] (([], 9%nat) : FaultyRam.dev) Hok).
  - by constructor.
  - vm_compute. reflexivity.
Defined.

(** C30. A damaged record is not used.  Changing one byte of a valid record
    makes it invalid when that is a byte of the header, the settings, the
    checksum or the commit byte, that is one of the first 508 or the last; a
    change of one of the three unused bytes in between, which the code does
    not look at, leaves it valid, with the same settings. *)
Theorem record_damage_detected (b : list Z) (i : nat) (x : Z) :
  length b = 512%nat → is_bytes b → is_u8 x → x ≠ b !!! i → (i < 512)%nat →
  record_valid b = true →
  record_valid (<[i := x]> b) = bool_decide (508 <= i < 511)%nat ∧
  ((508 <= i < 511)%nat → unpack (<[i := x]> b) = unpack b).
Proof.
  intros Hl Hb Hx Hne Hi Hv. destruct (bool_decide_reflect (508 <= i < 511)%nat) as [Hu|Hu].
  - destruct (record_unused b i x Hu) as [-> ->]. done.
  - split; [|done]. apply record_damage; try done. lia.
Qed.

Lemma record_damage_detected_witness :
  record_valid (<[30%nat := 0]> (slot_record example_settings 7 COMMIT)) = bool_decide (508 <= 30 < 511)%nat.
Proof.
  apply (record_damage_detected (slot_record example_settings 7 COMMIT) 30 0);
    [vm_compute; reflexivity|refine (bool_decide_unpack _ _); vm_compute; exact I|split; done
    |vm_compute; discriminate|lia|vm_compute; reflexivity].
Defined.

(** [settings_valid] accepts exactly the settings described by
    [valid_spec]: nonzero unicast MAC, nonzero port, terminated printable
    strings without quotes or backslashes, and a host-name host. *)
Theorem settings_valid_correct (s : miner_settings) :
  settings_ok s → settings_valid s = true ↔ valid_spec s.
Proof. apply settings_valid_iff. Qed.

Lemma settings_valid_correct_witness : valid_spec example_settings.
Proof.
  apply (settings_valid_correct example_settings);
    [refine (bool_decide_unpack _ _); vm_compute; exact I|vm_compute; reflexivity].
Defined.

(** Loading returns the settings in force: 1 and the stored record when
    there is a valid one, 0 and the defaults when there is none, and -1 with
    the defaults only when a read failed; it never changes the EEPROM. *)
Theorem settings_load_correct {D} `{StoreLaws D} (d : D) :
  let '(rc, s, d') := settings_load d in
  contents d' = contents d ∧
  (rc = -1 ∧ s = settings_defaults ∨
   match stored (contents d) with
   | Some x => rc = 1 ∧ s = x
   | None => rc = 0 ∧ s = settings_defaults
   end).
Proof. apply settings_load_spec. Qed.

Lemma settings_load_correct_witness :
  fst (settings_load (([], 2%nat) : FaultyRam.dev)) = (0, settings_defaults).
Proof.
  pose proof (settings_load_correct (([], 2%nat) : FaultyRam.dev)) as H.
  assert (fst (fst (settings_load (([], 2%nat) : FaultyRam.dev))) = 0) as Hrc
    by (vm_compute; reflexivity).
  destruct (settings_load (([], 2%nat) : FaultyRam.dev)) as [[rc s] d']. cbn [fst] in *.
  subst rc. destruct H as [_ [[H _]|H]]; [discriminate H|].
  destruct (stored _); destruct H as [H ->]; [discriminate H|reflexivity].
Defined.

(** The checksum is CRC-32: its published check value. *)
Example crc_check : crc (str "123456789") = 0xcbf43926.
Proof. vm_compute. reflexivity. Qed.
