(* ===== verification/Srec.v ===== *)
(** * Motorola S-records (src/software/common/srec.c, srec.h)

    [srec_parse] checks one line of the boot image and fills a record in
    place.  The theorems give its complete behaviour against a specification
    by hex pairs, that every store stays inside the 252-byte data array, and
    that no single wrong digit gets past the checksum. *)
From S2P Require Import Prelude Fips180 Sha256 Bitcoin.
Local Open Scope cword_scope.

(** ** The code *)

(** The file's [hex] and [byte]. *)
Definition hex (c : Z) : Z :=
  if bool_decide (c >= chr "0") && bool_decide (c <= chr "9") then c - chr "0"
  else if bool_decide (c >= chr "a") && bool_decide (c <= chr "f") then c - chr "a" + 10
  else if bool_decide (c >= chr "A") && bool_decide (c <= chr "F") then c - chr "A" + 10
  else -1.
Definition byte (line : list Z) (p : nat) : Z :=
  let a := hex (line !!! p) in
  let b := hex (line !!! (p + 1)%nat) in
  if bool_decide (a < 0) || bool_decide (b < 0) then -1 else a * 16 + b.

Record srec_record := SrecRecord {
  address : Z; data : list Z; size : Z; type : Z
}.

(** The number of address bytes of a record type; [None] is the [default]. *)
Definition naddr (type : Z) : option Z :=
  if bool_decide (type ∈ [0; 1; 5; 9]) then Some 2
  else if bool_decide (type ∈ [2; 6; 8]) then Some 3
  else if bool_decide (type ∈ [3; 7]) then Some 4
  else None.

(** The body of the loop with counter [i]: [None] is [return -1]. *)
Definition parse_byte (line : list Z) (naddr count : Z) (i : nat) (r : srec_record) (sum : Z)
    : option (srec_record * Z) :=
  let value := byte line (4 + 2 * i) in
  if bool_decide (value < 0) then None
  else
    let sum := sum +32 value in
    if bool_decide (Z.of_nat i < naddr) then
      Some (SrecRecord (address r <<. 8 .| value) (data r) (size r) (type r), sum)
    else if bool_decide (Z.of_nat i < count - 1) then
      Some (SrecRecord (address r) (<[Z.to_nat (Z.of_nat i - naddr) := u8 value]> (data r))
              (size r) (type r), sum)
    else Some (r, sum).

(** The loop with [k] iterations left: [None] for [return -1], and the record
    as it was then. *)
Fixpoint parse_loop (line : list Z) (naddr count : Z) (k i : nat) (r : srec_record) (sum : Z)
    : option Z * srec_record :=
  match k with
  | O => (Some sum, r)
  | S k =>
      match parse_byte line naddr count i r sum with
      | None => (None, r)
      | Some (r, sum) => parse_loop line naddr count k (i + 1) r sum
      end
  end.

(** [srec_parse(line,size,r)] with [size] the length of [line]. *)
Definition srec_parse (line : list Z) (r : srec_record) : Z * srec_record :=
  if bool_decide (Z.of_nat (length line) < 4) || bool_decide (line !!! 0%nat ≠ chr "S") ||
     bool_decide (line !!! 1%nat < chr "0") || bool_decide (line !!! 1%nat > chr "9")
  then (-1, r)
  else
    let t := line !!! 1%nat - chr "0" in
    let r := SrecRecord (address r) (data r) (size r) t in
    match naddr t with
    | None => (-1, r)
    | Some na =>
        let count := byte line 2 in
        if bool_decide (count < na + 1) || bool_decide (Z.of_nat (length line) ≠ 4 + 2 * count)
        then (-1, r)
        else
          let r := SrecRecord 0 (data r) (count - na - 1) t in
          if bool_decide (t >= 5) && bool_decide (size r ≠ 0) then (-1, r)
          else
            match parse_loop line na count (Z.to_nat count) 0 r count with
            | (None, r) => (-1, r)
            | (Some sum, r) => (if bool_decide (sum .& 255 = 255) then 0 else -1, r)
            end
    end.

(** ** Specification *)

Definition sum_of (l : list Z) : Z := foldr Z.add 0 l.

(** A record is a type digit followed by hex pairs: the count of the bytes
    after it, a big-endian address, the data and a checksum that makes the
    bytes add up to 255 modulo 256.  Types 5 to 9 carry no data. *)
Definition srec_spec (line : list Z) : option (Z * Z * list Z) :=
  match line with
  | s :: d :: text =>
      let t := d - chr "0" in
      na ← (if bool_decide (s = chr "S" ∧ 0 <= t <= 9) then naddr t else None);
      bytes ← hex_pairs text;
      match bytes with
      | [] => None
      | count :: body =>
          if bool_decide (count = Z.of_nat (length body) ∧ na + 1 <= count ∧
               (t >= 5 → count = na + 1) ∧ sum_of bytes `mod` 256 = 255)
          then Some (t, Fips.be_value (take (Z.to_nat na) body) 0,
                     sub body (Z.to_nat na) (Z.to_nat (count - na - 1)))
          else None
      end
  | _ => None
  end.

(** The text of a record. *)
Definition render (t addr : Z) (bytes : list Z) : list Z :=
  let na := Z.to_nat (default 0 (naddr t)) in
  let body := Fips.be_bytes na addr ++ bytes in
  let count := Z.of_nat (length body) + 1 in
  chr "S" :: chr "0" + t ::
  to_hex (count :: body ++ [(255 - (count + sum_of body)) `mod` 256]).

(** ** Proofs *)

Lemma hex_hex_val c : hex c = hex_val c.
Proof. unfold hex, hex_val, chr. simpl. guards; lia. Qed.

Lemma byte_range line p : byte line p = -1 ∨ is_u8 (byte line p).
Proof.
  unfold byte. rewrite !hex_hex_val.
  destruct (hex_val_range (line !!! p)), (hex_val_range (line !!! (p + 1)%nat)); guards;
    unfold in_bits; lia.
Qed.

(** Hex pairs are the values of [byte] at the even positions. *)
Definition bytes_at (text : list Z) (n : nat) : list Z := (λ i, byte text (2 * i)) <$> seq 0 n.

Lemma bytes_at_cons a b text n :
  bytes_at (a :: b :: text) (S n) =
  (if bool_decide (hex_val a < 0 ∨ hex_val b < 0) then -1 else 16 * hex_val a + hex_val b)
    :: bytes_at text n.
Proof.
  unfold bytes_at. cbn [seq]. rewrite <-fmap_S_seq, fmap_cons, <-list_fmap_compose. f_equal.
  - unfold byte. simpl. rewrite !hex_hex_val. guards; lia.
  - apply list_fmap_ext. intros i x _. unfold compose, byte.
    by replace (2 * S x)%nat with (S (S (2 * x))) by lia.
Qed.

Lemma hex_pairs_bytes_at n text :
  length text = (2 * n)%nat →
  hex_pairs text =
  (if bool_decide (Forall (λ b, 0 <= b) (bytes_at text n)) then Some (bytes_at text n) else None).
Proof.
  revert text. induction n as [|n IH]; intros text Hl.
  { by destruct text. }
  destruct text as [|a [|b text]]; [simpl in Hl; lia..|].
  cbn [hex_pairs]. rewrite bytes_at_cons, (IH text) by (simpl in Hl; lia).
  destruct (bool_decide_reflect (hex_val a < 0 ∨ hex_val b < 0)) as [Hd|Hd].
  { rewrite bool_decide_false; [done|]. rewrite Forall_cons. lia. }
  destruct (bool_decide_reflect (Forall (λ b, 0 <= b) (bytes_at text n))) as [Hf|Hf]; simpl.
  - rewrite bool_decide_true; [done|]. rewrite Forall_cons. split; [lia|done].
  - rewrite bool_decide_false; [done|]. rewrite Forall_cons. tauto.
Qed.

Lemma byte_drop line k p : byte (drop k line) p = byte line (k + p).
Proof. unfold byte. by rewrite !lookup_total_drop, Nat.add_assoc. Qed.

Lemma body_length text n : length (bytes_at text n) = n.
Proof. unfold bytes_at. len. Qed.

Lemma body_lookup line n i :
  (i < n)%nat → bytes_at (drop 4 line) n !!! i = byte line (4 + 2 * i).
Proof.
  intros Hi. apply list_lookup_total_correct. unfold bytes_at.
  rewrite list_lookup_fmap, lookup_seq_lt by done. simpl. by rewrite byte_drop.
Qed.

Lemma bytes_at_bytes line n :
  Forall (λ b, 0 <= b) (bytes_at (drop 4 line) n) → is_bytes (bytes_at (drop 4 line) n).
Proof.
  intros Hp. apply Forall_lookup. intros i x Hx.
  pose proof (lookup_lt_Some _ _ _ Hx) as Hi. rewrite body_length in Hi.
  pose proof (proj1 (Forall_lookup _ _) Hp i x Hx) as Hpx. simpl in Hpx.
  apply list_lookup_total_correct in Hx. rewrite body_lookup in Hx by done. subst x.
  destruct (byte_range line (4 + 2 * i)); [lia|done].
Qed.

Lemma sum_of_app l l' : sum_of (l ++ l') = sum_of l + sum_of l'.
Proof. induction l as [|x l IH]; simpl; [done|]. unfold sum_of in *. lia. Qed.

Lemma sum_of_bound l : is_bytes l → 0 <= sum_of l <= 255 * Z.of_nat (length l).
Proof. induction 1 as [|x l Hx Hl IH]; simpl in *; unfold in_bits, sum_of in *; lia. Qed.

Section loop.
Context (line : list Z) (na count : nat) (r0 : srec_record).
Hypothesis (Hna : (2 <= na <= 4)%nat) (Hcount : (na + 1 <= count <= 255)%nat).
Let body := bytes_at (drop 4 line) count.

(** The record and the sum after [i] bytes. *)
Let R (i : nat) : srec_record :=
  SrecRecord (Fips.be_value (take (min i na) body) 0)
    (memcpy (data r0) 0 (sub body na (min i (count - 1) - na))) (size r0) (type r0).
Let S (i : nat) : Z := Z.of_nat count + sum_of (take i body).

Lemma parse_loop_bad k i r sum :
  (∃ j, (i <= j < i + k)%nat ∧ byte line (4 + 2 * j) < 0) →
  fst (parse_loop line (Z.of_nat na) (Z.of_nat count) k i r sum) = None.
Proof.
  revert i r sum. induction k as [|k IH]; intros i r sum (j & Hj & Hb); [lia|]. cbn [parse_loop].
  unfold parse_byte. case_bool_decide as Hv; [done|].
  assert (j ≠ i) by (intros ->; lia).
  case_bool_decide; [|case_bool_decide]; apply IH; exists j; split; (lia || done).
Qed.

Hypothesis (Hbody : Forall (λ b, 0 <= b) body).

Lemma body_len : length body = count.
Proof. apply body_length. Qed.

Lemma body_bytes : is_bytes body.
Proof. by apply bytes_at_bytes. Qed.

Lemma take_body_S i : (i < count)%nat → take (i + 1) body = take i body ++ [body !!! i].
Proof.
  intros. rewrite Nat.add_1_r. apply take_S_r, lookup_total_alt_lt. by rewrite body_len.
Qed.

Lemma parse_byte_step i :
  (i < count)%nat →
  parse_byte line (Z.of_nat na) (Z.of_nat count) i (R i) (S i) = Some (R (i + 1)%nat, S (i + 1)%nat).
Proof.
  intros Hi. unfold parse_byte. rewrite <-(body_lookup line count) by done. fold body.
  pose proof (is_bytes_lookup body i body_bytes) as Hb. unfold in_bits in Hb.
  rewrite bool_decide_false by lia.
  assert (S i +32 body !!! i = S (i + 1)) as ->.
  { unfold S. rewrite take_body_S, sum_of_app by done. cbn [sum_of foldr].
    pose proof (sum_of_bound (take i body) ltac:(apply Forall_take, body_bytes)) as Hs.
    rewrite length_take, body_len in Hs. rewrite u32_small; [lia|]. unfold in_bits. lia. }
  case_bool_decide as H1; [|case_bool_decide as H2]; unfold R; cbn [address data size type];
    do 2 f_equal.
  - replace (min (i + 1) na) with (i + 1)%nat by lia. replace (min i na) with i by lia.
    pose proof (be_value_bound (take i body) ltac:(apply Forall_take, body_bytes)) as Ha.
    rewrite length_take, body_len, Nat.min_l in Ha by lia.
    assert (256 ^ Z.of_nat i <= 256 ^ 3) by (apply Z.pow_le_mono_r; lia).
    rewrite (shl32_small _ 24), lor_fields by (unfold in_bits; lia).
    rewrite take_body_S, be_value_snoc by done. f_equal.
    replace (min (i + 1) (count - 1) - na)%nat with 0%nat by lia.
    by replace (min i (count - 1) - na)%nat with 0%nat by lia.
  - replace (min (i + 1) na) with na by lia. replace (min i na) with na by lia.
    replace (min (i + 1) (count - 1) - na)%nat with ((i - na) + 1)%nat by lia.
    replace (min i (count - 1) - na)%nat with (i - na)%nat by lia.
    rewrite sub_app. replace (na + (i - na))%nat with i by lia.
    assert (sub body i 1 = [body !!! i]) as ->.
    { unfold sub. erewrite drop_S by (apply lookup_total_alt_lt; by rewrite body_len). done. }
    rewrite memcpy_snoc, length_sub by (rewrite body_len; lia).
    rewrite u8_small by (unfold in_bits; lia). do 2 f_equal. lia.
  - replace (min (i + 1) na) with na by lia. replace (min i na) with na by lia.
    by replace (min (i + 1) (count - 1)) with (min i (count - 1)) by lia.
Qed.

Lemma parse_loop_good k i :
  (i + k = count)%nat →
  parse_loop line (Z.of_nat na) (Z.of_nat count) k i (R i) (S i) = (Some (S count), R count).
Proof.
  revert i. induction k as [|k IH]; intros i Hi; cbn [parse_loop].
  - by replace i with count by lia.
  - rewrite parse_byte_step by lia. apply IH. lia.
Qed.
End loop.

Lemma naddr_range t na : naddr t = Some na → 2 <= na <= 4.
Proof. unfold naddr. guards; intros [= <-]; lia. Qed.

(** The text after the count, and the two directions of its check. *)
Section body.
Context (line : list Z) (r : srec_record) (t na count : Z).
Hypothesis (Hna : 2 <= na <= 4) (Hcount : na + 1 <= count <= 255).
Hypothesis (Hlen : length line = (4 + 2 * Z.to_nat count)%nat).
Let r0 := SrecRecord 0 (data r) (count - na - 1) t.

Lemma parse_body :
  match hex_pairs (drop 4 line) with
  | None => fst (parse_loop line na count (Z.to_nat count) 0 r0 count) = None
  | Some body =>
      length body = Z.to_nat count ∧ is_bytes body ∧
      parse_loop line na count (Z.to_nat count) 0 r0 count =
        (Some (count + sum_of body),
         SrecRecord (Fips.be_value (take (Z.to_nat na) body) 0)
           (memcpy (data r) 0 (sub body (Z.to_nat na) (Z.to_nat (count - na - 1))))
           (count - na - 1) t)
  end.
Proof.
  rewrite (hex_pairs_bytes_at (Z.to_nat count)) by (rewrite length_drop; lia).
  assert ((Z.to_nat na + 1 <= Z.to_nat count <= 255)%nat) as Hc by lia.
  assert ((2 <= Z.to_nat na <= 4)%nat) as Hn by lia.
  case_bool_decide as Hf.
  - split; [apply body_length|]. split; [by apply bytes_at_bytes|].
    pose proof (parse_loop_good line _ _ r0 Hn Hc Hf (Z.to_nat count) 0 ltac:(lia)) as Hg.
    rewrite !Z2Nat.id in Hg by lia. cbn [sum_of take foldr Nat.min] in Hg.
    rewrite Nat.sub_0_l in Hg. change (sub _ _ 0) with (@nil Z) in Hg. cbn in Hg.
    rewrite Z.add_0_r in Hg. rewrite Nat.min_r in Hg by lia.
    rewrite (take_ge (bytes_at _ _) (Z.to_nat count)) in Hg by (rewrite body_length; lia).
    replace (min (Z.to_nat count) (Z.to_nat count - 1) - Z.to_nat na)%nat
      with (Z.to_nat (count - na - 1)) in Hg by lia. exact Hg.
  - apply (not_Forall_Exists (λ b, 0 <= b)) in Hf.
    apply Exists_exists in Hf as (x & Hx & Hneg). apply list_elem_of_lookup in Hx as [j Hj].
    assert (j < Z.to_nat count)%nat as Hjc
      by (rewrite <-(body_length (drop 4 line) (Z.to_nat count)); by eapply lookup_lt_Some).
    apply list_lookup_total_correct in Hj. rewrite body_lookup in Hj by done.
    pose proof (parse_loop_bad line _ _ Hn Hc (Z.to_nat count) 0 r0 count) as Hb.
    rewrite !Z2Nat.id in Hb by lia. apply Hb. exists j. split; [lia|]. simpl in Hneg. lia.
Qed.
End body.

Lemma land_255 s : s .& 255 = s `mod` 256.
Proof. change 255 with (Z.ones 8). by rewrite Z.land_ones. Qed.

(** The last checks of the code and of the specification agree. *)
Lemma srec_verdict line r t na count :
  2 <= na <= 4 → na + 1 <= count <= 255 → Z.of_nat (length line) = 4 + 2 * count →
  let r0 := SrecRecord 0 (data r) (count - na - 1) t in
  let got := if bool_decide (t >= 5) && bool_decide (size r0 ≠ 0) then (-1, r0)
    else match parse_loop line na count (Z.to_nat count) 0 r0 count with
         | (None, r) => (-1, r)
         | (Some sum, r) => (if bool_decide (sum .& 255 = 255) then 0 else -1, r)
         end in
  match hex_pairs (drop 4 line) with
  | None => fst got = -1
  | Some body =>
      if bool_decide (count = Z.of_nat (length body) ∧ na + 1 <= count ∧
           (t >= 5 → count = na + 1) ∧ (count + sum_of body) `mod` 256 = 255)
      then got = (0, SrecRecord (Fips.be_value (take (Z.to_nat na) body) 0)
                   (memcpy (data r) 0 (sub body (Z.to_nat na) (Z.to_nat (count - na - 1))))
                   (Z.of_nat (length (sub body (Z.to_nat na) (Z.to_nat (count - na - 1))))) t)
      else fst got = -1
  end.
Proof.
  intros Hna Hc Hl. cbv zeta. cbn [size].
  pose proof (parse_body line r t na count Hna ltac:(lia) ltac:(lia)) as Hloop.
  destruct (hex_pairs (drop 4 line)) as [body|] eqn:Hp; cbn [size].
  2: { destruct (bool_decide (t >= 5) && _); [done|].
       destruct (parse_loop _ _ _ _ _ _ _) as [[]]; simpl in Hloop; done. }
  destruct Hloop as (Hbl & Hbb & ->). rewrite land_255.
  assert (length (sub body (Z.to_nat na) (Z.to_nat (count - na - 1))) = Z.to_nat (count - na - 1))
    as Hsub by (apply length_sub; lia).
  destruct (bool_decide_reflect (t >= 5)), (bool_decide_reflect (count - na - 1 ≠ 0));
    cbn [andb];
    destruct (bool_decide_reflect (count = Z.of_nat (length body) ∧ na + 1 <= count ∧
               (t >= 5 → count = na + 1) ∧ (count + sum_of body) `mod` 256 = 255)) as [Hok|Hko];
    try lia; try done.
  all: first [rewrite bool_decide_true by tauto; rewrite Hsub; do 2 f_equal; lia
             | rewrite bool_decide_false; [done|]; intros Hx; apply Hko; split_and!; lia].
Qed.

Lemma srec_parse_spec line r :
  match srec_spec line with
  | Some (t, addr, bytes) =>
      srec_parse line r = (0, SrecRecord addr (memcpy (data r) 0 bytes) (Z.of_nat (length bytes)) t)
  | None => fst (srec_parse line r) = -1
  end.
Proof.
  unfold srec_parse.
  destruct line as [|s [|d [|h1 [|h2 text]]]]; [done..| | |].
  { simpl. by destruct (if bool_decide _ then _ else _). }
  { simpl. by destruct (if bool_decide _ then _ else _). }
  set (line := s :: d :: h1 :: h2 :: text).
  change (line !!! 0%nat) with s. change (line !!! 1%nat) with d.
  rewrite (bool_decide_false (Z.of_nat (length line) < 4)) by (simpl; lia).
  unfold srec_spec, line at 1. cbn zeta.
  destruct (bool_decide_reflect (s = chr "S" ∧ 0 <= d - chr "0" <= 9)) as [[Hs Hd]|Hbad].
  2: { destruct (bool_decide_reflect (s ≠ chr "S")), (bool_decide_reflect (d < chr "0")),
         (bool_decide_reflect (d > chr "9")); try done.
       exfalso. apply Hbad. split; [by apply dec_stable|]. unfold chr in *. simpl in *. lia. }
  rewrite (bool_decide_false (s ≠ chr "S")), (bool_decide_false (d < chr "0")),
    (bool_decide_false (d > chr "9")) by (try tauto; unfold chr in *; simpl in *; lia).
  cbn [orb]. set (t := d - chr "0") in *.
  destruct (naddr t) as [na|] eqn:Hnaddr; [|done]. pose proof (naddr_range _ _ Hnaddr) as Hna.
  cbn [mbind option_bind data size address]. cbn [hex_pairs].
  assert (byte line 2 = if bool_decide (hex_val h1 < 0 ∨ hex_val h2 < 0) then -1
    else 16 * hex_val h1 + hex_val h2) as Hcount.
  { unfold byte. simpl. rewrite !hex_hex_val. guards; lia. }
  destruct (bool_decide_reflect (hex_val h1 < 0 ∨ hex_val h2 < 0)) as [Hneg|Hpos].
  { rewrite Hcount, (bool_decide_true (-1 < na + 1)) by lia. done. }
  rewrite <-Hcount. set (count := byte line 2) in *.
  assert (0 <= count <= 255) as Hc255
    by (destruct (hex_val_range h1), (hex_val_range h2); lia).
  clearbody count. clear Hcount Hpos.
  change text with (drop 4 line). assert (length line = 4 + length (drop 4 line))%nat as Hll by done.
  destruct (bool_decide_reflect (count < na + 1)) as [Hlt|Hge]; cbn [orb].
  { destruct (hex_pairs (drop 4 line)); simpl; [|done]. rewrite bool_decide_false; [done|]. lia. }
  destruct (bool_decide_reflect (Z.of_nat (length line) ≠ 4 + 2 * count)) as [Hl|Hl]; cbn [orb].
  { destruct (hex_pairs (drop 4 line)) as [body|] eqn:Hp; simpl; [|done].
    apply hex_pairs_length in Hp. rewrite bool_decide_false; [done|]. lia. }
  pose proof (srec_verdict line r t na count Hna ltac:(lia) ltac:(lia)) as Hv. cbv zeta in Hv.
  destruct (hex_pairs (drop 4 line)) as [body|]; simpl; [|exact Hv].
  change (sum_of (count :: body)) with (count + sum_of body). by case_bool_decide.
Qed.

(** ** Memory safety of the data array *)

Definition extend_data (r : srec_record) (tail : list Z) : srec_record :=
  SrecRecord (address r) (data r ++ tail) (size r) (type r).

Lemma parse_byte_frame line na count i r sum tail :
  2 <= na → count <= 255 → length (data r) = 252%nat →
  parse_byte line na count i (extend_data r tail) sum =
  ('(r, sum) ← parse_byte line na count i r sum; Some (extend_data r tail, sum)) ∧
  ∀ r' sum', parse_byte line na count i r sum = Some (r', sum') → length (data r') = 252%nat.
Proof.
  intros Hna Hc Hl. unfold parse_byte, extend_data. cbn [data address size type].
  case_bool_decide; [done|].
  case_bool_decide; [split; [done|by intros ?? [= <- <-]]|].
  case_bool_decide; [|split; [done|by intros ?? [= <- <-]]]. cbn [data]. split.
  - simpl. rewrite insert_app_l by lia. done.
  - intros ?? [= <- <-]. cbn [data]. by rewrite length_insert.
Qed.

Lemma parse_loop_frame line na count k i r sum tail :
  2 <= na → count <= 255 → length (data r) = 252%nat →
  parse_loop line na count k i (extend_data r tail) sum =
  (let '(res, r) := parse_loop line na count k i r sum in (res, extend_data r tail)).
Proof.
  intros Hna Hc. revert i r sum. induction k as [|k IH]; intros i r sum Hl; cbn [parse_loop]; [done|].
  destruct (parse_byte_frame line na count i r sum tail Hna Hc Hl) as [-> Hlen].
  destruct (parse_byte line na count i r sum) as [[r' sum']|]; simpl; [|done].
  apply IH. by eapply Hlen.
Qed.

Lemma srec_parse_frame line r tail :
  length (data r) = 252%nat →
  srec_parse line (extend_data r tail) =
  (let '(rc, r) := srec_parse line r in (rc, extend_data r tail)).
Proof.
  intros Hl. unfold srec_parse. case_match; [done|].
  destruct (naddr _) as [na|] eqn:Hna; [|done]. apply naddr_range in Hna.
  destruct (byte_range line 2) as [->|Hb].
  { by rewrite (bool_decide_true (-1 < na + 1)) by lia. }
  unfold in_bits in Hb. case_match; [done|]. cbn [size data address type].
  case_match; [done|].
  pose proof (parse_loop_frame line na (byte line 2) (Z.to_nat (byte line 2)) 0
    (SrecRecord 0 (data r) (byte line 2 - na - 1) (line !!! 1%nat - chr "0")) (byte line 2) tail
    ltac:(lia) ltac:(lia) Hl) as Hf.
  unfold extend_data at 1 in Hf. cbn [data address size type] in Hf. unfold extend_data at 1.
  cbn [data]. rewrite Hf.
  by destruct (parse_loop _ _ _ _ _ (SrecRecord 0 (data r) _ _) _) as [[] ?].
Qed.

(** ** Errors *)

(** Replacing one digit by one of another value changes one byte. *)
Lemma hex_pairs_insert text i c l l' :
  hex_pairs text = Some l → hex_pairs (<[i := c]> text) = Some l' → (i < length text)%nat →
  hex_val c ≠ hex_val (text !!! i) →
  ∃ x, l' = <[(i / 2)%nat := x]> l ∧ x ≠ l !!! (i / 2)%nat.
Proof.
  revert text i l l'. induction text as [text IH] using (induction_ltof1 _ (@length Z)).
  unfold ltof in IH. intros i l l'.
  destruct text as [|a [|b text]]; [simpl; lia|done|]. cbn [hex_pairs].
  case_bool_decide as Hd; [done|]. destruct (hex_pairs text) as [l0|] eqn:E; cbn [mbind option_bind]; [|done].
  intros [= <-]. destruct i as [|[|i]].
  - simpl. case_bool_decide; [done|]. rewrite E. simpl. intros [= <-] _ Hne.
    eexists. split; [done|]. simpl. lia.
  - simpl. case_bool_decide; [done|]. rewrite E. simpl. intros [= <-] _ Hne.
    eexists. split; [done|]. simpl.
    destruct (hex_val_range a), (hex_val_range b), (hex_val_range c); lia.
  - change (<[S (S i):=c]> (a :: b :: text)) with (a :: b :: <[i:=c]> text).
    cbn [hex_pairs length]. rewrite bool_decide_false by done.
    destruct (hex_pairs (<[i:=c]> text)) as [l1|] eqn:E1; cbn [mbind option_bind]; [|done].
    intros [= <-] Hi Hne.
    assert (S (S i) / 2 = S (i / 2))%nat as Hdiv.
    { symmetry. apply (Nat.div_unique _ _ _ (i mod 2)); [apply Nat.mod_upper_bound; lia|].
      pose proof (Nat.div_mod_eq i 2). lia. }
    rewrite Hdiv.
    destruct (IH text ltac:(simpl; lia) i l0 l1 E E1 ltac:(lia) Hne) as (x & -> & Hx).
    exists x. split; [reflexivity|exact Hx].
Qed.

Lemma sum_of_insert l i x : (i < length l)%nat → sum_of (<[i := x]> l) = sum_of l - l !!! i + x.
Proof.
  intros Hi. rewrite insert_take_drop by done.
  rewrite <-(take_drop_middle l i (l !!! i)) at 3 by (by apply lookup_total_alt_lt).
  rewrite !sum_of_app. simpl. unfold sum_of. lia.
Qed.

Lemma srec_spec_bytes s d text res :
  srec_spec (s :: d :: text) = Some res →
  ∃ count body, hex_pairs text = Some (count :: body) ∧ count = Z.of_nat (length body) ∧
    sum_of (count :: body) `mod` 256 = 255.
Proof.
  unfold srec_spec. destruct (if bool_decide _ then _ else _); simpl; [|done].
  destruct (hex_pairs text) as [[|count body]|]; simpl; [done| |done].
  case_bool_decide as Hok; [|done]. intros _. exists count, body. tauto.
Qed.

Lemma render_sum body :
  let n := Z.of_nat (length body) + 1 in
  sum_of (n :: body ++ [(255 - (n + sum_of body)) `mod` 256]) `mod` 256 = 255.
Proof.
  cbv zeta. generalize (Z.of_nat (length body) + 1) as n. intros n.
  assert (∀ l, sum_of (n :: l) = n + sum_of l) as -> by done.
  rewrite sum_of_app. assert (∀ c, sum_of [c] = c) as -> by (intros c; unfold sum_of; simpl; lia).
  generalize (sum_of body). intros s. dlia.
Qed.

Lemma srec_spec_render t na addr bytes :
  naddr t = Some na → 0 <= t <= 9 → 0 <= addr < 256 ^ na → is_bytes bytes →
  na + 1 + Z.of_nat (length bytes) <= 255 → (t >= 5 → bytes = []) →
  srec_spec (render t addr bytes) = Some (t, addr, bytes).
Proof.
  intros Hna Ht Ha Hb Hlen Hdata. pose proof (naddr_range _ _ Hna) as Hr.
  unfold srec_spec, render. rewrite Hna. cbn [default from_option].
  set (body := Fips.be_bytes (Z.to_nat na) addr ++ bytes).
  set (ck := (255 - (Z.of_nat (length body) + 1 + sum_of body)) `mod` 256).
  assert (length body = Z.to_nat na + length bytes)%nat as Hbl
    by (unfold body; rewrite length_app, length_be_bytes; done).
  assert (is_bytes (Z.of_nat (length body) + 1 :: body ++ [ck])) as Hall.
  { constructor; [unfold in_bits; lia|]. apply Forall_app_2; [|repeat constructor; by apply Z.mod_pos_bound].
    apply Forall_app_2; [apply be_bytes_bytes|done]. }
  replace (chr "0" + t - chr "0") with t by lia.
  rewrite bool_decide_true by done. rewrite Hna. cbn [mbind option_bind id].
  rewrite hex_pairs_to_hex by done. cbn [mbind option_bind].
  rewrite bool_decide_true.
  - do 2 f_equal; [f_equal|].
    + unfold body. rewrite <-app_assoc, take_app_length' by (by rewrite length_be_bytes).
      rewrite be_value_bytes, Z2Nat.id by lia. by apply Z.mod_small.
    + unfold sub, body. rewrite <-app_assoc, drop_app_length' by (by rewrite length_be_bytes).
      apply take_app_length'. unfold body in Hbl. lia.
  - split_and!; [len|len|intros H5; rewrite (Hdata H5); len|apply render_sum].
Qed.

Lemma srec_spec_digit line i c res res' :
  srec_spec line = Some res → srec_spec (<[i := c]> line) = Some res' →
  (2 <= i < length line)%nat → hex_val c ≠ hex_val (line !!! i) → False.
Proof.
  destruct line as [|s [|d text]]; [done..|]. destruct i as [|[|i]]; [lia..|].
  change (<[S (S i):=c]> (s :: d :: text)) with (s :: d :: <[i:=c]> text).
  change ((s :: d :: text) !!! S (S i)) with (text !!! i). cbn [length].
  intros (count & body & Hp & Hc & Hsum)%srec_spec_bytes
    (count' & body' & Hp' & Hc' & Hsum')%srec_spec_bytes Hi Hne.
  destruct (hex_pairs_insert text i c _ _ Hp Hp' ltac:(lia) Hne) as (x & Heq & Hx).
  assert (i / 2 < length (count :: body))%nat as Hlt.
  { apply hex_pairs_length in Hp. apply Nat.Div0.div_lt_upper_bound. lia. }
  pose proof (hex_pairs_bytes _ _ Hp) as HB. pose proof (hex_pairs_bytes _ _ Hp') as HB'.
  rewrite Heq in Hsum', HB'. rewrite sum_of_insert in Hsum' by done.
  assert (is_u8 x) as Hx8.
  { eapply (Forall_lookup_1 (in_bits 8)); [exact HB'|]. by apply list_lookup_insert_eq. }
  pose proof (is_bytes_lookup _ (i / 2) HB) as Hold. unfold in_bits in *. dlia.
Qed.

(** ** Claims *)

(** C34. [srec_parse] implements the record format: on a well-formed line
    (type digit, hex pairs, matching count, address and data of the type's
    shape, checksum) it returns 0 with the record's type, address, size and
    data in place, and on every other line it returns -1. *)
Theorem srec_parse_correct line r :
  match srec_spec line with
  | Some (t, addr, bytes) =>
      srec_parse line r = (0, SrecRecord addr (memcpy (data r) 0 bytes) (Z.of_nat (length bytes)) t)
  | None => fst (srec_parse line r) = -1
  end.
Proof. apply srec_parse_spec. Qed.

(** Parsing never stores outside the 252 bytes of [data], on any input:
    whatever lies behind the array is the same after the call. *)
Theorem srec_parse_in_bounds line r tail :
  length (data r) = 252%nat →
  srec_parse line (extend_data r tail) =
  (let '(rc, r) := srec_parse line r in (rc, extend_data r tail)).
Proof. apply srec_parse_frame. Qed.

Definition empty_record : srec_record := SrecRecord 0 (replicate 252 0) 0 0.

Lemma srec_parse_in_bounds_witness :
  data (snd (srec_parse (render 1 0x1234 (replicate 252 7)) (extend_data empty_record [42]))) !! 252%nat
  = Some 42.
Proof.
  rewrite (srec_parse_in_bounds (render 1 0x1234 (replicate 252 7)) empty_record [42] eq_refl).
  vm_compute. reflexivity.
Defined.

(** C35. Round trip: the text of any record of a known type, with an address
    that fits and at most 255 counted bytes (no data for types 5 to 9), parses
    to that record. *)
Theorem srec_roundtrip t na addr bytes r :
  naddr t = Some na → 0 <= t <= 9 → 0 <= addr < 256 ^ na → is_bytes bytes →
  na + 1 + Z.of_nat (length bytes) <= 255 → (t >= 5 → bytes = []) →
  srec_parse (render t addr bytes) r =
  (0, SrecRecord addr (memcpy (data r) 0 bytes) (Z.of_nat (length bytes)) t).
Proof.
  intros Hna Ht Ha Hb Hlen Hdata. pose proof (srec_parse_spec (render t addr bytes) r) as Hp.
  rewrite (srec_spec_render t na) in Hp by done. exact Hp.
Qed.

Lemma srec_roundtrip_witness :
  srec_parse (str "S30a80000000010203040566") empty_record =
  (0, SrecRecord 0x80000000 (memcpy (replicate 252 0) 0 [1; 2; 3; 4; 5]) 5 3).
Proof.
  assert (str "S30a80000000010203040566" = render 3 0x80000000 [1; 2; 3; 4; 5]) as E
    by (vm_compute; reflexivity).
  rewrite E. apply (srec_roundtrip 3 4 0x80000000 [1; 2; 3; 4; 5] empty_record);
    [reflexivity|lia|lia|by_decide|simpl; lia|lia].
Defined.

(** C36. A single wrong digit is always noticed: changing any one character
    after the type of an accepted line to one that is not the same hex digit
    makes the parser refuse the line. *)
Theorem srec_digit_error line r r' i c :
  fst (srec_parse line r) = 0 → (2 <= i < length line)%nat → hex c ≠ hex (line !!! i) →
  fst (srec_parse (<[i := c]> line) r') = -1.
Proof.
  intros H0 Hi Hne. rewrite !hex_hex_val in Hne.
  pose proof (srec_parse_spec line r) as Hp. pose proof (srec_parse_spec (<[i := c]> line) r') as Hp'.
  destruct (srec_spec line) as [res|] eqn:Hs; [|rewrite H0 in Hp; done].
  destruct (srec_spec (<[i := c]> line)) as [res'|] eqn:Hs'; [|exact Hp']. exfalso.
  exact (srec_spec_digit line i c res res' Hs Hs' Hi Hne).
Qed.

Lemma srec_digit_error_witness :
  fst (srec_parse (str "S10512340506a8") empty_record) = -1.
Proof.
  apply (srec_digit_error (str "S10512340507a8") empty_record empty_record 11 (chr "6"));
    [vm_compute; reflexivity|simpl; lia|vm_compute; discriminate].
Defined.
