(* ===== verification/Bus.v ===== *)
(** * Memory-mapped I/O (Xil_In32, Xil_Out32, Xil_In8, Xil_Out8) and the
    console driver (src/software/common/console.c)

    The firmware touches hardware only by loads and stores at fixed
    addresses.  The state of the machine is the history of those accesses,
    newest first; the hardware is any function from a history and an address
    to the value a load returns.  Theorems quantify over that function, so
    they hold whatever the hardware answers; a concrete one is an executable
    simulator. *)
From S2P Require Import Prelude.
Local Open Scope cword_scope.

Inductive event :=
| Out32 (a v : Z) | In32 (a v : Z) | Out8 (a v : Z) | In8 (a v : Z)
| Delay (ticks : Z).

#[global] Instance event_eq_dec : EqDecision event.
Proof. solve_decision. Defined.

Abbreviation trace := (list event).
Abbreviation device := (trace → Z → Z).

Definition Xil_Out32 (a v : Z) (t : trace) : trace := Out32 a (u32 v) :: t.
Definition Xil_Out8 (a v : Z) (t : trace) : trace := Out8 a (u8 v) :: t.
Definition Xil_In32 (dev : device) (a : Z) (t : trace) : Z * trace :=
  let v := u32 (dev t a) in (v, In32 a v :: t).
Definition Xil_In8 (dev : device) (a : Z) (t : trace) : Z * trace :=
  let v := u8 (dev t a) in (v, In8 a v :: t).
Definition vTaskDelay (n : Z) (t : trace) : trace := Delay n :: t.
(** At 100 ticks per second. *)
Definition pdMS_TO_TICKS (ms : Z) : Z := ms * 100 / 1000.
Definition portTICK_PERIOD_MS : Z := 1000 / 100.

(** Registers of the miner core (versions.h). *)
Definition MINER_ENGINES_REG : Z := 0x44a30008.
Definition MINER_HW_VERSION_REG : Z := 0x44a300b0.
Definition MINER_BOOT_VERSION_REG : Z := 0x44a300b4.

(** ** console.c *)
Definition UART_BASE : Z := 0x44A10000.

Definition console_init (t : trace) : trace :=
  let t := Xil_Out32 (UART_BASE + 0x18) 0 t in
  let t := Xil_Out32 (UART_BASE + 0x14) 0 t in
  let t := Xil_Out32 (UART_BASE + 0x20) (50000000 / 115200 - 1) t in
  let t := Xil_Out32 (UART_BASE + 0x24) (50000000 / (115200 * 5) - 1) t in
  Xil_Out32 (UART_BASE + 0x18) 3 t.

Section console.
Context (dev : device).

(** [while (In32(...) >= 1024 && --guard) {}], [guard] not zero. *)
Fixpoint uart_wait (guard : nat) (t : trace) : nat * trace :=
  match guard with
  | O => (O, t)
  | S g =>
      let '(level, t) := Xil_In32 dev (UART_BASE + 0x38) t in
      if bool_decide (level >= 1024) then
        match g with O => (O, t) | S _ => uart_wait g t end
      else (guard, t)
  end.

Definition outbyte (value : Z) (t : trace) : trace :=
  let '(guard, t) := uart_wait (Z.to_nat 1000000) t in
  if bool_decide (guard ≠ 0%nat) then Xil_Out32 UART_BASE (u8 value) t else t.

(** [while (!In32(...)) {}] has no bound: [None] when [fuel] loads were not
    enough. *)
Fixpoint inbyte (fuel : nat) (t : trace) : option (Z * trace) :=
  match fuel with
  | O => None
  | S fuel =>
      let '(count, t) := Xil_In32 dev (UART_BASE + 0x3c) t in
      if bool_decide (count = 0) then inbyte fuel t
      else let '(c, t) := Xil_In32 dev (UART_BASE + 8) t in Some (u8 c, t)
  end.
End console.

(** ** Histories *)

(** The byte accesses of a history, oldest first. *)
Definition is_io8 (e : event) : bool :=
  match e with Out8 _ _ | In8 _ _ => true | _ => false end.
Definition io8 (t : trace) : list event := rev (filter is_io8 t).

(** [t'] continues [t] without byte accesses. *)
Definition quiet (t t' : trace) : Prop := ∃ s, t' = s ++ t ∧ Forall (λ e, is_io8 e = false) s.

#[global] Instance quiet_preorder : PreOrder quiet.
Proof.
  split.
  - intros t. by exists [].
  - intros t1 t2 t3 (s1 & -> & H1) (s2 & -> & H2). exists (s2 ++ s1).
    split; [by rewrite app_assoc|]. by apply Forall_app_2.
Qed.

Lemma quiet_io8 t t' : quiet t t' → io8 t' = io8 t.
Proof.
  intros (s & -> & Hs). unfold io8. f_equal. rewrite filter_app.
  replace (filter is_io8 s) with (@nil event); [done|].
  induction Hs as [|e s He Hs IH]; [done|]. rewrite filter_cons, He. by rewrite <-IH.
Qed.

Lemma quiet_cons e t : is_io8 e = false → quiet t (e :: t).
Proof. intros. exists [e]. split; [done|]. by repeat constructor. Qed.

Lemma quiet_out32 a v t : quiet t (Xil_Out32 a v t).
Proof. by apply quiet_cons. Qed.
Lemma quiet_in32 dev a t : quiet t (snd (Xil_In32 dev a t)).
Proof. by apply quiet_cons. Qed.

Create HintDb quiet.
#[export] Hint Resolve quiet_out32 quiet_in32 : quiet.

(** Chains of quiet steps. *)
Ltac quiet_step :=
  first [ reflexivity
        | etransitivity; [|apply quiet_out32]
        | etransitivity; [|apply quiet_cons; reflexivity] ].

Lemma io8_app s t : io8 (s ++ t) = io8 t ++ io8 s.
Proof. unfold io8. by rewrite filter_app, rev_app_distr. Qed.

(** ** The console never blocks on output

    [outbyte] performs at most a million status loads and one store, all on
    the UART, whatever the hardware answers. *)
Definition on_uart (e : event) : Prop :=
  match e with
  | Out32 a _ | In32 a _ => UART_BASE <= a < UART_BASE + 0x40
  | _ => False
  end.

Lemma uart_wait_bounded dev guard t :
  ∃ s, snd (uart_wait dev guard t) = s ++ t ∧ (length s <= guard)%nat ∧ Forall on_uart s.
Proof.
  revert t. induction guard as [|g IH]; intros t; [by exists []|].
  cbn [uart_wait Xil_In32].
  assert (on_uart (In32 (UART_BASE + 0x38) (u32 (dev t (UART_BASE + 0x38))))) as Hu by done.
  set (e := In32 _ _) in *.
  case_bool_decide; [|exists [e]; cbn; split_and!; [done|lia|by repeat constructor]].
  destruct g as [|g]; [exists [e]; cbn; split_and!; [done|lia|by repeat constructor]|].
  destruct (IH (e :: t)) as (s & -> & Hs & Hf). exists (s ++ [e]).
  split_and!; [by rewrite <-app_assoc|len|]. apply Forall_app_2; [done|by repeat constructor].
Qed.

(** Console output cannot hang the firmware: whatever the UART answers,
    [outbyte] makes at most 1000001 accesses, all of them to UART registers,
    and drops the character if the FIFO never drains. *)
Theorem outbyte_bounded dev value t :
  ∃ s, outbyte dev value t = s ++ t ∧ Z.of_nat (length s) <= 1000001 ∧ Forall on_uart s.
Proof.
  unfold outbyte. destruct (uart_wait_bounded dev (Z.to_nat 1000000) t) as (s & Hs & Hl & Hf).
  destruct (uart_wait dev (Z.to_nat 1000000) t) as [guard t']. cbn [snd] in Hs. subst t'.
  case_bool_decide; [|exists s; split_and!; [done|lia|done]].
  exists (Out32 UART_BASE (u32 (u8 value)) :: s). split_and!; [done|cbn [length]; lia|by constructor].
Qed.
