(* ===== verification/Rtos.v ===== *)
(** * Calls to FreeRTOS and the vendor drivers, assertions and hooks
    (src/software/application/port_hooks.c, configASSERT of FreeRTOSConfig.h)

    The code that starts the system and opens sockets calls FreeRTOS,
    FreeRTOS+TCP and Xilinx drivers.  Those are not part of the program: a run
    keeps the history of its calls and of its bus accesses, and the
    environment is any function from a history and a call to the value the
    call returns.  A computation returns a value or stops for good in an
    endless loop ([Halted]), as [configASSERT] makes it do. *)
From stdpp Require Import strings.
From S2P Require Import Prelude Bus.
Local Open Scope cword_scope.

(** ** Calls *)

Inductive arg := Num (v : Z) | Text (s : list Z).
Inductive socket_type := FREERTOS_SOCK_STREAM | FREERTOS_SOCK_DGRAM.
Inductive socket_option := FREERTOS_SO_RCVTIMEO | FREERTOS_SO_SNDTIMEO.
Inductive timer_option := XTC_INT_MODE_OPTION | XTC_AUTO_RELOAD_OPTION | XTC_DOWN_COUNT_OPTION.

(** The functions called, with the arguments that carry information. *)
Inductive call :=
  | xil_printf (format : string) (args : list arg)
  | taskDISABLE_INTERRUPTS
  | Xil_ICacheEnable
  | Xil_DCacheEnable
  | xSemaphoreCreateMutex
  | xQueueCreate (length size : Z)
  | xTaskCreate (name : string) (stack priority : Z)
  | vTaskStartScheduler
  | FreeRTOS_IPInit (ip mask gateway dns mac : list Z)
  | FreeRTOS_IsNetworkUp
  | FreeRTOS_GetIPAddress
  | FreeRTOS_NetworkDown
  | FreeRTOS_socket (type : socket_type)
  | FreeRTOS_bind (s port : Z)
  | FreeRTOS_setsockopt (s : Z) (option : socket_option) (ticks : Z)
  | FreeRTOS_listen (s backlog : Z)
  | FreeRTOS_accept (s : Z)
  | FreeRTOS_send (s : Z) (data : list Z)
  | FreeRTOS_shutdown (s : Z)
  | FreeRTOS_closesocket (s : Z)
  | XTmrCtr_Initialize (base : Z)
  | XTmrCtr_SetResetValue (timer value : Z)
  | XTmrCtr_SetOptions (timer : Z) (options : list timer_option)
  | xPortInstallInterruptHandler (id : Z)
  | XStartInterruptCntrl (id : Z)
  | vPortEnableInterrupt (id : Z)
  | XTmrCtr_Start (timer : Z)
  | XTmrCtr_ReadReg (timer : Z)
  | XTmrCtr_WriteReg (timer value : Z).

#[global] Instance socket_type_eq_dec : EqDecision socket_type.
Proof. solve_decision. Defined.
#[global] Instance socket_option_eq_dec : EqDecision socket_option.
Proof. solve_decision. Defined.
#[global] Instance timer_option_eq_dec : EqDecision timer_option.
Proof. solve_decision. Defined.
#[global] Instance arg_eq_dec : EqDecision arg.
Proof. solve_decision. Defined.
#[global] Instance call_eq_dec : EqDecision call.
Proof. solve_decision. Defined.

Definition pdPASS : Z := 1.
Definition XST_SUCCESS : Z := 0.
Definition FREERTOS_INVALID_SOCKET : Z := -1.

(** The history, newest first. *)
Record rt := Rt { bus : trace; calls : list (call * Z) }.
Abbreviation environment := (rt → call → Z).

(** ** Computations *)

Inductive outcome (A : Type) := Returned (a : A) | Halted.
Arguments Returned {A} _. Arguments Halted {A}.

Definition rtos (A : Type) : Type := rt → outcome A * rt.

#[global] Instance rtos_ret : MRet rtos := λ A a s, (Returned a, s).
#[global] Instance rtos_bind : MBind rtos := λ A B k m s,
  match m s with
  | (Returned a, s) => k a s
  | (Halted, s) => (Halted, s)
  end.

(** A call that returns nothing, an access to the bus, and [for(;;){}]. *)
Definition void (c : call) : rtos () := λ s, (Returned (), Rt (bus s) ((c, 0) :: calls s)).
Definition on_bus {A} (f : trace → A * trace) : rtos A := λ s,
  let '(a, t) := f (bus s) in (Returned a, Rt t (calls s)).
Definition forever {A} : rtos A := λ s, (Halted, s).

Section environment.
Context (env : environment).
Definition invoke (c : call) : rtos Z := λ s, (Returned (env s c), Rt (bus s) ((c, env s c) :: calls s)).
End environment.

(** ** Hooks that do not return *)

Definition vAssertCalled (file : string) (line : Z) {A} : rtos A :=
  void (xil_printf "FreeRTOS assert: %s:%lu\r\n" [Text (str file); Num line]);;
  void taskDISABLE_INTERRUPTS;;
  forever.
Definition application_task_return : rtos () := vAssertCalled "task returned" 0.
Definition vApplicationMallocFailedHook : rtos () :=
  void (xil_printf "FreeRTOS malloc failed\r\n" []);;
  void taskDISABLE_INTERRUPTS;;
  forever.
Definition vApplicationStackOverflowHook (task_name : option (list Z)) : rtos () :=
  void (xil_printf "FreeRTOS stack overflow in task %s\r\n" [Text (default (str "<unknown>") task_name)]);;
  void taskDISABLE_INTERRUPTS;;
  forever.

Definition configASSERT (x : bool) (file : string) (line : Z) : rtos () :=
  if x then mret () else vAssertCalled file line.

(** ** The tick timer *)

(** Constants of the generated xparameters.h and of the timer driver. *)
Class Board := {
  configCPU_CLOCK_HZ : Z;
  XPAR_XTMRCTR_0_BASEADDR : Z;
  XPAR_XTMRCTR_0_INTERRUPTS : Z;
  XINTC_0 : Z;
  XTC_CSR_INT_OCCURED_MASK : Z;
}.
Definition configTICK_RATE_HZ : Z := 100.

Section timer.
Context `{Board} (env : environment).

Definition vApplicationSetupTimerInterrupt : rtos () :=
  let ulCyclesPerTick := u32 (configCPU_CLOCK_HZ / configTICK_RATE_HZ) in
  configASSERT (bool_decide (ulCyclesPerTick > 0)) "port_hooks.c" 28;;
  iStatus ← invoke env (XTmrCtr_Initialize XPAR_XTMRCTR_0_BASEADDR);
  configASSERT (bool_decide (iStatus = XST_SUCCESS)) "port_hooks.c" 31;;
  void (XTmrCtr_SetResetValue 0 (ulCyclesPerTick -32 1));;
  void (XTmrCtr_SetOptions 0 [XTC_INT_MODE_OPTION; XTC_AUTO_RELOAD_OPTION; XTC_DOWN_COUNT_OPTION]);;
  iStatus ← invoke env (xPortInstallInterruptHandler XPAR_XTMRCTR_0_INTERRUPTS);
  configASSERT (bool_decide (iStatus = pdPASS)) "port_hooks.c" 43;;
  iStatus ← invoke env (XStartInterruptCntrl XINTC_0);
  configASSERT (bool_decide (iStatus = XST_SUCCESS)) "port_hooks.c" 49;;
  void (vPortEnableInterrupt XPAR_XTMRCTR_0_INTERRUPTS);;
  void (XTmrCtr_Start 0).

Definition vApplicationClearTimerInterrupt : rtos () :=
  ulTcsr ← invoke env (XTmrCtr_ReadReg 0);
  void (XTmrCtr_WriteReg 0 (ulTcsr .| XTC_CSR_INT_OCCURED_MASK)).
End timer.

(** ** Stopping at the first failure *)

(** Whether a call reports a failure that the code asserts against. *)
Definition failed (c : call * Z) : bool :=
  match fst c with
  | xSemaphoreCreateMutex | xQueueCreate _ _ => bool_decide (snd c = 0)
  | xTaskCreate _ _ _ | FreeRTOS_IPInit _ _ _ _ _ | xPortInstallInterruptHandler _ => bool_decide (snd c ≠ pdPASS)
  | XTmrCtr_Initialize _ | XStartInterruptCntrl _ => bool_decide (snd c ≠ XST_SUCCESS)
  | _ => false
  end.
Definition clean (l : list (call * Z)) : Prop := Forall (λ c, failed c = false) l.

(** The history after a failed assertion: nothing failed before the call that
    did, and after it only the message is printed and interrupts are off. *)
Definition stopped (l : list (call * Z)) : Prop :=
  ∃ c file line l', failed c = true ∧ clean l' ∧
    l = [(taskDISABLE_INTERRUPTS, 0); (xil_printf "FreeRTOS assert: %s:%lu\r\n" [Text (str file); Num line], 0); c] ++ l'.

(** A computation that, run after no failure, returns with none or stops. *)
Definition fail_stop {A} (m : rtos A) : Prop := ∀ s, clean (calls s) →
  match m s with
  | (Returned _, s') => clean (calls s')
  | (Halted, s') => stopped (calls s')
  end.

Create HintDb rtos.

Lemma fail_stop_ret {A} (a : A) : fail_stop (mret a).
Proof. by intros s. Qed.

Lemma fail_stop_bind {A B} (m : rtos A) (k : A → rtos B) :
  fail_stop m → (∀ a, fail_stop (k a)) → fail_stop (a ← m; k a).
Proof.
  intros Hm Hk s Hs. specialize (Hm s Hs). unfold mbind, rtos_bind. destruct (m s) as [[a|] s']; [|done].
  by apply Hk.
Qed.

Lemma fail_stop_void c : failed (c, 0) = false → fail_stop (void c).
Proof. intros Hc s Hs. by apply Forall_cons_2. Qed.

Lemma fail_stop_bus {A} (f : trace → A * trace) : fail_stop (on_bus f).
Proof. intros s Hs. unfold on_bus. by destruct (f (bus s)). Qed.

Lemma fail_stop_invoke env c : (∀ v, failed (c, v) = false) → fail_stop (invoke env c).
Proof. intros Hc s Hs. by apply Forall_cons_2. Qed.

(** A call and the assertion on what it returns. *)
Lemma fail_stop_assert env c (test : Z → bool) file line :
  (∀ v, failed (c, v) = negb (test v)) → fail_stop (v ← invoke env c; configASSERT (test v) file line).
Proof.
  intros Hc s Hs. unfold mbind, rtos_bind, invoke. cbn. pose proof (Hc (env s c)) as Hf.
  destruct (test (env s c)); cbn; [by apply Forall_cons_2|].
  eexists (c, env s c), file, line, (calls s). split_and!; done.
Qed.

Lemma fail_stop_checked env c (test : Z → bool) file line {B} (k : () → Z → rtos B) :
  (∀ v, failed (c, v) = negb (test v)) → (∀ v, fail_stop (k () v)) →
  fail_stop (v ← invoke env c; u ← configASSERT (test v) file line; k u v).
Proof.
  intros Hc Hk s Hs. pose proof (fail_stop_assert env c test file line Hc s Hs) as Ha.
  unfold mbind, rtos_bind, invoke in *. cbn in *. destruct (test (env s c)); [by apply Hk|done].
Qed.

Lemma fail_stop_true file line : fail_stop (configASSERT true file line).
Proof. apply fail_stop_ret. Qed.
#[export] Hint Resolve fail_stop_ret fail_stop_bus fail_stop_true : rtos.
#[export] Hint Extern 1 (fail_stop (void _)) => (apply fail_stop_void; reflexivity) : rtos.

(** One step of a sequence. *)
Ltac stop_step :=
  first
    [ solve [eauto with rtos]
    | apply fail_stop_assert; intros ?; cbn [failed fst snd]; rewrite ?bool_decide_not; by try destruct (bool_decide _)
    | apply fail_stop_checked; [intros ?; cbn [failed fst snd]; rewrite ?bool_decide_not; by try destruct (bool_decide _)|intros ?]
    | apply fail_stop_bind; [solve [eauto with rtos]|intros ?] ].

(** ** An environment in which nothing fails *)
Section answers.
Context (env : environment) (Hgood : ∀ s c, failed (c, env s c) = false).

Definition stays_clean {A} (m : rtos A) : Prop := ∀ s, clean (calls s) → clean (calls (snd (m s))).

Lemma stays_clean_bind {A B} (m : rtos A) (k : A → rtos B) :
  stays_clean m → (∀ a, stays_clean (k a)) → stays_clean (a ← m; k a).
Proof.
  intros Hm Hk s Hs. specialize (Hm s Hs). unfold mbind, rtos_bind. destruct (m s) as [[a|] s']; [|done].
  by apply Hk.
Qed.
Lemma stays_clean_ret {A} (a : A) : stays_clean (mret a).
Proof. by intros s. Qed.
Lemma stays_clean_forever {A} : stays_clean (forever (A:=A)).
Proof. by intros s. Qed.
Lemma stays_clean_void c : failed (c, 0) = false → stays_clean (void c).
Proof. intros Hc s Hs. by apply Forall_cons_2. Qed.
Lemma stays_clean_bus {A} (f : trace → A * trace) : stays_clean (on_bus f).
Proof. intros s Hs. unfold on_bus. by destruct (f (bus s)). Qed.
Lemma stays_clean_invoke c : stays_clean (invoke env c).
Proof. intros s Hs. apply Forall_cons_2; [apply Hgood|done]. Qed.
Lemma stays_clean_assert b file line : stays_clean (configASSERT b file line).
Proof. intros s Hs. destruct b; [done|]. by repeat apply Forall_cons_2. Qed.

(** What stops at failures does not stop. *)
Lemma clean_returns {A} (m : rtos A) s :
  fail_stop m → stays_clean m → clean (calls s) → fst (m s) ≠ Halted.
Proof.
  intros Hf Hc Hs. specialize (Hf s Hs). specialize (Hc s Hs). destruct (m s) as [[a|] s']; [done|].
  destruct Hf as (c & file & line & l & Hfail & _ & El). cbn [snd] in Hc. rewrite El in Hc.
  unfold clean in Hc. do 2 (apply Forall_cons in Hc as [_ Hc]). apply Forall_cons in Hc as [Hc _]. congruence.
Qed.
End answers.
#[export] Hint Resolve stays_clean_ret stays_clean_forever stays_clean_bus stays_clean_invoke stays_clean_assert : rtos.
#[export] Hint Extern 1 (stays_clean (void _)) => (apply stays_clean_void; reflexivity) : rtos.

Ltac clean_step := first [solve [eauto with rtos] | apply stays_clean_bind; [solve [eauto with rtos]|intros ?]].

(** ** Interrupt hooks *)
Section hooks.
Context `{Board} (env : environment).

Lemma fail_stop_timer : 100 <= configCPU_CLOCK_HZ < 2 ^ 32 → fail_stop (vApplicationSetupTimerInterrupt env).
Proof.
  intros Hhz. unfold vApplicationSetupTimerInterrupt, configTICK_RATE_HZ.
  rewrite (u32_small (configCPU_CLOCK_HZ / 100)) by (unfold in_bits; dlia). rewrite bool_decide_true by dlia.
  repeat stop_step.
Qed.

(** The calls of a set-up that returns: the timer, loaded with the cycles of a
    tick, starts last, with its handler, the controller and the interrupt in
    place. *)
Lemma timer_calls s s' u :
  100 <= configCPU_CLOCK_HZ < 2 ^ 32 → vApplicationSetupTimerInterrupt env s = (Returned u, s') →
  fst <$> calls s' =
    [XTmrCtr_Start 0; vPortEnableInterrupt XPAR_XTMRCTR_0_INTERRUPTS; XStartInterruptCntrl XINTC_0;
     xPortInstallInterruptHandler XPAR_XTMRCTR_0_INTERRUPTS;
     XTmrCtr_SetOptions 0 [XTC_INT_MODE_OPTION; XTC_AUTO_RELOAD_OPTION; XTC_DOWN_COUNT_OPTION];
     XTmrCtr_SetResetValue 0 (configCPU_CLOCK_HZ / 100 - 1); XTmrCtr_Initialize XPAR_XTMRCTR_0_BASEADDR] ++
    (fst <$> calls s).
Proof.
  intros Hhz. unfold vApplicationSetupTimerInterrupt, configTICK_RATE_HZ.
  rewrite (u32_small (configCPU_CLOCK_HZ / 100)) by (unfold in_bits; dlia). rewrite bool_decide_true by dlia.
  rewrite (u32_small (configCPU_CLOCK_HZ / 100 - 1)) by (unfold in_bits; dlia).
  unfold mbind, rtos_bind, invoke, void, configASSERT. cbn.
  repeat (case_bool_decide; cbn; [|done]). by intros [= _ <-].
Qed.

(** Acknowledging the tick writes the control register back with the
    interrupt bit set, which clears it, and changes no other bit. *)
Lemma clear_timer s :
  let v := env s (XTmrCtr_ReadReg 0) in
  vApplicationClearTimerInterrupt env s =
    (Returned (), Rt (bus s) ((XTmrCtr_WriteReg 0 (v .| XTC_CSR_INT_OCCURED_MASK), 0) :: (XTmrCtr_ReadReg 0, v) :: calls s)).
Proof. done. Qed.
End hooks.
