(* ===== verification/Boot.v ===== *)
(** * First-stage bootloader (src/software/bootloader/main.c)

    [main] calibrates the memory, reads an S-record image from SPI flash,
    stores and verifies it in RAM, and only then installs the CPU vectors and
    jumps.  The static variables of the file are the record [boot]; loops
    that run until the image ends take a [fuel], and the termination theorem
    says that a fuel above the 8 MiB of flash is never used up.  Functions of
    the board support package (the HyperBus calibration, [xil_printf]) are
    parameters. *)
From S2P Require Import Prelude Fips180 Sha256 Bitcoin Srec Bus.
Local Open Scope cword_scope.

(** ** The code *)

Definition HB : Z := 0x00010000.
Definition SPI : Z := 0x44A00000.
Definition FLASH_START : Z := 0x00800000.
Definition FLASH_END : Z := 0x01000000.
Definition RAM_START : Z := 0x80000000.
Definition RAM_END : Z := 0x80800000.
Definition BOOTLOADER_VERSION_CODE : Z := 0x01000000.

(** The static variables, and the history of the bus. *)
Record boot := Boot {
  tr : trace; cache : list Z; flash : Z; pos : nat;
  vectors : list Z; seen : list Z; line : list Z; record : srec_record
}.

Definition initial_boot (t : trace) : boot :=
  Boot t (replicate 64 0) FLASH_START 64 (replicate 80 0) (replicate 80 0) (replicate 514 0)
    (SrecRecord 0 (replicate 252 0) 0 0).

Definition set_tr (t : trace) (b : boot) : boot :=
  Boot t (cache b) (flash b) (pos b) (vectors b) (seen b) (line b) (record b).
Definition set_line (l : list Z) (b : boot) : boot :=
  Boot (tr b) (cache b) (flash b) (pos b) (vectors b) (seen b) l (record b).
Definition set_record (r : srec_record) (b : boot) : boot :=
  Boot (tr b) (cache b) (flash b) (pos b) (vectors b) (seen b) (line b) r.

Definition is_newline (c : Z) : bool := bool_decide (c = 13) || bool_decide (c = 10).

Section bootloader.
Context (dev : device).
(** Library code: console output, with its format and integer arguments. *)
Context (xil_printf : string → list Z → trace → trace).

(** [while ((In32(SPI+0x64)&1U) && --guard) {}], entered with [guard] > 0. *)
Fixpoint spi_wait (guard : nat) (t : trace) : nat * trace :=
  match guard with
  | O => (O, t)
  | S g =>
      let '(status, t) := Xil_In32 dev (SPI + 0x64) t in
      if bool_decide (status .& 1 ≠ 0) then
        match g with O => (O, t) | S _ => spi_wait g t end
      else (guard, t)
  end.

(** The receive loop with [n] bytes to go: the bytes of [rx], or [None] when
    the guard ran out. *)
Fixpoint spi_receive (n guard : nat) (t : trace) : option (list Z) * trace :=
  match n with
  | O => (Some [], t)
  | S n =>
      let '(guard, t) := spi_wait guard t in
      if bool_decide (guard = O) then (None, t)
      else
        let '(v, t) := Xil_In32 dev (SPI + 0x6c) t in
        let '(rx, t) := spi_receive n guard t in
        (rx ← rx; Some (u8 v :: rx), t)
  end.

Definition transfer (tx : list Z) (t : trace) : option (list Z) * trace :=
  let t := Xil_Out32 (SPI + 0x60) 0x1E6 t in
  let t := Xil_Out32 (SPI + 0x60) 0x186 t in
  let t := foldl (λ t b, Xil_Out32 (SPI + 0x68) b t) t tx in
  let t := Xil_Out32 (SPI + 0x70) 0xFFFFFFFE t in
  let t := Xil_Out32 (SPI + 0x60) 0x086 t in
  let '(rx, t) := spi_receive (length tx) (Z.to_nat 1000000) t in
  let t := Xil_Out32 (SPI + 0x60) 0x186 t in
  let t := Xil_Out32 (SPI + 0x70) 0xFFFFFFFF t in
  (rx, t).

Definition get_byte (b : boot) : Z * boot :=
  let refilled :=
    if bool_decide (pos b = 64%nat) then
      let tx := [3; u8 (flash b >>. 16); u8 (flash b >>. 8); u8 (flash b)] ++ replicate 64 0 in
      if bool_decide (flash b > FLASH_END - 64) then (false, b)
      else
        match transfer tx (tr b) with
        | (None, t) => (false, set_tr t b)
        | (Some rx, t) =>
            let cache := for_loop 0 64 (λ i c, <[i := rx !!! (i + 4)%nat]> c) (cache b) in
            (true, Boot t cache (flash b +32 64) 0 (vectors b) (seen b) (line b) (record b))
        end
    else (true, b) in
  let '(ok, b) := refilled in
  if negb ok then (-1, b)
  else (cache b !!! pos b,
        Boot (tr b) (cache b) (flash b) (pos b + 1) (vectors b) (seen b) (line b) (record b)).

(** [do {c=get_byte();} while(c=='\r'||c=='\n');] *)
Fixpoint skip_newlines (fuel : nat) (b : boot) : option Z * boot :=
  match fuel with
  | O => (None, b)
  | S fuel =>
      let '(c, b) := get_byte b in
      if is_newline c then skip_newlines fuel b else (Some c, b)
  end.

(** The rest of a line, [n] characters being stored already. *)
Inductive line_result := LineEnd (n : nat) | LineError | LineFuel.
Fixpoint read_line (fuel n : nat) (b : boot) : line_result * boot :=
  match fuel with
  | O => (LineFuel, b)
  | S fuel =>
      let '(c, b) := get_byte b in
      if bool_decide (c < 0) || bool_decide (n = 514%nat) then (LineError, b)
      else if is_newline c then (LineEnd n, b)
      else read_line fuel (n + 1) (set_line (<[n := c]> (line b)) b)
  end.

(** The byte-by-byte copy to RAM with its read-back; [false] is the
    [return -1]. *)
Fixpoint store_ram (a : Z) (bytes : list Z) (t : trace) : bool * trace :=
  match bytes with
  | [] => (true, t)
  | v :: bytes =>
      let t := Xil_Out8 a v t in
      let '(actual, t) := Xil_In8 dev a t in
      if bool_decide (actual ≠ v)
      then (false, xil_printf "RAM verify %x wrote %x read %x\r\n" [a; v; actual] t)
      else store_ram (a + 1) bytes t
  end.

Definition payload (r : srec_record) : list Z := take (Z.to_nat (size r)) (data r).

(** What the body of the loop of [load] does with a parsed record. *)
Inductive action := Next (data_records low high : Z) | Entry (entry : Z) | LoadError.

Definition handle_record (data_records low high : Z) (b : boot) : action * boot :=
  let r := record b in
  if bool_decide (type r = 0) then (Next data_records low high, b)
  else if bool_decide (type r = 5) || bool_decide (type r = 6) then
    if bool_decide (address r ≠ data_records) then (LoadError, b)
    else (Next data_records low high, b)
  else if bool_decide (type r >= 7) then
    let entry := address r in
    (if bool_decide (data_records ≠ 0) && bool_decide (entry >= low) && bool_decide (entry < high) &&
        bool_decide (entry .& 3 = 0)
     then Entry entry else LoadError, b)
  else
    let a := address r in
    if bool_decide (a < 0x50) && bool_decide (size r <= 0x50 - a) then
      (Next (data_records +32 1) low high,
       Boot (tr b) (cache b) (flash b) (pos b) (memcpy (vectors b) (Z.to_nat a) (payload r))
         (memcpy (seen b) (Z.to_nat a) (replicate (Z.to_nat (size r)) 1)) (line b) r)
    else if bool_decide (a >= RAM_START) && bool_decide (a < RAM_END) &&
            bool_decide (size r <= RAM_END - a) then
      let '(ok, t) := store_ram a (payload r) (tr b) in
      if negb ok then (LoadError, set_tr t b)
      else (Next (data_records +32 1) (if bool_decide (a < low) then a else low)
              (if bool_decide (a +32 size r > high) then a +32 size r else high), set_tr t b)
    else (LoadError, b).

(** One line: read it into [line] and parse it into [record]. *)
Inductive record_result := RecordRead | RecordError | RecordFuel.
Definition next_record (fuel : nat) (b : boot) : record_result * boot :=
  match skip_newlines fuel b with
  | (None, b) => (RecordFuel, b)
  | (Some c, b) =>
      if bool_decide (c ≠ chr "S") then
        (RecordError, set_tr (xil_printf "SREC start %x byte %x\r\n"
           [u32 (flash b - 64 + Z.of_nat (pos b) - 1); c] (tr b)) b)
      else
        match read_line fuel 1 (set_line (<[0%nat := c]> (line b)) b) with
        | (LineFuel, b) => (RecordFuel, b)
        | (LineError, b) => (RecordError, b)
        | (LineEnd n, b) =>
            let '(rc, r) := srec_parse (take n (line b)) (record b) in
            let b := set_record r b in
            if bool_decide (rc ≠ 0) then
              (RecordError, set_tr (xil_printf "SREC parse near %x size %d\r\n"
                 [u32 (flash b - 64 + Z.of_nat (pos b)); Z.of_nat n] (tr b)) b)
            else (RecordRead, b)
        end
  end.

Inductive load_result := Loaded (entry : Z) | LoadFailed | LoadFuel.
Fixpoint load_loop (fuel inner : nat) (data_records low high : Z) (b : boot) : load_result * boot :=
  match fuel with
  | O => (LoadFuel, b)
  | S fuel =>
      match next_record inner b with
      | (RecordFuel, b) => (LoadFuel, b)
      | (RecordError, b) => (LoadFailed, b)
      | (RecordRead, b) =>
          match handle_record data_records low high b with
          | (LoadError, b) => (LoadFailed, b)
          | (Entry entry, b) => (Loaded entry, b)
          | (Next data_records low high, b) => load_loop fuel inner data_records low high b
          end
      end
  end.

Definition load (fuel : nat) (b : boot) : load_result * boot :=
  load_loop fuel fuel 0 RAM_END RAM_START b.

Definition offsets : list Z := [0; 8; 16; 32].
Definition vector_addrs : list Z := offsets ≫= λ o, (λ j, o + Z.of_nat j) <$> seq 0 8.
Definition all_seen (b : boot) : bool :=
  forallb (λ a, bool_decide (seen b !!! Z.to_nat a ≠ 0)) vector_addrs.
Definition install_vectors (b : boot) : boot :=
  set_tr (foldl (λ t a, Xil_Out8 a (vectors b !!! Z.to_nat a) t) (tr b) vector_addrs) b.

(** Library code: the HyperBus calibration.  The functions work on the bus and
    return a status; the sweep also returns [lo], [hi] and [mid]. *)
Context (hb_idelayctrl_reset_wait_ready hb_rwds_idly_dec_below_16 : trace → Z * trace).
Context (hb_odly_sweep_to_midpoint : trace → Z * list Z * trace).
Context (HB_DELAY_RST_CTRL_OFFSET HB_DELAY_RST_HB_RESET HB_CR0_OFFSET : Z).

Definition delay (n : Z) (t : trace) : trace := Delay n :: t.

(** Everything before [load]: console, version register, memory calibration
    and the flash identification; [false] is [goto fail]. *)
Definition prepare_memory (t : trace) : bool * trace :=
  let t := console_init t in
  let t := xil_printf "SCU35 50MHz SREC boot v1.0.0\r\n" [] t in
  let t := Xil_Out32 MINER_BOOT_VERSION_REG BOOTLOADER_VERSION_CODE t in
  let t := delay 50000 t in
  let '(rc, t) := hb_idelayctrl_reset_wait_ready t in
  if bool_decide (rc ≠ 0) then (false, t) else
  let '(reset, t) := Xil_In32 dev (HB + HB_DELAY_RST_CTRL_OFFSET) t in
  let t := Xil_Out32 (HB + HB_DELAY_RST_CTRL_OFFSET) (reset .| HB_DELAY_RST_HB_RESET) t in
  let t := delay 50000 t in
  let t := Xil_Out32 (HB + HB_DELAY_RST_CTRL_OFFSET) (reset .& not32 HB_DELAY_RST_HB_RESET) t in
  let t := delay 50000 t in
  let '(rc, t) := hb_rwds_idly_dec_below_16 t in
  if bool_decide (rc ≠ 0) then (false, t) else
  let '(rc, window, t) := hb_odly_sweep_to_midpoint t in
  if bool_decide (rc ≠ 0) then (false, t) else
  let cr0 := 0xBF2F in
  let t := Xil_Out32 (HB + HB_CR0_OFFSET) cr0 t in
  let '(v, t) := Xil_In32 dev (HB + HB_CR0_OFFSET) t in
  if bool_decide (v .& 0xffff ≠ cr0 .& 0xffff) then (false, t) else
  let t := xil_printf "HyperRAM window %x..%x midpoint %x\r\n" window t in
  (true, xil_printf "HyperRAM CR0 %x\r\n" [cr0] t).

Definition identify_flash (t : trace) : bool * trace :=
  let t := Xil_Out32 (SPI + 0x40) 0xA t in
  let t := Xil_Out32 (SPI + 0x1c) 0 t in
  let tx := [0x9f; 0; 0; 0] in
  let '(_, t) := transfer tx t in
  match transfer tx t with
  | (None, t) => (false, xil_printf "Flash ID read failed\r\n" [] t)
  | (Some rx, t) =>
      if bool_decide (rx !!! 1%nat = 0) || bool_decide (rx !!! 1%nat = 255)
      then (false, xil_printf "Flash ID read failed\r\n" [] t)
      else (true, xil_printf "Flash %02x%02x%02x SREC @ %08x\r\n"
                    [rx !!! 1%nat; rx !!! 2%nat; rx !!! 3%nat; FLASH_START] t)
  end.

(** How [main] ends: it jumps to [entry], or it stays in the failure loop. *)
Inductive boot_result := Jump (entry : Z) | BootFailed | BootFuel.

Definition boot_failed (b : boot) : boot_result * boot :=
  (BootFailed, set_tr (xil_printf "Boot failed; application not started\r\n" [] (tr b)) b).

Definition main (fuel : nat) (b : boot) : boot_result * boot :=
  let '(ok, t) := prepare_memory (tr b) in
  if negb ok then boot_failed (set_tr t b) else
  let '(ok, t) := identify_flash t in
  if negb ok then boot_failed (set_tr t b) else
  match load fuel (set_tr t b) with
  | (LoadFuel, b) => (BootFuel, b)
  | (LoadFailed, b) => boot_failed b
  | (Loaded entry, b) =>
      if negb (all_seen b) then boot_failed b
      else
        let b := install_vectors b in
        (Jump entry, set_tr (xil_printf "Jump %08x\r\n" [entry] (tr b)) b)
  end.
End bootloader.

(** ** Quiet steps: no byte access *)

Lemma spi_wait_quiet dev guard t : quiet t (snd (spi_wait dev guard t)).
Proof.
  revert t. induction guard as [|g IH]; intros t; [reflexivity|]. cbn [spi_wait Xil_In32].
  case_bool_decide; [|by apply quiet_cons].
  destruct g as [|g]; [by apply quiet_cons|].
  etransitivity; [|apply IH]. by apply quiet_cons.
Qed.

Lemma spi_receive_quiet dev n guard t : quiet t (snd (spi_receive dev n guard t)).
Proof.
  revert guard t. induction n as [|n IH]; intros guard t; [reflexivity|]. cbn [spi_receive].
  pose proof (spi_wait_quiet dev guard t) as Hw. destruct (spi_wait dev guard t) as [g t1].
  cbn [snd] in Hw. case_bool_decide; [done|]. cbn [Xil_In32].
  set (t2 := In32 _ _ :: t1). pose proof (IH g t2) as Hr.
  destruct (spi_receive dev n g t2) as [rx t3]. cbn [snd] in *.
  etransitivity; [exact Hw|]. etransitivity; [|exact Hr]. by apply quiet_cons.
Qed.

Lemma out32s_quiet a l t : quiet t (foldl (λ t b, Xil_Out32 a b t) t l).
Proof.
  revert t. induction l as [|b l IH]; intros t; [reflexivity|]. simpl.
  etransitivity; [|apply IH]. apply quiet_out32.
Qed.

Lemma transfer_quiet dev tx t : quiet t (snd (transfer dev tx t)).
Proof.
  unfold transfer.
  match goal with |- context [spi_receive dev ?n ?g ?t0] =>
    pose proof (spi_receive_quiet dev n g t0) as Hr; destruct (spi_receive dev n g t0) as [rx t1] end.
  cbn [snd] in *. do 2 (etransitivity; [|apply quiet_out32]). etransitivity; [|exact Hr].
  do 2 (etransitivity; [|apply quiet_out32]). etransitivity; [|apply out32s_quiet].
  do 2 (etransitivity; [|apply quiet_out32]). reflexivity.
Qed.

Lemma spi_receive_length dev n guard t rx :
  fst (spi_receive dev n guard t) = Some rx → length rx = n.
Proof.
  revert guard t rx. induction n as [|n IH]; intros guard t rx; cbn [spi_receive].
  { by intros [= <-]. }
  destruct (spi_wait dev guard t) as [g t1]. case_bool_decide; [done|]. cbn [Xil_In32].
  match goal with |- context [spi_receive dev n g ?t2] =>
    specialize (IH g t2); destruct (spi_receive dev n g t2) as [[rx'|] t3] end;
    simpl in *; [|done].
  intros [= <-]. simpl. by rewrite IH.
Qed.

(** ** The flash cursor *)

(** Bytes of flash not yet delivered, and the cursor's invariant. *)
Definition remaining (b : boot) : Z := FLASH_END - flash b + 64 - Z.of_nat (pos b).
Definition cursor_ok (b : boot) : Prop := 0 <= flash b <= FLASH_END ∧ (pos b <= 64)%nat.

(** The fields [load] does not touch while reading. *)
Definition same_image (b b' : boot) : Prop :=
  vectors b' = vectors b ∧ seen b' = seen b ∧ quiet (tr b) (tr b').

Lemma same_image_refl b : same_image b b.
Proof. done. Qed.
Lemma same_image_trans b1 b2 b3 : same_image b1 b2 → same_image b2 b3 → same_image b1 b3.
Proof.
  intros (H1 & H2 & H3) (H4 & H5 & H6). split_and!; [congruence..|by etransitivity].
Qed.

Lemma same_image_set_tr b b1 t : same_image b b1 → quiet (tr b1) t → same_image b (set_tr t b1).
Proof. intros (H1 & H2 & H3) Hq. split_and!; [done|done|]. cbn. by etransitivity. Qed.

Section reading.
Context (dev : device) (xil_printf : string → list Z → trace → trace).
Hypothesis (printf_quiet : ∀ f args t, quiet t (xil_printf f args t)).

Lemma get_byte_spec b :
  cursor_ok b →
  let '(c, b') := get_byte dev b in
  cursor_ok b' ∧ same_image b b' ∧ record b' = record b ∧ line b' = line b ∧
  (c = -1 ∧ remaining b' <= remaining b ∨ remaining b' = remaining b - 1).
Proof.
  intros [Hf Hp]. unfold get_byte, remaining.
  case_bool_decide as Hpos; cbn [negb].
  2: { cbn. split_and!; try done; [split; cbn; lia|right; lia]. }
  case_bool_decide as Hend; cbn [negb]; [by split_and!; auto with lia|].
  match goal with |- context [transfer dev ?tx (tr b)] =>
    pose proof (transfer_quiet dev tx (tr b)) as Hq; destruct (transfer dev tx (tr b)) as [[rx|] t] end;
    cbn in *; unfold FLASH_END in *.
  - assert (flash b +32 64 = flash b + 64) as -> by (apply u32_small; unfold in_bits; lia).
    split_and!; try done; [split; cbn; unfold FLASH_END; lia|right; lia].
  - split_and!; try done. left. lia.
Qed.

Lemma skip_newlines_spec fuel b :
  cursor_ok b →
  let '(c, b') := skip_newlines dev fuel b in
  cursor_ok b' ∧ same_image b b' ∧ record b' = record b ∧
  (remaining b < Z.of_nat fuel → c ≠ None) ∧
  remaining b' <= remaining b ∧ (c ≠ Some (-1) → c ≠ None → remaining b' < remaining b).
Proof.
  revert b. induction fuel as [|fuel IH]; intros b Hok; cbn [skip_newlines].
  { split_and!; try done. intros Hr. destruct Hok. unfold remaining in *. lia. }
  pose proof (get_byte_spec b Hok) as Hg. destruct (get_byte dev b) as [c b1].
  destruct Hg as (Hok1 & Hsame & Hrec & _ & Hrem).
  destruct (is_newline c) eqn:Hn.
  - assert (remaining b1 = remaining b - 1) as Hr by (destruct Hrem as [[-> _]|?]; done).
    specialize (IH b1 Hok1). destruct (skip_newlines dev fuel b1) as [c' b2].
    destruct IH as (Hok2 & Hsame2 & Hrec2 & Hfuel & Hle & Hlt).
    split_and!; [done|by eapply same_image_trans|congruence|intros; apply Hfuel; lia|lia|].
    intros. lia.
  - split_and!; try done; [lia|]. intros Hne _. destruct Hrem as [[-> _]|?]; [done|lia].
Qed.

Lemma read_line_spec fuel n b :
  cursor_ok b →
  let '(r, b') := read_line dev fuel n b in
  cursor_ok b' ∧ same_image b b' ∧ record b' = record b ∧
  (remaining b < Z.of_nat fuel → r ≠ LineFuel) ∧ remaining b' <= remaining b.
Proof.
  revert n b. induction fuel as [|fuel IH]; intros n b Hok; cbn [read_line].
  { split_and!; try done. intros Hr. destruct Hok. unfold remaining in *. lia. }
  pose proof (get_byte_spec b Hok) as Hg. destruct (get_byte dev b) as [c b1].
  destruct Hg as (Hok1 & Hsame & Hrec & _ & Hrem).
  destruct (bool_decide_reflect (c < 0)) as [|Hc]; cbn [orb]; [by split_and!; auto with lia|].
  case_bool_decide; [by split_and!; auto with lia|].
  destruct (is_newline c); [by split_and!; auto with lia|].
  assert (remaining b1 = remaining b - 1) as Hr by lia.
  specialize (IH (n + 1)%nat (set_line (<[n:=c]> (line b1)) b1) Hok1).
  destruct (read_line dev fuel (n + 1) _) as [r b2].
  destruct IH as (Hok2 & Hsame2 & Hrec2 & Hfuel & Hle). change (remaining (set_line _ b1)) with (remaining b1) in *.
  split_and!; [done|by eapply same_image_trans|by rewrite Hrec2|intros; apply Hfuel; lia|lia].
Qed.

(** ** Records *)

(** What a parsed record looks like. *)
Definition record_ok (r : srec_record) : Prop :=
  length (data r) = 252%nat ∧ 0 <= size r ∧ length (payload r) = Z.to_nat (size r) ∧
  is_bytes (payload r) ∧ 0 <= address r.

(** A record that came from a line of the image. *)
Definition parsed (r : srec_record) : Prop :=
  record_ok r ∧ ∃ l, srec_spec l = Some (type r, address r, payload r).

Lemma srec_spec_data l t a bytes :
  srec_spec l = Some (t, a, bytes) → is_bytes bytes ∧ (length bytes <= 252)%nat ∧ 0 <= a.
Proof.
  unfold srec_spec. destruct l as [|s [|d text]]; [done..|].
  case_bool_decide; cbn [mbind option_bind]; [|done].
  destruct (naddr (d - chr "0")) as [na|] eqn:Hna; cbn [mbind option_bind]; [|done].
  apply naddr_range in Hna. destruct (hex_pairs text) as [[|count body]|] eqn:Hp;
    cbn [mbind option_bind]; [done| |done].
  case_bool_decide as Hok; [|done]. intros [= <- <- <-].
  apply hex_pairs_bytes, Forall_cons in Hp as [Hc Hb]. destruct Hok as (Hl & Hge & _).
  unfold in_bits in Hc. split_and!; [by apply Forall_sub| |].
  - unfold sub. rewrite length_take, length_drop. lia.
  - apply be_value_bound. by apply Forall_take.
Qed.

Lemma srec_spec_type l t a bytes : srec_spec l = Some (t, a, bytes) → 0 <= t <= 9 ∧ t ≠ 4.
Proof.
  unfold srec_spec. destruct l as [|s [|d text]]; [done..|].
  case_bool_decide as Hd; cbn [mbind option_bind]; [|done].
  destruct (naddr (d - chr "0")) as [na|] eqn:Hna; cbn [mbind option_bind]; [|done].
  destruct (hex_pairs text) as [[|count body]|]; cbn [mbind option_bind]; [done| |done].
  case_bool_decide; [|done]. intros [= <- _ _]. split; [apply Hd|].
  intros H4. by rewrite H4 in Hna.
Qed.

Lemma srec_parse_parsed l r r' :
  length (data r) = 252%nat → srec_parse l r = (0, r') → parsed r'.
Proof.
  intros Hl Hp. pose proof (srec_parse_spec l r) as Hs. rewrite Hp in Hs.
  destruct (srec_spec l) as [[[t a] bytes]|] eqn:Hspec; [|done]. injection Hs as ->.
  destruct (srec_spec_data _ _ _ _ Hspec) as (Hb & Hle & Ha).
  assert (payload (SrecRecord a (memcpy (data r) 0 bytes) (Z.of_nat (length bytes)) t) = bytes) as Hpay.
  { unfold payload. cbn [data size]. rewrite Nat2Z.id, take_sub. apply sub_memcpy_same. lia. }
  split; [|exists l; by rewrite Hpay].
  unfold record_ok. rewrite Hpay. cbn [data size address]. rewrite length_memcpy, Nat2Z.id.
  split_and!; (done || lia).
Qed.

Lemma next_record_spec fuel b :
  cursor_ok b → length (data (record b)) = 252%nat →
  let '(res, b') := next_record dev xil_printf fuel b in
  cursor_ok b' ∧ same_image b b' ∧ (remaining b < Z.of_nat fuel → res ≠ RecordFuel) ∧
  (res = RecordRead → remaining b' < remaining b ∧ parsed (record b')).
Proof.
  intros Hok Hlen. unfold next_record.
  pose proof (skip_newlines_spec fuel b Hok) as Hs.
  destruct (skip_newlines dev fuel b) as [[c|] b1]; destruct Hs as (Hok1 & Hsame & Hrec & Hf & Hle & Hlt).
  2: { split_and!; try done. intros Hr _. by apply Hf. }
  case_bool_decide as Hc.
  { split; [done|]. split; [by apply same_image_set_tr|done]. }
  specialize (Hlt ltac:(subst c; done) ltac:(done)).
  set (b1' := set_line _ b1). assert (cursor_ok b1') as Hok1' by exact Hok1.
  pose proof (read_line_spec fuel 1 b1' Hok1') as Hr.
  destruct (read_line dev fuel 1 b1') as [[n| |] b2]; destruct Hr as (Hok2 & Hsame2 & Hrec2 & Hf2 & Hle2);
    change (remaining b1') with (remaining b1) in *;
    assert (same_image b b2) as Hsame' by (by eapply same_image_trans);
    [|by split_and!|split_and!; try done; intros ? _; apply Hf2; [lia|done]].
  destruct (srec_parse (take n (line b2)) (record b2)) as [rc r] eqn:Hparse.
  case_bool_decide as Hrc.
  { split; [done|]. split; [|done]. apply same_image_set_tr; [done|apply printf_quiet]. }
  split_and!; try done. intros _. split; [change (remaining (set_record r b2)) with (remaining b2); lia|].
  assert (rc = 0) as -> by lia. cbn [record set_record].
  eapply srec_parse_parsed; [|exact Hparse]. rewrite Hrec2. change (record b1') with (record b1).
  by rewrite Hrec.
Qed.
End reading.

(** ** What an image means

    The data records of an image, in order, and what loading them does. *)

Definition is_vector (r : srec_record) : bool :=
  bool_decide (address r < 0x50) && bool_decide (size r <= 0x50 - address r).

Definition in_ram (r : srec_record) : Prop :=
  RAM_START <= address r < RAM_END ∧ address r + size r <= RAM_END.

Definition data_record (r : srec_record) : Prop :=
  parsed r ∧ 1 <= type r <= 3 ∧ (is_vector r = true ∨ in_ram r).

(** Every byte is stored and read back. *)
Fixpoint ram_io (a : Z) (bytes : list Z) : list event :=
  match bytes with
  | [] => []
  | v :: bytes => Out8 a v :: In8 a v :: ram_io (a + 1) bytes
  end.
Definition image_io (rs : list srec_record) : list event :=
  rs ≫= λ r, if is_vector r then [] else ram_io (address r) (payload r).
Definition image_vectors (rs : list srec_record) (v : list Z) : list Z :=
  foldl (λ v r, if is_vector r then memcpy v (Z.to_nat (address r)) (payload r) else v) v rs.
Definition image_seen (rs : list srec_record) (v : list Z) : list Z :=
  foldl (λ v r, if is_vector r
    then memcpy v (Z.to_nat (address r)) (replicate (Z.to_nat (size r)) 1) else v) v rs.
Definition image_low (rs : list srec_record) : Z :=
  foldl (λ low r, if is_vector r then low else Z.min (address r) low) RAM_END rs.
Definition image_high (rs : list srec_record) : Z :=
  foldl (λ high r, if is_vector r then high else Z.max (address r + size r) high) RAM_START rs.

(** A byte access to the RAM the image may occupy. *)
Definition ram_event (e : event) : Prop :=
  match e with
  | Out8 a _ | In8 a _ => RAM_START <= a < RAM_END
  | _ => False
  end.
Definition ram_only (t t' : trace) : Prop := ∃ s, io8 t' = io8 t ++ s ∧ Forall ram_event s.

#[global] Instance ram_only_preorder : PreOrder ram_only.
Proof.
  split.
  - intros t. exists []. by rewrite app_nil_r.
  - intros t1 t2 t3 (s1 & E1 & H1) (s2 & E2 & H2). exists (s1 ++ s2).
    split; [by rewrite E2, E1, app_assoc|by apply Forall_app_2].
Qed.

Lemma quiet_ram_only t t' : quiet t t' → ram_only t t'.
Proof. intros Hq. exists []. by rewrite (quiet_io8 _ _ Hq), app_nil_r. Qed.

Lemma ram_io_ram a bytes :
  RAM_START <= a → a + Z.of_nat (length bytes) <= RAM_END → Forall ram_event (ram_io a bytes).
Proof.
  revert a. induction bytes as [|v bytes IH]; intros a Ha Hl; cbn [ram_io length] in *; [constructor|].
  repeat constructor; cbn; [lia..|]. apply IH; lia.
Qed.

Section loading.
Context (dev : device) (xil_printf : string → list Z → trace → trace).
Hypothesis (printf_quiet : ∀ f args t, quiet t (xil_printf f args t)).

Lemma store_ram_spec a bytes t :
  is_bytes bytes → RAM_START <= a → a + Z.of_nat (length bytes) <= RAM_END →
  let '(ok, t') := store_ram dev xil_printf a bytes t in
  ram_only t t' ∧ (ok = true → io8 t' = io8 t ++ ram_io a bytes).
Proof.
  intros Hb. revert a t. induction Hb as [|v bytes Hv Hb IH]; intros a t Ha Hl;
    cbn [store_ram ram_io length] in *.
  { split; [reflexivity|]. by rewrite app_nil_r. }
  cbn [Xil_In8 Xil_Out8]. unfold Xil_Out8. rewrite (u8_small v) by done.
  set (x := u8 _). set (t1 := In8 a x :: Out8 a v :: t).
  assert (io8 t1 = io8 t ++ [Out8 a v; In8 a x]) as Ht1
    by (apply (io8_app [In8 a x; Out8 a v])).
  assert (ram_only t t1) as Hr1.
  { exists [Out8 a v; In8 a x]. split; [done|]. repeat constructor; cbn; lia. }
  case_bool_decide as Hne.
  { split; [|done]. etransitivity; [exact Hr1|]. by apply quiet_ram_only. }
  clearbody x. subst x.
  specialize (IH (a + 1) t1 ltac:(lia) ltac:(lia)).
  destruct (store_ram dev xil_printf (a + 1) bytes t1) as [ok t2]. destruct IH as [Hr2 Hio].
  split; [by etransitivity|]. intros Hok. by rewrite Hio, Ht1, <-app_assoc.
Qed.

(** The loop invariant of [load]: the data records so far and their effect. *)
Record image_inv (b0 : boot) (rs : list srec_record) (data_records low high : Z) (b : boot) : Prop := {
  inv_io : io8 (tr b) = io8 (tr b0) ++ image_io rs;
  inv_vectors : vectors b = image_vectors rs (vectors b0);
  inv_seen : seen b = image_seen rs (seen b0);
  inv_count : data_records = u32 (Z.of_nat (length rs));
  inv_low : low = image_low rs;
  inv_high : high = image_high rs;
  inv_records : Forall data_record rs;
  inv_cursor : cursor_ok b;
  inv_data : length (data (record b)) = 252%nat;
}.

Lemma image_io_ram rs : Forall data_record rs → Forall ram_event (image_io rs).
Proof.
  induction 1 as [|r rs Hr Hrs IH]; [constructor|]. unfold image_io in *. cbn [mbind list_bind].
  apply Forall_app_2; [|done]. destruct Hr as (((_ & Hs & Hl & _) & _) & _ & Hv).
  destruct (is_vector r); [constructor|]. destruct Hv as [?|[Ha Hend]]; [done|].
  apply ram_io_ram; [lia|]. rewrite Hl. lia.
Qed.

Lemma inv_ram_only b0 rs dr low high b : image_inv b0 rs dr low high b → ram_only (tr b0) (tr b).
Proof. intros I. eexists. split; [apply I|]. eapply image_io_ram, I. Qed.

(** Reading a line keeps the invariant. *)
Lemma inv_same_image b0 rs dr low high b b' :
  image_inv b0 rs dr low high b → same_image b b' → cursor_ok b' →
  length (data (record b')) = 252%nat → image_inv b0 rs dr low high b'.
Proof.
  intros [] (Hv & Hs & Hq) Hc Hd. split; try done; [|congruence..].
  by rewrite (quiet_io8 _ _ Hq).
Qed.

(** Adding one data record to the invariant. *)
Lemma image_snoc_vector rs r : is_vector r = true →
  image_io (rs ++ [r]) = image_io rs ∧ image_low (rs ++ [r]) = image_low rs ∧
  image_high (rs ++ [r]) = image_high rs ∧
  (∀ v, image_vectors (rs ++ [r]) v =
     memcpy (image_vectors rs v) (Z.to_nat (address r)) (payload r)) ∧
  (∀ v, image_seen (rs ++ [r]) v =
     memcpy (image_seen rs v) (Z.to_nat (address r)) (replicate (Z.to_nat (size r)) 1)).
Proof.
  intros Hv. unfold image_io, image_low, image_high, image_vectors, image_seen.
  rewrite bind_app, !foldl_app. simpl. rewrite Hv, !app_nil_r.
  split_and!; try done; intros v; rewrite foldl_app; simpl; by rewrite Hv.
Qed.

Lemma image_snoc_ram rs r : is_vector r = false →
  image_io (rs ++ [r]) = image_io rs ++ ram_io (address r) (payload r) ∧
  image_low (rs ++ [r]) = Z.min (address r) (image_low rs) ∧
  image_high (rs ++ [r]) = Z.max (address r + size r) (image_high rs) ∧
  (∀ v, image_vectors (rs ++ [r]) v = image_vectors rs v) ∧
  (∀ v, image_seen (rs ++ [r]) v = image_seen rs v).
Proof.
  intros Hv. unfold image_io, image_low, image_high, image_vectors, image_seen.
  rewrite bind_app, !foldl_app. simpl. rewrite Hv, !app_nil_r.
  split_and!; try done; intros v; rewrite foldl_app; simpl; by rewrite Hv.
Qed.

Lemma count_snoc rs (r : srec_record) :
  u32 (Z.of_nat (length rs)) +32 1 = u32 (Z.of_nat (length (rs ++ [r]))).
Proof. rewrite u32_add_l, length_app. f_equal. simpl. lia. Qed.

Lemma ram_record_fits r :
  record_ok r → RAM_START <= address r < RAM_END → size r <= RAM_END - address r →
  address r +32 size r = address r + size r.
Proof.
  intros (_ & Hs & _) Ha Hend. apply u32_small. unfold in_bits, RAM_START, RAM_END in *. lia.
Qed.

(** What [handle_record] does to the invariant, in each of its outcomes. *)
Definition handled b0 rs dr low high (b : boot) (res : action * boot) : Prop :=
  let '(act, b') := res in
  ram_only (tr b0) (tr b') ∧
  match act with
  | Next dr' low' high' =>
      remaining b' = remaining b ∧ ∃ rs', image_inv b0 (rs ++ rs') dr' low' high' b'
  | Entry entry =>
      image_inv b0 rs dr low high b' ∧ dr ≠ 0 ∧ low <= entry < high ∧ entry `mod` 4 = 0 ∧
      type (record b') >= 7 ∧ entry = address (record b') ∧ record b' = record b
  | LoadError => True
  end.

Lemma land_3 e : e .& 3 = e `mod` 4.
Proof. change 3 with (Z.ones 2). by rewrite Z.land_ones. Qed.

Lemma handle_store b0 rs dr low high b :
  image_inv b0 rs dr low high b → parsed (record b) → 1 <= type (record b) <= 3 →
  RAM_START <= address (record b) < RAM_END → size (record b) <= RAM_END - address (record b) →
  is_vector (record b) = false →
  handled b0 rs dr low high b
    (let r := record b in let a := address r in
     let '(ok, t) := store_ram dev xil_printf a (payload r) (tr b) in
     if negb ok then (LoadError, set_tr t b)
     else (Next (dr +32 1) (if bool_decide (a < low) then a else low)
             (if bool_decide (a +32 size r > high) then a +32 size r else high), set_tr t b)).
Proof.
  intros I Hp Ht Ha Hend Hv. cbv zeta. pose proof Hp as [Hr _].
  rewrite (ram_record_fits _ Hr Ha Hend). pose proof Hr as (_ & Hs & Hl & Hb & _).
  pose proof (store_ram_spec (address (record b)) (payload (record b)) (tr b) Hb
    ltac:(lia) ltac:(rewrite Hl; lia)) as Hstore.
  destruct (store_ram dev xil_printf _ _ _) as [ok t]. destruct Hstore as [Hram Hio].
  pose proof (inv_ram_only _ _ _ _ _ _ I) as H0.
  destruct ok; cbn [negb]; (split; [cbn; by etransitivity|]); [|done].
  split; [done|]. exists [record b]. destruct (image_snoc_ram rs _ Hv) as (E1 & E2 & E3 & E4 & E5).
  destruct I. split; cbn [tr set_tr vectors seen record]; rewrite ?E1, ?E2, ?E3, ?E4, ?E5; try done.
  - rewrite Hio, app_assoc by done. by f_equal.
  - subst dr. apply count_snoc.
  - subst low. case_bool_decide; lia.
  - subst high. case_bool_decide; lia.
  - apply Forall_app_2; [done|]. constructor; [|constructor]. split; [done|]. split; [done|].
    right. unfold in_ram. lia.
Qed.

Lemma handle_record_spec b0 rs dr low high b :
  image_inv b0 rs dr low high b → parsed (record b) → 0 <= type (record b) →
  handled b0 rs dr low high b (handle_record dev xil_printf dr low high b).
Proof.
  intros I Hp Ht. pose proof (inv_ram_only _ _ _ _ _ _ I) as H0.
  assert (∃ rs', image_inv b0 (rs ++ rs') dr low high b) as Isame by (exists []; by rewrite app_nil_r).
  unfold handle_record. case_bool_decide; [done|].
  destruct (bool_decide_reflect (type (record b) = 5)), (bool_decide_reflect (type (record b) = 6));
    cbn [orb]; try (case_bool_decide; done).
  case_bool_decide as H7.
  { destruct (bool_decide_reflect (dr ≠ 0)), (bool_decide_reflect (address (record b) >= low)),
      (bool_decide_reflect (address (record b) < high)), (bool_decide_reflect (address (record b) .& 3 = 0)) as [H3|];
      cbn [andb]; try done.
    rewrite land_3 in H3. split; [done|]. split_and!; (done || lia). }
  assert (1 <= type (record b) <= 3 ∨ type (record b) = 4) as [Ht3|Ht4] by lia.
  2: { destruct Hp as [_ [l Hl]]. apply srec_spec_type in Hl. lia. }
  destruct (bool_decide (address (record b) < 80) && _) eqn:Hv.
  - split; [done|]. split; [done|]. exists [record b].
    destruct (image_snoc_vector rs (record b) Hv) as (E1 & E2 & E3 & E4 & E5).
    destruct I. split; cbn [tr set_tr vectors seen record]; rewrite ?E1, ?E2, ?E3, ?E4, ?E5; try done.
    + by rewrite inv_vectors0.
    + by rewrite inv_seen0.
    + subst dr. apply count_snoc.
    + apply Forall_app_2; [done|]. constructor; [|constructor]. split_and!; try done; try lia. by left.
  - destruct (bool_decide_reflect (address (record b) >= RAM_START)),
      (bool_decide_reflect (address (record b) < RAM_END)),
      (bool_decide_reflect (size (record b) <= RAM_END - address (record b))); cbn [andb]; try done.
    apply handle_store; try done. lia.
Qed.

(** A complete image with entry point [entry]. *)
Definition complete_image (b0 : boot) (entry : Z) (rs : list srec_record) (b : boot) : Prop :=
  io8 (tr b) = io8 (tr b0) ++ image_io rs ∧ Forall data_record rs ∧ rs ≠ [] ∧
  vectors b = image_vectors rs (vectors b0) ∧ seen b = image_seen rs (seen b0) ∧
  image_low rs <= entry < image_high rs ∧ entry `mod` 4 = 0 ∧
  ∃ l, type (record b) >= 7 ∧ srec_spec l = Some (type (record b), entry, payload (record b)).

Lemma load_loop_spec fuel inner b0 rs dr low high b :
  image_inv b0 rs dr low high b →
  let '(res, b') := load_loop dev xil_printf fuel inner dr low high b in
  ram_only (tr b0) (tr b') ∧
  (remaining b < Z.of_nat fuel → remaining b < Z.of_nat inner → res ≠ LoadFuel) ∧
  (∀ entry, res = Loaded entry → ∃ rs', complete_image b0 entry rs' b').
Proof.
  revert rs dr low high b. induction fuel as [|fuel IH]; intros rs dr low high b I; cbn [load_loop].
  { split_and!; [by eapply inv_ram_only| |done]. intros Hr. destruct (inv_cursor _ _ _ _ _ _ I).
    unfold remaining in *. lia. }
  pose proof (next_record_spec dev xil_printf printf_quiet inner b (inv_cursor _ _ _ _ _ _ I)
    (inv_data _ _ _ _ _ _ I)) as Hn.
  pose proof (inv_ram_only _ _ _ _ _ _ I) as H0.
  destruct (next_record dev xil_printf inner b) as [res b1].
  destruct Hn as (Hc1 & Hsame & Hfuel & Hread).
  assert (ram_only (tr b0) (tr b1)) as H1
    by (etransitivity; [exact H0|]; apply quiet_ram_only, Hsame).
  destruct res; [|by split_and!|split_and!; try done; intros ?? _; by apply Hfuel].
  destruct (Hread eq_refl) as [Hlt Hp]. clear Hread.
  assert (image_inv b0 rs dr low high b1) as I1
    by (eapply inv_same_image; [done..|]; apply Hp).
  assert (0 <= type (record b1)) as Ht.
  { destruct Hp as [_ [l Hl]]. apply srec_spec_type in Hl. lia. }
  pose proof (handle_record_spec b0 rs dr low high b1 I1 Hp Ht) as Hh.
  destruct (handle_record dev xil_printf dr low high b1) as [[dr' low' high'|entry|] b2];
    destruct Hh as [H2 Hh]; [|split_and!; try done|by split_and!].
  - destruct Hh as (Hrem & rs' & I2). specialize (IH (rs ++ rs') dr' low' high' b2 I2).
    destruct (load_loop dev xil_printf fuel inner dr' low' high' b2) as [res b3].
    destruct IH as (H3 & Hf & Hl). split_and!; try done. intros. apply Hf; lia.
  - intros e [= <-]. exists rs.
    destruct Hh as (I2 & Hdr & He & Hm & H7 & -> & Hrec).
    split_and!; try by apply I2.
    + intros ->. by rewrite (inv_count _ _ _ _ _ _ I2) in Hdr.
    + rewrite <-(inv_low _ _ _ _ _ _ I2). lia.
    + rewrite <-(inv_high _ _ _ _ _ _ I2). lia.
    + done.
    + rewrite Hrec in *. destruct Hp as [_ [l Hl]]. by exists l.
Qed.

Lemma initial_inv t : image_inv (initial_boot t) [] 0 RAM_END RAM_START (initial_boot t).
Proof.
  split; try done. by rewrite app_nil_r.
Qed.

Lemma load_spec fuel t :
  let '(res, b') := load dev xil_printf fuel (initial_boot t) in
  ram_only t (tr b') ∧
  (0x800000 < Z.of_nat fuel → res ≠ LoadFuel) ∧
  (∀ entry, res = Loaded entry → ∃ rs', complete_image (initial_boot t) entry rs' b').
Proof.
  pose proof (load_loop_spec fuel fuel _ _ _ _ _ _ (initial_inv t)) as Hl. unfold load.
  destruct (load_loop _ _ _ _ _ _ _ _) as [res b']. destruct Hl as (Hr & Hf & Hl).
  split_and!; try done. intros Hb. by apply Hf.
Qed.
End loading.

(** ** The vectors *)

Lemma image_seen_covers rs v a :
  v !!! a = 0 → Forall data_record rs → image_seen rs v !!! a ≠ 0 →
  ∃ r, In r rs ∧ is_vector r = true ∧ address r <= Z.of_nat a < address r + size r.
Proof.
  intros Hv. induction rs as [|r rs IH] using rev_ind; [done|].
  rewrite Forall_app, Forall_singleton. intros [Hrs Hr].
  destruct Hr as (((_ & Hs & _ & _ & Ha) & _) & _).
  assert (∀ P : Prop, image_seen rs v !!! a ≠ 0 → (∀ r', In r' rs → is_vector r' = true ∧
    address r' <= Z.of_nat a < address r' + size r' → P) → P) as Hold.
  { intros P Hne HP. destruct (IH Hrs Hne) as (r' & Hin & Hr'). by eapply HP. }
  destruct (is_vector r) eqn:Hvec.
  - destruct (image_snoc_vector rs r Hvec) as (_ & _ & _ & _ & ->). unfold memcpy.
    intros Hne. destruct (decide (address r <= Z.of_nat a < address r + size r)) as [Hin|Hout].
    { exists r. split; [apply in_or_app; right; by left|done]. }
    apply (Hold _); [|intros r' Hin Hr'; exists r'; split; [by apply in_or_app; left|done]].
    intros H0. apply Hne. rewrite <-H0, !list_lookup_total_alt. f_equal.
    destruct (decide (a < Z.to_nat (address r))%nat).
    + by apply list_lookup_inserts_lt.
    + apply list_lookup_inserts_ge. rewrite length_replicate. lia.
  - destruct (image_snoc_ram rs r Hvec) as (_ & _ & _ & _ & ->). intros Hne.
    apply (Hold _ Hne). intros r' Hin Hr'. exists r'. split; [by apply in_or_app; left|done].
Qed.

(** The stores that install the vectors. *)
Definition install_io (vectors : list Z) : list event :=
  (λ a, Out8 a (u8 (vectors !!! Z.to_nat a))) <$> vector_addrs.

Lemma install_vectors_io b : io8 (tr (install_vectors b)) = io8 (tr b) ++ install_io (vectors b).
Proof.
  unfold install_vectors, install_io. cbn [tr set_tr].
  generalize (vectors b) as v. intros v. generalize (tr b) as t.
  induction vector_addrs as [|a l IH]; intros t; [by rewrite app_nil_r|].
  cbn [foldl fmap list_fmap]. rewrite IH.
  change (Xil_Out8 a (v !!! Z.to_nat a) t) with ([Out8 a (u8 (v !!! Z.to_nat a))] ++ t).
  by rewrite io8_app, <-app_assoc.
Qed.

(** ** The whole bootloader *)
Section main.
Context (dev : device) (xil_printf : string → list Z → trace → trace).
Context (hb_idelayctrl_reset_wait_ready hb_rwds_idly_dec_below_16 : trace → Z * trace).
Context (hb_odly_sweep_to_midpoint : trace → Z * list Z * trace).
Context (HB_DELAY_RST_CTRL_OFFSET HB_DELAY_RST_HB_RESET HB_CR0_OFFSET : Z).

(** The library functions do no byte accesses: the console and the HyperBus
    controller have 32-bit registers. *)
Record library_quiet : Prop := {
  printf_is_quiet : ∀ f args t, quiet t (xil_printf f args t);
  idelayctrl_is_quiet : ∀ t, quiet t (snd (hb_idelayctrl_reset_wait_ready t));
  rwds_is_quiet : ∀ t, quiet t (snd (hb_rwds_idly_dec_below_16 t));
  sweep_is_quiet : ∀ t, quiet t (snd (hb_odly_sweep_to_midpoint t));
}.

Let prepare := prepare_memory dev xil_printf hb_idelayctrl_reset_wait_ready
  hb_rwds_idly_dec_below_16 hb_odly_sweep_to_midpoint
  HB_DELAY_RST_CTRL_OFFSET HB_DELAY_RST_HB_RESET HB_CR0_OFFSET.
Let boot_main := main dev xil_printf hb_idelayctrl_reset_wait_ready
  hb_rwds_idly_dec_below_16 hb_odly_sweep_to_midpoint
  HB_DELAY_RST_CTRL_OFFSET HB_DELAY_RST_HB_RESET HB_CR0_OFFSET.

Hypothesis (Hq : library_quiet).

Lemma prepare_quiet t : quiet t (snd (prepare t)).
Proof.
  destruct Hq as [Q1 Q2 Q3 Q4]. unfold prepare, prepare_memory, console_init, delay.
  match goal with |- context [hb_idelayctrl_reset_wait_ready ?t0] =>
    assert (quiet t t0) as H0; [|revert H0; generalize t0] end.
  { repeat first [reflexivity | etransitivity; [|apply quiet_out32]
      | etransitivity; [|apply Q1] | etransitivity; [|by apply quiet_cons]]. }
  intros t0 H0. pose proof (Q2 t0) as H1. destruct (hb_idelayctrl_reset_wait_ready t0) as [rc t1]. cbn [snd] in H1.
  assert (quiet t t1) as H2 by (by etransitivity). case_bool_decide as Hrc1; [done|].
  cbn [Xil_In32].
  match goal with |- context [hb_rwds_idly_dec_below_16 ?t2] =>
    assert (quiet t t2) as H3; [|revert H3; generalize t2] end.
  { repeat first [exact H2 | etransitivity; [|apply quiet_out32] | etransitivity; [|by apply quiet_cons]]. }
  intros t2 H3. pose proof (Q3 t2) as H4. destruct (hb_rwds_idly_dec_below_16 t2) as [rc2 t3]. cbn [snd] in H4.
  assert (quiet t t3) as H5 by (by etransitivity). case_bool_decide as Hrc2; [done|].
  pose proof (Q4 t3) as H6. destruct (hb_odly_sweep_to_midpoint t3) as [[rc3 w] t4]. cbn [snd] in H6.
  assert (quiet t t4) as H7 by (by etransitivity). case_bool_decide as Hrc3; [done|].
  case_bool_decide; cbn [snd];
    repeat first [exact H7 | etransitivity; [|apply quiet_out32]
      | etransitivity; [|apply Q1] | etransitivity; [|by apply quiet_cons]].
Qed.

Lemma identify_quiet t : quiet t (snd (identify_flash dev xil_printf t)).
Proof.
  destruct Hq as [Q1 _ _ _]. unfold identify_flash.
  match goal with |- context [transfer dev ?tx ?t0] =>
    pose proof (transfer_quiet dev tx t0) as H0; destruct (transfer dev tx t0) as [rx0 t1] end.
  match goal with |- context [transfer dev ?tx t1] =>
    pose proof (transfer_quiet dev tx t1) as H1; destruct (transfer dev tx t1) as [[rx|] t2] end;
    cbn [snd] in *; [case_match; cbn [snd]|];
    (etransitivity; [|apply Q1]); (etransitivity; [|exact H1]); (etransitivity; [|exact H0]);
    do 2 (etransitivity; [|apply quiet_out32]); reflexivity.
Qed.

Lemma image_extent rs :
  Forall data_record rs → RAM_START <= image_low rs ∧ image_high rs <= RAM_END.
Proof.
  induction rs as [|r rs IH] using rev_ind; [done|].
  rewrite Forall_app, Forall_singleton. intros [Hrs Hr]. specialize (IH Hrs).
  destruct (is_vector r) eqn:Hv.
  - by destruct (image_snoc_vector rs r Hv) as (_ & -> & -> & _).
  - destruct (image_snoc_ram rs r Hv) as (_ & -> & -> & _).
    destruct Hr as (_ & _ & [?|Hr]); [congruence|]. unfold in_ram in Hr. lia.
Qed.

(** What a successful boot has done to memory, in this order: stored and read
    back the data records of a valid image, then stored the vectors. *)
Definition booted (t : trace) (entry : Z) (b : boot) : Prop :=
  ∃ rs, Forall data_record rs ∧
    io8 (tr b) = io8 t ++ image_io rs ++ install_io (image_vectors rs (replicate 80 0)) ∧
    Forall (λ a, ∃ r, In r rs ∧ is_vector r = true ∧ address r <= a < address r + size r) vector_addrs ∧
    image_low rs <= entry < image_high rs ∧ RAM_START <= entry < RAM_END ∧ entry `mod` 4 = 0.

Lemma boot_main_spec fuel t :
  let '(res, b) := boot_main fuel (initial_boot t) in
  (0x800000 < Z.of_nat fuel → res ≠ BootFuel) ∧
  match res with
  | Jump entry => booted t entry b
  | _ => ram_only t (tr b)
  end.
Proof.
  destruct Hq as [Q1 _ _ _]. unfold boot_main, main. change (tr (initial_boot t)) with t.
  pose proof (prepare_quiet t) as H1. unfold prepare in H1.
  destruct (prepare_memory _ _ _ _ _ _ _ _ t) as [ok t1]. cbn [snd] in H1.
  assert (∀ b, ram_only t (tr b) → ram_only t (tr (snd (boot_failed xil_printf b)))) as Hfail.
  { intros b Hb. cbn [boot_failed snd tr set_tr]. etransitivity; [exact Hb|]. apply quiet_ram_only, Q1. }
  destruct ok; cbn [negb].
  2: { split; [done|]. apply (Hfail (set_tr t1 _)). by apply quiet_ram_only. }
  pose proof (identify_quiet t1) as H2.
  destruct (identify_flash dev xil_printf t1) as [ok t2]. cbn [snd] in H2.
  assert (quiet t t2) as H02 by (by etransitivity).
  destruct ok; cbn [negb].
  2: { split; [done|]. apply (Hfail (set_tr t2 _)). by apply quiet_ram_only. }
  change (set_tr t2 (initial_boot t)) with (initial_boot t2).
  pose proof (load_spec dev xil_printf Q1 fuel t2) as Hl.
  destruct (load dev xil_printf fuel (initial_boot t2)) as [res b]. destruct Hl as (Hram & Hfuel & Hl).
  assert (ram_only t (tr b)) as H0b by (etransitivity; [by apply quiet_ram_only|done]).
  destruct res as [entry| |]; [|split; [done|]; by apply (Hfail b)|].
  2: { split; [|done]. intros Hf _. by apply Hfuel. }
  destruct (all_seen b) eqn:Hall; cbn [negb]; [|split; [done|]; by apply (Hfail b)].
  split; [done|]. destruct (Hl entry eq_refl) as (rs & Hio & Hrs & _ & Hv & Hs & He & Hm & _).
  exists rs. destruct (image_extent rs Hrs) as [Hlow Hhigh]. split_and!; try done; try lia.
  - cbn [tr set_tr]. rewrite (quiet_io8 _ _ (Q1 _ _ _)), install_vectors_io, Hv, Hio.
    rewrite <-app_assoc. f_equal. apply (quiet_io8 _ _ H02).
  - unfold all_seen in Hall. rewrite forallb_forall in Hall. apply List.Forall_forall.
    intros a Ha. specialize (Hall a Ha). apply bool_decide_eq_true in Hall. rewrite Hs in Hall.
    assert (0 <= a < 80) as Hra.
    { clear -Ha. assert (Forall (λ a, 0 <= a < 80) vector_addrs) as HF by by_decide.
      by apply (proj1 (List.Forall_forall _ _) HF). }
    replace a with (Z.of_nat (Z.to_nat a)) by lia. eapply image_seen_covers; [|done|done].
    apply lookup_total_replicate_2. lia.
Qed.
End main.

(** ** Bounded waits *)

Lemma spi_wait_bound dev guard t :
  let '(g, t') := spi_wait dev guard t in
  (g <= guard)%nat ∧ ∃ s, t' = s ++ t ∧ (length s <= guard - g + 1)%nat.
Proof.
  revert t. induction guard as [|g IH]; intros t; [split; [done|]; exists []; split; [done|simpl; lia]|].
  cbn [spi_wait Xil_In32]. set (e := In32 _ _).
  case_bool_decide; [|split; [done|]; exists [e]; split; [done|simpl; lia]].
  destruct g as [|g]; [split; [lia|]; exists [e]; split; [done|simpl; lia]|].
  specialize (IH (e :: t)). destruct (spi_wait dev (S g) (e :: t)) as [g' t'].
  destruct IH as (Hg & s & -> & Hs). split; [lia|]. exists (s ++ [e]).
  split; [by rewrite <-app_assoc|]. rewrite length_app. simpl (length [e]). lia.
Qed.

Lemma spi_receive_bound dev n guard t :
  ∃ s, snd (spi_receive dev n guard t) = s ++ t ∧ (length s <= guard + 2 * n)%nat.
Proof.
  revert guard t. induction n as [|n IH]; intros guard t; [exists []; split; [done|simpl; lia]|].
  cbn [spi_receive]. pose proof (spi_wait_bound dev guard t) as Hw.
  destruct (spi_wait dev guard t) as [g t1]. destruct Hw as (Hg & s & -> & Hs).
  case_bool_decide; [exists s; split; [done|lia]|]. cbn [Xil_In32]. set (e := In32 _ _).
  destruct (IH g (e :: s ++ t)) as (s2 & E2 & Hs2).
  destruct (spi_receive dev n g (e :: s ++ t)) as [rx t3]. cbn [snd] in *.
  exists (s2 ++ e :: s). split; [by rewrite E2, <-app_assoc|]. rewrite length_app. simpl length. lia.
Qed.

Lemma out32s_trace a l t :
  ∃ s, foldl (λ t b, Xil_Out32 a b t) t l = s ++ t ∧ length s = length l.
Proof.
  revert t. induction l as [|b l IH]; intros t; [by exists []|]. simpl.
  destruct (IH (Xil_Out32 a b t)) as (s & -> & Hs). exists (s ++ [Out32 a (u32 b)]).
  split; [by rewrite <-app_assoc|]. rewrite length_app, Hs. simpl. lia.
Qed.

(** ** A simulator

    A flash with an image, a controller that answers at once, and RAM that
    holds what was last stored. *)
Module Sim.
(** The bytes sent since the FIFO was reset and the bytes received since. *)
Fixpoint exchange (t : trace) (tx : list Z) (rx : nat) : list Z * nat :=
  match t with
  | Out32 a v :: t =>
      if bool_decide (a = SPI + 0x60 ∧ v = 0x1E6) then (tx, rx)
      else if bool_decide (a = SPI + 0x68) then exchange t (v :: tx) rx
      else exchange t tx rx
  | In32 a _ :: t => exchange t tx (if bool_decide (a = SPI + 0x6c) then S rx else rx)
  | _ :: t => exchange t tx rx
  | [] => (tx, rx)
  end.
Fixpoint last_out8 (a : Z) (t : trace) : Z :=
  match t with
  | [] => 0
  | Out8 a' v :: t => if bool_decide (a = a') then v else last_out8 a t
  | _ :: t => last_out8 a t
  end.
Definition flash_byte (image : list Z) (a : Z) : Z :=
  default 255 (image !! Z.to_nat (a - FLASH_START)).
Definition hardware (image : list Z) : device := λ t a,
  if bool_decide (a = SPI + 0x64) then 0
  else if bool_decide (a = SPI + 0x6c) then
    let '(tx, rx) := exchange t [] 0 in
    if bool_decide (tx !!! 0%nat = 0x9f) then (if bool_decide (rx = 0%nat) then 0 else 0x20)
    else flash_byte image
           (tx !!! 1%nat * 65536 + tx !!! 2%nat * 256 + tx !!! 3%nat + Z.of_nat rx - 4)
  else if bool_decide (a = HB + 8) then 0xBF2F
  else last_out8 a t.
Definition image : list Z :=
  render 1 0 (Z.of_nat <$> seq 1 40) ++ [10] ++ render 3 0x80000000 [1; 2; 3; 4] ++ [13; 10] ++
  render 5 2 [] ++ [10] ++ render 7 0x80000000 [] ++ [10].
Definition run (image : list Z) : boot_result * boot :=
  main (hardware image) (λ _ _ t, t) (λ t, (0, t)) (λ t, (0, t)) (λ t, (0, [], t)) 0 1 8
    (Z.to_nat 400) (initial_boot []).

Lemma library_ok :
  library_quiet (λ _ _ t, t) (λ t, (0, t)) (λ t, (0, t)) (λ t, (0, [], t)).
Proof. by split. Qed.

Example boots : fst (run image) = Jump 0x80000000.
Proof. vm_compute. reflexivity. Qed.
End Sim.

(** ** Claims *)

(** C31. The bootloader jumps only into a fully checked image, and touches
    nothing else.  Whatever the flash, the SPI controller and the memory
    answer: if [main] jumps, the byte accesses it made are exactly the stores
    and successful read-backs of a sequence of valid data records (each parsed
    from a line with a correct checksum), followed by the 32 vector bytes
    taken from the image, every one of which a record supplied; the entry
    point is word aligned, inside RAM and inside the range of the loaded
    records.  If it does not jump, it stored to RAM only: the live vectors
    are untouched. *)
Theorem boot_safe dev xil_printf hb_idelayctrl_reset_wait_ready hb_rwds_idly_dec_below_16
    hb_odly_sweep_to_midpoint HB_DELAY_RST_CTRL_OFFSET HB_DELAY_RST_HB_RESET HB_CR0_OFFSET fuel t :
  library_quiet xil_printf hb_idelayctrl_reset_wait_ready hb_rwds_idly_dec_below_16
    hb_odly_sweep_to_midpoint →
  let '(res, b) := main dev xil_printf hb_idelayctrl_reset_wait_ready hb_rwds_idly_dec_below_16
    hb_odly_sweep_to_midpoint HB_DELAY_RST_CTRL_OFFSET HB_DELAY_RST_HB_RESET HB_CR0_OFFSET
    fuel (initial_boot t) in
  match res with
  | Jump entry => booted t entry b
  | _ => ram_only t (tr b)
  end.
Proof.
  intros Hq.
  pose proof (boot_main_spec dev _ _ _ _ HB_DELAY_RST_CTRL_OFFSET HB_DELAY_RST_HB_RESET
    HB_CR0_OFFSET Hq fuel t) as H.
  destruct (main _ _ _ _ _ _ _ _ _ _) as [res b]. apply H.
Qed.

Lemma boot_safe_witness :
  ∃ b, Sim.run Sim.image = (Jump 0x80000000, b) ∧ booted [] 0x80000000 b.
Proof.
  assert (let '(res, b) := Sim.run Sim.image in
    match res with Jump entry => booted [] entry b | _ => ram_only [] (tr b) end) as H
    by exact (boot_safe (Sim.hardware Sim.image) (λ _ _ t, t) (λ t, (0, t)) (λ t, (0, t))
      (λ t, (0, [], t)) 0 1 8 (Z.to_nat 400) [] Sim.library_ok).
  pose proof Sim.boots as E. revert H E. generalize (Sim.run Sim.image) as out.
  intros [res b] H E. cbn [fst] in E. subst res. exists b. split; [reflexivity|exact H].
Defined.

(** C32. The bootloader terminates: with fuel for more than the 8 MiB of the
    flash image no loop runs out of it, whatever the hardware answers, so
    [main] either jumps or reports failure. *)
Theorem boot_terminates dev xil_printf hb_idelayctrl_reset_wait_ready hb_rwds_idly_dec_below_16
    hb_odly_sweep_to_midpoint HB_DELAY_RST_CTRL_OFFSET HB_DELAY_RST_HB_RESET HB_CR0_OFFSET fuel t :
  library_quiet xil_printf hb_idelayctrl_reset_wait_ready hb_rwds_idly_dec_below_16
    hb_odly_sweep_to_midpoint →
  0x800000 < Z.of_nat fuel →
  fst (main dev xil_printf hb_idelayctrl_reset_wait_ready hb_rwds_idly_dec_below_16
    hb_odly_sweep_to_midpoint HB_DELAY_RST_CTRL_OFFSET HB_DELAY_RST_HB_RESET HB_CR0_OFFSET
    fuel (initial_boot t)) ≠ BootFuel.
Proof.
  intros Hq Hf.
  pose proof (boot_main_spec dev _ _ _ _ HB_DELAY_RST_CTRL_OFFSET HB_DELAY_RST_HB_RESET
    HB_CR0_OFFSET Hq fuel t) as H.
  destruct (main _ _ _ _ _ _ _ _ _ _) as [res b]. by apply H.
Qed.

Lemma flash_fuel : 0x800000 < Z.of_nat (Z.to_nat 0x800001).
Proof. rewrite Z2Nat.id by lia. lia. Qed.

(** A flash that answers newlines and then junk. *)
Lemma boot_terminates_witness :
  fst (main (Sim.hardware [10; 10]) (λ _ _ t, t) (λ t, (0, t)) (λ t, (0, t)) (λ t, (0, [], t)) 0 1 8
    (Z.to_nat 0x800001) (initial_boot [])) ≠ BootFuel.
Proof.
  exact (boot_terminates (Sim.hardware [10; 10]) (λ _ _ t, t) (λ t, (0, t)) (λ t, (0, t))
    (λ t, (0, [], t)) 0 1 8 (Z.to_nat 0x800001) [] Sim.library_ok flash_fuel).
Defined.

(** C33. Every SPI transfer is bounded and leaves the chip deselected: whatever
    the status register answers, a transfer of [n] bytes makes at most
    1000007 + 3 n bus accesses, and on success and on timeout alike its last
    two are the stores that inhibit the controller and raise chip select; on
    success it returns exactly [n] bytes. *)
Theorem transfer_bounded dev tx t :
  let '(rx, t') := transfer dev tx t in
  (∃ s, t' = Out32 (SPI + 0x70) 0xFFFFFFFF :: Out32 (SPI + 0x60) 0x186 :: s ++ t ∧
     Z.of_nat (length s) <= 1000004 + 3 * Z.of_nat (length tx)) ∧
  (∀ l, rx = Some l → length l = length tx).
Proof.
  unfold transfer.
  match goal with |- context [foldl ?f ?t0 tx] =>
    destruct (out32s_trace (SPI + 0x68) tx t0) as (s1 & E1 & H1); rewrite E1 end.
  match goal with |- context [spi_receive dev ?n ?g ?t0] =>
    destruct (spi_receive_bound dev n g t0) as (s2 & E2 & H2);
    pose proof (spi_receive_length dev n g t0) as Hl;
    destruct (spi_receive dev n g t0) as [rx t1] end.
  cbn [snd fst] in *. subst t1. split; [|exact Hl].
  eexists (s2 ++ [_; _] ++ s1 ++ [_; _]). split.
  - unfold Xil_Out32. rewrite <-!app_assoc. reflexivity.
  - rewrite !length_app, H1. cbn [length]. lia.
Qed.
