(* ===== verification/IicCore.v ===== *)
(** * The I2C controller and the memory chip

    What src/software/application/eeprom.c drives: an M24C64 behind an AXI IIC
    core in dynamic mode.  The core is modelled with its queues, its shift
    register and its flags, the chip with its address counter, its pages and
    its program cycle.  Both work on their own between the accesses of the
    driver: how far they get, and whether a byte is acknowledged, is up to an
    arbitrary environment.  [EepromBus] ties the registers a driver reads to
    the state of the core, as the data sheet does: a queue that is said to
    have room has room, a byte taken from the receive queue is the oldest in
    it, provided there is one. *)
From S2P Require Import Prelude Bus.
Local Open Scope cword_scope.

Definition IIC : Z := 0x40800000.

(** ** The chip *)
Inductive transfer := NoTransfer | Writing (bs : list Z) | Reading.
Record chip := Chip { mem : list Z; ptr : Z; xfer : transfer }.

(** Bytes are programmed into the 32-byte page of the address, wrapping inside
    the page. *)
Definition page_write (m : list Z) (a : Z) (ds : list Z) : list Z :=
  snd (foldl (λ '(i, m) d, (i + 1, <[Z.to_nat (a / 32 * 32 + (a + i) `mod` 32) := d]> m)) (0, m) ds).

Definition chip_address (hi lo : Z) : Z := (hi * 256 + lo) `mod` 8192.

(** The device select of the chip, for writing or reading. *)
Definition selects_chip (w : Z) : bool := bool_decide (w .& 0xfe = 0xa0).

(** An acknowledged word.  Bit 8 is a START with a device select; two bytes
    after a write select are an address, which a START for reading takes over;
    further bytes are data. *)
Definition chip_byte (w : Z) (c : chip) : chip :=
  if Z.testbit w 8 then
    if Z.testbit w 0 then
      match xfer c with
      | Writing [hi; lo] => Chip (mem c) (chip_address hi lo) Reading
      | _ => Chip (mem c) (ptr c) Reading
      end
    else Chip (mem c) (ptr c) (Writing [])
  else
    match xfer c with
    | Writing bs => Chip (mem c) (ptr c) (Writing (bs ++ [w .& 0xff]))
    | _ => c
    end.

(** A STOP programs the data there is, if any. *)
Definition programs (c : chip) : bool := match xfer c with Writing (_ :: _ :: _ :: _) => true | _ => false end.
Definition chip_stop (c : chip) : chip :=
  match xfer c with
  | Writing (hi :: lo :: ds) => Chip (page_write (mem c) (chip_address hi lo) ds) (ptr c) NoTransfer
  | _ => Chip (mem c) (ptr c) NoTransfer
  end.

(** ** The core *)

(** Between two words: no transfer, a transfer, or a select for reading after
    which the number of bytes is expected. *)
Inductive mode := Free | Sending | Asking.

(** [tx] and [rx] are the queues, oldest first; [shifting] is the word being
    sent, [receiving] the number of bytes still to come; [cycle] says that the
    chip is programming and does not answer. *)
Record core := Core {
  enabled : bool; held : bool; tx : list Z; shifting : option Z; cmode : mode; receiving : nat; rx : list Z;
  lost : bool; nacked : bool; cycle : bool; memchip : chip
}.

Definition failed (c : core) : bool := lost c || nacked c.
Definition busy (c : core) : bool :=
  match shifting c, cmode c, receiving c with None, Free, O => false | _, _, _ => true end.

(** What may become of a byte on the wire: acknowledged or not, or arbitration
    is lost, and then an arbitrary byte [g] is seen.  A transfer that breaks
    off may look like a STOP to the chip ([stop]). *)
Inductive outcome := Ack | Nack (stop : bool) | Lost (stop : bool) (g : Z).
Inductive act := Take | Shift (o : outcome) | CycleEnd.

Definition broken_off (stop : bool) (c : chip) : chip := if stop then chip_stop c else Chip (mem c) (ptr c) NoTransfer.

(** The next word goes from the queue to the shift register, or, after a
    select for reading, tells how many bytes to receive. *)
Definition take_word (c : core) : core :=
  if negb (enabled c) || failed c || bool_decide (shifting c ≠ None) || bool_decide (receiving c ≠ 0%nat) then c else
  match tx c with
  | [] => c
  | w :: ws =>
      match cmode c with
      | Asking => Core (enabled c) (held c) ws None Free (Z.to_nat (w .& 0xff)) (rx c) (lost c) (nacked c) (cycle c) (memchip c)
      | m => Core (enabled c) (held c) ws (Some w) m 0 (rx c) (lost c) (nacked c) (cycle c) (memchip c)
      end
  end.

(** An acknowledged word on the wire; bit 9 is a STOP after it. *)
Definition deliver (x : mode * chip) (w : Z) : mode * chip :=
  let c := chip_byte w (snd x) in
  if Z.testbit w 9 then (Free, chip_stop c)
  else (if Z.testbit w 8 && Z.testbit w 0 then Asking else Sending, c).

(** The word in the shift register is done.  A select is acknowledged only by
    the chip that is meant, and not while it is programming.  Without the
    acknowledge the transfer ends, and so do the words that wait. *)
Definition shift_word (w : Z) (o : outcome) (c : core) : core :=
  let answered := negb (Z.testbit w 8) || (selects_chip w && negb (cycle c)) in
  let break_off stop lost' nacked' :=
    Core (enabled c) (held c) [] None Free 0 (rx c) (lost c || lost') (nacked c || nacked') (cycle c || (stop && programs (memchip c)))
      (broken_off stop (memchip c)) in
  match o with
  | Ack =>
      if answered then
        let '(m, d) := deliver (cmode c, memchip c) w in
        Core (enabled c) (held c) (tx c) None m 0 (rx c) (lost c) (nacked c)
          (cycle c || (Z.testbit w 9 && programs (chip_byte w (memchip c)))) d
      else break_off false false true
  | Nack stop => break_off stop false true
  | Lost stop _ => break_off stop true false
  end.

(** A byte comes in, if there is room for it.  The last one is not
    acknowledged, which may show as an error. *)
Definition receive_byte (k : nat) (o : outcome) (c : core) : core :=
  if bool_decide (16 <= length (rx c))%nat then c else
  let d := memchip c in
  match o with
  | Lost _ g =>
      Core (enabled c) (held c) (tx c) None Free 0 (rx c ++ [u8 g]) true (nacked c) (cycle c) (Chip (mem d) (ptr d) NoTransfer)
  | _ =>
      let last := bool_decide (k = 0%nat) in
      Core (enabled c) (held c) (tx c) None Free k (rx c ++ [mem d !!! Z.to_nat (ptr d)]) (lost c)
        (nacked c || (last && match o with Nack _ => true | _ => false end)) (cycle c)
        (Chip (mem d) ((ptr d + 1) `mod` 8192) (if last then NoTransfer else Reading))
  end.

Definition act_step (c : core) (a : act) : core :=
  match a with
  | Take => take_word c
  | Shift o =>
      match shifting c with
      | Some w => shift_word w o c
      | None => match receiving c with O => c | S k => receive_byte k o c end
      end
  | CycleEnd => Core (enabled c) (held c) (tx c) (shifting c) (cmode c) (receiving c) (rx c) (lost c) (nacked c) false (memchip c)
  end.
Definition run (acts : list act) (c : core) : core := foldl act_step c acts.

(** ** Accesses

    Words written to a full, held or failed transmit queue are gone.  The
    soft reset empties the core; whether it clears the error flags
    ([keeps]), and whether a transfer it cuts off looks like a STOP
    ([aborts]), is left open.  The interrupt status toggles with the ones
    written. *)
Definition push_word (v : Z) (c : core) : core :=
  if held c || failed c || bool_decide (16 <= length (tx c))%nat then c
  else Core (enabled c) (held c) (tx c ++ [v .& 0x3ff]) (shifting c) (cmode c) (receiving c) (rx c) (lost c) (nacked c) (cycle c) (memchip c).
Definition soft_reset (keeps aborts : bool) (c : core) : core :=
  Core false false [] None Free 0 [] (keeps && lost c) (keeps && nacked c) (cycle c || (aborts && programs (memchip c)))
    (broken_off aborts (memchip c)).
Definition set_control (v : Z) (c : core) : core :=
  Core (Z.testbit v 0) (Z.testbit v 1) (if Z.testbit v 1 then [] else tx c) (shifting c) (cmode c) (receiving c) (rx c)
    (lost c) (nacked c) (cycle c) (memchip c).
Definition toggle_flags (v : Z) (c : core) : core :=
  Core (enabled c) (held c) (tx c) (shifting c) (cmode c) (receiving c) (rx c)
    (xorb (lost c) (Z.testbit v 0)) (xorb (nacked c) (Z.testbit v 1)) (cycle c) (memchip c).
Definition pop_byte (c : core) : core :=
  Core (enabled c) (held c) (tx c) (shifting c) (cmode c) (receiving c) (tail (rx c)) (lost c) (nacked c) (cycle c) (memchip c).

(** A program cycle takes at most 10 ms; a delay of [n] ticks ends after more
    than [n - 1] of them. *)
Definition WRITE_CYCLE_MS : Z := 10.

Definition access (e : event) (keeps aborts : bool) (c : core) : core :=
  match e with
  | Out32 a v =>
      if bool_decide (a = IIC + 0x108) then push_word v c
      else if bool_decide (a = IIC + 0x40) then if bool_decide (v = 10) then soft_reset keeps aborts c else c
      else if bool_decide (a = IIC + 0x100) then set_control v c
      else if bool_decide (a = IIC + 0x20) then toggle_flags v c
      else c
  | In32 a _ => if bool_decide (a = IIC + 0x10c) then pop_byte c else c
  | Delay n => if bool_decide (WRITE_CYCLE_MS <= (n - 1) * portTICK_PERIOD_MS) then act_step c CycleEnd else c
  | _ => c
  end.

(** The environment: the memory at first, and what core and chip do on their
    own after each history. *)
Record environment := Env { initial : list Z; work : trace → list act; keeps : trace → bool; aborts : trace → bool }.

Definition power_on (w : environment) : core :=
  Core false false [] None Free 0 [] false false false (Chip (initial w) 0 NoTransfer).
Fixpoint core_at (w : environment) (t : trace) : core :=
  run (work w t)
    match t with
    | [] => power_on w
    | e :: t => access e (keeps w t) (aborts w t) (core_at w t)
    end.

(** What the driver relies on.  The status bits say no more than is true: the
    bus is said to be idle, a queue to have room, to hold a byte or to be
    empty only when it is.  Errors are shown.  The receive register holds the
    oldest byte received; without one it holds anything. *)
Class EepromBus (dev : device) := {
  env : environment;
  initial_ok : bytes_n (Z.to_nat 8192) (initial env);
  idle_true : ∀ t, Z.testbit (dev t (IIC + 0x104)) 2 = false → busy (core_at env t) = false;
  room_true : ∀ t, Z.testbit (dev t (IIC + 0x104)) 4 = false → (length (tx (core_at env t)) < 16)%nat;
  received_true : ∀ t, Z.testbit (dev t (IIC + 0x104)) 6 = false → rx (core_at env t) ≠ [];
  sent_true : ∀ t, Z.testbit (dev t (IIC + 0x104)) 7 = true → tx (core_at env t) = [];
  lost_shown : ∀ t, Z.testbit (dev t (IIC + 0x20)) 0 = lost (core_at env t);
  nacked_shown : ∀ t, Z.testbit (dev t (IIC + 0x20)) 1 = nacked (core_at env t);
  byte_true : ∀ t b bs, rx (core_at env t) = b :: bs → dev t (IIC + 0x10c) = b;
}.

(** ** What the core does on its own *)

(** No word or byte is on its way. *)
Definition at_rest (c : core) : Prop := tx c = [] ∧ shifting c = None ∧ cmode c = Free ∧ receiving c = 0%nat.
Definition settled (c : core) : Prop := at_rest c ∧ xfer (memchip c) = NoTransfer.

#[global] Instance transfer_eq_dec : EqDecision transfer.
Proof. solve_decision. Defined.
#[global] Instance mode_eq_dec : EqDecision mode.
Proof. solve_decision. Defined.
#[global] Instance settled_dec c : Decision (settled c).
Proof. unfold settled, at_rest. apply _. Defined.

(** A property the core keeps by itself. *)
Definition stable (I : core → Prop) : Prop := ∀ c a, I c → I (act_step c a).

Lemma stable_run I acts c : stable I → I c → I (run acts c).
Proof. intros HI. revert c. induction acts as [|a acts IH]; intros c Hc; [done|]. apply IH, HI, Hc. Qed.

(** At rest only the program cycle of the chip may end. *)
Definition same_core (c c' : core) : Prop :=
  c' = Core (enabled c) (held c) (tx c) (shifting c) (cmode c) (receiving c) (rx c) (lost c) (nacked c) (cycle c') (memchip c).

Lemma same_core_refl c : same_core c c.
Proof. by destruct c. Qed.

Lemma act_rest c a : at_rest c → same_core c (act_step c a).
Proof.
  intros (Ht & Hs & Hm & Hr). destruct a as [|o|]; cbn [act_step]; [|rewrite Hs, Hr; apply same_core_refl|done].
  unfold take_word. rewrite Ht. destruct (_ || _ || _ || _); apply same_core_refl.
Qed.

(** What is true at rest whatever the cycle stays true. *)
Lemma stable_rest (I : core → Prop) :
  (∀ c, I c → at_rest c) → (∀ c c', same_core c c' → I c → I c') → stable I.
Proof. intros Hr Hs c a Hc. by eapply Hs; [apply act_rest, Hr|]. Qed.

Lemma same_core_fields c c' : same_core c c' →
  enabled c' = enabled c ∧ held c' = held c ∧ tx c' = tx c ∧ shifting c' = shifting c ∧ cmode c' = cmode c ∧
  receiving c' = receiving c ∧ rx c' = rx c ∧ lost c' = lost c ∧ nacked c' = nacked c ∧ memchip c' = memchip c.
Proof. unfold same_core. destruct c'. cbn. intros [= -> -> -> -> -> -> -> -> -> ->]. done. Qed.

(** ** Words on their way

    From a chip [c0] without a transfer, the words [ws] were queued: those of
    [done] are delivered, the rest wait.  Or an error ended it after [done],
    and the chip may have taken that for a STOP. *)
Definition delivered (c0 : chip) (done : list Z) : mode * chip := foldl deliver (Free, c0) done.

Definition under_way (c0 : chip) (ws : list Z) (c : core) : Prop :=
  failed c = false ∧ enabled c = true ∧ held c = false ∧ receiving c = 0%nat ∧ rx c = [] ∧
  ∃ done, ws = done ++ option_list (shifting c) ++ tx c ∧ (cmode c, memchip c) = delivered c0 done.

Definition cut_off (c0 : chip) (done m : list Z) : Prop :=
  m = mem (snd (delivered c0 done)) ∨ m = mem (chip_stop (snd (delivered c0 done))).
Definition given_up (c0 : chip) (ws : list Z) (c : core) : Prop :=
  failed c = true ∧ settled c ∧ rx c = [] ∧ ∃ done, done `prefix_of` ws ∧ cut_off c0 done (mem (memchip c)).

Lemma broken_off_mem stop d : mem (broken_off stop d) = mem d ∨ mem (broken_off stop d) = mem (chip_stop d).
Proof. destruct stop; [by right|by left]. Qed.
Lemma broken_off_xfer stop d : xfer (broken_off stop d) = NoTransfer.
Proof. destruct stop; [|done]. unfold broken_off, chip_stop. by destruct (xfer d) as [|[|? [|? ?]]|]. Qed.

Lemma under_way_act c0 ws c a :
  under_way c0 ws c →
  under_way c0 ws (act_step c a) ∨ given_up c0 ws (act_step c a) ∨
  (cmode c = Asking ∧ shifting c = None ∧ a = Take ∧ ∃ w rest, tx c = w :: rest ∧
    act_step c a = Core true false rest None Free (Z.to_nat (w .& 0xff)) [] false false (cycle c) (memchip c)).
Proof.
  intros U. pose proof U as (Hf & He & Hh & Hr & Hx & done & Ew & Ec). pose proof Hf as [Hl Hn]%orb_false_elim.
  destruct a as [|o|]; cbn [act_step].
  - unfold take_word. rewrite He, Hf, Hr. cbn [negb orb]. rewrite (bool_decide_false (0%nat ≠ 0%nat)) by auto.
    destruct (shifting c) as [w|] eqn:Es; [by left|]. rewrite (bool_decide_false (None ≠ None)) by auto. cbn [orb].
    destruct (tx c) as [|w rest] eqn:Et; [by left|]. cbn [option_list app] in Ew.
    destruct (cmode c) eqn:Em; [left|left|right; right; rewrite ?Hl, ?Hn, ?Hh, ?Hx; eauto 10].
    all: unfold under_way, failed; cbn; rewrite Hl, Hn; split_and!; try done; exists done; split; [by rewrite Ew|done].
  - destruct (shifting c) as [w|] eqn:Es; [|rewrite Hr; by left]. unfold shift_word.
    assert (∀ stop l n, l || n = true → given_up c0 ws (Core (enabled c) (held c) [] None Free 0 (rx c) (lost c || l)
      (nacked c || n) (cycle c || stop && programs (memchip c)) (broken_off stop (memchip c)))) as Hgive.
    { intros stop l n Hln. unfold given_up, failed. cbn. rewrite Hl, Hn. split_and!; [done| |done|].
      - split; [done|]. cbn. apply broken_off_xfer.
      - exists done. split; [rewrite Ew; by apply prefix_app_r|]. unfold cut_off. rewrite <-Ec. apply broken_off_mem. }
    destruct o as [|stop|stop g]; [|right; left; by apply Hgive..].
    destruct (_ || _); [|right; left; by apply (Hgive false)]. left. rewrite Ec.
    destruct (deliver (delivered c0 done) w) as [m d] eqn:Ed. unfold under_way, failed. cbn. rewrite Hl, Hn.
    split_and!; try done. exists (done ++ [w]). split; [by rewrite Ew, <-app_assoc|].
    unfold delivered. by rewrite foldl_app.
  - left. done.
Qed.

Lemma given_up_stable c0 ws : stable (given_up c0 ws).
Proof.
  apply stable_rest; [by intros c (_ & [? _] & _)|].
  intros c c' (_ & _ & Et & Es & Em & Er & Ex & El & En & Ed)%same_core_fields.
  unfold given_up, failed, settled, at_rest. by rewrite Et, Es, Em, Er, Ex, El, En, Ed.
Qed.

(** Another word is queued. *)
Lemma under_way_push c0 ws v c :
  (length (tx c) < 16)%nat → under_way c0 ws c → under_way c0 (ws ++ [v .& 0x3ff]) (push_word v c).
Proof.
  intros Hl (Hf & He & Hh & Hr & Hx & done & Ew & Ec). unfold push_word. rewrite Hh, Hf, bool_decide_false by lia.
  cbn [orb]. split_and!; try done. exists done. split; [by rewrite Ew, <-!app_assoc|done].
Qed.

Lemma given_up_push c0 ws v c : given_up c0 ws c → given_up c0 (ws ++ [v .& 0x3ff]) (push_word v c).
Proof.
  intros (Hf & Hs & Hx & done & Hp & Hc). unfold push_word. rewrite Hf, orb_true_r. cbn [orb].
  split_and!; try done. exists done. split; [by apply prefix_app_r|done].
Qed.
