(* ===== verification/Eeprom.v ===== *)
(** * EEPROM driver (src/software/application/eeprom.c)

    An M24C64 behind an AXI IIC core in dynamic mode, driven by polling.  The
    code is modelled on the bus history, the hardware is that of IicCore.
    Between transfers the hardware is settled; from there the driver
    implements the [Store] interface of Settings, which turns the theorems on
    the settings store into theorems on the hardware accesses. *)
From S2P Require Import Prelude Settings Bus IicCore.
Local Open Scope cword_scope.

(** ** The code *)
Section driver.
Context (dev : device).

Definition rd (r : Z) (t : trace) : Z * trace := Xil_In32 dev (IIC + r) t.
Definition wr (r v : Z) (t : trace) : trace := Xil_Out32 (IIC + r) v t.

(** [true] is a nonzero return value. *)
Fixpoint wait_loop (n : nat) (mask expected : Z) (t : trace) : bool * trace :=
  match n with
  | O => (true, t)
  | S n =>
      let '(v, t) := rd 0x104 t in
      if bool_decide (v .& mask = expected) then (false, t) else wait_loop n mask expected t
  end.
Definition wait_status (mask expected : Z) (t : trace) : bool * trace :=
  wait_loop (Z.to_nat 100000) mask expected t.

Definition start (address : Z) (t : trace) : bool * trace :=
  let '(busy, t) := wait_status 4 0 t in
  if busy then (true, t) else
  let t := wr 0x100 1 (wr 0x100 3 (wr 0x120 15 (wr 0x40 10 t))) in
  let '(v, t) := rd 0x20 t in
  let t := wr 0x20 v t in
  (false, wr 0x108 (address .& 255) (wr 0x108 (address >>. 8) (wr 0x108 0x1a0 t))).

Definition reset (t : trace) : trace := wr 0x40 10 t.

Definition finish (t : trace) : bool * trace :=
  let '(r, t) := wait_status 0x80 0x80 t in
  if r then (true, reset t) else
  let '(r, t) := wait_status 4 0 t in
  if r then (true, reset t) else
  let '(v, t) := rd 0x20 t in
  if bool_decide (v .& 3 ≠ 0) then (true, reset t) else (false, t).

(** [for(i<n){if(wait_status(0x40,0))...;*p++=(uint8_t)rd(0x10c);}] *)
Fixpoint read_bytes (n : nat) (t : trace) : option (list Z) * trace :=
  match n with
  | O => (Some [], t)
  | S n =>
      let '(r, t) := wait_status 0x40 0 t in
      if r then (None, reset t) else
      let '(v, t) := rd 0x10c t in
      let '(rest, t) := read_bytes n t in
      (cons (u8 v) <$> rest, t)
  end.

(** One turn of the loop of [eeprom_read]. *)
Definition read_chunk (address : Z) (n : nat) (t : trace) : option (list Z) * trace :=
  let '(r, t) := start address t in
  if r then (None, t) else
  let t := wr 0x108 (0x200 .| Z.of_nat n) (wr 0x108 0x1a1 t) in
  let '(b, t) := read_bytes n t in
  match b with
  | None => (None, t)
  | Some b =>
      let '(r, t) := wait_status 4 0 t in
      if r then (None, reset t) else
      let '(v, t) := rd 0x20 t in
      if bool_decide (v .& 1 ≠ 0) then (None, reset t) else (Some b, t)
  end.

(** The loop; every turn reads at least one byte, so [size] turns are fuel
    enough. *)
Fixpoint read_loop (fuel : nat) (address : Z) (size : nat) (t : trace) : option (list Z) * trace :=
  match size, fuel with
  | O, _ => (Some [], t)
  | _, O => (None, t)
  | _, S fuel =>
      let n := if bool_decide (16 < size)%nat then 16%nat else size in
      let '(b, t) := read_chunk address n t in
      match b with
      | None => (None, t)
      | Some b =>
          let '(rest, t) := read_loop fuel (u16 (address + Z.of_nat n)) (size - n) t in
          (app b <$> rest, t)
      end
  end.

Definition eeprom_read (address : Z) (size : nat) (t : trace) : option (list Z) * trace :=
  if bool_decide (u32 (address + Z.of_nat size) > 8192) then (None, t)
  else read_loop size address size t.

(** [for(i<n){if(wait_status(0x10,0))...;wr(0x108,*p++|(i==n-1?0x200:0));}] *)
Fixpoint write_bytes (p : list Z) (t : trace) : bool * trace :=
  match p with
  | [] => (false, t)
  | b :: p =>
      let '(r, t) := wait_status 0x10 0 t in
      if r then (true, reset t) else
      write_bytes p (wr 0x108 (b .| (if bool_decide (p = []) then 0x200 else 0)) t)
  end.

(** One turn of the loop of [eeprom_write]. *)
Definition write_chunk (address : Z) (p : list Z) (t : trace) : bool * trace :=
  let '(r, t) := start address t in
  if r then (true, t) else
  let '(r, t) := write_bytes p t in
  if r then (true, t) else
  let '(r, t) := finish t in
  if r then (true, t) else (false, vTaskDelay (pdMS_TO_TICKS 10 + 1) t).

Fixpoint write_loop (fuel : nat) (address : Z) (p : list Z) (t : trace) : bool * trace :=
  match p, fuel with
  | [], _ => (false, t)
  | _, O => (true, t)
  | _, S fuel =>
      let n := 32 - (address .& 31) in
      let n := if bool_decide (n > Z.of_nat (length p)) then length p else Z.to_nat n in
      let '(r, t) := write_chunk address (take n p) t in
      if r then (true, t) else write_loop fuel (u16 (address + Z.of_nat n)) (drop n p) t
  end.

Definition eeprom_write (address : Z) (p : list Z) (t : trace) : bool * trace :=
  if bool_decide (address < SETTINGS_SLOT0) ||
     bool_decide (u32 (address + Z.of_nat (length p)) > SETTINGS_SLOT1 + Z.of_nat SETTINGS_SLOT_SIZE)
  then (true, t)
  else write_loop (length p) address p t.
End driver.

(** ** Accesses and waits *)
Section proofs.
Context {dev : device} `{EepromBus dev}.
Local Abbreviation at_core := (core_at env).

Lemma masked_clear x i : 0 <= i < 32 → u32 x .& 2 ^ i = 0 → Z.testbit x i = false.
Proof.
  intros Hi E. pose proof (f_equal (λ z, Z.testbit z i) E) as Hb. cbn beta in Hb.
  rewrite Z.land_spec, Z.pow2_bits_true, andb_true_r, Z.bits_0 in Hb by lia. unfold u32 in Hb.
  by rewrite Z.mod_pow2_bits_low in Hb by lia.
Qed.
Lemma masked_set x i : 0 <= i < 32 → u32 x .& 2 ^ i = 2 ^ i → Z.testbit x i = true.
Proof.
  intros Hi E. pose proof (f_equal (λ z, Z.testbit z i) E) as Hb. cbn beta in Hb.
  rewrite Z.land_spec, Z.pow2_bits_true, andb_true_r in Hb by lia. unfold u32 in Hb.
  by rewrite Z.mod_pow2_bits_low in Hb by lia.
Qed.

(** A load that takes nothing from the receive queue. *)
Lemma rd_keeps I r t : r ≠ 0x10c → stable I → I (at_core t) → I (at_core (snd (rd dev r t))).
Proof.
  intros Hr HI Hc. cbn [rd Xil_In32 snd core_at]. apply stable_run; [done|]. cbn [access].
  by rewrite bool_decide_false by lia.
Qed.

(** A wait keeps what the core keeps, and ends well only when what the status
    says is true. *)
Lemma wait_keeps I P mask expected t :
  stable I → stable P →
  (∀ t, I (at_core t) → u32 (dev t (IIC + 0x104)) .& mask = expected → P (at_core t)) →
  I (at_core t) →
  let '(r, t') := wait_status dev mask expected t in I (at_core t') ∧ (r = false → P (at_core t')).
Proof.
  intros HI HP Hmask. unfold wait_status. generalize (Z.to_nat 100000). intros n. revert t.
  induction n as [|n IH]; intros t Hc; [done|]. cbn [wait_loop].
  pose proof (rd_keeps I 0x104 t ltac:(done) HI Hc) as Hc'. pose proof (rd_keeps P 0x104 t ltac:(done) HP) as Hp'.
  specialize (Hmask t Hc). destruct (rd dev 0x104 t) as [v t1] eqn:E. cbn [snd] in *.
  assert (v = u32 (dev t (IIC + 0x104))) as -> by (by injection E).
  case_bool_decide; [|by apply IH]. auto.
Qed.

(** What is stored in a register, seen by the core. *)
Lemma wr_at r v t :
  at_core (wr r v t) = run (work env (wr r v t)) (access (Out32 (IIC + r) (u32 v)) (keeps env t) (aborts env t) (at_core t)).
Proof. done. Qed.

Lemma wr_keeps I r v t :
  r ≠ 0x108 → r ≠ 0x40 → r ≠ 0x100 → r ≠ 0x20 → stable I → I (at_core t) → I (at_core (wr r v t)).
Proof.
  intros H1 H2 H3 H4 HI Hc. rewrite wr_at. apply stable_run; [done|]. cbn [access].
  by rewrite !bool_decide_false by lia.
Qed.

(** ** Settled hardware

    [m] is the memory, and the error flags and the registers of the core are
    known as far as they matter. *)
Definition resting (m : list Z) (c : core) : Prop := settled c ∧ mem (memchip c) = m.

Lemma resting_stable m : stable (resting m).
Proof.
  apply stable_rest; [by intros c [[? _] _]|].
  intros c c' (_ & _ & Et & Es & Em & Er & Ex & El & En & Ed)%same_core_fields.
  unfold resting, settled, at_rest. by rewrite Et, Es, Em, Er, Ed.
Qed.

(** Nothing is left in the receive queue either. *)
Definition listening (m : list Z) (c : core) : Prop := resting m c ∧ rx c = [].
Lemma listening_stable m : stable (listening m).
Proof.
  apply stable_rest; [by intros c [[[? _] _] _]|].
  intros c c' (_ & _ & Et & Es & Em & Er & Ex & El & En & Ed)%same_core_fields.
  unfold listening, resting, settled, at_rest. by rewrite Et, Es, Em, Er, Ex, Ed.
Qed.

(** The soft reset settles anything; a transfer that is cut off may look like
    a STOP. *)
Lemma reset_at t :
  at_core (reset t) = run (work env (reset t)) (soft_reset (keeps env t) (aborts env t) (at_core t)).
Proof.
  unfold reset. rewrite wr_at. change (u32 10) with 10. cbn [access].
  by rewrite (bool_decide_false (IIC + 0x40 = IIC + 0x108)), !bool_decide_true by done.
Qed.

Lemma reset_settles t :
  ∃ m, listening m (at_core (reset t)) ∧
  (m = mem (memchip (at_core t)) ∨ m = mem (chip_stop (memchip (at_core t)))).
Proof.
  exists (mem (broken_off (aborts env t) (memchip (at_core t)))). split; [|apply broken_off_mem].
  rewrite reset_at. apply stable_run; [apply listening_stable|].
  split; [|done]. split; [|done]. split; [done|]. apply broken_off_xfer.
Qed.

(** A chip at rest is not changed by it. *)
Lemma reset_resting m t : resting m (at_core t) → listening m (at_core (reset t)).
Proof.
  intros [[_ Hx] <-]. destruct (reset_settles t) as (m & Hl & [->| ->]); [done|].
  unfold chip_stop in Hl. by rewrite Hx in Hl.
Qed.

(** ** A transfer is begun *)

(** The queued words are on the wire or were given up. *)
Definition on_wire (c0 : chip) (ws : list Z) (c : core) : Prop := under_way c0 ws c ∨ given_up c0 ws c.

(** Words without a select for reading. *)
Definition plain (w : Z) : Prop := Z.testbit w 8 && Z.testbit w 0 = false.

Lemma delivered_plain c0 ws : Forall plain ws → fst (delivered c0 ws) ≠ Asking.
Proof.
  destruct ws as [|w ws _] using rev_ind; [done|]. intros [_ Hw]%Forall_app. apply Forall_cons in Hw as [Hw _].
  unfold delivered. rewrite foldl_app. cbn [foldl]. unfold deliver. rewrite Hw. by destruct (Z.testbit w 9).
Qed.

Lemma on_wire_stable c0 ws : Forall plain ws → stable (on_wire c0 ws).
Proof.
  intros Hp c a [U|G]; [|right; by apply given_up_stable].
  destruct (under_way_act c0 ws c a U) as [?|[?|(Hm & _)]]; [by left|by right|].
  exfalso. destruct U as (_ & _ & _ & _ & _ & done & -> & Ec). apply Forall_app in Hp as [Hp _].
  apply (delivered_plain c0 done Hp). by rewrite <-Ec.
Qed.

Lemma on_wire_room c0 ws c : on_wire c0 ws c → (length (tx c) <= length ws)%nat.
Proof.
  intros [(_ & _ & _ & _ & _ & done & -> & _)|(_ & [[-> _] _] & _)]; [rewrite !length_app; lia|simpl; lia].
Qed.

Lemma on_wire_push c0 ws v t :
  Forall plain (ws ++ [u32 v .& 0x3ff]) → (length (tx (at_core t)) < 16)%nat → on_wire c0 ws (at_core t) →
  on_wire c0 (ws ++ [u32 v .& 0x3ff]) (at_core (wr 0x108 v t)).
Proof.
  intros Hp Hl Hw. rewrite wr_at. apply stable_run; [by apply on_wire_stable|]. cbn [access].
  rewrite bool_decide_true by done. destruct Hw; [left; by apply under_way_push|right; by apply given_up_push].
Qed.

(** The core is enabled, with these error flags. *)
Definition armed (m : list Z) (l n : bool) (c : core) : Prop :=
  resting m c ∧ enabled c = true ∧ held c = false ∧ rx c = [] ∧ lost c = l ∧ nacked c = n.

Lemma armed_stable m l n : stable (armed m l n).
Proof.
  apply stable_rest; [by intros c [[[? _] _] _]|].
  intros c c' (Ee & Eh & Et & Es & Em & Er & Ex & El & En & Ed)%same_core_fields.
  unfold armed, resting, settled, at_rest. by rewrite Ee, Eh, Et, Es, Em, Er, Ex, El, En, Ed.
Qed.

(** Reset, set-up and enable. *)
Lemma start_armed m t :
  resting m (at_core t) →
  ∃ l n, armed m l n (at_core (wr 0x100 1 (wr 0x100 3 (wr 0x120 15 (wr 0x40 10 t))))).
Proof.
  intros Hr%reset_resting. change (wr 0x40 10 t) with (reset t). revert Hr. generalize (reset t). intros t1 Hr.
  apply (wr_keeps _ 0x120 15) in Hr; [|done..|apply listening_stable]. revert Hr. generalize (wr 0x120 15 t1). intros t2 Hr.
  assert (∀ v t, listening m (at_core t) → listening m (set_control v (at_core t))) as Hc.
  { intros v t0 [[[(Ht & Hs & Hm & Hv) Hx] Hmem] Hrx]. unfold set_control.
    destruct (Z.testbit v 1); by split_and!. }
  assert (∀ v t, access (Out32 (IIC + 0x100) v) (keeps env t) (aborts env t) (at_core t) = set_control v (at_core t)) as Ha.
  { intros v t0. cbn [access]. by rewrite 2!bool_decide_false, bool_decide_true by done. }
  assert (listening m (at_core (wr 0x100 3 t2))) as Hr3.
  { rewrite wr_at, Ha. apply stable_run; [apply listening_stable|by apply Hc]. }
  revert Hr3. generalize (wr 0x100 3 t2). intros t3 Hr3. rewrite wr_at, Ha. change (u32 1) with 1.
  exists (lost (at_core t3)), (nacked (at_core t3)). apply stable_run; [apply armed_stable|].
  destruct (Hc 1 t3 Hr3) as [? ?]. by split_and!.
Qed.

Lemma address_bytes a : 0 <= a < 65536 → is_u8 (a >>. 8) ∧ is_u8 (a .& 255) ∧ (a >>. 8) * 256 + (a .& 255) = a.
Proof.
  intros Ha. change 255 with (Z.ones 8). rewrite Z.land_ones, Z.shiftr_div_pow2 by lia. unfold in_bits. dlia.
Qed.

(** A byte as a word of the queue. *)
Lemma byte_word b : is_u8 b → u32 b .& 0x3ff = b ∧ Z.testbit b 8 = false ∧ Z.testbit b 9 = false ∧ b .& 0xff = b.
Proof.
  intros Hb. pose proof (in_bits_pow 8 b Hb ltac:(lia)) as Hp. split_and!; [|by apply Hp..|].
  - rewrite u32_small by (unfold in_bits in *; lia). change 0x3ff with (Z.ones 10). rewrite Z.land_ones by lia.
    apply Z.mod_small. unfold in_bits in Hb. lia.
  - change 0xff with (Z.ones 8). rewrite Z.land_ones by lia. apply Z.mod_small. apply Hb.
Qed.

Lemma byte_plain b : is_u8 b → plain b.
Proof. intros (_ & H8 & _)%byte_word. unfold plain. by rewrite H8. Qed.

(** The clearing of the flags. *)
Lemma flags_cleared m l n t :
  armed m l n (at_core t) → armed m false false (at_core (let '(v, t) := rd dev 0x20 t in wr 0x20 v t)).
Proof.
  intros Ha. pose proof (rd_keeps _ 0x20 t ltac:(done) (armed_stable m l n) Ha) as Ha1.
  pose proof (lost_shown t) as El. pose proof (nacked_shown t) as En. destruct Ha as (_ & _ & _ & _ & Hl & Hn).
  destruct (rd dev 0x20 t) as [v t1] eqn:E. cbn [snd] in Ha1.
  assert (v = u32 (dev t (IIC + 0x20))) as -> by (by injection E). rewrite wr_at.
  apply stable_run; [apply armed_stable|]. cbn [access]. rewrite 3!bool_decide_false, bool_decide_true by done.
  rewrite (u32_small (u32 _)) by apply u32_range.
  destruct Ha1 as (Hr & He & Hh & Hx & Hl1 & Hn1). unfold toggle_flags, armed.
  cbn [enabled held rx lost nacked]. unfold u32.
  rewrite !Z.mod_pow2_bits_low, El, En, Hl1, Hn1, Hl, Hn, !xorb_nilpotent by lia. by split_and!.
Qed.

Lemma start_spec m a t :
  0 <= a < 65536 → resting m (at_core t) →
  let '(r, t') := start dev a t in
  if r then resting m (at_core t')
  else ∃ c0, mem c0 = m ∧ xfer c0 = NoTransfer ∧ on_wire c0 [0x1a0; a >>. 8; a .& 255] (at_core t').
Proof.
  intros Ha Hr. destruct (address_bytes a Ha) as (H1 & H2 & _).
  destruct (byte_word _ H1) as (U1 & _), (byte_word _ H2) as (U2 & _). unfold start.
  pose proof (wait_keeps (resting m) (λ _, True) 4 0 t (resting_stable m) ltac:(done) ltac:(done) Hr) as Hw.
  destruct (wait_status dev 4 0 t) as [r t1]. destruct Hw as [Hr1 _]. destruct r; [done|].
  destruct (start_armed m t1 Hr1) as (l & n & Hb). revert Hb. generalize (wr 0x100 1 (wr 0x100 3 (wr 0x120 15 (wr 0x40 10 t1)))).
  intros t2 Hb. apply flags_cleared in Hb. destruct (rd dev 0x20 t2) as [v t3].
  revert Hb. generalize (wr 0x20 v t3). intros t4 Hb.
  exists (memchip (at_core t4)). destruct Hb as ([[(Ht & Hs & Hm & Hv) Hx] Hmem] & He & Hh & Hrx & Hl & Hn).
  split_and!; [done|done|].
  assert (on_wire (memchip (at_core t4)) [] (at_core t4)) as W0.
  { left. unfold under_way, failed. rewrite Hl, Hn. split_and!; try done. exists []. by rewrite Hs, Ht, Hm. }
  pose proof (byte_plain _ H1) as P1. pose proof (byte_plain _ H2) as P2.
  assert (∀ ws v t, (length ws < 16)%nat → Forall plain (ws ++ [u32 v .& 0x3ff]) → on_wire (memchip (at_core t4)) ws (at_core t) →
    on_wire (memchip (at_core t4)) (ws ++ [u32 v .& 0x3ff]) (at_core (wr 0x108 v t))) as Hpush.
  { intros ws v' t' Hlen Hp Hw. pose proof (on_wire_room _ _ _ Hw). apply on_wire_push; [done|lia|done]. }
  apply (Hpush _ 0x1a0) in W0; [|simpl; lia|by repeat constructor]. 
  apply (Hpush _ (a >>. 8)) in W0; [|simpl; lia|rewrite U1; by repeat constructor].
  apply (Hpush _ (a .& 255)) in W0; [|simpl; lia|rewrite U1, U2; by repeat constructor].
  by rewrite U1, U2 in W0.
Qed.

(** ** Writing *)

(** The words of a page write after its address. *)
Fixpoint data_words (p : list Z) : list Z :=
  match p with [] => [] | [b] => [b .| 0x200] | b :: p => b :: data_words p end.

Lemma data_words_length p : length (data_words p) = length p.
Proof. induction p as [|b [|b' p] IH]; [done..|]. cbn [data_words length] in *. by rewrite IH. Qed.

Lemma data_words_app ds p : p ≠ [] → data_words (ds ++ p) = ds ++ data_words p.
Proof.
  intros Hp. induction ds as [|d ds IH]; [done|]. cbn [app]. rewrite <-IH.
  destruct (ds ++ p) as [|x y] eqn:E; [by apply app_eq_nil in E as [_ ?]|done].
Qed.

Lemma data_words_take k p : (k < length p)%nat → take k (data_words p) = take k p.
Proof.
  intros Hk. rewrite <-(take_drop k p) at 1. rewrite data_words_app.
  - rewrite take_app_le, take_ge by (rewrite length_take; lia). done.
  - intros E%(f_equal length). rewrite length_drop in E. simpl in E. lia.
Qed.

Lemma stop_word b :
  is_u8 b → u32 (b .| 0x200) .& 0x3ff = b .| 0x200 ∧ Z.testbit (b .| 0x200) 8 = false ∧
  Z.testbit (b .| 0x200) 9 = true ∧ (b .| 0x200) .& 0xff = b.
Proof.
  intros Hb. destruct (byte_word b Hb) as (_ & H8 & H9 & Hm). split_and!.
  - assert (is_u32 (b .| 0x200)) as Hu by (apply u32_lor; [unfold in_bits in *; lia|done]).
    rewrite u32_small by done. rewrite Z.land_lor_distr_l. change (0x200 .& 0x3ff) with 0x200. f_equal.
    destruct (byte_word b Hb) as (E & _). by rewrite u32_small in E by (unfold in_bits in *; lia).
  - rewrite Z.lor_spec, H8. done.
  - rewrite Z.lor_spec, H9. done.
  - rewrite Z.land_lor_distr_l, Hm. apply Z.lor_0_r.
Qed.

Lemma data_words_plain p : is_bytes p → Forall plain (data_words p).
Proof.
  induction 1 as [|b [|b' p] Hb Hp IH]; [constructor| |].
  - constructor; [|done]. destruct (stop_word b Hb) as (_ & H8 & _). unfold plain. by rewrite H8.
  - constructor; [by apply byte_plain|done].
Qed.

Lemma delivered_bytes c ds bs :
  is_bytes ds → xfer c = Writing bs →
  foldl deliver (Sending, c) ds = (Sending, Chip (mem c) (ptr c) (Writing (bs ++ ds))).
Proof.
  intros Hds. revert c bs. induction Hds as [|d ds Hd Hds IH]; intros c bs Hx.
  { rewrite app_nil_r, <-Hx. by destruct c. }
  destruct (byte_word d Hd) as (_ & H8 & H9 & Hm). cbn [foldl]. unfold deliver at 2, chip_byte. cbn [snd].
  rewrite H8, H9, Hx, Hm. cbn [andb]. erewrite IH by done. cbn. by rewrite <-app_assoc.
Qed.

(** The script of a page write, as far as the STOP and with it. *)
Definition write_script (hi lo : Z) (p : list Z) : list Z := [0x1a0; hi; lo] ++ data_words p.

Lemma delivered_script c0 hi lo ds :
  is_u8 hi → is_u8 lo → is_bytes ds →
  delivered c0 ([0x1a0; hi; lo] ++ ds) = (Sending, Chip (mem c0) (ptr c0) (Writing (hi :: lo :: ds))).
Proof.
  intros Hhi Hlo Hds. unfold delivered. cbn [app foldl]. change (deliver (Free, c0) 0x1a0) with (Sending, Chip (mem c0) (ptr c0) (Writing [])).
  apply (delivered_bytes (Chip (mem c0) (ptr c0) (Writing [])) (hi :: lo :: ds) []); [|done].
  by repeat (apply Forall_cons_2; [done|]).
Qed.

Lemma delivered_stop c0 hi lo p :
  is_u8 hi → is_u8 lo → is_bytes p → p ≠ [] →
  delivered c0 (write_script hi lo p) = (Free, Chip (page_write (mem c0) (chip_address hi lo) p) (ptr c0) NoTransfer).
Proof.
  intros Hhi Hlo Hp Hne. destruct p as [|b ds _] using rev_ind; [done|]. apply Forall_app in Hp as [Hds Hb].
  apply Forall_cons in Hb as [Hb _]. unfold write_script. rewrite data_words_app, app_assoc by done.
  unfold delivered. rewrite foldl_app. fold (delivered c0 ([0x1a0; hi; lo] ++ ds)). rewrite delivered_script by done.
  cbn [data_words foldl]. destruct (stop_word b Hb) as (_ & H8 & H9 & Hm). unfold deliver, chip_byte. cbn [snd xfer mem ptr].
  rewrite H8, H9, Hm. done.
Qed.

(** Wherever a page write is cut off, a prefix of its bytes is written. *)
Lemma write_cut c0 hi lo p done m :
  is_u8 hi → is_u8 lo → is_bytes p → p ≠ [] → xfer c0 = NoTransfer →
  done `prefix_of` write_script hi lo p → cut_off c0 done m →
  ∃ k, (k <= length p)%nat ∧ m = page_write (mem c0) (chip_address hi lo) (take k p).
Proof.
  intros Hhi Hlo Hp Hne Hx [rest E] Hc.
  assert (done = take (length done) (write_script hi lo p)) as Ed by (by rewrite E, take_app_length).
  assert (length done <= 3 + length p)%nat as Hl.
  { pose proof (f_equal length E) as El. unfold write_script in El. rewrite !length_app, data_words_length in El. simpl in El. lia. }
  revert Ed Hl Hc. generalize (length done). intros n -> Hl. unfold write_script, cut_off.
  destruct n as [|[|[|k]]]; cbn [app take].
  - intros [->| ->]; exists 0%nat; (split; [lia|]); [done|]. unfold delivered, chip_stop. cbn [foldl snd]. by rewrite Hx.
  - intros [->| ->]; exists 0%nat; (split; [lia|done]).
  - change (delivered c0 [0x1a0; hi]) with (foldl deliver (Sending, Chip (mem c0) (ptr c0) (Writing [])) [hi]).
    rewrite (delivered_bytes (Chip (mem c0) (ptr c0) (Writing [])) [hi] []) by (done || by apply Forall_singleton).
    intros [->| ->]; exists 0%nat; (split; [lia|done]).
  - destruct (decide (k < length p)%nat) as [Hk|Hk].
    + rewrite data_words_take by done. change (0x1a0 :: hi :: lo :: take k p) with ([0x1a0; hi; lo] ++ take k p).
      rewrite delivered_script by (done || by apply Forall_take). intros [->| ->]; [by exists 0%nat; split; [lia|]|].
      exists k. split; [lia|done].
    + rewrite take_ge by (rewrite data_words_length; lia).
      change (0x1a0 :: hi :: lo :: data_words p) with (write_script hi lo p). rewrite delivered_stop by done.
      intros [->| ->]; exists (length p); (split; [done|]); by rewrite take_ge.
Qed.

(** Resetting a transfer cuts it off. *)
Lemma reset_on_wire c0 ws t :
  on_wire c0 ws (at_core t) →
  ∃ m done, done `prefix_of` ws ∧ cut_off c0 done m ∧ listening m (at_core (reset t)).
Proof.
  intros [(_ & _ & _ & _ & _ & done & -> & Ec)|(_ & Hs & _ & done & Hp & Hc)].
  - destruct (reset_settles t) as (m & Hl & Hm). exists m, done. split; [by apply prefix_app_r|]. split; [|done].
    unfold cut_off. by rewrite <-Ec.
  - exists (mem (memchip (at_core t))), done. split; [done|]. split; [done|]. by apply reset_resting.
Qed.

(** The queue empties by itself only. *)
Lemma take_word_tx c : tx (take_word c) = tx c ∨ ∃ w, tx c = w :: tx (take_word c).
Proof.
  unfold take_word. destruct (_ || _ || _ || _); [by left|]. destruct (tx c) as [|w ws] eqn:E; [left; exact E|].
  right. exists w. by destruct (cmode c).
Qed.
Lemma act_tx c a : (length (tx (act_step c a)) <= length (tx c))%nat.
Proof.
  destruct a as [|o|]; cbn [act_step]; [|destruct (shifting c) as [w|]|done].
  - destruct (take_word_tx c) as [->|[w ->]]; simpl; lia.
  - unfold shift_word. destruct o; [|simpl; lia..]. destruct (_ || _); [|simpl; lia].
    by destruct (deliver (cmode c, memchip c) w).
  - destruct (receiving c) as [|k]; [done|]. unfold receive_byte. case_bool_decide; [done|]. by destruct o.
Qed.
Lemma tx_stable n : stable (λ c, (length (tx c) < n)%nat).
Proof. intros c a. pose proof (act_tx c a). lia. Qed.

(** The data of a page write are queued, or the transfer is cut off. *)
Lemma write_bytes_spec c0 ws p t :
  p ≠ [] → is_bytes p → Forall plain ws → on_wire c0 ws (at_core t) →
  let '(r, t') := write_bytes dev p t in
  if r then ∃ m done, done `prefix_of` ws ++ data_words p ∧ cut_off c0 done m ∧ listening m (at_core t')
  else on_wire c0 (ws ++ data_words p) (at_core t').
Proof.
  revert ws t. induction p as [|b p IH]; intros ws t Hne Hb Hws Hw; [done|]. apply Forall_cons in Hb as [Hb Hp].
  cbn [write_bytes]. pose proof (wait_keeps (on_wire c0 ws) (λ c, (length (tx c) < 16)%nat) 0x10 0 t) as Hk.
  ospecialize* Hk; [by apply on_wire_stable|apply tx_stable| |done|].
  { intros t0 _ E%(masked_clear _ 4); [|lia]. by apply room_true. }
  destruct (wait_status dev 0x10 0 t) as [r t1]. destruct Hk as [Hw1 Hroom]. destruct r.
  { destruct (reset_on_wire c0 ws t1 Hw1) as (m & done & Hd & Hc & Hl). exists m, done.
    split; [by apply prefix_app_r|done]. }
  specialize (Hroom eq_refl). destruct (decide (p = [])) as [->|Hpne].
  - rewrite bool_decide_true by done. cbn [write_bytes data_words]. destruct (stop_word b Hb) as (E & H8 & _).
    rewrite <-E at 1. apply on_wire_push; [|done..]. rewrite E. apply Forall_app. split; [done|].
    apply Forall_singleton. unfold plain. by rewrite H8.
  - rewrite bool_decide_false, Z.lor_0_r by done. destruct (byte_word b Hb) as (E & H8 & _).
    assert (Forall plain (ws ++ [b])) as Hwsb by (apply Forall_app; split; [done|apply Forall_singleton; by apply byte_plain]).
    assert (data_words (b :: p) = [b] ++ data_words p) as -> by (by apply (data_words_app [b])). rewrite app_assoc.
    apply IH; [done..|]. rewrite <-E at 1. apply on_wire_push; [by rewrite E|done..].
Qed.

(** After the wait for the queue and the bus, without an error, all words are
    delivered. *)
Lemma finish_spec c0 ws t :
  Forall plain ws → fst (delivered c0 ws) = Free → xfer (snd (delivered c0 ws)) = NoTransfer → on_wire c0 ws (at_core t) →
  let '(r, t') := finish dev t in
  if r then ∃ m done, done `prefix_of` ws ∧ cut_off c0 done m ∧ listening m (at_core t')
  else resting (mem (snd (delivered c0 ws))) (at_core t').
Proof.
  intros Hp Hfree Hx Hw. unfold finish.
  pose proof (wait_keeps (on_wire c0 ws) (λ c, (length (tx c) < 1)%nat) 0x80 0x80 t) as Hk.
  ospecialize* Hk; [by apply on_wire_stable|apply tx_stable| |done|].
  { intros t0 _ E%(masked_set _ 7); [|lia]. apply sent_true in E. rewrite E. simpl. lia. }
  destruct (wait_status dev 0x80 0x80 t) as [r t1]. destruct Hk as [Hw1 Htx]. destruct r; [by apply reset_on_wire|].
  specialize (Htx eq_refl).
  pose proof (wait_keeps (λ c, on_wire c0 ws c ∧ (length (tx c) < 1)%nat) (λ c, on_wire c0 ws c ∧ at_rest c) 4 0 t1) as Hk.
  ospecialize* Hk.
  - intros c a [? ?]. split; [by apply on_wire_stable|by apply tx_stable].
  - intros c a [? Hr]. split; [by apply on_wire_stable|].
    pose proof (act_rest c a Hr) as (_ & _ & Et & Es & Em & Er & _)%same_core_fields.
    unfold at_rest in *. by rewrite Et, Es, Em, Er.
  - intros t0 [Hw0 Ht] E%(masked_clear _ 2); [|lia]. split; [done|]. apply idle_true in E. unfold busy in E.
    assert (tx (at_core t0) = []) as Et by (apply nil_length_inv; lia).
    unfold at_rest. rewrite Et. by destruct (shifting (at_core t0)), (cmode (at_core t0)), (receiving (at_core t0)).
  - done.
  - destruct (wait_status dev 4 0 t1) as [r t2]. destruct Hk as [[Hw2 _] Hr2]. destruct r; [by apply reset_on_wire|].
    destruct (Hr2 eq_refl) as [_ Hr]. clear Hr2.
    pose proof (rd_keeps _ 0x20 t2 ltac:(done) (on_wire_stable c0 ws Hp) Hw2) as Hw3.
    pose proof (lost_shown t2) as El. pose proof (nacked_shown t2) as En.
    destruct (rd dev 0x20 t2) as [v t3] eqn:E. cbn [snd] in Hw3.
    assert (v = u32 (dev t2 (IIC + 0x20))) as -> by (by injection E). case_bool_decide as Hv; [by apply reset_on_wire|].
    assert (failed (at_core t2) = false) as Hnf.
    { unfold failed. rewrite <-El, <-En.
      assert (∀ i, (i = 0 ∨ i = 1) → Z.testbit (dev t2 (IIC + 0x20)) i = false) as Hb; [|by rewrite !Hb by lia].
      intros i Hi. pose proof (f_equal (λ z, Z.testbit z i) Hv) as Hb. cbn beta in Hb.
      rewrite Z.land_spec, Z.bits_0 in Hb. unfold u32 in Hb. rewrite Z.mod_pow2_bits_low in Hb by lia.
      destruct Hi as [-> | ->]; by rewrite andb_true_r in Hb. }
    assert (resting (mem (snd (delivered c0 ws))) (at_core t2)) as Hrest.
    { destruct Hw2 as [(_ & _ & _ & _ & _ & done & Ews & Ec)|(Hf & _)]; [|congruence].
      destruct Hr as (Ht & Hs & Hm & Hv0). rewrite Ht, Hs in Ews. cbn [option_list app] in Ews.
      rewrite app_nil_r in Ews. subst done. rewrite <-Ec in Hx |- *. by split_and!. }
    pose proof (rd_keeps _ 0x20 t2 ltac:(done) (resting_stable _) Hrest) as H3. by rewrite E in H3.
Qed.

Lemma page_write_memcpy m a ds :
  0 <= a → a `mod` 32 + Z.of_nat (length ds) <= 32 → page_write m a ds = memcpy m (Z.to_nat a) ds.
Proof.
  intros Ha. unfold page_write.
  enough (a `mod` 32 + Z.of_nat (length ds) <= 32 →
    foldl (λ '(i, m) d, (i + 1, <[Z.to_nat (a / 32 * 32 + (a + i) `mod` 32) := d]> m)) (0, m) ds =
    (Z.of_nat (length ds), memcpy m (Z.to_nat a) ds)) as E by (intros Hl; by rewrite (E Hl)).
  induction ds as [|d ds IH] using rev_ind; intros Hl; [done|].
  rewrite length_app in Hl. cbn [length] in Hl.
  rewrite foldl_app, IH, memcpy_snoc, length_app by lia. cbn [foldl length]. f_equal; [lia|]. f_equal.
  rewrite <-Z.add_mod_idemp_l, (Z.mod_small (a `mod` 32 + _)) by dlia. dlia.
Qed.

Lemma chip_address_bytes a : 0 <= a < 8192 → chip_address (a >>. 8) (a .& 255) = a.
Proof.
  intros Ha. unfold chip_address. destruct (address_bytes a ltac:(lia)) as (_ & _ & ->). apply Z.mod_small. lia.
Qed.

(** A page: written on success, a prefix of it on failure, settled again. *)
Lemma write_chunk_spec m a p t :
  0 <= a < 8192 → p ≠ [] → is_bytes p → a `mod` 32 + Z.of_nat (length p) <= 32 → resting m (at_core t) →
  let '(r, t') := write_chunk dev a p t in
  ∃ k, (k <= length p)%nat ∧ (r = false → k = length p) ∧ resting (memcpy m (Z.to_nat a) (take k p)) (at_core t').
Proof.
  intros Ha Hne Hb Hpage Hr. destruct (address_bytes a ltac:(lia)) as (H1 & H2 & _).
  assert (∀ done m' c0, mem c0 = m → xfer c0 = NoTransfer → done `prefix_of` [0x1a0; a >>. 8; a .& 255] ++ data_words p →
    cut_off c0 done m' → ∃ k, (k <= length p)%nat ∧ m' = memcpy m (Z.to_nat a) (take k p)) as Hcut.
  { intros done m' c0 <- Hx Hd Hc. destruct (write_cut c0 (a >>. 8) (a .& 255) p done m') as (k & Hk & ->); [done..|].
    exists k. split; [done|]. rewrite chip_address_bytes by done. apply page_write_memcpy; [lia|]. rewrite length_take. lia. }
  unfold write_chunk. pose proof (start_spec m a t ltac:(lia) Hr) as Hs. destruct (start dev a t) as [r t1]. destruct r.
  { exists 0%nat. split; [lia|]. by split. }
  destruct Hs as (c0 & Hm & Hx & Hw).
  assert (Forall plain [0x1a0; a >>. 8; a .& 255]) as Hpl.
  { repeat (apply Forall_cons_2; [try by apply byte_plain|]); done. }
  pose proof (write_bytes_spec c0 _ p t1 Hne Hb Hpl Hw) as Hwb. destruct (write_bytes dev p t1) as [r t2]. destruct r.
  { destruct Hwb as (m' & done & Hd & Hc & [Hl _]). destruct (Hcut done m' c0 Hm Hx Hd Hc) as (k & Hk & ->). by exists k. }
  pose proof (delivered_stop c0 (a >>. 8) (a .& 255) p H1 H2 Hb Hne) as Ed. unfold write_script in Ed.
  pose proof (finish_spec c0 _ t2 ltac:(apply Forall_app; split; [done|by apply data_words_plain])
    ltac:(by rewrite Ed) ltac:(by rewrite Ed) Hwb) as Hf.
  rewrite Ed, chip_address_bytes, page_write_memcpy, Hm in Hf by lia. cbn [snd mem] in Hf.
  destruct (finish dev t2) as [r t3]. destruct r.
  { destruct Hf as (m' & done & Hd & Hc & [Hl _]). destruct (Hcut done m' c0 Hm Hx Hd Hc) as (k & Hk & ->). by exists k. }
  exists (length p). split; [done|]. split; [done|]. rewrite take_ge by done. cbn [core_at vTaskDelay].
  apply stable_run; [apply resting_stable|]. cbn [access]. by case_bool_decide.
Qed.

(** The bytes that go to the page of the address. *)
Lemma page_room a (p : list Z) :
  p ≠ [] →
  let n := if bool_decide (32 - (a .& 31) > Z.of_nat (length p)) then length p else Z.to_nat (32 - (a .& 31)) in
  (0 < n <= length p)%nat ∧ a `mod` 32 + Z.of_nat n <= 32 ∧ take n p ≠ [].
Proof.
  intros Hp n. assert (0 <= a .& 31 < 32 ∧ a .& 31 = a `mod` 32) as [Hm Em].
  { change 31 with (Z.ones 5). rewrite Z.land_ones by lia. split; [apply Z.mod_pos_bound; lia|done]. }
  assert (0 < length p)%nat as Hl by (destruct p; [done|simpl; lia]).
  assert ((0 < n <= length p)%nat ∧ a `mod` 32 + Z.of_nat n <= 32) as [Hn Hpage] by (unfold n; case_bool_decide; lia).
  split; [done|]. split; [done|]. intros E%(f_equal length). rewrite length_take in E. simpl in E. lia.
Qed.

(** The pages of a write: all of them on success, a prefix on failure. *)
Lemma write_loop_spec fuel m a p t :
  (length p <= fuel)%nat → 0 <= a → a + Z.of_nat (length p) <= 8192 → is_bytes p → resting m (at_core t) →
  let '(r, t') := write_loop dev fuel a p t in
  ∃ k, (k <= length p)%nat ∧ (r = false → k = length p) ∧ resting (memcpy m (Z.to_nat a) (take k p)) (at_core t').
Proof.
  revert m a p t. induction fuel as [|fuel IH]; intros m a p t Hf Ha Hr Hb Hm.
  { destruct p; [|simpl in Hf; lia]. by exists 0%nat. }
  destruct p as [|b p]; [by exists 0%nat|]. cbn [write_loop].
  destruct (page_room a (b :: p) ltac:(done)) as (Hn & Hpage & Hne). revert Hn Hpage Hne.
  set (q := b :: p) in *. generalize (if bool_decide (32 - (a .& 31) > Z.of_nat (length q)) then length q else Z.to_nat (32 - (a .& 31))).
  clearbody q. intros n Hn Hpage Hne.
  pose proof (write_chunk_spec m a (take n q) t ltac:(lia) Hne ltac:(by apply Forall_take)) as Hc.
  rewrite length_take, Nat.min_l in Hc by lia. specialize (Hc Hpage Hm).
  destruct (write_chunk dev a (take n q) t) as [r t1]. destruct Hc as (k & Hk & Hdone & Hc).
  rewrite take_take, Nat.min_l in Hc by lia. destruct r; [exists k; split; [lia|done]|].
  specialize (Hdone eq_refl). subst k.
  assert (u16 (a + Z.of_nat n) = a + Z.of_nat n) as -> by (apply u16_small; unfold in_bits; lia).
  specialize (IH (memcpy m (Z.to_nat a) (take n q)) (a + Z.of_nat n) (drop n q) t1). rewrite length_drop in IH.
  specialize (IH ltac:(lia) ltac:(lia) ltac:(lia) ltac:(by apply Forall_drop) Hc).
  destruct (write_loop dev fuel (a + Z.of_nat n) (drop n q) t1) as [r t2].
  destruct IH as (k & Hk' & Hdone & E). exists (n + k)%nat. split; [lia|]. split; [intros ?; specialize (Hdone ltac:(done)); lia|].
  replace (Z.to_nat (a + Z.of_nat n)) with (Z.to_nat a + n)%nat in E by lia.
  by rewrite <-(take_take_drop q n k), memcpy_app, length_take, Nat.min_l by lia.
Qed.

(** ** Sane hardware *)
Lemma page_write_ok n m a ds : bytes_n n m → is_bytes ds → bytes_n n (page_write m a ds).
Proof.
  intros Hm Hds. unfold page_write. generalize 0. revert m Hm.
  induction Hds as [|d ds Hd Hds IH]; intros m [Hl Hb] i; [done|]. cbn [foldl]. apply IH.
  split; [by rewrite length_insert|]. by apply Forall_insert.
Qed.

Lemma land_byte v : is_u8 (v .& 0xff).
Proof. change 0xff with (Z.ones 8). rewrite Z.land_ones by lia. by apply Z.mod_pos_bound. Qed.

Definition chip_ok (d : chip) : Prop :=
  bytes_n (Z.to_nat 8192) (mem d) ∧ match xfer d with Writing bs => is_bytes bs | _ => True end.

Lemma chip_stop_ok d : chip_ok d → chip_ok (chip_stop d).
Proof.
  intros [Hm Hx]. unfold chip_stop. destruct (xfer d) as [|[|hi [|lo ds]]|]; [done..| |done].
  split; [|done]. apply page_write_ok; [done|]. by do 2 apply Forall_cons in Hx as [_ Hx].
Qed.
Lemma broken_off_ok stop d : chip_ok d → chip_ok (broken_off stop d).
Proof. intros Hd. destruct stop; [by apply chip_stop_ok|]. by destruct Hd. Qed.
Lemma chip_byte_ok w d : chip_ok d → chip_ok (chip_byte w d).
Proof.
  intros [Hm Hx]. unfold chip_byte. destruct (Z.testbit w 8).
  - destruct (Z.testbit w 0); [|split; [done|constructor]]. by destruct (xfer d) as [|[|? [|? [|? ?]]]|].
  - destruct (xfer d) as [|bs|] eqn:E; [by split; rewrite ?E| |by split; rewrite ?E].
    split; [done|]. apply Forall_app_2; [done|]. apply Forall_singleton, land_byte.
Qed.

Lemma core_ok_act c a : chip_ok (memchip c) → chip_ok (memchip (act_step c a)).
Proof.
  intros Hc. destruct a as [|o|]; cbn [act_step]; [|destruct (shifting c) as [w|]|done].
  - unfold take_word. destruct (_ || _ || _ || _); [done|]. destruct (tx c); [done|]. by destruct (cmode c).
  - unfold shift_word. destruct o; [|by apply broken_off_ok..]. destruct (_ || _); [|by apply (broken_off_ok false)].
    unfold deliver. cbn [snd]. apply (chip_byte_ok w) in Hc. destruct (Z.testbit w 9); [by apply chip_stop_ok|done].
  - destruct (receiving c) as [|k]; [done|]. unfold receive_byte. case_bool_decide; [done|].
    destruct Hc as [Hm _]. destruct o; split; try done; by case_bool_decide.
Qed.

Lemma memory_ok t : bytes_n (Z.to_nat 8192) (mem (memchip (at_core t))).
Proof.
  enough (chip_ok (memchip (at_core t))) as [? _] by done.
  induction t as [|e t IH]; cbn [core_at]; apply stable_run; try (intros c a; apply core_ok_act).
  { split; [apply initial_ok|done]. }
  destruct e as [a v|a v|a v|a v|n]; cbn [access]; repeat case_bool_decide; try done.
  - unfold push_word. by destruct (_ || _).
  - by apply broken_off_ok.
Qed.

(** ** Reading *)

(** The words of a read: the address, a select for reading, the number of
    bytes with a STOP after them. *)
Definition read_script (hi lo : Z) (rest : list Z) : list Z := [0x1a0; hi; lo; 0x1a1] ++ rest.

Lemma delivered_last c0 ws w : plain w → fst (delivered c0 (ws ++ [w])) ≠ Asking.
Proof.
  intros Hw. unfold delivered. rewrite foldl_app. cbn [foldl]. unfold deliver. rewrite Hw. by destruct (Z.testbit w 9).
Qed.

Lemma delivered_select c0 hi lo :
  is_u8 hi → is_u8 lo →
  delivered c0 (read_script hi lo []) = (Asking, Chip (mem c0) (chip_address hi lo) Reading).
Proof.
  intros Hhi Hlo. pose proof (delivered_script c0 hi lo [] Hhi Hlo ltac:(done)) as E. unfold read_script, delivered in *.
  cbn [app] in *. change [0x1a0; hi; lo; 0x1a1] with ([0x1a0; hi; lo] ++ [0x1a1]). rewrite foldl_app, E. done.
Qed.

(** Only the select for reading makes the core ask for a number. *)
Lemma asking_done c0 hi lo rest done tail :
  is_u8 hi → is_u8 lo → Forall plain rest → read_script hi lo rest = done ++ tail →
  fst (delivered c0 done) = Asking → done = read_script hi lo [] ∧ tail = rest.
Proof.
  intros Hhi%byte_plain Hlo%byte_plain Hrest E Ha. unfold read_script in *.
  destruct done as [|w1 done]; [done|]. cbn [app] in E. injection E as <- E.
  destruct done as [|w2 done]; [done|]. injection E as <- E.
  destruct done as [|w3 done]; [by destruct (delivered_last c0 [0x1a0] hi)|]. injection E as <- E.
  destruct done as [|w4 done]; [by destruct (delivered_last c0 [0x1a0; hi] lo)|]. injection E as <- E.
  destruct done as [|w done _] using rev_ind; [done|]. exfalso. subst rest.
  apply Forall_app in Hrest as [[_ Hw]%Forall_app _]. apply Forall_cons in Hw as [Hw _].
  revert Ha. change (0x1a0 :: hi :: lo :: 0x1a1 :: done ++ [w]) with ((0x1a0 :: hi :: lo :: 0x1a1 :: done) ++ [w]).
  by apply delivered_last.
Qed.

(** Cut off anywhere, a read changes nothing. *)
Lemma read_cut c0 hi lo n done m :
  is_u8 hi → is_u8 lo → (n <= 16)%nat → xfer c0 = NoTransfer →
  done `prefix_of` read_script hi lo [0x200 .| Z.of_nat n] → cut_off c0 done m → m = mem c0.
Proof.
  intros Hhi Hlo Hn Hx [tail E]. unfold read_script in E.
  destruct done as [|w1 done]; [intros [->| ->]; [done|]; unfold chip_stop; cbn; by rewrite Hx|].
  cbn [app] in E. injection E as <- E. destruct done as [|w2 done]; [by intros [->| ->]|]. injection E as <- E.
  destruct done as [|w3 done].
  { unfold cut_off. change (delivered c0 [0x1a0; hi]) with (foldl deliver (Sending, Chip (mem c0) (ptr c0) (Writing [])) [hi]).
    rewrite (delivered_bytes (Chip (mem c0) (ptr c0) (Writing [])) [hi] []) by (done || by apply Forall_singleton).
    by intros [->| ->]. }
  injection E as <- E. destruct done as [|w4 done].
  { unfold cut_off. change [0x1a0; hi; lo] with ([0x1a0; hi; lo] ++ []). rewrite delivered_script by done. by intros [->| ->]. }
  injection E as <- E. destruct done as [|w5 done].
  { unfold cut_off. change [0x1a0; hi; lo; 0x1a1] with (read_script hi lo []). rewrite delivered_select by done. by intros [->| ->]. }
  injection E as <- E. symmetry in E. apply app_eq_nil in E as [-> ->].
  unfold cut_off. change [0x1a0; hi; lo; 0x1a1; 0x200 .| Z.of_nat n] with (read_script hi lo [] ++ [0x200 .| Z.of_nat n]).
  unfold delivered. rewrite foldl_app. fold (delivered c0 (read_script hi lo [])). rewrite delivered_select by done.
  do 17 (destruct n as [|n]; [by intros [->| ->]|]). lia.
Qed.

(** The words were taken: [i] bytes were picked up, those in the queue follow
    in the memory, the rest is still to come.  After lost arbitration nothing
    comes any more. *)
Definition incoming (m : list Z) (a n i : nat) (c : core) : Prop :=
  tx c = [] ∧ shifting c = None ∧ cmode c = Free ∧ mem (memchip c) = m ∧
  (receiving c = 0%nat → xfer (memchip c) = NoTransfer) ∧
  if lost c then receiving c = 0%nat
  else rx c = sub m (a + i) (length (rx c)) ∧ (i + length (rx c) + receiving c = n)%nat ∧
    (receiving c ≠ 0%nat → xfer (memchip c) = Reading ∧ ptr (memchip c) = Z.of_nat (a + i + length (rx c))).

Lemma sub_snoc (m : list Z) p n : (p + n < length m)%nat → sub m p n ++ [m !!! (p + n)%nat] = sub m p (S n).
Proof.
  intros Hl. replace (S n) with (n + 1)%nat by lia. rewrite sub_app. f_equal. unfold sub.
  rewrite (drop_S m (m !!! (p + n)%nat) (p + n)) by (by apply lookup_total_alt_lt). done.
Qed.

Lemma incoming_stable m a n i : length m = Z.to_nat 8192 → (a + n <= Z.to_nat 8192)%nat → stable (incoming m a n i).
Proof.
  intros Hm Hr c act (Ht & Hs & Hc & Hmem & Hz & Hi). destruct act as [|o|]; cbn [act_step]; [| |done].
  { unfold take_word. rewrite Ht. by destruct (_ || _ || _ || _). }
  rewrite Hs. destruct (receiving c) as [|k] eqn:Er; [unfold incoming; by rewrite Er|]. unfold receive_byte.
  case_bool_decide; [unfold incoming; by rewrite Er|]. destruct (lost c) eqn:El; [done|].
  destruct Hi as (Hx & Hn & [Hxf Hp]); [done|].
  assert (∀ nk, incoming m a n i (Core (enabled c) (held c) (tx c) None Free k
    (rx c ++ [mem (memchip c) !!! Z.to_nat (ptr (memchip c))]) false nk (cycle c) (Chip (mem (memchip c))
    ((ptr (memchip c) + 1) `mod` 8192) (if bool_decide (k = 0%nat) then NoTransfer else Reading)))) as Hnext.
  { intros nk. unfold incoming. cbn [tx shifting cmode memchip mem receiving rx lost xfer ptr].
    do 4 (split; [done|]). split; [by intros ->|].
    rewrite Hmem, Hp, Nat2Z.id, length_app. cbn [length]. split; [|split; [lia|]].
    - rewrite Hx at 1. rewrite sub_snoc by lia. f_equal. lia.
    - intros Hk. rewrite bool_decide_false by done. split; [done|]. rewrite Z.mod_small by lia. lia. }
  destruct o as [|stop|stop g]; [apply Hnext..|]. unfold incoming. cbn. by split_and!.
Qed.

(** The script of a read is under way, given up, or its bytes come in. *)
Definition fetching (c0 : chip) (a : Z) (n i : nat) (c : core) : Prop :=
  incoming (mem c0) (Z.to_nat a) n i c ∨
  i = 0%nat ∧ on_wire c0 (read_script (a >>. 8) (a .& 255) [0x200 .| Z.of_nat n]) c.

(** A read of [n] bytes at [a] from an idle chip. *)
Definition readable (c0 : chip) (a : Z) (n : nat) : Prop :=
  xfer c0 = NoTransfer ∧ length (mem c0) = Z.to_nat 8192 ∧ 0 <= a ∧ a + Z.of_nat n <= 8192 ∧ (0 < n <= 16)%nat.

Lemma count_word n : (n <= 16)%nat →
  u32 (0x200 .| Z.of_nat n) .& 0x3ff = 0x200 .| Z.of_nat n ∧ plain (0x200 .| Z.of_nat n) ∧
  Z.to_nat ((0x200 .| Z.of_nat n) .& 0xff) = n.
Proof. intros Hn. do 17 (destruct n as [|n]; [done|]). lia. Qed.

Lemma fetching_stable c0 a n i : readable c0 a n → stable (fetching c0 a n i).
Proof.
  intros (Hx & Hl & Ha & Hr & Hn) c act [Hc|[-> [U|G]]].
  - left. apply incoming_stable; [done|lia|done].
  - destruct (address_bytes a ltac:(lia)) as (H1 & H2 & _). destruct (count_word n ltac:(lia)) as (_ & Hpl & En).
    destruct (under_way_act c0 _ c act U) as [?|[?|(Hm & Hs & -> & w & rest & Et & ->)]];
      [right; split; [done|by left]|right; split; [done|by right]|].
    left. destruct U as (_ & _ & _ & _ & _ & done & Ew & Ec). rewrite Hs, Et in Ew. cbn [option_list app] in Ew.
    destruct (asking_done c0 _ _ _ _ _ H1 H2 ltac:(by apply Forall_singleton) Ew) as [-> [= -> ->]]; [by rewrite <-Ec|].
    rewrite delivered_select, chip_address_bytes in Ec by (done || lia). injection Ec as _ ->.
    unfold incoming. rewrite En. cbn [tx shifting cmode memchip mem receiving rx lost xfer ptr length].
    do 4 (split; [done|]). split; [lia|]. split; [by unfold sub; rewrite take_0|]. split; [lia|]. intros _. split; [done|lia].
  - right. split; [done|]. right. by apply given_up_stable.
Qed.

(** Before the number of bytes is queued nothing comes in. *)
Lemma select_stable c0 hi lo : is_u8 hi → is_u8 lo → stable (on_wire c0 (read_script hi lo [])).
Proof.
  intros Hhi Hlo c a [U|G]; [|right; by apply given_up_stable].
  destruct (under_way_act c0 _ c a U) as [?|[?|(Hm & Hs & -> & w & rest & Et & _)]]; [by left|by right|]. exfalso.
  destruct U as (_ & _ & _ & _ & _ & done & Ew & Ec). rewrite Hs, Et in Ew. cbn [option_list app] in Ew.
  destruct (asking_done c0 _ _ _ _ _ Hhi Hlo ltac:(done) Ew) as [_ ?]; [by rewrite <-Ec|done].
Qed.

(** Any word queued, for a property that holds with it. *)
Lemma on_wire_next (I : core → Prop) c0 ws v t :
  stable I → (∀ c, on_wire c0 (ws ++ [u32 v .& 0x3ff]) c → I c) → (length ws < 16)%nat → on_wire c0 ws (at_core t) →
  I (at_core (wr 0x108 v t)).
Proof.
  intros HI Hi Hl Hw. pose proof (on_wire_room _ _ _ Hw) as Hlen. rewrite wr_at. apply stable_run; [done|].
  cbn [access]. rewrite bool_decide_true by done. apply Hi.
  destruct Hw; [left; apply under_way_push; [lia|done]|right; by apply given_up_push].
Qed.

Lemma read_begins c0 a n t :
  readable c0 a n → on_wire c0 [0x1a0; a >>. 8; a .& 255] (at_core t) →
  fetching c0 a n 0 (at_core (wr 0x108 (0x200 .| Z.of_nat n) (wr 0x108 0x1a1 t))).
Proof.
  intros Hc Hw. pose proof Hc as (Hx & Hl & Ha & Hr & Hn). destruct (address_bytes a ltac:(lia)) as (H1 & H2 & _).
  destruct (count_word n ltac:(lia)) as (E & _).
  apply (on_wire_next _ c0 (read_script (a >>. 8) (a .& 255) [])); [by apply fetching_stable| |simpl; lia|].
  - intros c Hw'. right. split; [done|]. by rewrite E in Hw'.
  - apply (on_wire_next _ c0 [0x1a0; a >>. 8; a .& 255]); [by apply select_stable|done|simpl; lia|done].
Qed.

(** What the core keeps: the bytes that came, and that arbitration was lost. *)
Lemma rx_stable : stable (λ c, rx c ≠ []).
Proof.
  intros c a Hc. destruct a as [|o|]; cbn [act_step]; [|destruct (shifting c) as [w|]|done].
  - unfold take_word. destruct (_ || _ || _ || _); [done|]. destruct (tx c); [done|]. by destruct (cmode c).
  - unfold shift_word. destruct o; [|done..]. destruct (_ || _); [|done]. by destruct (deliver (cmode c, memchip c) w).
  - destruct (receiving c) as [|k]; [done|]. unfold receive_byte. case_bool_decide; [done|].
    destruct o; cbn [rx]; intros [_ ?]%app_eq_nil; done.
Qed.
Lemma lost_stable (Q : Prop) : stable (λ c, lost c = false → Q).
Proof.
  intros c a Hc. destruct a as [|o|]; cbn [act_step]; [|destruct (shifting c) as [w|]|done].
  - unfold take_word. destruct (_ || _ || _ || _); [done|]. destruct (tx c); [done|]. by destruct (cmode c).
  - unfold shift_word. destruct o; [|cbn [lost]; intros [? _]%orb_false_elim; auto..].
    destruct (_ || _); [|cbn [lost]; intros [? _]%orb_false_elim; auto]. by destruct (deliver (cmode c, memchip c) w).
  - destruct (receiving c) as [|k]; [done|]. unfold receive_byte. case_bool_decide; [done|]. by destruct o.
Qed.

(** A reset in a read leaves the memory. *)
Lemma reset_fetching c0 a n i t :
  readable c0 a n → fetching c0 a n i (at_core t) → listening (mem c0) (at_core (reset t)).
Proof.
  intros (Hx & Hl & Ha & Hr & Hn) [(_ & _ & _ & Em & Hz & Hi)|[_ Hw]].
  - destruct (reset_settles t) as (m & Hls & [Hm|Hm]); [by rewrite <-Em, <-Hm|]. rewrite <-Em.
    assert (m = mem (memchip (at_core t))) as <-; [|done]. rewrite Hm. unfold chip_stop.
    destruct (decide (receiving (at_core t) = 0%nat)) as [E|E]; [by rewrite (Hz E)|].
    destruct (lost (at_core t)); [done|]. destruct Hi as (_ & _ & Hi). by rewrite (proj1 (Hi E)).
  - destruct (address_bytes a ltac:(lia)) as (H1 & H2 & _).
    destruct (reset_on_wire c0 _ t Hw) as (m & done & Hd & Hc & Hls).
    by rewrite (read_cut c0 _ _ n done m H1 H2 ltac:(lia) Hx Hd Hc) in Hls.
Qed.

(** The oldest byte is picked up. *)
Lemma incoming_pop m a n i c b bs :
  incoming m a n i c → rx c = b :: bs → length m = Z.to_nat 8192 → (a + n <= Z.to_nat 8192)%nat →
  incoming m a n (S i) (pop_byte c) ∧ (lost c = false → b = m !!! (a + i)%nat ∧ (i < n)%nat).
Proof.
  intros (Ht & Hs & Hc & Hmem & Hz & Hi) Ex Hl Hr. unfold incoming, pop_byte.
  cbn [tx shifting cmode memchip mem receiving rx lost xfer ptr]. rewrite Ex in *. cbn [tail length] in *.
  destruct (lost c); [by split_and!|]. destruct Hi as (Hx & Hn & Hp).
  unfold sub in Hx. rewrite (drop_S m (m !!! (a + i)%nat) (a + i)) in Hx by (apply lookup_total_alt_lt; lia).
  cbn [take] in Hx. injection Hx as Hb Hbs. split; [|intros _; split; [done|lia]].
  do 4 (split; [done|]). split; [done|]. split; [|split; [lia|intros Hk; destruct (Hp Hk) as [? ->]; split; [done|lia]]].
  unfold sub. by replace (a + S i)%nat with (S (a + i)) by lia.
Qed.

Lemma read_bytes_spec c0 a n i j (Q : Prop) t :
  readable c0 a n → is_bytes (mem c0) → (i + j = n)%nat → fetching c0 a n i (at_core t) → (lost (at_core t) = false → Q) →
  let '(b, t') := read_bytes dev j t in
  match b with
  | None => listening (mem c0) (at_core t')
  | Some l => fetching c0 a n n (at_core t') ∧ (lost (at_core t') = false → Q ∧ l = sub (mem c0) (Z.to_nat a + i) j)
  end.
Proof.
  intros Hrd Hbytes. pose proof Hrd as (Hx0 & Hlen & Ha & Hr & Hn).
  revert i Q t. induction j as [|j IH]; intros i Q t Hij Hf HQ; cbn [read_bytes].
  { replace i with n in Hf |- * by lia. split; [done|]. intros Hl. split; [by apply HQ|]. unfold sub. by rewrite take_0. }
  pose proof (wait_keeps (λ c, fetching c0 a n i c ∧ (lost c = false → Q)) (λ c, rx c ≠ []) 0x40 0 t) as Hk.
  ospecialize* Hk; [|apply rx_stable| |done|].
  { intros c act [H1 H2]. split; [by apply fetching_stable|by apply lost_stable]. }
  { intros t0 _ E%(masked_clear _ 6); [|lia]. by apply received_true. }
  destruct (wait_status dev 0x40 0 t) as [r t1]. destruct Hk as [[Hf1 HQ1] Hx]. destruct r; [by eapply reset_fetching|].
  specialize (Hx eq_refl). destruct (rx (at_core t1)) as [|b bs] eqn:Ex; [done|]. clear Hx.
  assert (incoming (mem c0) (Z.to_nat a) n i (at_core t1)) as Hin.
  { destruct Hf1 as [?|[_ [(_ & _ & _ & _ & Ex' & _)|(_ & _ & Ex' & _)]]]; [done|congruence..]. }
  pose proof (byte_true t1 b bs Ex) as Eb.
  destruct (incoming_pop _ _ _ _ _ b bs Hin Ex Hlen ltac:(lia)) as [Hpop Hb].
  destruct (rd dev 0x10c t1) as [v t2] eqn:E. cbn [rd Xil_In32] in E. injection E as Ev Et.
  assert (at_core t2 = run (work env t2) (pop_byte (at_core t1))) as E2 by (by rewrite <-Et).
  assert (fetching c0 a n (S i) (at_core t2)) as Hf2.
  { rewrite E2. apply stable_run; [by apply fetching_stable|by left]. }
  assert (lost (at_core t2) = false → Q ∧ u8 v = mem c0 !!! (Z.to_nat a + i)%nat) as HQ2.
  { rewrite E2. apply (stable_run (λ c, lost c = false → Q ∧ u8 v = mem c0 !!! (Z.to_nat a + i)%nat)); [apply lost_stable|].
    cbn [pop_byte lost]. intros Hl. split; [by apply HQ1|]. rewrite <-Ev, Eb. destruct (Hb Hl) as [-> _].
    pose proof (is_bytes_lookup (mem c0) (Z.to_nat a + i) Hbytes) as Hu. rewrite u32_small by (unfold in_bits in *; lia).
    by apply u8_small. }
  specialize (IH (S i) _ t2 ltac:(lia) Hf2 HQ2). destruct (read_bytes dev j t2) as [rest t3].
  destruct rest as [l|]; [|done]. cbn [fmap option_fmap option_map]. destruct IH as [Hf3 Hl3]. split; [done|].
  intros Hl. destruct (Hl3 Hl) as [[HQ3 Eu] ->]. split; [done|]. rewrite Eu. unfold sub.
  rewrite (drop_S (mem c0) (mem c0 !!! (Z.to_nat a + i)%nat) (Z.to_nat a + i)) by (apply lookup_total_alt_lt; lia).
  by replace (Z.to_nat a + S i)%nat with (S (Z.to_nat a + i)) by lia.
Qed.

(** Once all bytes are picked up nothing is on its way. *)
Lemma fetched_resting c0 a n c : readable c0 a n → fetching c0 a n n c → resting (mem c0) c.
Proof.
  intros (_ & _ & _ & _ & Hn) [(Ht & Hs & Hc & Hmem & Hz & Hi)|[? _]]; [|lia].
  assert (receiving c = 0%nat) as Er by (destruct (lost c); [done|lia]).
  split; [|done]. split; [done|]. by apply Hz.
Qed.

Lemma read_chunk_spec m a n t :
  bytes_n (Z.to_nat 8192) m → 0 <= a → a + Z.of_nat n <= 8192 → (0 < n <= 16)%nat → resting m (at_core t) →
  let '(b, t') := read_chunk dev a n t in
  resting m (at_core t') ∧ ∀ l, b = Some l → l = sub m (Z.to_nat a) n.
Proof.
  intros [Hlen Hb] Ha Hr Hn Hm. unfold read_chunk. pose proof (start_spec m a t ltac:(lia) Hm) as Hs.
  destruct (start dev a t) as [r t1]. destruct r; [done|]. destruct Hs as (c0 & <- & Hx & Hw).
  assert (readable c0 a n) as Hrd by done. apply (read_begins c0 a n) in Hw; [|done]. revert Hw.
  generalize (wr 0x108 (0x200 .| Z.of_nat n) (wr 0x108 0x1a1 t1)). intros t2 Hf.
  pose proof (read_bytes_spec c0 a n 0 n True t2 Hrd Hb ltac:(lia) Hf ltac:(done)) as Hrb.
  destruct (read_bytes dev n t2) as [b t3]. destruct b as [b|]; [|by destruct Hrb].
  destruct Hrb as [Hf3 Hl3]. rewrite Nat.add_0_r in Hl3.
  pose proof (wait_keeps (λ c, fetching c0 a n n c ∧ (lost c = false → True ∧ b = sub (mem c0) (Z.to_nat a) n)) (λ _, True) 4 0 t3)
    as Hk.
  ospecialize* Hk; [|done..|].
  { intros c act [H1 H2]. split; [by apply fetching_stable|by apply lost_stable]. }
  destruct (wait_status dev 4 0 t3) as [r t4]. destruct Hk as [[Hf4 Hl4] _].
  destruct r; [split; [|done]; apply (reset_fetching c0 a n n t4 Hrd Hf4)|].
  pose proof (rd_keeps _ 0x20 t4 ltac:(done) (fetching_stable c0 a n n Hrd) Hf4) as Hf5.
  pose proof (lost_shown t4) as El. destruct (rd dev 0x20 t4) as [v t5] eqn:E. cbn [snd] in Hf5.
  assert (v = u32 (dev t4 (IIC + 0x20))) as -> by (by injection E).
  case_bool_decide as Hv; [split; [|done]; apply (reset_fetching c0 a n n t5 Hrd Hf5)|].
  split; [by eapply fetched_resting|]. intros l [= <-]. apply (masked_clear _ 0) in Hv; [|lia].
  by apply Hl4; rewrite <-El.
Qed.

Lemma read_loop_spec fuel m a size t :
  (size <= fuel)%nat → 0 <= a → a + Z.of_nat size <= 8192 → bytes_n (Z.to_nat 8192) m → resting m (at_core t) →
  let '(b, t') := read_loop dev fuel a size t in
  resting m (at_core t') ∧ ∀ l, b = Some l → l = sub m (Z.to_nat a) size.
Proof.
  revert a size t. induction fuel as [|fuel IH]; intros a size t Hf Ha Hr Hm Ht.
  { destruct size; [|lia]. split; [done|]. intros l [= <-]. unfold sub. by rewrite take_0. }
  destruct size as [|size]; [split; [done|]; intros l [= <-]; unfold sub; by rewrite take_0|].
  cbn [read_loop]. set (sz := S size) in *. assert (0 < sz)%nat as Hsz by lia.
  set (n := if bool_decide (16 < sz)%nat then 16%nat else sz).
  assert ((0 < n <= sz)%nat ∧ (n <= 16)%nat) as [Hn H16] by (unfold n; case_bool_decide; lia).
  clearbody n sz. pose proof (read_chunk_spec m a n t Hm Ha ltac:(lia) ltac:(lia) Ht) as Hc.
  destruct (read_chunk dev a n t) as [b t1]. destruct Hc as [E1 H1]. destruct b as [b|]; [|done].
  assert (u16 (a + Z.of_nat n) = a + Z.of_nat n) as -> by (apply u16_small; unfold in_bits; lia).
  specialize (IH (a + Z.of_nat n) (sz - n)%nat t1 ltac:(lia) ltac:(lia) ltac:(lia) Hm E1).
  destruct (read_loop dev fuel (a + Z.of_nat n) (sz - n) t1) as [rest t2]. destruct IH as [E2 H2].
  split; [done|]. intros l. destruct rest as [rest|]; [|done]. intros [= <-].
  rewrite (H1 b eq_refl), (H2 rest eq_refl).
  replace (Z.to_nat (a + Z.of_nat n)) with (Z.to_nat a + n)%nat by lia. rewrite <-sub_app. f_equal. lia.
Qed.
End proofs.

(** ** The driver as a settings store *)
Definition eeprom_store (dev : device) : Store trace := {|
  store_read a n t := eeprom_read dev a n t;
  store_write a src t := let '(failed, t) := eeprom_write dev a src t in (negb failed, t);
|}.

Section store.
Context {dev : device} `{EepromBus dev}.

(** What the chip holds after a history, and that it and the core rest. *)
Definition memory (t : trace) : list Z := mem (memchip (core_at env t)).
Definition quiet (t : trace) : Prop := settled (core_at env t).

Lemma eeprom_read_spec a n t :
  0 <= a → a + Z.of_nat n <= 8192 → quiet t →
  let '(b, t') := eeprom_read dev a n t in
  quiet t' ∧ memory t' = memory t ∧ ∀ l, b = Some l → l = sub (memory t) (Z.to_nat a) n.
Proof.
  intros Ha Hr Hq. unfold eeprom_read.
  rewrite bool_decide_false by (rewrite u32_small by (unfold in_bits; lia); lia).
  pose proof (read_loop_spec n (memory t) a n t ltac:(done) Ha Hr (memory_ok t) (conj Hq eq_refl)) as Hs.
  destruct (read_loop dev n a n t) as [b t']. by destruct Hs as [[? ?] ?].
Qed.

Lemma eeprom_write_spec a p t :
  0x1000 <= a → a + Z.of_nat (length p) <= 0x1400 → is_bytes p → quiet t →
  let '(r, t') := eeprom_write dev a p t in
  quiet t' ∧ ∃ k, (k <= length p)%nat ∧ (r = false → k = length p) ∧
    memory t' = memcpy (memory t) (Z.to_nat a) (take k p).
Proof.
  intros Ha Hr Hp Hq. unfold eeprom_write, SETTINGS_SLOT0, SETTINGS_SLOT1.
  rewrite bool_decide_false by lia. change (0x1200 + Z.of_nat SETTINGS_SLOT_SIZE) with 0x1400.
  rewrite bool_decide_false by (rewrite u32_small by (unfold in_bits; lia); lia). cbn [orb].
  pose proof (write_loop_spec (length p) (memory t) a p t ltac:(done) ltac:(lia) ltac:(lia) Hp (conj Hq eq_refl)) as Hs.
  destruct (write_loop dev (length p) a p t) as [r t']. destruct Hs as (k & Hk & Hdone & [Hq' Hm]). eauto.
Qed.

(** A prefix of a write is what a failed write may leave. *)
Lemma prefix_partial (m : list Z) a p k :
  (k <= length p)%nat → partial_write a p m (memcpy m a (take k p)).
Proof.
  intros Hk. split; [apply length_memcpy|]. split.
  - intros i Hi. unfold memcpy. destruct Hi; [by rewrite list_lookup_inserts_lt by lia|].
    rewrite list_lookup_inserts_ge; [done|]. rewrite length_take. lia.
  - intros H1. destruct k as [|k]; [by left|right]. rewrite take_ge by lia. done.
Qed.
End store.

(** ** Boards at rest

    The histories after which a decidable [I] holds, as a device: an access
    in range that keeps [I] is the driver's. *)
Section board.
Context (dev : device) `{EepromBus dev} (I : trace → Prop) `{∀ t, Decision (I t)}.

Definition board : Type := {t | I t}.
Definition board_next (d : board) (t : trace) : board :=
  match decide (I t) with left p => exist _ t p | right _ => d end.
Definition board_write_ok (a : Z) (src : list Z) : Prop :=
  0x1000 <= a ∧ a + Z.of_nat (length src) <= 0x1400 ∧ is_bytes src.
#[global] Instance board_store : Store board := {|
  store_read a n d := let '(b, t) := eeprom_read dev a n (`d) in (b, board_next d t);
  store_write a src d :=
    if decide (board_write_ok a src) then let '(failed, t) := eeprom_write dev a src (`d) in (negb failed, board_next d t)
    else (true, d);
|}.

Context (I_quiet : ∀ t, I t → quiet t).
Context (I_read : ∀ a n t, 0 <= a → a + Z.of_nat n <= 8192 → I t → I (snd (eeprom_read dev a n t))).
Context (I_write : ∀ a src t, board_write_ok a src → I t → I (snd (eeprom_write dev a src t))).

Lemma board_next_ok d t : I t → proj1_sig (board_next d t) = t.
Proof. intros Ht. unfold board_next. by destruct (decide (I t)). Qed.

Lemma board_laws : StoreLaws board.
Proof.
  refine {| contents d := memory (`d) |}.
  - intros [t Ht]. destruct (memory_ok t) as [Hl _]. unfold memory. cbn [proj1_sig]. rewrite Hl. lia.
  - intros a n [t Ht] Ha Hr. cbn [store_read board_store proj1_sig].
    pose proof (eeprom_read_spec a n t Ha Hr (I_quiet t Ht)) as Hs. pose proof (I_read a n t Ha Hr Ht) as Hn.
    destruct (eeprom_read dev a n t) as [b t']. cbn [snd] in *. rewrite board_next_ok by done. apply Hs.
  - intros a n [t Ht] b Ha Hr. cbn [store_read board_store proj1_sig].
    pose proof (eeprom_read_spec a n t Ha Hr (I_quiet t Ht)) as Hs.
    destruct (eeprom_read dev a n t) as [r t']. cbn [fst]. intros ->. by apply Hs.
  - intros a p [t Ht] Ha Hr Hp. cbn [store_write board_store proj1_sig]. rewrite decide_True by done.
    pose proof (eeprom_write_spec a p t Ha Hr Hp (I_quiet t Ht)) as Hs.
    pose proof (I_write a p t ltac:(done) Ht) as Hn. destruct (eeprom_write dev a p t) as [[] t']; [done|].
    intros _. destruct Hs as (_ & k & _ & Hk & E). cbn [snd] in *. rewrite board_next_ok by done.
    by rewrite E, (Hk eq_refl), take_ge.
  - intros a p [t Ht] Ha Hr Hp. cbn [store_write board_store proj1_sig]. rewrite decide_True by done.
    pose proof (eeprom_write_spec a p t Ha Hr Hp (I_quiet t Ht)) as Hs.
    pose proof (I_write a p t ltac:(done) Ht) as Hn. destruct (eeprom_write dev a p t) as [[] t']; [|done].
    intros _. destruct Hs as (_ & k & Hk & _ & E). cbn [snd] in *. rewrite board_next_ok by done. rewrite E.
    by apply prefix_partial.
Defined.

(** The board answers as the driver does. *)
Definition on_board (d : board) (t : trace) : Prop := `d = t.

Lemma board_read_alike a n d t :
  0 <= a → a + Z.of_nat n <= 8192 → on_board d t →
  alike on_board (store_read a n d) (eeprom_read dev a n t).
Proof.
  intros Ha Hr <-. destruct d as [t Ht]. cbn [store_read board_store proj1_sig].
  pose proof (I_read a n t Ha Hr Ht) as Hn. destruct (eeprom_read dev a n t) as [b t']. split; [done|]. by apply board_next_ok.
Qed.
Lemma board_write_alike a src d t :
  0x1000 <= a → a + Z.of_nat (length src) <= 0x1400 → is_bytes src → on_board d t →
  alike on_board (store_write a src d) (let '(failed, t) := eeprom_write dev a src t in (negb failed, t)).
Proof.
  intros Ha Hr Hb <-. destruct d as [t Ht]. cbn [store_write board_store proj1_sig]. rewrite decide_True by done.
  pose proof (I_write a src t ltac:(done) Ht) as Hn. destruct (eeprom_write dev a src t) as [failed t'].
  split; [done|]. by apply board_next_ok.
Qed.
End board.

(** ** Saves at rest *)
Section saves.
Context {dev : device} `{EepromBus dev}.

Lemma quiet_read a n t : 0 <= a → a + Z.of_nat n <= 8192 → quiet t → quiet (snd (eeprom_read dev a n t)).
Proof.
  intros Ha Hr Hq. pose proof (eeprom_read_spec a n t Ha Hr Hq) as Hs. by destruct (eeprom_read dev a n t) as [b t'], Hs.
Qed.
Lemma quiet_write a src t : board_write_ok a src → quiet t → quiet (snd (eeprom_write dev a src t)).
Proof.
  intros (Ha & Hr & Hb) Hq. pose proof (eeprom_write_spec a src t Ha Hr Hb Hq) as Hs.
  by destruct (eeprom_write dev a src t) as [r t'], Hs.
Qed.
Lemma quiet_start : quiet [].
Proof.
  apply (stable_run settled); [|done]. apply stable_rest; [by intros c [? _]|].
  intros c c' (_ & _ & Et & Es & Em & Er & _ & _ & _ & Ed)%same_core_fields. unfold settled, at_rest.
  by rewrite Et, Es, Em, Er, Ed.
Qed.

#[local] Instance quiet_dec t : Decision (quiet t) := settled_dec _.

Lemma eeprom_save_step s t :
  settings_ok s → quiet t →
  let '(rc, t') := settings_save (H := eeprom_store dev) s t in
  quiet t' ∧ save_step s (stored (memory t)) rc (stored (memory t')) ∧
  frame (target_slot (memory t)) (memory t) (memory t').
Proof.
  intros Hs Hq. set (d := exist _ t Hq : board quiet).
  pose proof (board_laws dev quiet (λ _ q, q) quiet_read quiet_write) as L.
  pose proof (@settings_save_step _ _ (board_laws dev quiet (λ _ q, q) quiet_read quiet_write) s d Hs) as Hstep.
  pose proof (settings_save_alike (H0 := eeprom_store dev) (on_board quiet)
    (board_read_alike dev quiet quiet_read) (board_write_alike dev quiet quiet_write) s d t Hs eq_refl) as [Ea Eb].
  destruct (settings_save s d) as [rc [t1 Hq1]], (settings_save s t) as [rc' t']. cbn [fst snd] in *.
  unfold on_board in Eb. cbn [proj1_sig] in Eb. subst. by split.
Qed.
End saves.

(** ** A core that works off its queue, and a chip of a temper *)
Module Sim.
Definition blank : list Z := replicate (Z.to_nat 8192) 255.

(** After every access a word is taken and sent; [o] is its fate. *)
Definition sim_env (o : trace → outcome) : environment :=
  Env blank (λ t, [Take; Shift (o t)]) (λ _, true) (λ _, true).

Definition status (c : core) : Z :=
  (if busy c then 4 else 0) + (if bool_decide (16 <= length (tx c))%nat then 0x10 else 0) +
  (if bool_decide (rx c = []) then 0x40 else 0) + (if bool_decide (tx c = []) then 0x80 else 0).
Definition error_bits (c : core) : Z := (if lost c then 1 else 0) + (if nacked c then 2 else 0).

Definition dev (o : trace → outcome) : device := λ t a,
  let c := core_at (sim_env o) t in
  if bool_decide (a = IIC + 0x104) then status c
  else if bool_decide (a = IIC + 0x20) then error_bits c
  else if bool_decide (a = IIC + 0x10c) then default 0 (head (rx c)) else 0.

Lemma status_bits c :
  Z.testbit (status c) 2 = busy c ∧ Z.testbit (status c) 4 = bool_decide (16 <= length (tx c))%nat ∧
  Z.testbit (status c) 6 = bool_decide (rx c = []) ∧ Z.testbit (status c) 7 = bool_decide (tx c = []).
Proof. unfold status. by destruct (busy c), (bool_decide _), (bool_decide _), (bool_decide _). Qed.

Lemma blank_ok : bytes_n (Z.to_nat 8192) blank.
Proof. split; [apply length_replicate|]. apply Forall_replicate. unfold in_bits. lia. Qed.

#[global] Instance bus o : EepromBus (dev o).
Proof.
  refine {| env := sim_env o; initial_ok := blank_ok |}; intros t; unfold dev; cbv zeta;
    destruct (status_bits (core_at (sim_env o) t)) as (S2 & S4 & S6 & S7).
  - by rewrite bool_decide_true, S2 by done.
  - rewrite bool_decide_true, S4 by done. intros Hl%bool_decide_eq_false. lia.
  - rewrite bool_decide_true, S6 by done. by intros Hx%bool_decide_eq_false.
  - rewrite bool_decide_true, S7 by done. by intros Hx%bool_decide_eq_true.
  - rewrite bool_decide_false, bool_decide_true by done. unfold error_bits. by destruct (lost _), (nacked _).
  - rewrite bool_decide_false, bool_decide_true by done. unfold error_bits. by destruct (lost _), (nacked _).
  - intros b bs E. rewrite 2!bool_decide_false, bool_decide_true by done. by rewrite E.
Defined.

(** A chip that answers always, and one that stops answering. *)
Definition willing (_ : trace) : outcome := Ack.
Definition tired (t : trace) : outcome := if bool_decide (length t < 28)%nat then Ack else Nack false.
End Sim.

(** ** Claims *)

(** C16. The driver is a faithful memory.  The core and the chip may do
    anything the hardware does by itself (lose arbitration, refuse any byte,
    be slow, be busy programming), provided the registers tell the truth:
    from rest, a read of a range inside the chip changes no byte and, when it
    succeeds, returns exactly that range; a write of bytes inside the settings
    area that succeeds has programmed exactly them (page boundaries
    included), and one that fails has programmed a prefix of them; a write
    that starts below the settings area is refused without touching the bus.
    Core and chip are at rest at power-on and after every call. *)
Theorem eeprom_faithful {dev} `{EepromBus dev} (a : Z) (n : nat) (p : list Z) (t : trace) :
  0 <= a → a + Z.of_nat n <= 8192 → a + Z.of_nat (length p) <= 0x1400 → is_bytes p → quiet t →
  quiet [] ∧
  (let '(b, t') := eeprom_read dev a n t in
   quiet t' ∧ memory t' = memory t ∧ ∀ l, b = Some l → l = sub (memory t) (Z.to_nat a) n) ∧
  (let '(failed, t') := eeprom_write dev a p t in
   if bool_decide (a < 0x1000) then failed = true ∧ t' = t
   else quiet t' ∧ ∃ k, (k <= length p)%nat ∧ (failed = false → k = length p) ∧
          memory t' = memcpy (memory t) (Z.to_nat a) (take k p)).
Proof.
  intros Ha Hr Hw Hp Hq. split; [apply quiet_start|]. split; [by apply eeprom_read_spec|].
  case_bool_decide as Hlow; [|apply eeprom_write_spec; [lia|done..]].
  unfold eeprom_write, SETTINGS_SLOT0. by rewrite (bool_decide_true (a < 4096)).
Qed.

(** Four bytes across a page boundary: all of them on a chip that answers,
    and the write reports failure on one that stops answering. *)
Lemma eeprom_faithful_witness :
  (let '(failed, t) := eeprom_write (Sim.dev Sim.willing) 0x101e [1; 2; 3; 4] [] in
   failed = false ∧ memory (dev := Sim.dev Sim.willing) t = memcpy Sim.blank (Z.to_nat 0x101e) [1; 2; 3; 4]) ∧
  (let '(failed, t) := eeprom_write (Sim.dev Sim.tired) 0x101e [1; 2; 3; 4] [] in
   failed = true ∧ ∃ k, (k <= 4)%nat ∧
     memory (dev := Sim.dev Sim.tired) t = memcpy Sim.blank (Z.to_nat 0x101e) (take k [1; 2; 3; 4])).
Proof.
  assert (fst (eeprom_write (Sim.dev Sim.willing) 0x101e [1; 2; 3; 4] []) = false) as Hf by (vm_compute; reflexivity).
  assert (fst (eeprom_write (Sim.dev Sim.tired) 0x101e [1; 2; 3; 4] []) = true) as Hg by (vm_compute; reflexivity).
  destruct (eeprom_faithful (dev := Sim.dev Sim.willing) 0x101e 4 [1; 2; 3; 4] [] ltac:(lia) ltac:(simpl; lia)
    ltac:(simpl; lia) ltac:(by_decide) quiet_start) as (_ & _ & Hw).
  destruct (eeprom_faithful (dev := Sim.dev Sim.tired) 0x101e 4 [1; 2; 3; 4] [] ltac:(lia) ltac:(simpl; lia)
    ltac:(simpl; lia) ltac:(by_decide) quiet_start) as (_ & _ & Hx).
  rewrite bool_decide_false in Hw, Hx by lia. split.
  - destruct (eeprom_write (Sim.dev Sim.willing) 0x101e [1; 2; 3; 4] []) as [failed t]. cbn [fst] in Hf. subst failed.
    destruct Hw as (_ & k & _ & Hk & E). rewrite (Hk eq_refl) in E. split; [reflexivity|exact E].
  - destruct (eeprom_write (Sim.dev Sim.tired) 0x101e [1; 2; 3; 4] []) as [failed t]. cbn [fst] in Hg. subst failed.
    destruct Hx as (_ & k & Hk & _ & E). split; [reflexivity|]. exists k. split; [exact Hk|exact E].
Defined.

(** C15. Settings survive on the real accesses.  [settings_save] over
    [eeprom_read] and [eeprom_write], from rest, on any core and chip whose
    registers tell the truth: after every outcome, also with refused bytes,
    lost arbitration, cut-off page writes and stuck status bits, the settings
    in the chip are the old ones or exactly the new ones, a return value of 0
    means the new ones, only the slot not in use has changed, and core and
    chip are at rest again. *)
Theorem settings_on_eeprom {dev} `{EepromBus dev} (s : miner_settings) (t : trace) :
  settings_ok s → quiet t →
  let '(rc, t') := settings_save (H := eeprom_store dev) s t in
  quiet t' ∧ save_step s (stored (memory t)) rc (stored (memory t')) ∧
  frame (target_slot (memory t)) (memory t) (memory t').
Proof. apply eeprom_save_step. Qed.

Lemma settings_on_eeprom_witness :
  let '(rc, t) := settings_save (H := eeprom_store (Sim.dev Sim.tired)) example_settings [] in
  save_step example_settings (stored Sim.blank) rc (stored (memory (dev := Sim.dev Sim.tired) t)).
Proof.
  pose proof (settings_on_eeprom (dev := Sim.dev Sim.tired) example_settings [] ltac:(by_decide) quiet_start) as H.
  destruct (settings_save (H := eeprom_store (Sim.dev Sim.tired)) example_settings []) as [rc t]. exact (proj1 (proj2 H)).
Defined.
