(* ===== verification/EepromLive.v ===== *)
(** * The EEPROM driver gets its work done (src/software/application/eeprom.c)

    Eeprom shows that what the driver reports is true.  Here the hardware is
    in order: every word is acknowledged, except by a chip that is
    programming, the end of a read may show as an error, the core makes
    progress between two looks at its status, and the status shows what it is
    meant to show.  Then no wait of the driver runs out, the pause after a page
    covers the program cycle, and every read and write in range succeeds; so
    settings that are saved can be loaded. *)
From S2P Require Import Prelude Settings Bus IicCore Eeprom.
Local Open Scope cword_scope.

(** ** Hardware in order *)

(** Steps still to be made for what is queued. *)
Definition weight (ws : list Z) : nat := sum_list ((λ w, 2 + Z.to_nat (w .& 0xff))%nat <$> ws).
Definition outstanding (c : core) : nat := weight (tx c) + length (option_list (shifting c)) + receiving c.

(** The core has something to do and room for it. *)
Definition moving (c : core) : Prop :=
  enabled c = true ∧ failed c = false ∧ outstanding c ≠ 0%nat ∧ (length (rx c) < 16)%nat.

#[global] Instance moving_dec c : Decision (moving c).
Proof. unfold moving. apply _. Defined.

(** Nothing goes wrong: no word is refused.  A byte that is received, the last
    one, may show as not acknowledged, which the core counts as an error. *)
Definition smooth (c : core) (a : act) : Prop :=
  match a with Shift Ack | Take | CycleEnd => True | Shift (Nack _) => shifting c = None | _ => False end.
Fixpoint smoothly (acts : list act) (c : core) : Prop :=
  match acts with [] => True | a :: acts => smooth c a ∧ smoothly acts (act_step c a) end.

(** The core after the last access, before it works on. *)
Definition before (w : environment) (t : trace) : core :=
  match t with [] => power_on w | e :: t => access e (keeps w t) (aborts w t) (core_at w t) end.

Class PromptBus (dev : device) `{EepromBus dev} := {
  smooth_work : ∀ t, smoothly (work env t) (before env t);
  core_moves : ∀ t v, moving (core_at env t) →
    (outstanding (core_at env (In32 (IIC + 0x104) v :: t)) < outstanding (core_at env t))%nat;
  idle_shown : ∀ t, busy (core_at env t) = false → Z.testbit (dev t (IIC + 0x104)) 2 = false;
  room_shown : ∀ t, (length (tx (core_at env t)) < 16)%nat → Z.testbit (dev t (IIC + 0x104)) 4 = false;
  received_shown : ∀ t, rx (core_at env t) ≠ [] → Z.testbit (dev t (IIC + 0x104)) 6 = false;
  sent_shown : ∀ t, tx (core_at env t) = [] → Z.testbit (dev t (IIC + 0x104)) 7 = true;
}.

(** At rest, and not programming. *)
Definition calm (c : core) : Prop := settled c ∧ cycle c = false.
#[global] Instance calm_dec c : Decision (calm c).
Proof. unfold calm. apply _. Defined.

Section live.
Context {dev : device} `{PromptBus dev}.
Local Abbreviation at_core := (core_at env).

(** What the core keeps as long as all goes well. *)
Definition kept (I : core → Prop) : Prop := ∀ c a, smooth c a → I c → I (act_step c a).

Lemma kept_stable I : stable I → kept I.
Proof. intros HI c a _. apply HI. Qed.

Lemma kept_at (I : core → Prop) t : kept I → I (before env t) → I (at_core t).
Proof.
  intros HI. replace (at_core t) with (run (work env t) (before env t)) by (by destruct t).
  pose proof (smooth_work t) as Hs. revert Hs. generalize (before env t). induction (work env t) as [|a acts IH]; intros c Hs Hc; [done|].
  destruct Hs as [Ha Hs]. by apply IH, HI.
Qed.

(** ** Waits end *)
Lemma clear_masked x i : 0 <= i < 32 → Z.testbit x i = false → u32 x .& 2 ^ i = 0.
Proof.
  intros Hi E. apply Z.bits_inj. intros j. rewrite Z.land_spec, Z.bits_0. unfold u32.
  destruct (decide (j = i)) as [->|Hj]; [by rewrite Z.mod_pow2_bits_low, E by lia|].
  rewrite Z.pow2_bits_false by lia. apply andb_false_r.
Qed.
Lemma set_masked x i : 0 <= i < 32 → Z.testbit x i = true → u32 x .& 2 ^ i = 2 ^ i.
Proof.
  intros Hi E. apply Z.bits_inj. intros j. rewrite Z.land_spec. unfold u32.
  destruct (decide (j = i)) as [->|Hj]; [by rewrite Z.mod_pow2_bits_low, E by lia|].
  rewrite Z.pow2_bits_false by lia. apply andb_false_r.
Qed.

(** A wait for what the status shows at the latest when the core has nothing
    to do ends within as many polls as there are steps to be made. *)
Lemma wait_satisfied (I P : core → Prop) mask expected t :
  kept I → kept P →
  (∀ t, I (at_core t) → ~ moving (at_core t) → u32 (dev t (IIC + 0x104)) .& mask = expected) →
  (∀ t, I (at_core t) → u32 (dev t (IIC + 0x104)) .& mask = expected → P (at_core t)) →
  I (at_core t) → (outstanding (at_core t) < Z.to_nat 100000)%nat →
  ∃ t', wait_status dev mask expected t = (false, t') ∧ I (at_core t') ∧ P (at_core t').
Proof.
  intros HI HP Hshown Htrue. unfold wait_status. generalize (Z.to_nat 100000). intros n. revert t.
  induction n as [|n IH]; intros t Hc Hn; [lia|]. cbn [wait_loop]. destruct (rd dev 0x104 t) as [v t1] eqn:Er.
  assert (v = u32 (dev t (IIC + 0x104)) ∧ t1 = In32 (IIC + 0x104) v :: t) as [Ev Et] by (by injection Er as <- <-).
  assert (∀ J, kept J → J (at_core t) → J (at_core t1)) as Hkeep.
  { intros J HJ Hj. rewrite Et. apply kept_at; [done|]. cbn [before access]. by rewrite bool_decide_false. }
  case_bool_decide as E.
  { exists t1. rewrite Ev in E. split; [done|]. split; apply Hkeep; auto. }
  destruct (IH t1) as (t' & -> & Ht'); [by apply Hkeep| |by exists t'].
  destruct (decide (moving (at_core t))) as [Hm|Hm].
  - pose proof (core_moves t v Hm) as Hp. rewrite <-Et in Hp. lia.
  - destruct E. rewrite Ev. by apply Hshown.
Qed.

(** ** Words go through

    Selects are for the chip, and a STOP, which may start a program cycle,
    comes last. *)
Definition addressed (w : Z) : Prop := Z.testbit w 8 = false ∨ selects_chip w = true.
Definition stopless (w : Z) : Prop := Z.testbit w 9 = false.
Definition script (ws : list Z) : Prop :=
  Forall addressed ws ∧ ∀ l w r, ws = l ++ w :: r → Z.testbit w 9 = true → r = [].

Definition sending (c0 : chip) (ws : list Z) (c : core) : Prop :=
  under_way c0 ws c ∧ (cycle c = true → option_list (shifting c) ++ tx c = [] ∧ ~ Forall stopless ws).

Lemma take_word_flags c : lost (take_word c) = lost c ∧ nacked (take_word c) = nacked c ∧ cycle (take_word c) = cycle c.
Proof. unfold take_word. destruct (_ || _ || _ || _); [done|]. destruct (tx c); [done|]. by destruct (cmode c). Qed.

(** A word leaves the queue. *)
Definition popped (c c' : core) : Prop :=
  shifting c = None ∧ ∃ w, tx c = w :: tx c' ∧ (cmode c = Asking → receiving c' = Z.to_nat (w .& 0xff)).

Lemma take_word_pops c : tx (take_word c) = tx c ∨ popped c (take_word c).
Proof.
  unfold take_word. destruct (shifting c) as [x|] eqn:Es.
  { rewrite (bool_decide_true (Some x ≠ None)), orb_true_r by done. by left. }
  destruct (_ || _ || _ || _); [by left|]. destruct (tx c) as [|w ws] eqn:Et; [left; exact Et|].
  right. split; [done|]. exists w. by destruct (cmode c).
Qed.

Lemma sending_act c0 ws c a :
  script ws → smooth c a → sending c0 ws c →
  sending c0 ws (act_step c a) ∧ (tx (act_step c a) = tx c ∨ popped c (act_step c a)) ∨
  (cmode c = Asking ∧ shifting c = None ∧ ∃ w rest, tx c = w :: rest ∧
    act_step c a = Core true false rest None Free (Z.to_nat (w .& 0xff)) [] false false false (memchip c)).
Proof.
  intros [Haddr Hstop] Ha [U Hc]. pose proof U as (Hf & _ & _ & Hr & _ & done & Ew & _).
  assert (failed (act_step c a) = false ∧
    (cycle (act_step c a) = true →
      option_list (shifting (act_step c a)) ++ tx (act_step c a) = [] ∧ ~ Forall stopless ws) ∧
    (tx (act_step c a) = tx c ∨ popped c (act_step c a))) as (Hf' & Hc' & Ht').
  { destruct a as [|o|]; cbn [act_step].
    - destruct (take_word_flags c) as (El & En & Ec). unfold failed. rewrite El, En, Ec. split; [done|].
      split; [|apply take_word_pops]. intros Hcy. destruct (Hc Hcy) as [[Es Et]%app_eq_nil Hns]. split; [|done].
      unfold take_word. rewrite Et. destruct (_ || _ || _ || _); by rewrite Es, Et.
    - destruct (shifting c) as [w|] eqn:Es; [|rewrite Hr, Es; split; [done|]; split; [done|by left]].
      destruct o; [|by cbn in Ha; rewrite Es in Ha|done].
      assert (cycle c = false) as Hcy by (destruct (cycle c); [by destruct (Hc eq_refl)|done]).
      unfold shift_word. rewrite Hcy. cbn [negb]. rewrite andb_true_r.
      assert (negb (Z.testbit w 8) || selects_chip w = true) as ->.
      { rewrite Ew in Haddr. apply Forall_app in Haddr as [_ Haddr]. apply Forall_cons in Haddr as [[->|Hs] _]; [done|].
        rewrite Hs. apply orb_true_r. }
      destruct (deliver (cmode c, memchip c) w) as [m d]. cbn [shifting tx cycle option_list app orb].
      split; [done|]. split; [|by left]. intros [Hs _]%andb_true_iff. rewrite (Hstop done w (tx c) Ew Hs) in *. split; [done|].
      intros Hall. rewrite Ew in Hall. apply Forall_app in Hall as [_ Hall]. apply Forall_cons in Hall as [Hall _].
      unfold stopless in Hall. congruence.
    - split; [done|]. split; [done|by left]. }
  destruct (under_way_act c0 ws c a U) as [U'|[(Hg & _)|(Hm & Hs & -> & w & rest & Et & E)]]; [by left|congruence|].
  right. split; [done|]. split; [done|]. exists w, rest. split; [done|]. rewrite E.
  destruct (cycle c); [|done]. destruct (Hc eq_refl) as [[_ Hn]%app_eq_nil _]. congruence.
Qed.

Lemma sending_kept c0 ws : script ws → Forall plain ws → kept (sending c0 ws).
Proof.
  intros Hs Hp c a Ha Hc. destruct (sending_act c0 ws c a Hs Ha Hc) as [[? _]|(Hm & _)]; [done|]. exfalso.
  destruct Hc as [(_ & _ & _ & _ & _ & done & -> & Ec) _]. apply Forall_app in Hp as [Hp _].
  apply (delivered_plain c0 done Hp). by rewrite <-Ec.
Qed.

(** A word queued before any STOP, for a property that holds with it. *)
Lemma sending_next (I : core → Prop) c0 ws v t :
  kept I → (∀ c, sending c0 (ws ++ [u32 v .& 0x3ff]) c → tx c ≠ [] → I c) → Forall stopless ws →
  (length (tx (at_core t)) < 16)%nat → sending c0 ws (at_core t) → I (at_core (wr 0x108 v t)).
Proof.
  intros HI Hi Hst Hl [U Hc]. apply kept_at; [done|]. cbn [before wr Xil_Out32 access]. rewrite bool_decide_true by done.
  assert (cycle (at_core t) = false) as Hcy by (destruct (cycle (at_core t)); [by destruct (Hc eq_refl)|done]).
  apply Hi.
  - split; [by apply under_way_push|]. unfold push_word. destruct (_ || _); cbn [cycle]; congruence.
  - destruct U as (Hf & _ & Hh & _). unfold push_word. rewrite Hh, Hf, bool_decide_false by lia. cbn [orb tx].
    by intros [_ ?]%app_eq_nil.
Qed.

Lemma sending_room c0 ws c : sending c0 ws c → (length (tx c) <= length ws)%nat.
Proof. intros [U _]. apply (on_wire_room c0). by left. Qed.

Lemma weight_cons w ws : weight (w :: ws) = (2 + Z.to_nat (w .& 0xff) + weight ws)%nat.
Proof. done. Qed.
Lemma weight_app l k : weight (l ++ k) = (weight l + weight k)%nat.
Proof. induction l as [|w l IH]; [done|]. cbn [app]. rewrite !weight_cons. lia. Qed.

Lemma sending_pending c0 ws c : sending c0 ws c → (outstanding c <= weight ws)%nat.
Proof.
  intros [(_ & _ & _ & Hr & _ & done & -> & _) _]. unfold outstanding. rewrite !weight_app, Hr.
  destruct (shifting c) as [w|]; [|simpl; lia].
  change (option_list (Some w)) with [w]. rewrite weight_cons. cbn [length]. lia.
Qed.

(** When the core stands still all words have gone. *)
Lemma sending_still c0 ws c : sending c0 ws c → ~ moving c → tx c = [] ∧ shifting c = None.
Proof.
  intros [(Hf & He & _ & Hr & Hx & _) _] Hm.
  assert (outstanding c = 0%nat) as Hp.
  { destruct (decide (outstanding c = 0%nat)) as [?|Hp]; [done|]. destruct Hm. split_and!; [done..|]. rewrite Hx. simpl. lia. }
  unfold outstanding in Hp. split.
  - destruct (tx c) as [|w l]; [done|]. rewrite weight_cons in Hp. lia.
  - destruct (shifting c); [|done]. simpl in Hp. lia.
Qed.

Lemma weight_bound ws : (length ws <= 40)%nat → (weight ws < Z.to_nat 100000)%nat.
Proof.
  intros Hl. enough (weight ws <= 257 * length ws)%nat by lia. clear Hl.
  induction ws as [|w ws IH]; [done|]. rewrite weight_cons. cbn [length].
  pose proof (land_byte w) as Hw. unfold in_bits in Hw. lia.
Qed.

(** ** Beginning *)
Lemma calm_kept m : kept (λ c, calm c ∧ mem (memchip c) = m).
Proof.
  intros c a _ [[Hs Hc] Hm]. pose proof Hs as [Hr _]. pose proof (act_rest c a Hr) as Hsame.
  assert (cycle (act_step c a) = false) as Hc'.
  { destruct Hr as (Ht & Hsh & _ & Hrv). destruct a as [|o|]; cbn [act_step]; [|by rewrite Hsh, Hrv|done].
    by destruct (take_word_flags c) as (_ & _ & ->). }
  apply same_core_fields in Hsame as (_ & _ & Et & Es & Em & Er & _ & _ & _ & Ed).
  unfold calm, settled, at_rest in *. by rewrite Et, Es, Em, Er, Ed.
Qed.

Lemma calm_still c : calm c → outstanding c = 0%nat ∧ busy c = false.
Proof. intros [[(Ht & Hs & Hm & Hr) _] _]. unfold outstanding, busy. by rewrite Ht, Hs, Hm, Hr. Qed.

Lemma rd_kept (I : core → Prop) r t : r ≠ 0x10c → kept I → I (at_core t) → I (at_core (snd (rd dev r t))).
Proof.
  intros Hr HI Hc. apply kept_at; [done|]. cbn [rd Xil_In32 snd before access].
  by rewrite bool_decide_false by lia.
Qed.

(** Resets, set-up and cleared flags do not disturb a calm chip. *)
Lemma calm_wr m r v t :
  r ≠ 0x108 → calm (at_core t) ∧ mem (memchip (at_core t)) = m →
  calm (at_core (wr r v t)) ∧ mem (memchip (at_core (wr r v t))) = m.
Proof.
  intros Hr Hc. apply (kept_at (λ c, calm c ∧ mem (memchip c) = m)); [apply calm_kept|]. cbn [before wr Xil_Out32].
  revert Hc. generalize (at_core t). intros c Hc. pose proof Hc as [[[(Ht & Hs & Hm & Hv) Hx] Hcy] Hmem].
  cbn [access]. rewrite bool_decide_false by lia. case_bool_decide; [case_bool_decide; [|done]|].
  - unfold soft_reset, calm, settled, at_rest, programs. cbn. rewrite Hx, Hcy, andb_false_r, broken_off_xfer.
    split; [done|]. destruct (aborts env t); [|done]. unfold broken_off, chip_stop. by rewrite Hx.
  - case_bool_decide; [|by case_bool_decide]. unfold set_control, calm, settled, at_rest.
    cbn [tx shifting cmode receiving memchip cycle]. rewrite Ht. by destruct (Z.testbit (u32 v) 1).
Qed.

Lemma start_words_script a ws :
  0 <= a < 65536 → is_bytes ws → script ([0x1a0; a >>. 8; a .& 255] ++ ws) ∧ Forall stopless ([0x1a0; a >>. 8; a .& 255] ++ ws).
Proof.
  intros Ha Hws. destruct (address_bytes a Ha) as (H1 & H2 & _).
  assert (∀ b, is_u8 b → addressed b ∧ stopless b) as Hb.
  { intros b (_ & H8 & H9 & _)%byte_word. split; [by left|done]. }
  assert (Forall stopless ([0x1a0; a >>. 8; a .& 255] ++ ws)) as Hst.
  { cbn [app]. do 3 (apply Forall_cons_2; [(done || by apply Hb)|]). eapply Forall_impl; [done|]. apply Hb. }
  split; [|done]. split.
  - cbn [app]. do 3 (apply Forall_cons_2; [(by right) || by apply Hb|]). eapply Forall_impl; [done|]. apply Hb.
  - intros l w r E Hw. rewrite E in Hst. apply Forall_app in Hst as [_ Hst]. apply Forall_cons in Hst as [Hst _].
    unfold stopless in Hst. congruence.
Qed.

Lemma start_begins m a t :
  0 <= a < 65536 → calm (at_core t) ∧ mem (memchip (at_core t)) = m →
  ∃ t' c0, start dev a t = (false, t') ∧ mem c0 = m ∧ xfer c0 = NoTransfer ∧
    sending c0 [0x1a0; a >>. 8; a .& 255] (at_core t').
Proof.
  intros Ha Hc. destruct (address_bytes a Ha) as (H1 & H2 & _).
  destruct (byte_word _ H1) as (U1 & _), (byte_word _ H2) as (U2 & _). unfold start.
  destruct (wait_satisfied (λ c, calm c ∧ mem (memchip c) = m) (λ _, True) 4 0 t) as (t1 & -> & Hc1 & _); [apply calm_kept|done| |done..| |].
  { intros t0 [Hc0 _] _. apply (clear_masked _ 2); [lia|]. apply idle_shown. by apply calm_still. }
  { destruct (calm_still _ (proj1 Hc)) as [-> _]. lia. }
  destruct (start_armed m t1) as (l & n & Hb); [by destruct Hc1 as [[? _] ?]|].
  assert (calm (at_core (wr 0x100 1 (wr 0x100 3 (wr 0x120 15 (wr 0x40 10 t1))))) ∧
    mem (memchip (at_core (wr 0x100 1 (wr 0x100 3 (wr 0x120 15 (wr 0x40 10 t1)))))) = m) as Hc2 by (do 4 (apply calm_wr; [done|]); done).
  revert Hb Hc2. generalize (wr 0x100 1 (wr 0x100 3 (wr 0x120 15 (wr 0x40 10 t1)))). intros t2 Hb Hc2.
  apply flags_cleared in Hb. apply (rd_kept _ 0x20 t2 ltac:(done) (calm_kept m)) in Hc2.
  destruct (rd dev 0x20 t2) as [v t3]. cbn [snd] in Hc2. apply (calm_wr m 0x20 v) in Hc2; [|done].
  revert Hb Hc2. generalize (wr 0x20 v t3). intros t4 Hb Hc4.
  exists (wr 0x108 (a .& 255) (wr 0x108 (a >>. 8) (wr 0x108 0x1a0 t4))), (memchip (at_core t4)).
  destruct Hb as ([[(Ht & Hs & Hm & Hv) Hx] Hmem] & He & Hh & Hrx & Hl & Hn). split_and!; [done..|].
  assert (sending (memchip (at_core t4)) [] (at_core t4)) as W0.
  { split; [|destruct Hc4 as [[_ ->] _]; done]. unfold under_way, failed. rewrite Hl, Hn. split_and!; try done.
    exists []. by rewrite Hs, Ht, Hm. }
  destruct (start_words_script a [] Ha ltac:(done)) as [[Had Hlast] Hst]. cbn [app] in Had, Hlast, Hst.
  assert (Forall plain [0x1a0; a >>. 8; a .& 255]) as Hpl.
  { repeat (apply Forall_cons_2; [try by apply byte_plain|]); done. }
  assert (∀ ws v t, u32 v .& 0x3ff = v → ws ++ [v] `prefix_of` [0x1a0; a >>. 8; a .& 255] →
    sending (memchip (at_core t4)) ws (at_core t) → sending (memchip (at_core t4)) (ws ++ [v]) (at_core (wr 0x108 v t))) as Hpush.
  { intros ws v' t' Ev [rest Er] Hw. rewrite Er in *. apply Forall_app in Hpl as [Hpl _], Had as [Had _], Hst as [Hst _].
    apply (sending_next _ (memchip (at_core t4)) ws); [|by rewrite Ev| | |done].
    - apply sending_kept; [|done]. split; [done|]. intros l' w r E Hw9. rewrite E in Hst.
      apply Forall_app in Hst as [_ Hst]. apply Forall_cons in Hst as [Hst _]. unfold stopless in Hst. congruence.
    - by apply Forall_app in Hst as [? _].
    - pose proof (sending_room _ _ _ Hw). apply (f_equal length) in Er. rewrite !length_app in Er. simpl in Er. lia. }
  apply (Hpush [0x1a0; a >>. 8] (a .& 255)); [done|by exists []|].
  apply (Hpush [0x1a0] (a >>. 8)); [done|by exists [a .& 255]|].
  apply (Hpush [] 0x1a0); [done|by exists [a >>. 8; a .& 255]|done].
Qed.

(** ** Writing succeeds *)
Lemma script_snoc ws w : Forall addressed ws → Forall stopless ws → addressed w → script (ws ++ [w]).
Proof.
  intros Ha Hs Hw. split; [apply Forall_app; split; [done|by apply Forall_singleton]|]. intros l x r E Hx.
  destruct r as [|y r _] using rev_ind; [done|]. exfalso. rewrite app_comm_cons, app_assoc in E.
  apply app_inj_tail in E as [-> _]. apply Forall_app in Hs as [_ Hs]. apply Forall_cons in Hs as [Hs _].
  unfold stopless in Hs. congruence.
Qed.

Lemma write_bytes_ok c0 ws p t :
  p ≠ [] → is_bytes p → Forall plain ws → Forall addressed ws → Forall stopless ws → (length ws + length p <= 40)%nat →
  sending c0 ws (at_core t) → script ws →
  ∃ t', write_bytes dev p t = (false, t') ∧ sending c0 (ws ++ data_words p) (at_core t') ∧ script (ws ++ data_words p).
Proof.
  revert ws t. induction p as [|b p IH]; intros ws t Hne Hb Hpl Had Hst Hlen Hw Hsc; [done|].
  apply Forall_cons in Hb as [Hb Hp]. cbn [length] in Hlen. cbn [write_bytes].
  destruct (wait_satisfied (sending c0 ws) (λ c, (length (tx c) < 16)%nat) 0x10 0 t) as (t1 & -> & Hw1 & Hroom).
  - by apply sending_kept.
  - apply kept_stable, tx_stable.
  - intros t0 H0t Hm. apply (clear_masked _ 4); [lia|]. apply room_shown.
    destruct (sending_still _ _ _ H0t Hm) as [-> _]. simpl. lia.
  - intros t0 _ E%(masked_clear _ 4); [|lia]. by apply room_true.
  - done.
  - pose proof (sending_pending _ _ _ Hw). pose proof (weight_bound ws ltac:(lia)). lia.
  - destruct (decide (p = [])) as [->|Hpne].
    + rewrite bool_decide_true by done. cbn [write_bytes data_words]. destruct (stop_word b Hb) as (E & H8 & _).
      assert (addressed (b .| 0x200)) as Hab by (by left). eexists. split; [done|]. split; [|by apply script_snoc].
      apply (sending_next _ c0 ws); [|by rewrite E|done..]. apply sending_kept; [by apply script_snoc|].
      apply Forall_app; split; [done|]. apply Forall_singleton. unfold plain. by rewrite H8.
    + rewrite bool_decide_false, Z.lor_0_r by done. destruct (byte_word b Hb) as (E & H8 & H9 & _).
      assert (data_words (b :: p) = [b] ++ data_words p) as -> by (by apply (data_words_app [b])). rewrite app_assoc.
      assert (addressed b) as Hab by (by left).
      assert (Forall plain (ws ++ [b]) ∧ Forall addressed (ws ++ [b]) ∧ Forall stopless (ws ++ [b])) as (Hpl' & Had' & Hst').
      { rewrite !Forall_app. split_and!; try done; apply Forall_singleton; [by apply byte_plain|done..]. }
      apply IH; [done..|rewrite length_app; simpl; lia| |by apply script_snoc].
      apply (sending_next _ c0 ws); [|by rewrite E|done..]. apply sending_kept; [by apply script_snoc|done].
Qed.

Lemma finish_ok c0 ws t :
  Forall plain ws → script ws → (length ws <= 40)%nat → fst (delivered c0 ws) = Free → sending c0 ws (at_core t) →
  ∃ t', finish dev t = (false, t').
Proof.
  intros Hpl Hsc Hlen Hfree Hw. unfold finish. pose proof (weight_bound ws Hlen) as Hwt.
  destruct (wait_satisfied (sending c0 ws) (λ c, (length (tx c) < 1)%nat) 0x80 0x80 t) as (t1 & -> & Hw1 & Htx).
  - by apply sending_kept.
  - apply kept_stable, tx_stable.
  - intros t0 H0t Hm. apply (set_masked _ 7); [lia|]. apply sent_shown. by apply (sending_still c0 ws).
  - intros t0 _ E%(masked_set _ 7); [|lia]. apply sent_true in E. rewrite E. simpl. lia.
  - done.
  - pose proof (sending_pending _ _ _ Hw). lia.
  - destruct (wait_satisfied (sending c0 ws) (λ _, True) 4 0 t1) as (t2 & -> & Hw2 & _).
    + by apply sending_kept.
    + done.
    + intros t0 H0t Hm. apply (clear_masked _ 2); [lia|]. apply idle_shown.
      destruct (sending_still _ _ _ H0t Hm) as [Et Es]. destruct H0t as [(_ & _ & _ & Hr & _ & done & Ew & Ec) _].
      rewrite Et, Es in Ew. cbn [option_list app] in Ew. rewrite app_nil_r in Ew. subst done.
      unfold busy. rewrite Es, Hr. assert (cmode (core_at env t0) = Free) as -> by (by rewrite <-Hfree, <-Ec). done.
    + done.
    + done.
    + pose proof (sending_pending _ _ _ Hw1). lia.
    + destruct (rd dev 0x20 t2) as [v t3] eqn:E. assert (v = u32 (dev t2 (IIC + 0x20))) as -> by (by injection E).
      exists t3. rewrite bool_decide_false; [done|]. intros Hn. apply Hn.
      destruct Hw2 as [(Hf & _) _]. unfold failed in Hf. apply orb_false_iff in Hf as [Hl Hk].
      rewrite <-(lost_shown t2) in Hl. rewrite <-(nacked_shown t2) in Hk.
      change 3 with (2 ^ 0 .| 2 ^ 1). by rewrite Z.land_lor_distr_r, (clear_masked _ 0), (clear_masked _ 1) by (done || lia).
Qed.

Definition calm_at (t : trace) : Prop := calm (at_core t).

(** The pause after a page is longer than its program cycle. *)
Lemma pause_calm m t : resting m (at_core t) → calm_at (vTaskDelay (pdMS_TO_TICKS 10 + 1) t).
Proof.
  intros [Hs _]. apply (kept_at (λ c, calm c ∧ mem (memchip c) = mem (memchip (at_core t)))); [apply calm_kept|].
  cbn [before vTaskDelay access]. by rewrite bool_decide_true by done.
Qed.

Lemma write_chunk_ok a p t :
  0 <= a < 8192 → p ≠ [] → is_bytes p → a `mod` 32 + Z.of_nat (length p) <= 32 → calm_at t →
  ∃ t', write_chunk dev a p t = (false, t') ∧ calm_at t'.
Proof.
  intros Ha Hne Hb Hpage Hc. destruct (address_bytes a ltac:(lia)) as (H1 & H2 & _). unfold write_chunk.
  assert (length p <= 32)%nat as Hp32 by (pose proof (Z.mod_pos_bound a 32 ltac:(lia)); lia).
  destruct (start_begins _ a t ltac:(lia) (conj Hc eq_refl)) as (t1 & c0 & -> & _ & Hx & Hw).
  destruct (start_words_script a [] ltac:(lia) ltac:(done)) as [Hsc Hst]. cbn [app] in Hsc, Hst.
  assert (Forall plain [0x1a0; a >>. 8; a .& 255]) as Hpl.
  { repeat (apply Forall_cons_2; [try by apply byte_plain|]); done. }
  destruct (write_bytes_ok c0 _ p t1 Hne Hb Hpl (proj1 Hsc) Hst ltac:(simpl; lia) Hw Hsc) as (t2 & -> & Hw2 & Hsc2).
  pose proof (delivered_stop c0 (a >>. 8) (a .& 255) p H1 H2 Hb Hne) as Ed. unfold write_script in Ed.
  assert (Forall plain ([0x1a0; a >>. 8; a .& 255] ++ data_words p)) as Hpl2.
  { apply Forall_app; split; [done|by apply data_words_plain]. }
  destruct (finish_ok c0 _ t2 Hpl2 Hsc2) as (t3 & E);
    [rewrite length_app, data_words_length; simpl; lia|by rewrite Ed|done|].
  pose proof (finish_spec c0 _ t2 Hpl2 ltac:(by rewrite Ed) ltac:(by rewrite Ed) (or_introl (proj1 Hw2))) as Hf.
  rewrite E in Hf |- *. eexists. split; [done|]. by eapply pause_calm.
Qed.

Lemma write_loop_ok fuel a p t :
  (length p <= fuel)%nat → 0 <= a → a + Z.of_nat (length p) <= 8192 → is_bytes p → calm_at t →
  ∃ t', write_loop dev fuel a p t = (false, t') ∧ calm_at t'.
Proof.
  revert a p t. induction fuel as [|fuel IH]; intros a p t Hf Ha Hr Hb Hc.
  { destruct p; [|simpl in Hf; lia]. by eexists. }
  destruct p as [|b p]; [by eexists|]. cbn [write_loop].
  destruct (page_room a (b :: p) ltac:(done)) as (Hn & Hpage & Hne). revert Hn Hpage Hne.
  set (q := b :: p) in *. generalize (if bool_decide (32 - (a .& 31) > Z.of_nat (length q)) then length q else Z.to_nat (32 - (a .& 31))).
  clearbody q. intros n Hn Hpage Hne.
  destruct (write_chunk_ok a (take n q) t ltac:(lia) Hne ltac:(by apply Forall_take)) as (t1 & -> & Hc1);
    [rewrite length_take; lia|done|].
  assert (u16 (a + Z.of_nat n) = a + Z.of_nat n) as -> by (apply u16_small; unfold in_bits; lia).
  apply IH; [rewrite length_drop; lia|lia|rewrite length_drop; lia|by apply Forall_drop|done].
Qed.

(** ** Reading succeeds *)

(** Bytes come in well; an error shows at most after the last. *)
Definition in_order (c : core) : Prop :=
  enabled c = true ∧ lost c = false ∧ (nacked c = true → receiving c = 0%nat) ∧ cycle c = false.

(** Bytes come in, or the number of bytes still waits in the queue. *)
Definition fetches (c0 : chip) (a : Z) (n i : nat) (c : core) : Prop :=
  incoming (mem c0) (Z.to_nat a) n i c ∧ in_order c ∨
  i = 0%nat ∧ sending c0 (read_script (a >>. 8) (a .& 255) [0x200 .| Z.of_nat n]) c ∧ tx c ≠ [].

Lemma read_script_ok a n :
  0 <= a < 65536 → (n <= 16)%nat →
  Forall addressed (read_script (a >>. 8) (a .& 255) []) ∧ Forall stopless (read_script (a >>. 8) (a .& 255) []) ∧
  script (read_script (a >>. 8) (a .& 255) []) ∧ script (read_script (a >>. 8) (a .& 255) [0x200 .| Z.of_nat n]).
Proof.
  intros Ha Hn. destruct (start_words_script a [] Ha ltac:(done)) as [[Had _] Hst]. cbn [app] in Had, Hst.
  assert (addressed 0x1a1 ∧ stopless 0x1a1) as [A1 A2] by (split; [by right|done]).
  assert (addressed (0x200 .| Z.of_nat n)) as A3 by (left; do 17 (destruct n as [|n]; [done|]); lia).
  assert (∀ P, Forall P [0x1a0; a >>. 8; a .& 255] → P 0x1a1 → Forall P (read_script (a >>. 8) (a .& 255) [])) as Hsnoc.
  { intros P HP H1. unfold read_script. cbn [app]. change [0x1a0; a >>. 8; a .& 255; 0x1a1] with ([0x1a0; a >>. 8; a .& 255] ++ [0x1a1]).
    apply Forall_app. split; [done|by apply Forall_singleton]. }
  pose proof (Hsnoc _ Had A1) as Had'. pose proof (Hsnoc _ Hst A2) as Hst'.
  split_and!; [done..| |].
  - by apply (script_snoc [0x1a0; a >>. 8; a .& 255] 0x1a1).
  - by apply (script_snoc [0x1a0; a >>. 8; a .& 255; 0x1a1] (0x200 .| Z.of_nat n)).
Qed.

Lemma fetches_fetching c0 a n i c : fetches c0 a n i c → fetching c0 a n i c.
Proof. intros [[? _]|(? & [? _] & _)]; [by left|right; split; [done|by left]]. Qed.

(** What the core takes in keeps it in order. *)
Lemma incoming_flags c a : smooth c a → tx c = [] → shifting c = None → in_order c → in_order (act_step c a).
Proof.
  intros Ha Ht Hs (He & Hl & Hn & Hc). destruct a as [|o|]; cbn [act_step].
  - unfold take_word. rewrite Ht. by destruct (_ || _ || _ || _).
  - rewrite Hs. destruct (receiving c) as [|k] eqn:Er; [unfold in_order; by rewrite Er|]. unfold receive_byte.
    case_bool_decide; [unfold in_order; by rewrite Er|].
    assert (nacked c = false) as Hnc by (destruct (nacked c); [by specialize (Hn eq_refl)|done]).
    destruct o; [..|done]; unfold in_order; cbn [enabled lost nacked cycle receiving]; rewrite Hnc; (split_and!; [done..| |done]);
      cbn [orb]; [by rewrite andb_false_r|]. rewrite andb_true_r. by intros ?%bool_decide_eq_true.
  - done.
Qed.

Lemma fetches_kept c0 a n i : readable c0 a n → kept (fetches c0 a n i).
Proof.
  intros Hrd c act Ha Hc. pose proof Hrd as (Hx & Hl & Ha0 & Hr & Hn).
  destruct Hc as [[Hin Hok]|(-> & Hs & Ht)].
  - left. pose proof Hin as (Ht & Hsh & _). split; [apply incoming_stable; [done|lia|done]|by apply incoming_flags].
  - destruct (address_bytes a ltac:(lia)) as (H1 & H2 & _). destruct (count_word n ltac:(lia)) as (_ & Hpl & En).
    destruct (read_script_ok a n ltac:(lia) ltac:(lia)) as (_ & _ & _ & Hsc).
    destruct (sending_act c0 _ c act Hsc Ha Hs) as [[Hs' Hpop]|(Hm & Hsh & w & rest & Et & E)].
    + right. split; [done|]. split; [done|]. destruct Hpop as [->|(Hsh & w & Et & Hask)]; [done|]. intros Et'.
      destruct Hs as [(_ & _ & _ & _ & _ & done & Ew & Ec) _], Hs' as [(_ & _ & _ & Hr0 & _) _].
      rewrite Hsh, Et, Et' in Ew. cbn [option_list app] in Ew. unfold read_script in Ew.
      apply (app_inj_tail [_; _; _; _]) in Ew as [<- <-].
      pose proof (delivered_select c0 (a >>. 8) (a .& 255) H1 H2) as Ed. unfold read_script in Ed. cbn [app] in Ed.
      rewrite Ed in Ec. injection Ec as Em _. specialize (Hask Em). lia.
    + left. rewrite E. split; [|done].
      destruct (fetching_stable c0 a n 0 Hrd c act) as [Hin|[_ Hw]]; [right; split; [done|left; apply Hs]|by rewrite <-E|].
      destruct Hs as [(_ & _ & _ & _ & _ & done & Ew & Ec) _]. rewrite Hsh, Et in Ew. cbn [option_list app] in Ew.
      destruct (asking_done c0 _ _ _ _ _ H1 H2 ltac:(by apply Forall_singleton) Ew) as [_ [= -> ->]]; [by rewrite <-Ec|].
      rewrite E, En in Hw. destruct Hw as [(_ & _ & _ & Hr0 & _)|(Hf & _)]; [simpl in Hr0; lia|done].
Qed.

Lemma read_begins_ok c0 a n t :
  readable c0 a n → sending c0 [0x1a0; a >>. 8; a .& 255] (at_core t) →
  fetches c0 a n 0 (at_core (wr 0x108 (0x200 .| Z.of_nat n) (wr 0x108 0x1a1 t))).
Proof.
  intros Hrd Hw. pose proof Hrd as (Hx & Hl & Ha & Hr & Hn). destruct (address_bytes a ltac:(lia)) as (H1 & H2 & _).
  destruct (count_word n ltac:(lia)) as (E & _). destruct (read_script_ok a n ltac:(lia) ltac:(lia)) as (Had & Hst & Hsc & _).
  assert (sending c0 (read_script (a >>. 8) (a .& 255) []) (at_core (wr 0x108 0x1a1 t))) as Hw1.
  { apply (sending_next _ c0 [0x1a0; a >>. 8; a .& 255]).
    - intros c act Hact Hc. destruct (sending_act c0 _ c act Hsc Hact Hc) as [[? _]|(Hm & Hsh & w & rest & Et & _)]; [done|].
      exfalso. destruct Hc as [(_ & _ & _ & _ & _ & done & Ew & Ec) _]. rewrite Hsh, Et in Ew. cbn [option_list app] in Ew.
      destruct (asking_done c0 _ _ _ _ _ H1 H2 ltac:(done) Ew) as [_ ?]; [by rewrite <-Ec|done].
    - done.
    - by destruct (start_words_script a [] ltac:(lia) ltac:(done)) as [_ ?].
    - pose proof (sending_room _ _ _ Hw) as Hroom. simpl in Hroom. lia.
    - done. }
  apply (sending_next _ c0 (read_script (a >>. 8) (a .& 255) [])); [by apply fetches_kept| |done| |done].
  - intros c Hc Ht. right. rewrite E in Hc. done.
  - eapply Nat.le_lt_trans; [by eapply sending_room|simpl; lia].
Qed.

(** While bytes are missing the core moves or holds some. *)
Lemma fetches_still c0 a n i c : readable c0 a n → (i < n)%nat → fetches c0 a n i c → ~ moving c → rx c ≠ [].
Proof.
  intros (_ & _ & _ & _ & Hn) Hi [[Hin (He & Hl & Hn0 & _)]|(-> & Hs & Ht)] Hm.
  - destruct Hin as (Et & Es & _ & _ & _ & Hrx). rewrite Hl in Hrx.
    intros Ex. rewrite Ex in Hrx. destruct Hrx as (_ & Hsum & _). simpl in Hsum.
    assert (nacked c = false) as Hnc by (destruct (nacked c); [specialize (Hn0 eq_refl); lia|done]).
    destruct Hm. unfold moving, failed. rewrite Hl, Hnc. split_and!; [done..| |rewrite Ex; simpl; lia].
    unfold outstanding. rewrite Et, Es. simpl. lia.
  - by destruct (sending_still _ _ _ Hs Hm).
Qed.

Lemma fetches_pending c0 a n i c : readable c0 a n → fetches c0 a n i c → (outstanding c < Z.to_nat 100000)%nat.
Proof.
  intros (_ & _ & _ & _ & Hn) [[Hin (_ & Hl & _)]|(_ & Hs & _)].
  - destruct Hin as (Et & Es & _ & _ & _ & Hrx). rewrite Hl in Hrx.
    destruct Hrx as (_ & Hsum & _). unfold outstanding. rewrite Et, Es.
    change (weight [] + length (option_list (@None Z)))%nat with 0%nat. lia.
  - pose proof (sending_pending _ _ _ Hs) as Hp.
    pose proof (weight_bound (read_script (a >>. 8) (a .& 255) [0x200 .| Z.of_nat n]) ltac:(simpl; lia)). lia.
Qed.

Lemma read_bytes_done c0 a n i j t :
  readable c0 a n → (i + j = n)%nat → fetches c0 a n i (at_core t) →
  ∃ l t', read_bytes dev j t = (Some l, t') ∧ fetches c0 a n n (at_core t').
Proof.
  intros Hrd. pose proof Hrd as (Hx0 & Hlen & Ha & Hr & Hn).
  revert i t. induction j as [|j IH]; intros i t Hij Hf; cbn [read_bytes].
  { replace i with n in Hf by lia. by exists [], t. }
  destruct (wait_satisfied (fetches c0 a n i) (λ c, rx c ≠ []) 0x40 0 t) as (t1 & -> & Hf1 & Hx).
  - by apply fetches_kept.
  - apply kept_stable, rx_stable.
  - intros t0 H0t Hm. apply (clear_masked _ 6); [lia|]. apply received_shown. by apply (fetches_still c0 a n i); [|lia|..].
  - intros t0 _ E%(masked_clear _ 6); [|lia]. by apply received_true.
  - done.
  - by eapply fetches_pending.
  - destruct (rx (at_core t1)) as [|b bs] eqn:Ex; [done|]. clear Hx.
    destruct Hf1 as [[Hin Hok]|(_ & [(_ & _ & _ & _ & Hrx & _) _] & _)]; [|congruence].
    destruct (incoming_pop _ _ _ _ _ b bs Hin Ex Hlen ltac:(lia)) as [Hpop _].
    destruct (rd dev 0x10c t1) as [v t2] eqn:E. cbn [rd Xil_In32] in E. injection E as Ev Et.
    destruct (IH (S i) t2) as (l & t3 & -> & Hf3); [lia| |by exists (u8 v :: l), t3].
    apply kept_at; [by apply fetches_kept|]. rewrite <-Et. cbn [before access]. rewrite bool_decide_true by done. by left.
Qed.

(** All bytes picked up: core and chip are calm. *)
Lemma fetches_calm c0 a n c : readable c0 a n → fetches c0 a n n c → calm c ∧ lost c = false.
Proof.
  intros Hrd Hf. pose proof (fetched_resting c0 a n c Hrd (fetches_fetching _ _ _ _ _ Hf)) as [Hs _].
  destruct Hrd as (_ & _ & _ & _ & Hn). destruct Hf as [[_ (_ & Hl & _ & Hcy)]|[? _]]; [|lia]. done.
Qed.

Lemma read_chunk_ok a n t :
  0 <= a → a + Z.of_nat n <= 8192 → (0 < n <= 16)%nat → calm_at t →
  ∃ l t', read_chunk dev a n t = (Some l, t') ∧ calm_at t'.
Proof.
  intros Ha Hr Hn Hc. unfold read_chunk. destruct (memory_ok t) as [Hlen _].
  destruct (start_begins _ a t ltac:(lia) (conj Hc eq_refl)) as (t1 & c0 & -> & Hm & Hx & Hw). rewrite <-Hm in Hlen.
  assert (readable c0 a n) as Hrd by done. apply (read_begins_ok c0 a n) in Hw; [|done]. revert Hw.
  generalize (wr 0x108 (0x200 .| Z.of_nat n) (wr 0x108 0x1a1 t1)). intros t2 Hf.
  destruct (read_bytes_done c0 a n 0 n t2 Hrd ltac:(lia) Hf) as (l & t3 & -> & Hf3).
  destruct (wait_satisfied (fetches c0 a n n) (λ _, True) 4 0 t3) as (t4 & -> & Hf4 & _).
  - by apply fetches_kept.
  - done.
  - intros t0 H0t _. apply (clear_masked _ 2); [lia|]. apply idle_shown. apply calm_still. by eapply fetches_calm.
  - done.
  - done.
  - by eapply fetches_pending.
  - pose proof (rd_kept _ 0x20 t4 ltac:(done) (fetches_kept c0 a n n Hrd) Hf4) as Hf5.
    destruct (fetches_calm c0 a n _ Hrd Hf4) as [_ Hl]. rewrite <-(lost_shown t4) in Hl.
    destruct (rd dev 0x20 t4) as [v t5] eqn:E. cbn [snd] in Hf5.
    assert (v = u32 (dev t4 (IIC + 0x20))) as -> by (by injection E).
    rewrite bool_decide_false by (intros Hn1; apply Hn1; by apply (clear_masked _ 0); [lia|]).
    exists l, t5. split; [done|]. by eapply fetches_calm.
Qed.

Lemma read_loop_ok fuel a size t :
  (size <= fuel)%nat → 0 <= a → a + Z.of_nat size <= 8192 → calm_at t →
  ∃ l t', read_loop dev fuel a size t = (Some l, t') ∧ calm_at t'.
Proof.
  revert a size t. induction fuel as [|fuel IH]; intros a size t Hf Ha Hr Hc.
  { destruct size; [by exists [], t|lia]. }
  destruct size as [|size]; [by exists [], t|]. cbn [read_loop]. set (sz := S size) in *.
  set (n := if bool_decide (16 < sz)%nat then 16%nat else sz).
  assert ((0 < n <= sz)%nat ∧ (n <= 16)%nat) as [Hn H16] by (unfold n; case_bool_decide; lia).
  clearbody n sz. destruct (read_chunk_ok a n t Ha ltac:(lia) ltac:(lia) Hc) as (b & t1 & -> & Hc1).
  assert (u16 (a + Z.of_nat n) = a + Z.of_nat n) as -> by (apply u16_small; unfold in_bits; lia).
  destruct (IH (a + Z.of_nat n) (sz - n)%nat t1) as (l & t2 & -> & Hc2); [lia..|done|]. by exists (b ++ l), t2.
Qed.

(** ** The driver on hardware in order *)
Lemma eeprom_read_ok a n t :
  0 <= a → a + Z.of_nat n <= 8192 → calm_at t → ∃ l t', eeprom_read dev a n t = (Some l, t') ∧ calm_at t'.
Proof.
  intros Ha Hr Hc. unfold eeprom_read.
  rewrite bool_decide_false by (rewrite u32_small by (unfold in_bits; lia); lia). by apply read_loop_ok.
Qed.
Lemma eeprom_write_ok a p t :
  board_write_ok a p → calm_at t → ∃ t', eeprom_write dev a p t = (false, t') ∧ calm_at t'.
Proof.
  intros (Ha & Hr & Hp) Hc. unfold eeprom_write, SETTINGS_SLOT0, SETTINGS_SLOT1.
  rewrite bool_decide_false by lia. change (0x1200 + Z.of_nat SETTINGS_SLOT_SIZE) with 0x1400.
  rewrite bool_decide_false by (rewrite u32_small by (unfold in_bits; lia); lia). cbn [orb].
  apply write_loop_ok; [done|lia|lia|done..].
Qed.

Lemma calm_start : calm_at [].
Proof. apply (kept_at (λ c, calm c ∧ mem (memchip c) = initial env)); [apply calm_kept|done]. Qed.

#[local] Instance calm_at_dec t : Decision (calm_at t) := calm_dec _.

Lemma calm_quiet t : calm_at t → quiet t.
Proof. by intros [? _]. Qed.
Lemma calm_read a n t : 0 <= a → a + Z.of_nat n <= 8192 → calm_at t → calm_at (snd (eeprom_read dev a n t)).
Proof. intros Ha Hr Hc. by destruct (eeprom_read_ok a n t Ha Hr Hc) as (l & t' & -> & ?). Qed.
Lemma calm_write a p t : board_write_ok a p → calm_at t → calm_at (snd (eeprom_write dev a p t)).
Proof. intros Hok Hc. by destruct (eeprom_write_ok a p t Hok Hc) as (t' & -> & ?). Qed.

Local Abbreviation laws := (board_laws dev calm_at calm_quiet calm_read calm_write).

Lemma board_reliable : @Reliable (board calm_at) (board_store dev calm_at).
Proof.
  split.
  - intros a n [t Hc] Ha Hr. cbn [store_read board_store proj1_sig].
    destruct (eeprom_read_ok a n t Ha Hr Hc) as (l & t' & -> & _). by exists l.
  - intros a src [t Hc] Ha Hr. cbn [store_write board_store proj1_sig]. case_decide as Hok; [|done].
    by destruct (eeprom_write_ok a src t Hok Hc) as (t' & -> & _).
Qed.

Lemma settings_kept s t :
  settings_ok s → settings_valid s = true → calm_at t →
  let '(rc, t') := settings_save (H := eeprom_store dev) s t in
  rc = 0 ∧ calm_at t' ∧ fst (settings_load (H := eeprom_store dev) t') = (1, s).
Proof.
  intros Hs Hv Hc. set (d := exist _ t Hc : board calm_at).
  pose proof (@save_load_roundtrip _ _ laws board_reliable s d Hs) as Hrt. rewrite Hv in Hrt.
  pose proof (settings_save_alike (H0 := eeprom_store dev) (on_board calm_at)
    (board_read_alike dev calm_at calm_read) (board_write_alike dev calm_at calm_write) s d t Hs eq_refl) as [Ea Eb].
  destruct (settings_save s d) as [rc d'], (settings_save (H := eeprom_store dev) s t) as [rc' t']. cbn [fst snd] in *. subst rc'.
  pose proof (settings_load_alike (H0 := eeprom_store dev) (on_board calm_at)
    (board_read_alike dev calm_at calm_read) d' t' Eb) as [El _].
  destruct Hrt as [-> Hload]. split; [done|]. split; [by rewrite <-Eb; destruct d'|]. by rewrite <-El.
Qed.
End live.

(** ** The core of the simulation is prompt *)
Lemma pending_shift c : (outstanding (act_step c (Shift Ack)) <= outstanding c)%nat ∧
  (shifting c ≠ None ∨ receiving c ≠ 0%nat → (length (rx c) < 16)%nat → outstanding (act_step c (Shift Ack)) < outstanding c)%nat.
Proof.
  cbn [act_step]. unfold outstanding. destruct (shifting c) as [w|] eqn:Es.
  - assert (∀ c', weight (tx c') <= weight (tx c) → shifting c' = None → receiving c' = 0 →
      weight (tx c') + length (option_list (shifting c')) + receiving c' < weight (tx c) + length (option_list (Some w)) + receiving c)%nat
      as Hlt by (intros c' Hw -> ->; change (length (option_list (Some w))) with 1%nat; simpl; lia).
    enough (weight (tx (shift_word w Ack c)) <= weight (tx c) ∧ shifting (shift_word w Ack c) = None ∧
      receiving (shift_word w Ack c) = 0)%nat as (? & ? & ?) by (split; [apply Nat.lt_le_incl|intros _ _]; by apply Hlt).
    unfold shift_word. destruct (_ || _); [by destruct (deliver (cmode c, memchip c) w)|]. split; [|done]. cbn [tx].
    change (weight []) with 0%nat. lia.
  - destruct (receiving c) as [|k] eqn:Er; [rewrite Es, Er; split; [lia|intros []; done]|].
    unfold receive_byte. case_bool_decide; [rewrite Es, Er; split; [lia|intros; lia]|]. cbn [tx shifting receiving]. simpl. lia.
Qed.

Lemma pending_take c : (outstanding (take_word c) <= outstanding c)%nat ∧
  (enabled c = true → failed c = false → shifting c = None → receiving c = 0%nat → tx c ≠ [] →
   outstanding (take_word c) < outstanding c)%nat.
Proof.
  unfold take_word. destruct (_ || _ || _ || _) eqn:Eb.
  { split; [done|]. intros He Hf Hs Hr. by rewrite He, Hf, Hs, Hr, !bool_decide_false in Eb by auto. }
  apply orb_false_iff in Eb as [[_ Es%bool_decide_eq_false]%orb_false_iff Er%bool_decide_eq_false].
  destruct (tx c) as [|w ws] eqn:Et; [split; [done|by intros]|]. unfold outstanding. rewrite Et, weight_cons.
  destruct (cmode c); cbn [tx shifting receiving]; simpl; lia.
Qed.

#[global] Instance sim_prompt : PromptBus (Sim.dev Sim.willing).
Proof.
  refine {| smooth_work := _ |}.
  - intros t. by repeat constructor.
  - intros t v (He & Hf & Hp & Hx). cbn [core_at]. change (work env _) with [Take; Shift Ack]. cbn [access run foldl].
    rewrite bool_decide_false by done. revert He Hf Hp Hx. generalize (core_at (env (dev := Sim.dev Sim.willing)) t). intros c He Hf Hp Hx.
    change (act_step c Take) with (take_word c). destruct (pending_take c) as [L1 S1], (pending_shift (take_word c)) as [L2 S2].
    destruct (decide (shifting c = None)) as [Es|Es]; [destruct (decide (receiving c = 0%nat)) as [Er|Er]|].
    + eapply Nat.le_lt_trans; [exact L2|]. apply S1; [done..|]. intros Et. apply Hp. unfold outstanding. by rewrite Et, Es, Er.
    + assert (take_word c = c) as E by (unfold take_word; by rewrite (bool_decide_true (receiving c ≠ 0%nat)), orb_true_r).
      rewrite E in *. apply S2; [by right|done].
    + assert (take_word c = c) as E.
      { unfold take_word. by rewrite (bool_decide_true (shifting c ≠ None)), orb_true_r. }
      rewrite E in *. apply S2; [by left|done].
  - intros t Hb. unfold Sim.dev. rewrite bool_decide_true by done.
    destruct (Sim.status_bits (core_at (Sim.sim_env Sim.willing) t)) as (-> & _). exact Hb.
  - intros t Hb. unfold Sim.dev. rewrite bool_decide_true by done.
    destruct (Sim.status_bits (core_at (Sim.sim_env Sim.willing) t)) as (_ & -> & _). apply bool_decide_false.
    change (length (tx (core_at (Sim.sim_env Sim.willing) t)) < 16)%nat in Hb. lia.
  - intros t Hb. unfold Sim.dev. rewrite bool_decide_true by done.
    destruct (Sim.status_bits (core_at (Sim.sim_env Sim.willing) t)) as (_ & _ & -> & _). by apply bool_decide_false.
  - intros t Hb. unfold Sim.dev. rewrite bool_decide_true by done.
    destruct (Sim.status_bits (core_at (Sim.sim_env Sim.willing) t)) as (_ & _ & _ & ->). by apply bool_decide_true.
Qed.

(** ** Claims *)


