(* ===== verification/Json.v ===== *)
(** * JSON field readers (src/software/common/json_helpers.h) and printf-style
    output

    The JSON parser (coreJSON) is library code: its two entry points are the
    operations of the class [JsonLibrary], arbitrary functions in every
    theorem.  [snprintf] is the C library's: formatted text, cut to the
    buffer, and the length it would have had. *)
From S2P Require Import Prelude.
Local Open Scope cword_scope.

(** ** The library interface *)
Inductive JSONTypes_t :=
| JSONInvalid | JSONString | JSONNumber | JSONTrue | JSONFalse | JSONNull | JSONObject | JSONArray.
#[global] Instance JSONTypes_eq_dec : EqDecision JSONTypes_t.
Proof. solve_decision. Defined.

(** [JSON_SearchConst] with its output arguments: the value's text and type. *)
Inductive json_search :=
| JSONSuccess (v : list Z) (t : JSONTypes_t) | JSONNotFound | JSONError.

Class JsonLibrary := {
  JSON_Validate : list Z → bool;
  JSON_SearchConst : list Z → list Z → json_search;
}.

(** ** The code *)
Section helpers.
Context `{JsonLibrary}.

Fixpoint plain_text (v : list Z) : bool :=
  match v with
  | [] => true
  | c :: v =>
      if bool_decide (c = chr "\") || bool_decide (c < 32) || bool_decide (c > 126) then false
      else plain_text v
  end.

(** The string stored in [out] (without its NUL); [None] is -1, and then
    [out] is not written. *)
Definition json_string (b q : list Z) (cap : nat) : option (list Z) :=
  match JSON_SearchConst b q with
  | JSONSuccess v t =>
      if bool_decide (t ≠ JSONString) || bool_decide (cap <= length v)%nat then None
      else if plain_text v then Some v else None
  | _ => None
  end.

Definition UINT32_MAX : Z := 0xffffffff.

(** The digit loop; [None] is [return -1]. *)
Fixpoint u32_digits (v : list Z) (r : Z) : option Z :=
  match v with
  | [] => Some r
  | c :: v =>
      if bool_decide (c < chr "0") || bool_decide (c > chr "9") ||
         bool_decide (r > (UINT32_MAX -32 (c - chr "0")) / 10) then None
      else u32_digits v (r * 10 +32 (c - chr "0"))
  end.

Definition json_u32 (b q : list Z) : option Z :=
  match JSON_SearchConst b q with
  | JSONSuccess v t =>
      if bool_decide (t ≠ JSONNumber) || bool_decide (length v = 0%nat) then None
      else u32_digits v 0
  | _ => None
  end.

Definition json_true (b q : list Z) : bool :=
  match JSON_SearchConst b q with
  | JSONSuccess _ t => bool_decide (t = JSONTrue)
  | _ => false
  end.
End helpers.

(** ** Formatted output

    [%u], [%lu] and [%llu]; [%d] and [%ld]; [%x] with a minimum width padded
    by zeros; [%s]. *)
Fixpoint dec_digits (fuel : nat) (n : Z) (acc : list Z) : list Z :=
  match fuel with
  | O => acc
  | S fuel =>
      let acc := chr "0" + n `mod` 10 :: acc in
      if bool_decide (n / 10 = 0) then acc else dec_digits fuel (n / 10) acc
  end.
(** Twenty digits are enough for 64 bits. *)
Definition fmt_u (n : Z) : list Z := dec_digits 20 n [].
Definition fmt_d (n : Z) : list Z :=
  if bool_decide (n < 0) then chr "-" :: fmt_u (- n) else fmt_u n.
Definition hex_digit (d : Z) : Z :=
  if bool_decide (d < 10) then chr "0" + d else chr "a" + d - 10.
Fixpoint fmt_hex (width : nat) (n : Z) : list Z :=
  match width with
  | O => []
  | S w => fmt_hex w (n / 16) ++ [hex_digit (n `mod` 16)]
  end.
Definition fmt_bool (b : bool) : list Z := str (if b then "true" else "false").

(** [snprintf(out,cap,...)]: what ends up in [out] as a C string, and the
    return value. *)
Definition snprintf (cap : nat) (text : list Z) : Z * list Z :=
  (Z.of_nat (length text), take (cap - 1) text).

(** ** Numbers *)

Definition digit_char (c : Z) : Prop := chr "0" <= c <= chr "9".
Definition decimal (r : Z) (v : list Z) : Z := foldl (λ r c, 10 * r + (c - chr "0")) r v.

Lemma decimal_ge v : ∀ r, 0 <= r → Forall digit_char v → r <= decimal r v.
Proof.
  induction v as [|c v IH]; intros r Hr Hv; [done|]. apply Forall_cons in Hv as [[Hc1 Hc2] Hv].
  cbn [decimal foldl]. etransitivity; [|apply IH; [lia|done]]. lia.
Qed.

(** The overflow test is exact. *)
Lemma u32_guard r d : is_u32 r → 0 <= d <= 9 → r > (UINT32_MAX -32 d) / 10 ↔ 2 ^ 32 <= 10 * r + d.
Proof.
  intros Hr Hd. unfold UINT32_MAX. rewrite u32_small by (unfold in_bits; lia).
  unfold in_bits in Hr. dlia.
Qed.

Lemma u32_digits_spec v r :
  is_u32 r →
  u32_digits v r =
  (if bool_decide (Forall digit_char v ∧ decimal r v < 2 ^ 32) then Some (decimal r v) else None).
Proof.
  revert r. induction v as [|c v IH]; intros r Hr; cbn [u32_digits].
  { rewrite bool_decide_true; [done|]. split; [constructor|apply Hr]. }
  assert (digit_char c ↔ ¬ c < chr "0" ∧ ¬ c > chr "9") as Hd by (unfold digit_char; lia).
  destruct (bool_decide_reflect (c < chr "0")), (bool_decide_reflect (c > chr "9")); cbn [orb];
    try (rewrite bool_decide_false; [done|]; intros [[Hc _]%Forall_cons _]; tauto).
  assert (digit_char c) as Hc by tauto.
  assert (0 <= c - chr "0" <= 9) as Hd9 by (unfold digit_char, chr in *; simpl in *; lia).
  pose proof (u32_guard r (c - chr "0") Hr Hd9) as Hg.
  case_bool_decide as Hov.
  - apply Hg in Hov. rewrite bool_decide_false; [done|]. rewrite Forall_cons. intros [[_ Hv] Hlt].
    cbn [decimal foldl] in Hlt. pose proof (decimal_ge v (10 * r + (c - chr "0"))) as Hge.
    unfold decimal in *. unfold in_bits in Hr. specialize (Hge ltac:(lia) Hv). lia.
  - assert (10 * r + (c - chr "0") < 2 ^ 32) as Hlt
      by (destruct (Z.lt_ge_cases (10 * r + (c - chr "0")) (2 ^ 32)); tauto).
    clear Hg Hov.
    unfold in_bits in Hr.
    rewrite (Z.mul_comm r 10), (u32_small (10 * r + _)) by (unfold in_bits; lia).
    rewrite IH by (unfold in_bits; lia). cbn [decimal foldl].
    case_bool_decide as H1; case_bool_decide as H2; try done; exfalso;
      rewrite Forall_cons in *; tauto.
Qed.

(** Printing a number and reading it back. *)
Lemma fmt_u_acc fuel n acc :
  0 <= n < 10 ^ Z.of_nat fuel → (0 < fuel)%nat →
  ∃ ds, dec_digits fuel n acc = ds ++ acc ∧ Forall digit_char ds ∧ ds ≠ [] ∧
    (length ds <= fuel)%nat ∧ ∀ r, decimal r ds = r * 10 ^ Z.of_nat (length ds) + n.
Proof.
  revert n acc. induction fuel as [|fuel IH]; intros n acc Hn Hf; [lia|]. cbn [dec_digits].
  rewrite Nat2Z.inj_succ, Z.pow_succ_r in Hn by lia.
  assert (0 <= n `mod` 10 < 10) as Hm by (apply Z.mod_pos_bound; lia).
  assert (digit_char (chr "0" + n `mod` 10)) as Hd by (unfold digit_char, chr; simpl; lia).
  case_bool_decide as Hz.
  - exists [chr "0" + n `mod` 10]. split_and!; [done|by apply Forall_singleton|done|simpl; lia|].
    intros r. cbn [decimal foldl length]. pose proof (Z.div_mod n 10). lia.
  - destruct (IH (n / 10) (chr "0" + n `mod` 10 :: acc)) as (ds & -> & Hds & Hne & Hlen & Hv).
    { split; [apply Z.div_pos; lia|]. apply Z.div_lt_upper_bound; lia. }
    { destruct fuel; [|lia]. exfalso. apply Hz. simpl in Hn. apply Z.div_small. lia. }
    exists (ds ++ [chr "0" + n `mod` 10]). split_and!.
    + by rewrite <-app_assoc.
    + apply Forall_app_2; [done|by apply Forall_singleton].
    + by destruct ds.
    + rewrite length_app. simpl. lia.
    + intros r. unfold decimal in *. rewrite foldl_app, Hv. cbn [foldl].
      rewrite length_app, Nat2Z.inj_add, Z.pow_add_r by lia. simpl (10 ^ Z.of_nat (length [_])).
      pose proof (Z.div_mod n 10). lia.
Qed.

Lemma fmt_u_spec n :
  is_u64 n → Forall digit_char (fmt_u n) ∧ fmt_u n ≠ [] ∧ (length (fmt_u n) <= 20)%nat ∧
  decimal 0 (fmt_u n) = n.
Proof.
  intros Hn. destruct (fmt_u_acc 20 n []) as (ds & E & Hd & Hne & Hl & Hv); [|lia|].
  { unfold in_bits in Hn. change (10 ^ Z.of_nat 20) with 100000000000000000000. lia. }
  unfold fmt_u. rewrite E, app_nil_r. split_and!; try done.
Qed.

(** A number below [10^k] prints in at most [k] characters. *)
Lemma length_dec_digits fuel k n acc :
  (0 < k)%nat → 0 <= n < 10 ^ Z.of_nat k → (length (dec_digits fuel n acc) <= k + length acc)%nat.
Proof.
  revert k n acc. induction fuel as [|fuel IH]; intros k n acc Hk Hn; cbn [dec_digits]; [lia|].
  case_bool_decide as Hz; [simpl; lia|].
  destruct k as [|[|k]]; [lia| |].
  { exfalso. apply Hz. apply Z.div_small. simpl in Hn. lia. }
  etransitivity; [apply (IH (S k)); [lia|]|simpl; lia].
  rewrite Nat2Z.inj_succ, Z.pow_succ_r in Hn by lia.
  split; [apply Z.div_pos; lia|]. apply Z.div_lt_upper_bound; lia.
Qed.

Lemma length_fmt_u k n : (0 < k)%nat → 0 <= n < 10 ^ Z.of_nat k → (length (fmt_u n) <= k)%nat.
Proof. intros Hk Hn. pose proof (length_dec_digits 20 k n [] Hk Hn) as H. rewrite Nat.add_0_r in H. exact H. Qed.

Lemma length_fmt_u32 n : is_u32 n → (length (fmt_u n) <= 10)%nat.
Proof. intros [H1 H2]. apply length_fmt_u; [lia|]. simpl. lia. Qed.

Lemma length_fmt_u64 n : is_u64 n → (length (fmt_u n) <= 20)%nat.
Proof. intros [H1 H2]. apply length_fmt_u; [lia|]. simpl. lia. Qed.

Lemma length_fmt_d32 n : - 2 ^ 31 <= n < 2 ^ 31 → (length (fmt_d n) <= 11)%nat.
Proof.
  intros Hn. unfold fmt_d. case_bool_decide.
  - cbn [length]. pose proof (length_fmt_u32 (- n)) as Hl. unfold in_bits in Hl. lia.
  - pose proof (length_fmt_u32 n) as Hl. unfold in_bits in Hl. lia.
Qed.

Lemma length_fmt_hex w n : length (fmt_hex w n) = w.
Proof. revert n. induction w as [|w IH]; intros n; [done|]. cbn [fmt_hex]. rewrite length_app, IH. simpl. lia. Qed.
#[export] Hint Rewrite length_fmt_hex : clen.

Lemma length_fmt_bool b : (length (fmt_bool b) <= 5)%nat.
Proof. destruct b; simpl; lia. Qed.

(** ** Claims *)

Section claims.
Context `{JsonLibrary}.

(** [json_u32] reads a number exactly or not at all: it returns a value
    precisely when the field is a nonempty string of decimal digits whose
    value is below 2^32, and then returns that value; no wrap-around passes. *)
Theorem json_u32_exact b q :
  json_u32 b q =
  match JSON_SearchConst b q with
  | JSONSuccess v JSONNumber =>
      if bool_decide (v ≠ [] ∧ Forall digit_char v ∧ decimal 0 v < 2 ^ 32)
      then Some (decimal 0 v) else None
  | _ => None
  end.
Proof.
  unfold json_u32. destruct (JSON_SearchConst b q) as [v t| |]; [|done..].
  destruct t; try done. cbn [bool_decide]. destruct v as [|c v]; [done|].
  rewrite (bool_decide_false (length (c :: v) = 0%nat)) by done.
  rewrite (bool_decide_false (JSONNumber ≠ JSONNumber)) by tauto. cbn [orb].
  rewrite u32_digits_spec by done.
  case_bool_decide as H1; case_bool_decide as H2; try done; exfalso; intuition done.
Qed.
End claims.
