(* ===== verification/Ina700.v ===== *)
(** * INA700 power monitor (src/software/common/ina700.c, ina700.h)

    Register-level driver over two function pointers (class [InaBus]):
    identification, configuration, and the conversion of a sample to
    physical units. *)
From S2P Require Import Prelude.
Local Open Scope cword_scope.

(** [ina700_read_fn] and [ina700_write_fn]; [None] and [false] stand for a
    nonzero return value. *)
Class InaBus (D : Type) := {
  ina_read : Z → Z → nat → D → option (list Z) * D;
  ina_write : Z → Z → Z → D → bool * D;
}.

(** ** The code *)
Definition INA700_ADC_CONFIG : Z := 0xfb6a.

Record ina700_sample := InaSample {
  valid : bool; voltage_uv : Z; power_uw : Z; sampled_ms : Z; errors : Z;
  current_ua : Z; temp_milli_c : Z
}.

Definition be16 (p : list Z) : Z := u16 (p !!! 0%nat <<. 8 .| p !!! 1%nat).
Definition signed16 (v : Z) : Z := if bool_decide (v .& 0x8000 ≠ 0) then v - 65536 else v.

Definition set_valid (v : bool) (s : ina700_sample) : ina700_sample :=
  InaSample v (voltage_uv s) (power_uw s) (sampled_ms s) (errors s) (current_ua s) (temp_milli_c s).

Section driver.
Context {D : Type} `{InaBus D}.

Definition ina700_init (address : Z) (d : D) : Z * D :=
  let '(b, d) := ina_read address 0x3e 2 d in
  match b with
  | None => (-1, d)
  | Some b =>
      if bool_decide (be16 b ≠ 0x5449) then (-1, d) else
      let '(ok, d) := ina_write address 1 INA700_ADC_CONFIG d in
      if negb ok then (-1, d) else
      let '(b, d) := ina_read address 1 2 d in
      match b with
      | None => (-1, d)
      | Some b => (if bool_decide (be16 b = INA700_ADC_CONFIG) then 0 else -1, d)
      end
  end.

(** The registers of a sample in the order the code reads them: [None] as
    soon as a read fails or a check does not hold. *)
Definition read_checked (address reg : Z) (n : nat) (check : list Z → bool) (d : D)
    : option (list Z) * D :=
  let '(b, d) := ina_read address reg n d in
  (b ← b; if check b then Some b else None, d).

Definition any_value (_ : list Z) : bool := true.

Definition read_registers (address : Z) (d : D)
    : option (list Z * list Z * list Z * list Z) * D :=
  let '(config, d) := read_checked address 1 2 (λ b, bool_decide (be16 b = INA700_ADC_CONFIG)) d in
  match config with None => (None, d) | Some _ =>
  let '(diag, d) := read_checked address 0x0b 2 (λ b, bool_decide (be16 b .& 0x203 = 3)) d in
  match diag with None => (None, d) | Some _ =>
  let '(v, d) := read_checked address 5 2 any_value d in
  match v with None => (None, d) | Some v =>
  let '(t, d) := read_checked address 6 2 any_value d in
  match t with None => (None, d) | Some t =>
  let '(i, d) := read_checked address 7 2 any_value d in
  match i with None => (None, d) | Some i =>
  let '(p, d) := read_checked address 8 3 any_value d in
  match p with None => (None, d) | Some p => (Some (v, t, i, p), d)
  end end end end end end.

Definition ina700_sample_read (address : Z) (out : ina700_sample) (d : D) : Z * ina700_sample * D :=
  let out := set_valid false out in
  let '(regs, d) := read_registers address d in
  match regs with
  | None => (-1, out, d)
  | Some (v, t, i, p) =>
      (0, InaSample true (u32 (be16 v * 3125))
            (u32 ((p !!! 0%nat <<. 16 .| p !!! 1%nat <<. 8 .| p !!! 2%nat) * 96))
            (sampled_ms out) (errors out)
            (signed16 (be16 i) * 480)
            (Z.quot (signed16 (be16 t .& 0xfff0)) 16 * 125), d)
  end.
End driver.

(** ** Units

    Big-endian values as the data sheet gives them. *)
Definition unsigned_be (p : list Z) : Z := foldl (λ r b, r * 256 + b) 0 p.
(** Two's complement of [w] bits. *)
Definition twos (w v : Z) : Z := if bool_decide (v < 2 ^ (w - 1)) then v else v - 2 ^ w.

Lemma be16_value p : is_bytes p → length p = 2%nat → be16 p = unsigned_be p ∧ is_u16 (be16 p).
Proof.
  intros Hp Hl. destruct p as [|a [|b []]]; try done.
  apply Forall_cons in Hp as [Ha Hp]. apply Forall_cons in Hp as [Hb _].
  unfold be16. simpl (_ !!! _). rewrite (shl32_small a 8), lor_fields by (done || lia).
  split; [|apply u16_range]. cbn [unsigned_be foldl]. rewrite u16_small; [lia|].
  unfold in_bits in *. lia.
Qed.

Lemma signed16_value v : is_u16 v → signed16 v = twos 16 v.
Proof.
  intros Hv. unfold signed16, twos. change 0x8000 with (Z.ones 1 * 2 ^ 15).
  rewrite land_field by lia. unfold in_bits in Hv.
  destruct (bool_decide_reflect ((v / 2 ^ 15) `mod` 2 ^ 1 * 2 ^ 15 ≠ 0)),
    (bool_decide_reflect (v < 2 ^ (16 - 1))); dlia.
Qed.

(** The temperature is the upper 12 bits; nothing is rounded. *)
Lemma temperature_value v :
  is_u16 v → Z.quot (signed16 (v .& 0xfff0)) 16 = twos 12 (v / 16).
Proof.
  intros Hv. change 0xfff0 with (Z.ones 12 * 2 ^ 4). rewrite land_field by lia.
  unfold in_bits in Hv. rewrite (Z.mod_small (v / 2 ^ 4)) by dlia.
  rewrite signed16_value by (unfold in_bits; dlia). unfold twos. change (v / 2 ^ 4) with (v / 16).
  destruct (bool_decide_reflect (v / 16 * 2 ^ 4 < 2 ^ (16 - 1))),
    (bool_decide_reflect (v / 16 < 2 ^ (12 - 1))); try lia.
  - by rewrite Z.quot_mul.
  - replace (v / 16 * 2 ^ 4 - 2 ^ 16) with ((v / 16 - 2 ^ 12) * 16) by lia. by rewrite Z.quot_mul.
Qed.

Lemma power_value p :
  is_bytes p → length p = 3%nat →
  p !!! 0%nat <<. 16 .| p !!! 1%nat <<. 8 .| p !!! 2%nat = unsigned_be p ∧ 0 <= unsigned_be p < 2 ^ 24.
Proof.
  intros Hp Hl. destruct p as [|a [|b [|c []]]]; try done.
  apply Forall_cons in Hp as [Ha Hp]. apply Forall_cons in Hp as [Hb Hp].
  apply Forall_cons in Hp as [Hc _]. simpl (_ !!! _).
  rewrite (shl32_small a 8), (shl32_small b 8) by (done || lia). unfold in_bits in *.
  rewrite (lor_fields a (b * 2 ^ 8) 16) by (done || unfold in_bits; lia).
  replace (a * 2 ^ 16 + b * 2 ^ 8) with ((a * 2 ^ 8 + b) * 2 ^ 8) by lia.
  rewrite lor_fields by (done || unfold in_bits; lia). cbn [unsigned_be foldl]. lia.
Qed.

(** A bus read delivers as many bytes as it was asked for. *)
Class InaLaws (D : Type) `{InaBus D} :=
  ina_read_bytes : ∀ a r n d b, fst (ina_read a r n d) = Some b → length b = n ∧ is_bytes b.

Section claims.
Context {D : Type} `{InaLaws D}.

Lemma read_checked_bytes a r n check (d : D) b d' :
  read_checked a r n check d = (Some b, d') → length b = n ∧ is_bytes b ∧ check b = true.
Proof.
  unfold read_checked. pose proof (ina_read_bytes a r n d) as Hb.
  destruct (ina_read a r n d) as [[b0|] d0]; simpl; [|done].
  destruct (check b0) eqn:Hc; [|done]. intros [= <- <-]. destruct (Hb b0 eq_refl). done.
Qed.

Lemma read_registers_bytes address (d : D) v t i p :
  fst (read_registers address d) = Some (v, t, i, p) →
  Forall (λ b, length b = 2%nat ∧ is_bytes b) [v; t; i] ∧ length p = 3%nat ∧ is_bytes p.
Proof.
  unfold read_registers.
  repeat match goal with
  | |- context [read_checked ?a ?r ?n ?c ?d0] =>
      let E := fresh "E" in destruct (read_checked a r n c d0) as [[?|] ?] eqn:E; [|done];
      apply read_checked_bytes in E as (? & ? & _)
  end.
  intros [= -> -> -> ->]. by repeat constructor.
Qed.
End claims.

Lemma ina700_sample_spec {D} `{InaLaws D} address (out : ina700_sample) (d : D) :
  let '(rc, s, d') := ina700_sample_read address out d in
  match fst (read_registers address d) with
  | None => rc = -1 ∧ s = set_valid false out
  | Some (v, t, i, p) =>
      rc = 0 ∧
      s = InaSample true (3125 * unsigned_be v) (96 * unsigned_be p) (sampled_ms out) (errors out)
            (480 * twos 16 (unsigned_be i)) (125 * twos 12 (unsigned_be t / 16)) ∧
      is_u32 (voltage_uv s) ∧ is_u32 (power_uw s) ∧
      - 2 ^ 31 <= current_ua s < 2 ^ 31 ∧ - 2 ^ 31 <= temp_milli_c s < 2 ^ 31
  end.
Proof.
  unfold ina700_sample_read. pose proof (read_registers_bytes address d) as Hb.
  destruct (read_registers address d) as [[[[[v t] i] p]|] d']; cbn [fst] in *; [|done].
  destruct (Hb v t i p eq_refl) as (Hvti & Hpl & Hpb). clear Hb.
  apply Forall_cons in Hvti as [[Hvl Hvb] Hvti]. apply Forall_cons in Hvti as [[Htl Htb] Hvti].
  apply Forall_cons in Hvti as [[Hil Hib] _].
  destruct (be16_value v Hvb Hvl) as [Ev Rv], (be16_value t Htb Htl) as [Et Rt],
    (be16_value i Hib Hil) as [Ei Ri], (power_value p Hpb Hpl) as [Ep Rp].
  rewrite temperature_value, signed16_value, Ep, Ev, Et, Ei by assumption.
  rewrite Ev in Rv. rewrite Et in Rt. rewrite Ei in Ri. unfold in_bits in *.
  rewrite !u32_small by (unfold in_bits; lia).
  split; [done|]. split; [f_equal; lia|]. cbn [voltage_uv power_uw current_ua temp_milli_c].
  unfold twos. split_and!; guards; dlia.
Qed.

(** ** What a sample is

    Register [r] is read, [n] bytes that are [ok], and then [k]. *)
Definition read_then {D} `{InaBus D} (address r : Z) (n : nat) (ok : list Z → Prop) (k : list Z → D → Prop) (d : D) : Prop :=
  ∃ b d1, ina_read address r n d = (Some b, d1) ∧ ok b ∧ k b d1.

Definition all_ok (_ : list Z) : Prop := True.
(** A sensor that is configured. *)
Definition configured_ok (b : list Z) : Prop := unsigned_be b = 0xfb6a.
(** A diagnosis that says that a conversion is ready (bit 1), with intact
    memory (bit 0) and no overflow (bit 9). *)
Definition ready_ok (b : list Z) : Prop :=
  Z.testbit (unsigned_be b) 0 = true ∧ Z.testbit (unsigned_be b) 1 = true ∧ Z.testbit (unsigned_be b) 9 = false.

(** The sensor is configured and ready, and then its voltage, temperature,
    current and power registers hold [v], [t], [i] and [p]; [d'] is the bus
    after that. *)
Definition measured {D} `{InaBus D} (address : Z) (d : D) (v t i p : list Z) (d' : D) : Prop :=
  read_then address 1 2 configured_ok (λ _,
  read_then address 0x0b 2 ready_ok (λ _,
  read_then address 5 2 all_ok (λ v',
  read_then address 6 2 all_ok (λ t',
  read_then address 7 2 all_ok (λ i',
  read_then address 8 3 all_ok (λ p' d1, (v', t', i', p', d1) = (v, t, i, p, d'))))))) d.

Lemma diag_bits x : 0 <= x → x .& 0x203 = 3 ↔ Z.testbit x 0 = true ∧ Z.testbit x 1 = true ∧ Z.testbit x 9 = false.
Proof.
  intros Hx. split.
  - intros E. assert (∀ i, 0 <= i → Z.testbit x i && Z.testbit 0x203 i = Z.testbit 3 i) as Hb
      by (intros i Hi; by rewrite <-Z.land_spec, E).
    pose proof (Hb 0) as H0. pose proof (Hb 1) as H1. pose proof (Hb 9) as H9.
    rewrite andb_true_r in *. split_and!; [by apply H0|by apply H1|by apply H9].
  - intros (H0 & H1 & H9). apply Z.bits_inj'. intros i Hi. rewrite Z.land_spec.
    assert (i = 0 ∨ i = 1 ∨ i = 9 ∨ Z.testbit 0x203 i = false ∧ Z.testbit 3 i = false) as [->|[->|[->|[-> ->]]]];
      [|by rewrite H0|by rewrite H1|by rewrite H9|by rewrite andb_false_r].
    destruct (Z.lt_ge_cases i 10); [|right; right; right; split; apply Z.bits_above_log2; cbn; lia].
    assert (i = 0 ∨ i = 1 ∨ i = 2 ∨ i = 3 ∨ i = 4 ∨ i = 5 ∨ i = 6 ∨ i = 7 ∨ i = 8 ∨ i = 9) by lia.
    destruct_or!; subst; auto.
Qed.

Section sampling.
Context {D : Type} `{InaLaws D}.
Implicit Types d : D.

Lemma read_then_checked address r n ok check (k : list Z → D → Prop) d :
  (∀ b, length b = n → is_bytes b → check b = true ↔ ok b) →
  read_then address r n ok k d ↔
  match read_checked address r n check d with (Some b, d1) => k b d1 | _ => False end.
Proof.
  intros Hck. unfold read_then, read_checked. pose proof (ina_read_bytes address r n d) as Hb.
  destruct (ina_read address r n d) as [[b|] d1]; simpl; [|by split; [intros (? & ? & ? & _)|]].
  destruct (Hb b eq_refl) as [Hl Hbs]. specialize (Hck b Hl Hbs).
  destruct (check b); split; [by intros (? & ? & [= <- <-] & _ & Hk)|intros Hk; exists b, d1; by rewrite <-Hck| |done].
  intros (? & ? & [= <- <-] & Ho & _). by apply Hck in Ho.
Qed.

Lemma config_check b :
  length b = 2%nat → is_bytes b → bool_decide (be16 b = INA700_ADC_CONFIG) = true ↔ configured_ok b.
Proof. intros Hl Hb. rewrite bool_decide_eq_true. by destruct (be16_value b Hb Hl) as [-> _]. Qed.

Lemma diag_check b : length b = 2%nat → is_bytes b → bool_decide (be16 b .& 0x203 = 3) = true ↔ ready_ok b.
Proof.
  intros Hl Hb. rewrite bool_decide_eq_true. unfold ready_ok. destruct (be16_value b Hb Hl) as [<- [Hr _]].
  by apply diag_bits.
Qed.

Lemma value_check b : any_value b = true ↔ all_ok b.
Proof. done. Qed.

(** The code reads on when and only when the sensor measures. *)
Lemma read_registers_measured address d v t i p d' :
  measured address d v t i p d' ↔ read_registers address d = (Some (v, t, i, p), d').
Proof.
  unfold measured, read_registers.
  rewrite (read_then_checked _ _ _ _ _ _ _ config_check). destruct (read_checked address 1 2 _ d) as [[c|] d1]; [|done].
  rewrite (read_then_checked _ _ _ _ _ _ _ diag_check). destruct (read_checked address 0x0b 2 _ d1) as [[g|] d2]; [|done].
  do 4 (rewrite (read_then_checked _ _ _ _ _ _ _ (λ b _ _, value_check b));
    destruct (read_checked address _ _ any_value _) as [[?|] ?]; [|done]).
  split; by intros [= -> -> -> -> ->].
Qed.
End sampling.

(** C37. A sample is valid only after all checks, and exact.  The result is 0
    exactly when the sensor is configured (register 1 holds 0xfb6a), its
    diagnosis (register 0x0b) says ready with intact memory and no overflow,
    and the voltage, temperature, current and power registers (5 to 8) can be
    read after that; the sample is then valid and holds 3125 uV per voltage
    count, 480 uA per signed current count, 96 uW per power count and 125
    mdegC per signed 12-bit temperature count, with no overflow of the C
    types.  Otherwise the result is -1 and the sample is marked invalid with
    every other field as it was. *)
Theorem ina700_sample_exact {D} `{InaLaws D} address (out : ina700_sample) (d : D) :
  let '(rc, s, d') := ina700_sample_read address out d in
  (rc = 0 ∧ ∃ v t i p, measured address d v t i p d' ∧
    s = InaSample true (3125 * unsigned_be v) (96 * unsigned_be p) (sampled_ms out) (errors out)
          (480 * twos 16 (unsigned_be i)) (125 * twos 12 (unsigned_be t / 16)) ∧
    is_u32 (voltage_uv s) ∧ is_u32 (power_uw s) ∧
    - 2 ^ 31 <= current_ua s < 2 ^ 31 ∧ - 2 ^ 31 <= temp_milli_c s < 2 ^ 31) ∨
  (rc = -1 ∧ s = set_valid false out ∧ ∀ v t i p d'', ¬ measured address d v t i p d'').
Proof.
  pose proof (ina700_sample_spec address out d) as Hs. pose proof (read_registers_measured address d) as Hm.
  assert (snd (ina700_sample_read address out d) = snd (read_registers address d)) as Hd.
  { unfold ina700_sample_read. by destruct (read_registers address d) as [[[[[? ?] ?] ?]|] ?]. }
  destruct (ina700_sample_read address out d) as [[rc s] d']. cbn [snd] in Hd.
  destruct (read_registers address d) as [[[[[v t] i] p]|] d1]; cbn [fst snd] in *; subst d1.
  - left. destruct Hs as [-> Hs]. split; [done|]. exists v, t, i, p. split; [by apply Hm|exact Hs].
  - right. destruct Hs as [-> ->]. split_and!; [done|done|]. by intros * ?%Hm.
Qed.

(** A sensor whose registers all read as one constant pattern. *)
Module ConstSensor.
Definition registers (r : Z) : list Z :=
  if bool_decide (r = 1) then [0xfb; 0x6a] else
  if bool_decide (r = 0x0b) then [0; 3] else
  if bool_decide (r = 5) then [0x06; 0x40] else
  if bool_decide (r = 6) then [0xff; 0xf0] else
  if bool_decide (r = 7) then [0xff; 0xff] else [0; 0; 1].
#[global] Instance ops : InaBus unit := {
  ina_read _ r n d := (if bool_decide (length (registers r) = n) then Some (registers r) else None, d);
  ina_write _ _ _ d := (true, d);
}.
#[global] Instance laws : InaLaws unit.
Proof.
  intros a r n d b. cbn. case_bool_decide as Hn; [|done]. intros [= <-]. split; [done|].
  unfold registers. guards; repeat constructor; done.
Qed.
End ConstSensor.

Lemma ina700_sample_exact_witness :
  let '(rc, s, _) := ina700_sample_read 0x44 (InaSample false 0 0 17 2 0 0) tt in
  rc = 0 ∧ s = InaSample true 5000000 96 17 2 (-480) (-125).
Proof.
  pose proof (ina700_sample_exact 0x44 (InaSample false 0 0 17 2 0 0) tt) as H.
  assert (fst (fst (ina700_sample_read 0x44 (InaSample false 0 0 17 2 0 0) tt)) = 0) as Hrc by (vm_compute; reflexivity).
  destruct (ina700_sample_read 0x44 (InaSample false 0 0 17 2 0 0) tt) as [[rc s] d']. cbn [fst] in Hrc.
  destruct H as [(H1 & v & t & i & p & Hm & H2 & _)|[H1 _]]; [|rewrite H1 in Hrc; discriminate Hrc].
  apply read_registers_measured in Hm. vm_compute in Hm. injection Hm as <- <- <- <- _.
  split; [exact H1|]. rewrite H2. vm_compute. reflexivity.
Defined.
