(* ===== verification/Protocol.v ===== *)
(** * Dashboard protocol (src/software/common/miner_protocol.c, .h)

    Parsing of configuration requests and the JSON texts the miner sends.
    Character arrays that the code only uses as C strings are their contents
    up to the NUL (events, statistics); those of [miner_settings] are full
    arrays, as in Settings. *)
From S2P Require Import Prelude Settings Json Ina700.
Local Open Scope cword_scope.

(** JSON text in a Rocq string: an apostrophe stands for a double quote. *)
Definition jstr (s : string) : list Z := (λ c, if bool_decide (c = 39) then 34 else c) <$> str s.

(** ** The code *)
Definition MINER_TELEMETRY_MAX : nat := 3072.
Definition APPLICATION_VERSION : list Z := str "1.1.0".

Record miner_event := MinerEvent {
  ev_name : list Z; ev_job_id : list Z; ev_submission : list Z; ev_hash : list Z;
  ev_job_number : Z
}.

Record miner_stats := MinerStats {
  st_job_id : list Z;
  jobs : Z; submitted : Z; accepted : Z; rejected : Z; invalid : Z; dropped : Z;
  hashrate_hps : Z; sample_ms : Z; engines : Z; hw_version : Z; bootloader_version : Z;
  hashes_total : Z;
  connected : bool; st_authorized : bool; mining : bool; hashrate_valid : bool;
  power : ina700_sample * ina700_sample
}.

Definition mac_digit (c : Z) : Z :=
  if bool_decide (c >= chr "0") && bool_decide (c <= chr "9") then c - chr "0"
  else if bool_decide (c >= chr "a") && bool_decide (c <= chr "f") then c - chr "a" + 10
  else if bool_decide (c >= chr "A") && bool_decide (c <= chr "F") then c - chr "A" + 10
  else -1.

(** The loop of [parse_mac] at [i] with [k] bytes to go. *)
Fixpoint parse_mac_loop (s : list Z) (k i : nat) (mac : list Z) : option (list Z) :=
  match k with
  | O => Some mac
  | S k =>
      let v0 := mac_digit (s !!! (3 * i)%nat) in
      if bool_decide (v0 < 0) then None else
      let v1 := mac_digit (s !!! (3 * i + 1)%nat) in
      if bool_decide (v1 < 0) then None else
      let mac := <[i := u8 ((0 * 16 + v0) * 16 + v1)]> mac in
      if bool_decide (i < 5)%nat && bool_decide (s !!! (3 * i + 2)%nat ≠ chr ":") then None
      else parse_mac_loop s k (i + 1) mac
  end.
Definition parse_mac (s mac : list Z) : option (list Z) :=
  if bool_decide (length s ≠ 17%nat) then None else parse_mac_loop s 6 0 mac.

(** [memcpy(out,v,len);out[len]=0;] *)
Definition store_string (out v : list Z) : list Z := memcpy out 0 (v ++ [0]).

Section parse.
Context `{JsonLibrary}.

(** The error message, or the settings left in [*next]. *)
Definition miner_config_parse (line : list Z) (current : miner_settings) : string + miner_settings :=
  if negb (JSON_Validate line) then inl "invalid JSON request"%string else
  match json_string line (str "command") 24 with
  | None => inl "invalid JSON request"%string
  | Some command =>
      if bool_decide (command ≠ str "configure") then inl "unsupported command"%string else
      match (m ← json_string line (str "mac") 18; m ← parse_mac m (mac current);
             h ← json_string line (str "host") 96; w ← json_string line (str "worker") 128;
             p ← json_u32 line (str "port");
             if bool_decide (p > 65535) then None else Some (m, h, w, p)) with
      | None => inl "invalid fields"%string
      | Some (m, h, w, p) =>
          match (match JSON_SearchConst line (str "password") with
                 | JSONNotFound => Some (password current)
                 | JSONError => None
                 | JSONSuccess _ _ =>
                     pw ← json_string line (str "password") 64; Some (store_string (password current) pw)
                 end) with
          | None => inl "invalid password"%string
          | Some pw =>
              let next := MinerSettings m (u16 p) (store_string (host current) h)
                            (store_string (worker current) w) pw in
              if settings_valid next then inr next else inl "invalid settings"%string
          end
      end
  end.
End parse.

Definition mac_text (m : list Z) : list Z :=
  fmt_hex 2 (m !!! 0%nat) ++ str ":" ++ fmt_hex 2 (m !!! 1%nat) ++ str ":" ++
  fmt_hex 2 (m !!! 2%nat) ++ str ":" ++ fmt_hex 2 (m !!! 3%nat) ++ str ":" ++
  fmt_hex 2 (m !!! 4%nat) ++ str ":" ++ fmt_hex 2 (m !!! 5%nat).

(** The texts are concatenations of their fragments. *)
Definition config_text (s : miner_settings) (stored : bool) (active : list Z) : list Z :=
  concat [jstr "{'ok':true,'stored':"; fmt_bool stored; jstr ",'mac':'"; mac_text (mac s);
    jstr "','active_mac':'"; mac_text active; jstr "','host':'"; cstr (host s);
    jstr "','port':"; fmt_u (port s); jstr ",'worker':'"; cstr (worker s);
    jstr "','password_set':"; fmt_bool (bool_decide (password s !!! 0%nat ≠ 0)); jstr "}"; [10]].

Definition miner_config_json (cap : nat) (s : miner_settings) (stored : bool) (active : list Z)
    : Z * list Z :=
  if negb (settings_valid s) then (-1, []) else snprintf cap (config_text s stored active).

Definition miner_hashrate (previous current ticks tick_hz : Z) : Z :=
  if bool_decide (ticks ≠ 0) then u32 (u64 (u32 (current - previous) * tick_hz) / ticks) else 0.

Definition version_text (version : Z) : list Z :=
  if bool_decide (version = 0) then str "null"
  else concat [jstr "'"; fmt_u (version >>. 24); str "."; fmt_u ((version >>. 16) .& 255); str ".";
               fmt_u (version .& 65535); jstr "'"].
Definition version_json (cap : nat) (version : Z) : list Z := snd (snprintf cap (version_text version)).

Definition submission_text (e : miner_event) : list Z :=
  if bool_decide (ev_submission e = []) then str "null" else ev_submission e.

Definition details_text (e : miner_event) : list Z :=
  concat [jstr "'details':{'job_number':"; fmt_u (ev_job_number e); jstr ",'job_id':'"; ev_job_id e;
    jstr "','submission':"; submission_text e; jstr ",'hash':'"; ev_hash e; jstr "'}}"].

Definition event_text (e : miner_event) (seq event_seq uptime centi : Z) (mac : list Z) : list Z :=
  concat [jstr "{'protocol':'SCU35/1','partial':true,'seq':"; fmt_u seq; jstr ",'event_seq':";
    fmt_u event_seq; jstr ",'event':'"; ev_name e; jstr "','mac':'"; mac_text mac;
    jstr "','uptime_ms':"; fmt_u uptime; jstr ",'temp_centi':"; fmt_d centi; jstr ","; details_text e].
Definition miner_event_json (cap : nat) (e : miner_event) (seq event_seq uptime centi : Z)
    (mac : list Z) : Z * list Z :=
  snprintf cap (event_text e seq event_seq uptime centi mac).

Definition power_text (s : ina700_sample) (now : Z) : list Z :=
  let age := now -32 sampled_ms s in
  if negb (valid s) || bool_decide (age > 3000) then
    concat [jstr "{'valid':false,'voltage_uv':null,'current_ua':null,'power_uw':null,";
            jstr "'temp_milli_c':null,'age_ms':null,'errors':"; fmt_u (errors s); jstr "}"]
  else
    concat [jstr "{'valid':true,'voltage_uv':"; fmt_u (voltage_uv s); jstr ",'current_ua':";
      fmt_d (current_ua s); jstr ",'power_uw':"; fmt_u (power_uw s); jstr ",'temp_milli_c':";
      fmt_d (temp_milli_c s); jstr ",'age_ms':"; fmt_u age; jstr ",'errors':"; fmt_u (errors s); jstr "}"].
Definition power_json (cap : nat) (s : ina700_sample) (now : Z) : list Z :=
  snd (snprintf cap (power_text s now)).

Definition telemetry_text (s : miner_stats) (e : miner_event) (seq event_seq uptime centi : Z)
    (mac : list Z) (network phy : bool) : list Z :=
  let power5 := power_json 256 (fst (power s)) uptime in
  let core := power_json 256 (snd (power s)) uptime in
  let hw := version_json 24 (hw_version s) in
  let boot := version_json 24 (bootloader_version s) in
  let rate := if hashrate_valid s then snd (snprintf 24 (fmt_u (hashrate_hps s))) else str "null" in
  concat [jstr "{'protocol':'SCU35/1','seq':"; fmt_u seq; jstr ",'event_seq':"; fmt_u event_seq;
    jstr ",'event':'"; ev_name e; jstr "','mac':'"; mac_text mac; jstr "','uptime_ms':"; fmt_u uptime;
    jstr ",'temp_centi':"; fmt_d centi; jstr ",'cpu_mhz':50,'engines':"; fmt_u (engines s);
    jstr ",'hw_version':"; hw; jstr ",'bootloader_version':"; boot;
    jstr ",'application_version':'"; APPLICATION_VERSION; jstr "','network_up':"; fmt_bool network;
    jstr ",'phy_known':"; fmt_bool phy; jstr ",'reboot_supported':false,'config_port':4029,";
    jstr "'pool_connected':"; fmt_bool (connected s); jstr ",'pool_authorized':";
    fmt_bool (st_authorized s); jstr ",'mining':"; fmt_bool (mining s); jstr ",'job_number':";
    fmt_u (jobs s); jstr ",'job_id':'"; st_job_id s; jstr "','shares_submitted':"; fmt_u (submitted s);
    jstr ",'shares_accepted':"; fmt_u (accepted s); jstr ",'shares_rejected':"; fmt_u (rejected s);
    jstr ",'hardware_errors':"; fmt_u (invalid s); jstr ",'events_dropped':"; fmt_u (dropped s);
    jstr ",'hashrate_hps':"; rate; jstr ",'hashrate_source':'hardware_counter','hashrate_sample_ms':";
    fmt_u (sample_ms s); jstr ",'hashes_total':"; fmt_u (hashes_total s);
    jstr ",'power':{'source':'INA700','internal_5v':"; power5; jstr ",'vccint':"; core; jstr "},";
    details_text e].
Definition miner_telemetry_json (cap : nat) (s : miner_stats) (e : miner_event)
    (seq event_seq uptime centi : Z) (mac : list Z) (network phy : bool) : Z * list Z :=
  snprintf cap (telemetry_text s e seq event_seq uptime centi mac network phy).

(** ** Lengths *)

Definition event_ok (e : miner_event) : Prop :=
  (length (ev_name e) <= 63)%nat ∧ (length (ev_job_id e) <= 127)%nat ∧
  (length (ev_submission e) <= 639)%nat ∧ (length (ev_hash e) <= 64)%nat ∧ is_u32 (ev_job_number e).

Definition is_s32 (z : Z) : Prop := - 2 ^ 31 <= z < 2 ^ 31.
#[global] Instance is_s32_dec z : Decision (is_s32 z).
Proof. unfold is_s32. apply _. Defined.

Definition sample_ok (s : ina700_sample) : Prop :=
  is_u32 (voltage_uv s) ∧ is_u32 (power_uw s) ∧ is_u32 (errors s) ∧ is_s32 (current_ua s) ∧
  is_s32 (temp_milli_c s).

Definition stats_ok (s : miner_stats) : Prop :=
  (length (st_job_id s) <= 127)%nat ∧
  Forall (in_bits 32) [jobs s; submitted s; accepted s; rejected s; invalid s; dropped s;
    hashrate_hps s; sample_ms s; engines s; hw_version s; bootloader_version s] ∧
  is_u64 (hashes_total s) ∧ sample_ok (fst (power s)) ∧ sample_ok (snd (power s)).

#[global] Instance event_ok_dec e : Decision (event_ok e).
Proof. unfold event_ok. apply _. Defined.
#[global] Instance stats_ok_dec s : Decision (stats_ok s).
Proof. unfold stats_ok, sample_ok. apply _. Defined.

Lemma length_jstr s : length (jstr s) = String.length s.
Proof. unfold jstr. rewrite length_fmap. induction s; simpl; congruence. Qed.

Lemma length_str s : length (str s) = String.length s.
Proof. induction s; simpl; congruence. Qed.

Lemma length_mac_text m : length (mac_text m) = 17%nat.
Proof. unfold mac_text. by rewrite !length_app, !length_fmt_hex. Qed.

(** Sums of fragment lengths: constants evaluated, the rest bounded by the
    facts at hand. *)
#[export] Hint Rewrite length_jstr length_str length_mac_text : clen.
Ltac fragments :=
  cbn [concat]; autorewrite with clen;
  repeat match goal with
  | |- context [String.length ?s] => let n := eval vm_compute in (String.length s) in
      change (String.length s) with n
  end;
  repeat match goal with
  | H : is_u32 ?n |- context [length (fmt_u ?n)] =>
      lazymatch goal with
      | _ : (length (fmt_u n) <= _)%nat |- _ => fail
      | _ => pose proof (length_fmt_u32 n H)
      end
  | H : is_u64 ?n |- context [length (fmt_u ?n)] =>
      lazymatch goal with
      | _ : (length (fmt_u n) <= _)%nat |- _ => fail
      | _ => pose proof (length_fmt_u64 n H)
      end
  | H : is_s32 ?n |- context [length (fmt_d ?n)] =>
      lazymatch goal with
      | _ : (length (fmt_d n) <= _)%nat |- _ => fail
      | _ => pose proof (length_fmt_d32 n H)
      end
  | |- context [length (fmt_bool ?b)] =>
      lazymatch goal with
      | _ : (length (fmt_bool b) <= _)%nat |- _ => fail
      | _ => pose proof (length_fmt_bool b)
      end
  end;
  cbn [length]; lia.

Lemma power_text_length s now : sample_ok s → (length (power_text s now) <= 163)%nat.
Proof.
  intros (H1 & H2 & H3 & H4 & H5). unfold power_text. pose proof (u32_range (now - sampled_ms s)) as Ha.
  destruct (negb (valid s) || _); fragments.
Qed.

Lemma version_text_length v : is_u32 v → (length (version_text v) <= 15)%nat.
Proof.
  intros Hv. unfold version_text. case_bool_decide; [simpl; lia|].
  assert (length (fmt_u (v >>. 24)) <= 3)%nat.
  { apply length_fmt_u; [lia|]. rewrite Z.shiftr_div_pow2 by lia. unfold in_bits in Hv. simpl. dlia. }
  assert (length (fmt_u ((v >>. 16) .& 255)) <= 3)%nat.
  { apply length_fmt_u; [lia|]. change 255 with (Z.ones 8). rewrite Z.land_ones by lia. simpl. dlia. }
  assert (length (fmt_u (v .& 65535)) <= 5)%nat.
  { apply length_fmt_u; [lia|]. change 65535 with (Z.ones 16). rewrite Z.land_ones by lia. simpl. dlia. }
  fragments.
Qed.

Lemma details_text_length e :
  event_ok e → (length (details_text e) <= 72 + length (ev_job_id e) + max 4 (length (ev_submission e))
     + length (ev_hash e))%nat.
Proof.
  intros (H1 & H2 & H3 & H4 & H5). unfold details_text.
  assert (length (submission_text e) <= max 4 (length (ev_submission e)))%nat.
  { unfold submission_text. case_bool_decide; [simpl; lia|lia]. }
  fragments.
Qed.

Lemma event_text_length e seq event_seq uptime centi mac :
  event_ok e → is_u32 seq → is_u32 event_seq → is_u32 uptime → is_s32 centi →
  (length (event_text e seq event_seq uptime centi mac) <= 1200)%nat.
Proof.
  intros He Hs Hes Hu Hc. pose proof (details_text_length e He) as Hd.
  destruct He as (H1 & H2 & H3 & H4 & H5). unfold event_text. fragments.
Qed.

Lemma snprintf_fits cap text : (length text < cap)%nat → snd (snprintf cap text) = text.
Proof. intros. unfold snprintf. cbn [snd]. apply take_ge. lia. Qed.

Lemma length_snprintf cap text : (length (snd (snprintf cap text)) <= length text)%nat.
Proof. unfold snprintf. cbn [snd]. rewrite length_take. lia. Qed.

(** The length of a telemetry message, the free text counted exactly. *)
Lemma telemetry_text_length s e seq event_seq uptime centi mac network phy :
  stats_ok s → event_ok e → is_u32 seq → is_u32 event_seq → is_u32 uptime → is_s32 centi →
  (length (telemetry_text s e seq event_seq uptime centi mac network phy) <=
   1250 + length (st_job_id s) + length (ev_name e) + length (ev_job_id e) + max 4 (length (ev_submission e))
     + length (ev_hash e))%nat.
Proof.
  intros (Hj & Hn & Ht & Hp0 & Hp1) He Hs Hes Hu Hc.
  pose proof (details_text_length e He) as Hd.
  repeat match goal with H : Forall _ (_ :: _) |- _ => apply Forall_cons in H as [? H] end.
  assert (length (if hashrate_valid s then snd (snprintf 24 (fmt_u (hashrate_hps s))) else str "null")
    <= 10)%nat.
  { destruct (hashrate_valid s); [|simpl; lia].
    etransitivity; [apply length_snprintf|]. by apply length_fmt_u32. }
  assert (∀ v, is_u32 v → length (version_json 24 v) <= 15)%nat as Hv.
  { intros v Hv. etransitivity; [apply length_snprintf|]. by apply version_text_length. }
  assert (∀ p, sample_ok p → length (power_json 256 p uptime) <= 163)%nat as Hp.
  { intros p Hp. etransitivity; [apply length_snprintf|]. by apply power_text_length. }
  pose proof (Hv (hw_version s) ltac:(done)). pose proof (Hv (bootloader_version s) ltac:(done)).
  pose proof (Hp _ Hp0). pose proof (Hp _ Hp1).
  unfold telemetry_text, APPLICATION_VERSION. cbv zeta. fragments.
Qed.

Lemma length_cstr l : (length (cstr l) <= length l)%nat.
Proof. induction l as [|c l IH]; simpl; [lia|]. case_bool_decide; simpl; lia. Qed.

Lemma config_text_length s stored active :
  length (host s) = 96%nat → length (worker s) = 128%nat → is_u16 (port s) →
  (0 < length (config_text s stored active) < 1024)%nat.
Proof.
  intros Lh Lw Hport. pose proof (length_cstr (host s)). pose proof (length_cstr (worker s)).
  assert (length (fmt_u (port s)) <= 5)%nat
    by (apply length_fmt_u; [lia|]; unfold in_bits in Hport; simpl; lia).
  unfold config_text. split; [simpl; lia|]. fragments.
Qed.

(** ** Strings *)

Lemma plain_text_spec v : plain_text v = true → Forall (λ c, 32 <= c <= 126) v.
Proof.
  induction v as [|c v IH]; [constructor|]. cbn [plain_text].
  destruct (bool_decide_reflect (c = chr "\")), (bool_decide_reflect (c < 32)),
    (bool_decide_reflect (c > 126)); cbn [orb]; try done.
  intros Hv. constructor; [lia|by apply IH].
Qed.

Lemma cstr_store_string out v :
  (length v < length out)%nat → Forall (λ c, 32 <= c <= 126) v →
  cstr (store_string out v) = v ∧ length (store_string out v) = length out ∧
  (is_bytes out → is_bytes (store_string out v)).
Proof.
  intros Hl Hv. unfold store_string. split_and!.
  - rewrite memcpy_eq by len. cbn [take]. rewrite app_nil_l, <-app_assoc.
    apply cstr_app. eapply Forall_impl; [done|]. intros c Hc. cbn in Hc. lia.
  - apply length_memcpy.
  - intros Hb. apply Forall_memcpy; [done|]. apply Forall_app_2; [|by apply Forall_singleton].
    eapply Forall_impl; [done|]. intros c Hc. cbn in Hc. unfold in_bits. lia.
Qed.

Lemma mac_digit_range c : mac_digit c = -1 ∨ 0 <= mac_digit c < 16.
Proof. unfold mac_digit, chr. simpl. guards; lia. Qed.

Lemma parse_mac_loop_ok s k i m m' :
  is_bytes m → parse_mac_loop s k i m = Some m' → length m' = length m ∧ is_bytes m'.
Proof.
  revert i m. induction k as [|k IH]; intros i m Hm; cbn [parse_mac_loop]; [by intros [= <-]|].
  case_bool_decide; [done|]. case_bool_decide; [done|]. case_match; [done|]. intros Hp.
  apply IH in Hp; [|apply Forall_insert; [done|apply u8_range]].
  by rewrite length_insert in Hp.
Qed.

Section config.
Context `{JsonLibrary}.

Lemma json_string_spec b q cap v :
  json_string b q cap = Some v → (length v < cap)%nat ∧ Forall (λ c, 32 <= c <= 126) v.
Proof.
  unfold json_string. destruct (JSON_SearchConst b q) as [w t| |]; [|done..].
  destruct (bool_decide_reflect (t ≠ JSONString)); cbn [orb]; [done|].
  case_bool_decide; [done|]. destruct (plain_text w) eqn:Hp; [|done]. intros [= <-].
  split; [lia|by apply plain_text_spec].
Qed.

(** What an accepted request leaves in the new settings. *)
Definition accepted_config (line : list Z) (current next : miner_settings) : Prop :=
  settings_ok next ∧ settings_valid next = true ∧
  json_string line (str "host") 96 = Some (cstr (host next)) ∧
  json_string line (str "worker") 128 = Some (cstr (worker next)) ∧
  json_u32 line (str "port") = Some (port next) ∧
  (∃ m, json_string line (str "mac") 18 = Some m ∧ parse_mac m (mac current) = Some (mac next)) ∧
  match JSON_SearchConst line (str "password") with
  | JSONNotFound => password next = password current
  | _ => json_string line (str "password") 64 = Some (cstr (password next))
  end.

Lemma json_u32_range b q p : json_u32 b q = Some p → 0 <= p.
Proof.
  unfold json_u32. destruct (JSON_SearchConst b q) as [w t| |]; [|done..].
  destruct (_ || _); [done|]. rewrite u32_digits_spec by done. case_bool_decide as Hd; [|done].
  intros [= <-]. apply decimal_ge; [done|apply Hd].
Qed.

Lemma config_parse_spec line current :
  settings_ok current →
  match miner_config_parse line current with
  | inl _ => True
  | inr next => accepted_config line current next
  end.
Proof.
  intros [(Lm & Lh & Lw & Lp) (Bm & _ & Bh & Bw & Bp)]. unfold miner_config_parse, accepted_config.
  destruct (JSON_Validate line); cbn [negb]; [|done].
  destruct (json_string line (str "command") 24) as [command|]; [|done].
  case_bool_decide; [done|].
  destruct (json_string line (str "mac") 18) as [mt|] eqn:Em; cbn [mbind option_bind]; [|done].
  destruct (parse_mac mt (mac current)) as [m|] eqn:Epm; cbn [mbind option_bind]; [|done].
  destruct (json_string line (str "host") 96) as [h|] eqn:Eh; cbn [mbind option_bind]; [|done].
  destruct (json_string line (str "worker") 128) as [w|] eqn:Ew; cbn [mbind option_bind]; [|done].
  destruct (json_u32 line (str "port")) as [p|] eqn:Ep; cbn [mbind option_bind]; [|done].
  case_bool_decide as Hp; [done|].
  apply json_string_spec in Eh as Hh. apply json_string_spec in Ew as Hw.
  apply json_u32_range in Ep as Hp0.
  destruct (cstr_store_string (host current) h) as (Ch & Lh' & Bh'); [lia|tauto|].
  destruct (cstr_store_string (worker current) w) as (Cw & Lw' & Bw'); [lia|tauto|].
  assert (length m = 6%nat ∧ is_bytes m) as [Lm' Bm'].
  { unfold parse_mac in Epm. case_bool_decide; [done|].
    apply parse_mac_loop_ok in Epm; [|done]. by rewrite Lm in Epm. }
  assert (∀ pw, length pw = 64%nat → is_bytes pw →
    settings_ok (MinerSettings m (u16 p) (store_string (host current) h)
      (store_string (worker current) w) pw)) as Hok.
  { intros pw Lpw Bpw. split; [cbn; split_and!; congruence|].
    split_and!; cbn; auto; apply u16_range. }
  assert (u16 p = p) as Ep16 by (apply u16_small; unfold in_bits; lia).
  destruct (JSON_SearchConst line (str "password")) as [v t| |] eqn:Es; [| |done].
  - destruct (json_string line (str "password") 64) as [pw|] eqn:Epw; cbn [mbind option_bind]; [|done].
    apply json_string_spec in Epw as Hpw.
    destruct (cstr_store_string (password current) pw) as (Cp & Lp' & Bp'); [lia|tauto|].
    destruct (settings_valid _) eqn:Hv; [|exact I]. cbn [host worker port mac password] in *. rewrite Ch, Cw, Cp, Ep16 in *.
    split; [apply Hok; [congruence|auto]|]. split_and!; eauto.
  - destruct (settings_valid _) eqn:Hv; [|exact I]. cbn [host worker port mac password] in *. rewrite Ch, Cw, Ep16 in *.
    split; [apply Hok; [congruence|auto]|]. split_and!; eauto.
Qed.
End config.

(** A parser for one fixed request, for the examples. *)
Module OneRequest.
#[global] Instance library : JsonLibrary := {
  JSON_Validate _ := true;
  JSON_SearchConst _ q :=
    if bool_decide (q = str "command") then JSONSuccess (str "configure") JSONString else
    if bool_decide (q = str "mac") then JSONSuccess (str "02:00:00:aA:bB:01") JSONString else
    if bool_decide (q = str "host") then JSONSuccess (str "pool.example.org") JSONString else
    if bool_decide (q = str "worker") then JSONSuccess (str "w1") JSONString else
    if bool_decide (q = str "port") then JSONSuccess (str "3334") JSONNumber else JSONNotFound;
}.
End OneRequest.

(** ** Claims *)

(** A configuration request changes exactly what it says.  If the parser
    accepts a request, the new settings have the right sizes and are valid,
    host, worker, port and MAC address are the request's, an omitted password
    keeps the stored one and a given one (possibly empty) replaces it. *)
Theorem config_parse_sound `{JsonLibrary} line current next :
  settings_ok current → miner_config_parse line current = inr next →
  accepted_config line current next.
Proof.
  intros Hok Hp. pose proof (config_parse_spec line current Hok) as Hs. by rewrite Hp in Hs.
Qed.

Lemma config_parse_sound_witness :
  ∃ next, miner_config_parse [] example_settings = inr next ∧
    accepted_config [] example_settings next ∧ password next = password example_settings.
Proof.
  eexists. split; [vm_compute; reflexivity|].
  match goal with |- accepted_config _ _ ?n ∧ _ =>
    assert (accepted_config [] example_settings n) as H end.
  { apply config_parse_sound; [refine (bool_decide_unpack _ _); vm_compute; exact I|].
    vm_compute. reflexivity. }
  split; [exact H|]. vm_compute. reflexivity.
Defined.

(** C38. Configuration readback keeps the password secret and is complete: for
    valid settings, replacing the password by any other of the same emptiness
    changes nothing in the reply, and the reply fits the 1024-byte buffer it
    is built in with room for the NUL. *)
Theorem config_json_secret s pw stored active :
  settings_ok s → settings_valid s = true →
  settings_valid (MinerSettings (mac s) (port s) (host s) (worker s) pw) = true →
  (pw !!! 0%nat = 0 ↔ password s !!! 0%nat = 0) →
  miner_config_json 1024 (MinerSettings (mac s) (port s) (host s) (worker s) pw) stored active =
    miner_config_json 1024 s stored active ∧
  0 < fst (miner_config_json 1024 s stored active) < 1024.
Proof.
  intros [(Lm & Lh & Lw & Lp) (_ & Hport & _)] Hv Hv' Hpw. unfold miner_config_json.
  rewrite Hv, Hv'. cbn [negb]. split.
  - f_equal. unfold config_text. cbn [mac port host worker password].
    by rewrite (bool_decide_ext (pw !!! 0%nat ≠ 0) (password s !!! 0%nat ≠ 0)) by tauto.
  - unfold snprintf. cbn [fst]. pose proof (config_text_length s stored active Lh Lw Hport). lia.
Qed.

Lemma config_json_secret_witness :
  miner_config_json 1024 (MinerSettings (mac example_settings) (port example_settings)
    (host example_settings) (worker example_settings) (pad 64 "hunter2")) true (mac example_settings) =
  miner_config_json 1024 example_settings true (mac example_settings).
Proof.
  apply (config_json_secret example_settings (pad 64 "hunter2") true (mac example_settings));
    [refine (bool_decide_unpack _ _); vm_compute; exact I|vm_compute; reflexivity..|].
  split; vm_compute; discriminate.
Defined.

(** Messages are never cut.  For statistics and events within their C
    types, the full telemetry message fits its 3072-byte buffer; the status
    message without event text and the separate event message, into which an
    oversized one is split, each fit one 1472-byte UDP payload. *)
Theorem telemetry_fits s e seq event_seq uptime centi mac network phy :
  stats_ok s → event_ok e → is_u32 seq → is_u32 event_seq → is_u32 uptime → is_s32 centi →
  fst (miner_telemetry_json MINER_TELEMETRY_MAX s e seq event_seq uptime centi mac network phy) < 3072 ∧
  fst (miner_telemetry_json MINER_TELEMETRY_MAX s (MinerEvent (str "status") [] [] [] 0) seq event_seq
         uptime centi mac network phy) <= 1472 ∧
  fst (miner_event_json MINER_TELEMETRY_MAX e seq event_seq uptime centi mac) <= 1472.
Proof.
  intros Hs He H1 H2 H3 H4.
  pose proof (telemetry_text_length s e seq event_seq uptime centi mac network phy) as L1.
  pose proof (telemetry_text_length s (MinerEvent (str "status") [] [] [] 0) seq event_seq uptime centi
    mac network phy) as L2.
  pose proof (event_text_length e seq event_seq uptime centi mac He H1 H2 H3 H4) as L3.
  specialize (L1 Hs He H1 H2 H3 H4).
  assert (event_ok (MinerEvent (str "status") [] [] [] 0)) as Hst
    by (refine (bool_decide_unpack _ _); vm_compute; exact I).
  specialize (L2 Hs Hst H1 H2 H3 H4). cbn [ev_name ev_job_id ev_submission ev_hash] in L2.
  rewrite length_str in L2. cbn [length String.length] in L2.
  destruct He as (E1 & E2 & E3 & E4 & E5), Hs as (S1 & _).
  unfold miner_telemetry_json, miner_event_json, snprintf. cbn [fst]. lia.
Qed.

Definition example_event : miner_event :=
  MinerEvent (str "solution_submitted") (replicate 127 65) (replicate 639 66) (replicate 64 67) 1.
Definition example_stats : miner_stats :=
  let p := InaSample true 5000000 1 2 3 (-4) 25000 in
  MinerStats (replicate 127 65) 1 2 3 4 5 6 7 8 9 0x01020000 0 (2 ^ 64 - 1) true true true true (p, p).

Lemma telemetry_fits_witness :
  fst (miner_telemetry_json MINER_TELEMETRY_MAX example_stats example_event 1 2 3 (-500) [] true true)
    < 3072.
Proof.
  apply (telemetry_fits example_stats example_event 1 2 3 (-500) [] true true);
    refine (bool_decide_unpack _ _); vm_compute; exact I.
Defined.

(** The hash rate is exact: counter differences are taken modulo 2^32 (so
    a wrapped counter does no harm), the 64-bit product cannot overflow, and
    the result is floor(hashes * tick_hz / ticks), reduced to 32 bits; an
    interval of no ticks gives 0. *)
Theorem miner_hashrate_exact previous delta ticks tick_hz :
  is_u32 previous → is_u32 delta → is_u32 ticks → is_u32 tick_hz →
  miner_hashrate previous (previous +32 delta) ticks tick_hz =
  (if bool_decide (ticks = 0) then 0 else (delta * tick_hz / ticks) `mod` 2 ^ 32).
Proof.
  intros Hp Hd Ht Hz. unfold miner_hashrate.
  assert (u32 ((previous +32 delta) - previous) = delta) as ->.
  { rewrite <-(u32_small delta) at 2 by done. u32_ring. }
  destruct (bool_decide_reflect (ticks = 0)) as [->|Hne]; [done|].
  rewrite bool_decide_true by done. rewrite (u64_small (delta * tick_hz)); [done|].
  unfold in_bits in *. nia.
Qed.

Lemma miner_hashrate_exact_witness : miner_hashrate 0xfffffff0 0x10 100 100 = 32.
Proof. apply (miner_hashrate_exact 0xfffffff0 32 100 100); unfold in_bits; lia. Defined.
