(* ===== verification/Telemetry.v ===== *)
(** * Telemetry state (src/software/application/dashboard.c, lines 19-57)

    The statistics and the event queue the other tasks report to.  Every
    function runs its updates in a critical section, so each is one atomic
    step on the state.  The queue is FreeRTOS code: the class [Queue] has its
    two operations, arbitrary in the theorems. *)
From S2P Require Import Prelude Json Ina700 Protocol.
Local Open Scope cword_scope.

(** [xQueueSend(q,item,0)] with [true] for [pdPASS], and [xQueueReceive]. *)
Class Queue (Q : Type) := {
  xQueueSend : Q → miner_event → bool * Q;
  xQueueReceive : Q → option miner_event * Q;
}.

(** ** Updates of single fields of [miner_stats] *)
Definition with_job (id : list Z) (n : Z) (s : miner_stats) : miner_stats :=
  MinerStats id n (submitted s) (accepted s) (rejected s) (invalid s) (dropped s) (hashrate_hps s)
    (sample_ms s) (engines s) (hw_version s) (bootloader_version s) (hashes_total s) (connected s)
    (st_authorized s) (mining s) (hashrate_valid s) (power s).
Definition with_shares (sub acc rej inv : Z) (s : miner_stats) : miner_stats :=
  MinerStats (st_job_id s) (jobs s) sub acc rej inv (dropped s) (hashrate_hps s)
    (sample_ms s) (engines s) (hw_version s) (bootloader_version s) (hashes_total s) (connected s)
    (st_authorized s) (mining s) (hashrate_valid s) (power s).
Definition with_dropped (n : Z) (s : miner_stats) : miner_stats :=
  MinerStats (st_job_id s) (jobs s) (submitted s) (accepted s) (rejected s) (invalid s) n (hashrate_hps s)
    (sample_ms s) (engines s) (hw_version s) (bootloader_version s) (hashes_total s) (connected s)
    (st_authorized s) (mining s) (hashrate_valid s) (power s).
Definition with_flags (con auth min : bool) (s : miner_stats) : miner_stats :=
  MinerStats (st_job_id s) (jobs s) (submitted s) (accepted s) (rejected s) (invalid s) (dropped s)
    (hashrate_hps s) (sample_ms s) (engines s) (hw_version s) (bootloader_version s) (hashes_total s)
    con auth min (hashrate_valid s) (power s).
Definition with_power (p : ina700_sample * ina700_sample) (s : miner_stats) : miner_stats :=
  MinerStats (st_job_id s) (jobs s) (submitted s) (accepted s) (rejected s) (invalid s) (dropped s)
    (hashrate_hps s) (sample_ms s) (engines s) (hw_version s) (bootloader_version s) (hashes_total s)
    (connected s) (st_authorized s) (mining s) (hashrate_valid s) p.
Definition with_rate (hps ms total : Z) (ok : bool) (s : miner_stats) : miner_stats :=
  MinerStats (st_job_id s) (jobs s) (submitted s) (accepted s) (rejected s) (invalid s) (dropped s)
    hps ms (engines s) (hw_version s) (bootloader_version s) total
    (connected s) (st_authorized s) (mining s) ok (power s).

Definition with_versions (n hw boot : Z) (s : miner_stats) : miner_stats :=
  MinerStats (st_job_id s) (jobs s) (submitted s) (accepted s) (rejected s) (invalid s) (dropped s)
    (hashrate_hps s) (sample_ms s) n hw boot (hashes_total s)
    (connected s) (st_authorized s) (mining s) (hashrate_valid s) (power s).

(** ** The code *)

Record telemetry (Q : Type) := Telemetry { stats : miner_stats; events : option Q }.
Arguments Telemetry {Q} _ _. Arguments stats {Q} _. Arguments events {Q} _.

Definition named (name : string) (e : miner_event) : bool := bool_decide (ev_name e = str name).

(** One [if(!strcmp(event->name,...))] of the first critical section. *)
Definition on (name : string) (f : miner_stats → miner_stats) (e : miner_event) (s : miner_stats)
    : miner_stats := if named name e then f s else s.

Definition inc_submitted s := with_shares (submitted s +32 1) (accepted s) (rejected s) (invalid s) s.
Definition inc_accepted s := with_shares (submitted s) (accepted s +32 1) (rejected s) (invalid s) s.
Definition inc_rejected s := with_shares (submitted s) (accepted s) (rejected s +32 1) (invalid s) s.
Definition inc_invalid s := with_shares (submitted s) (accepted s) (rejected s) (invalid s +32 1) s.
Definition pool_up s := with_flags true (st_authorized s) (mining s) s.
Definition pool_auth s := with_flags (connected s) true (mining s) s.
Definition pool_down s := with_job [] (jobs s) (with_flags false false false s).

(** The first critical section of [telemetry_detail]. *)
Definition count_event (e : miner_event) (s : miner_stats) : miner_stats :=
  let s := on "solution_submitted" inc_submitted e s in
  let s := on "solution_accepted" inc_accepted e s in
  let s := on "solution_rejected" inc_rejected e s in
  let s := on "hardware_solution_invalid" inc_invalid e s in
  let s := on "pool_connected" pool_up e s in
  let s := on "pool_authorized" pool_auth e s in
  on "pool_disconnected" pool_down e s.

Section telemetry.
Context {Q : Type} `{Queue Q}.
Implicit Types t : telemetry Q.

Definition telemetry_power (p : ina700_sample * ina700_sample) t : telemetry Q :=
  Telemetry (with_power p (stats t)) (events t).

Definition telemetry_detail (e : miner_event) t : telemetry Q :=
  let s := count_event e (stats t) in
  match events t with
  | None => Telemetry s None
  | Some q =>
      let '(ok, q) := xQueueSend q e in
      Telemetry (if ok then s else with_dropped (dropped s +32 1) s) (Some q)
  end.

Definition telemetry_event (event : list Z) t : telemetry Q :=
  telemetry_detail (MinerEvent (snd (snprintf 64 event)) (st_job_id (stats t)) [] [] (jobs (stats t))) t.

Definition telemetry_job (id : list Z) t : Z * telemetry Q :=
  let s := with_job (snd (snprintf 128 id)) (jobs (stats t) +32 1) (stats t) in
  (jobs s, telemetry_event (str "mining_job_received") (Telemetry s (events t))).

Definition telemetry_mining (active : bool) t : telemetry Q :=
  Telemetry (with_flags (connected (stats t)) (st_authorized (stats t)) active (stats t)) (events t).
End telemetry.

(** ** Counting *)

Definition tally (name : string) (es : list miner_event) : Z :=
  Z.of_nat (length (filter (λ e, named name e) es)).

Lemma tally_cons name e es : tally name (e :: es) = (if named name e then 1 else 0) + tally name es.
Proof. unfold tally. rewrite filter_cons. destruct (named name e); cbn [decide]; simpl length; lia. Qed.

Section counting.
Context {Q : Type} `{Queue Q}.

(** How many of the events the queue took, and the queue after them. *)
Fixpoint queued (es : list miner_event) (q : Q) : Z :=
  match es with
  | [] => 0
  | e :: es => let '(ok, q) := xQueueSend q e in (if ok then 1 else 0) + queued es q
  end.

Definition report (es : list miner_event) (t : telemetry Q) : telemetry Q :=
  foldl (λ t e, telemetry_detail e t) t es.

Lemma on_other {A} (field : miner_stats → A) name f e s :
  (∀ s, field (f s) = field s) → field (on name f e s) = field s.
Proof. intros Hf. unfold on. by case_match. Qed.

Lemma on_inc (field : miner_stats → Z) name f e s :
  (∀ s, field (f s) = field s +32 1) →
  field (on name f e s) = (if named name e then field s +32 1 else field s).
Proof. intros Hf. unfold on. by case_match. Qed.

Lemma count_event_shares e s :
  submitted (count_event e s) = (if named "solution_submitted" e then submitted s +32 1 else submitted s) ∧
  accepted (count_event e s) = (if named "solution_accepted" e then accepted s +32 1 else accepted s) ∧
  rejected (count_event e s) = (if named "solution_rejected" e then rejected s +32 1 else rejected s) ∧
  invalid (count_event e s) =
    (if named "hardware_solution_invalid" e then invalid s +32 1 else invalid s) ∧
  dropped (count_event e s) = dropped s ∧ jobs (count_event e s) = jobs s.
Proof.
  unfold count_event. cbv zeta.
  split_and!; repeat rewrite (on_other _ _ _ _ _) by reflexivity; try reflexivity;
    rewrite on_inc by reflexivity; by repeat rewrite (on_other _ _ _ _ _) by reflexivity.
Qed.

Lemma telemetry_detail_shares e (t : telemetry Q) :
  let s' := stats (telemetry_detail e t) in let s := stats t in
  submitted s' = (if named "solution_submitted" e then submitted s +32 1 else submitted s) ∧
  accepted s' = (if named "solution_accepted" e then accepted s +32 1 else accepted s) ∧
  rejected s' = (if named "solution_rejected" e then rejected s +32 1 else rejected s) ∧
  invalid s' = (if named "hardware_solution_invalid" e then invalid s +32 1 else invalid s).
Proof.
  unfold telemetry_detail. destruct (count_event_shares e (stats t)) as (H1 & H2 & H3 & H4 & _).
  destruct (events t) as [q|]; [|done]. destruct (xQueueSend q e) as [ok q']. by destruct ok.
Qed.

Definition shares_ok (s : miner_stats) : Prop :=
  Forall (in_bits 32) [submitted s; accepted s; rejected s; invalid s; dropped s].

Lemma if_u32 (b : bool) x y : is_u32 x → is_u32 y → is_u32 (if b then x else y).
Proof. by destruct b. Qed.

Lemma count_step (b : bool) n k : (if b then u32 (n + 1) else n) +32 k = n +32 ((if b then 1 else 0) + k).
Proof. destruct b; [|done]. rewrite u32_add_l. f_equal. lia. Qed.

Lemma report_shares es (t : telemetry Q) :
  shares_ok (stats t) →
  let s' := stats (report es t) in let s := stats t in
  submitted s' = submitted s +32 tally "solution_submitted" es ∧
  accepted s' = accepted s +32 tally "solution_accepted" es ∧
  rejected s' = rejected s +32 tally "solution_rejected" es ∧
  invalid s' = invalid s +32 tally "hardware_solution_invalid" es.
Proof.
  cbv zeta. unfold shares_ok. intros Hok. repeat rewrite Forall_cons in Hok. destruct Hok as (H1 & H2 & H3 & H4 & _).
  revert t H1 H2 H3 H4. induction es as [|e es IH]; intros t H1 H2 H3 H4.
  - unfold tally. cbn. rewrite !Z.add_0_r. by rewrite !u32_small by done.
  - change (report (e :: es) t) with (report es (telemetry_detail e t)).
    destruct (telemetry_detail_shares e t) as (E1 & E2 & E3 & E4).
    rewrite !tally_cons, <-!count_step.
    rewrite <-E1, <-E2, <-E3, <-E4. apply IH;
      [rewrite E1|rewrite E2|rewrite E3|rewrite E4]; (apply if_u32; [apply u32_range|assumption]).
Qed.

Lemma report_dropped es (t : telemetry Q) q :
  events t = Some q → is_u32 (dropped (stats t)) →
  dropped (stats (report es t)) = dropped (stats t) +32 (Z.of_nat (length es) - queued es q).
Proof.
  revert t q. induction es as [|e es IH]; intros t q Hq Hd; cbn [queued length].
  - rewrite Z.sub_diag, Z.add_0_r. by rewrite u32_small.
  - change (report (e :: es) t) with (report es (telemetry_detail e t)).
    destruct (count_event_shares e (stats t)) as (_ & _ & _ & _ & Hdr & _).
    destruct (xQueueSend q e) as [ok q'] eqn:Hsend.
    assert (telemetry_detail e t = Telemetry
      (if ok then count_event e (stats t) else
        with_dropped (dropped (count_event e (stats t)) +32 1) (count_event e (stats t))) (Some q')) as Hdet.
    { unfold telemetry_detail. by rewrite Hq, Hsend. }
    rewrite Hdet, (IH _ q'); [|done|].
    + destruct ok; cbn [stats dropped with_dropped]; rewrite Hdr; [|rewrite u32_add_l]; f_equal; lia.
    + destruct ok; cbn [stats dropped with_dropped]; [by rewrite Hdr|apply u32_range].
Qed.
End counting.

(** A bounded queue, for the examples. *)
Module ListQueue.
#[global] Instance ops : Queue (list miner_event) := {
  xQueueSend q e := if bool_decide (length q < 2)%nat then (true, q ++ [e]) else (false, q);
  xQueueReceive q := match q with [] => (None, []) | e :: q => (Some e, q) end;
}.
End ListQueue.

(** C39. No report is lost silently.  After any sequence of events the share
    counters have grown by the number of events of their kind, and
    [events_dropped] by the number of events the queue did not take, all
    modulo 2^32. *)
Theorem telemetry_counts {Q} `{Queue Q} (es : list miner_event) (t : telemetry Q) q :
  shares_ok (stats t) → events t = Some q →
  let s' := stats (report es t) in let s := stats t in
  submitted s' = submitted s +32 tally "solution_submitted" es ∧
  accepted s' = accepted s +32 tally "solution_accepted" es ∧
  rejected s' = rejected s +32 tally "solution_rejected" es ∧
  invalid s' = invalid s +32 tally "hardware_solution_invalid" es ∧
  dropped s' = dropped s +32 (Z.of_nat (length es) - queued es q).
Proof.
  intros Hok Hq. cbv zeta. destruct (report_shares es t Hok) as (H1 & H2 & H3 & H4).
  split_and!; try done. apply report_dropped; [done|].
  unfold shares_ok in Hok. repeat rewrite Forall_cons in Hok. tauto.
Qed.

Lemma telemetry_counts_witness :
  let e name := MinerEvent (str name) [] [] [] 0 in
  let es := [e "solution_submitted"; e "solution_accepted"; e "solution_submitted"]%string in
  let t := Telemetry example_stats (Some []) in
  submitted (stats (report es t)) = 4 ∧ dropped (stats (report es t)) = 7.
Proof.
  cbv zeta.
  match goal with |- submitted (stats (report ?es ?t)) = _ ∧ _ =>
    destruct (telemetry_counts es t [] ltac:(refine (bool_decide_unpack _ _); vm_compute; exact I) eq_refl)
      as (H1 & _ & _ & _ & H2) end.
  rewrite H1, H2. vm_compute. split; reflexivity.
Defined.
