(* ===== verification/Power.v ===== *)
(** * Power monitor task (src/software/application/power.c)

    A polled AXI IIC bus with a deadline per transaction, used as the
    register bus of the INA700 driver, and the task that samples two sensors
    once a second.  The tick counter is a parameter: a clock that reads the
    bus history. *)
From S2P Require Import Prelude Bus Ina700 Settings Bitcoin Json Protocol Telemetry.
Local Open Scope cword_scope.

(** ** The code *)
Definition IIC : Z := 0x40810000.

(** The static variable and the bus history. *)
Record iic := Iic { deadline_start : Z; i_tr : trace }.

Section bus.
Context (dev : device).
(** Time in ticks, not wrapped; [xTaskGetTickCount] is its low 32 bits. *)
Context (clock : trace → Z).

(** Rounds allowed to each [wait_status]; eleven always suffice
    ([wait_fuel]). *)
Context (fuel : nat).

Definition xTaskGetTickCount (d : iic) : Z := u32 (clock (i_tr d)).
Definition rd (r : Z) (d : iic) : Z * iic :=
  let '(v, t) := Xil_In32 dev (IIC + r) (i_tr d) in (v, Iic (deadline_start d) t).
Definition wr (r v : Z) (d : iic) : iic := Iic (deadline_start d) (Xil_Out32 (IIC + r) v (i_tr d)).
Definition yield (d : iic) : iic := Iic (deadline_start d) (vTaskDelay 1 (i_tr d)).

(** [Some true] is a failure, [None] a loop that needs more fuel. *)
Fixpoint wait_loop (k : nat) (mask expected errors : Z) (d : iic) : option bool * iic :=
  match k with
  | O => (None, d)
  | S k =>
      let '(v, d) := rd 0x20 d in
      if bool_decide (v .& errors ≠ 0) then (Some true, d) else
      let '(v, d) := rd 0x104 d in
      if bool_decide (v .& mask = expected) then (Some false, d) else
      if bool_decide (xTaskGetTickCount d -32 deadline_start d >= pdMS_TO_TICKS 100) then (Some true, d)
      else wait_loop k mask expected errors (yield d)
  end.
Definition wait_status (mask expected errors : Z) (d : iic) : bool * iic :=
  let '(r, d) := wait_loop fuel mask expected errors d in (default true r, d).

Definition begin (address reg : Z) (d : iic) : bool * iic :=
  let d := Iic (xTaskGetTickCount d) (i_tr d) in
  let d := wr 0x100 1 (wr 0x100 3 (wr 0x120 15 (wr 0x40 10 d))) in
  let '(v, d) := rd 0x20 d in
  let d := wr 0x20 v d in
  let '(r, d) := wait_status 4 0 1 d in
  if r then (true, d) else (false, wr 0x108 reg (wr 0x108 (0x100 .| (address <<. 1)) d)).

Definition fail (d : iic) : iic := wr 0x40 10 d.

Fixpoint read_bytes (n : nat) (d : iic) : option (list Z) * iic :=
  match n with
  | O => (Some [], d)
  | S n =>
      let '(r, d) := wait_status 0x40 0 1 d in
      if r then (None, d) else
      let '(v, d) := rd 0x10c d in
      let '(rest, d) := read_bytes n d in
      (cons (u8 v) <$> rest, d)
  end.

Definition read_reg (address reg : Z) (size : nat) (d : iic) : option (list Z) * iic :=
  if bool_decide (size = 0%nat) || bool_decide (3 < size)%nat then (None, fail d) else
  let '(r, d) := begin address reg d in
  if r then (None, fail d) else
  let '(r, d) := wait_status 0x80 0x80 3 d in
  if r then (None, fail d) else
  let d := wr 0x108 (0x200 .| Z.of_nat size) (wr 0x108 (0x101 .| (address <<. 1)) d) in
  let '(data, d) := read_bytes size d in
  match data with
  | None => (None, fail d)
  | Some data =>
      let '(r, d) := wait_status 4 0 1 d in
      if r then (None, fail d) else (Some data, d)
  end.

Definition write_reg (address reg value : Z) (d : iic) : bool * iic :=
  let '(r, d) := begin address reg d in
  if r then (false, fail d) else
  let d := wr 0x108 (0x200 .| (value .& 255)) (wr 0x108 (value >>. 8) d) in
  let '(r, d) := wait_status 0x80 0x80 3 d in
  if r then (false, fail d) else
  let '(r, d) := wait_status 4 0 3 d in
  if r then (false, fail d) else (true, d).

#[local] Instance power_bus : InaBus iic := { ina_read := read_reg; ina_write := write_reg }.

(** ** The task *)
Record sensor := Sensor { sample : ina700_sample; ready : bool }.

Definition with_errors (n : Z) (s : ina700_sample) : ina700_sample :=
  InaSample (valid s) (voltage_uv s) (power_uw s) (sampled_ms s) n (current_ua s) (temp_milli_c s).
Definition with_sampled (ms : Z) (s : ina700_sample) : ina700_sample :=
  InaSample (valid s) (voltage_uv s) (power_uw s) ms (errors s) (current_ua s) (temp_milli_c s).

(** One sensor of the inner loop. *)
Definition poll (address : Z) (x : sensor) (d : iic) : sensor * iic :=
  let s := set_valid false (sample x) in
  if negb (ready x) then
    let '(rc, d) := ina700_init address d in
    if bool_decide (rc = 0) then (Sensor s true, d) else (Sensor (with_errors (errors s +32 1) s) false, d)
  else
    let '(rc, s, d) := ina700_sample_read address s d in
    if bool_decide (rc ≠ 0) then (Sensor (with_errors (errors s +32 1) s) false, d)
    else (Sensor (with_sampled (u32 (xTaskGetTickCount d * portTICK_PERIOD_MS)) s) true, d).

(** One turn of the outer loop, up to [telemetry_power]. *)
Definition power_turn {Q} (xs : sensor * sensor) (d : iic) (tel : telemetry Q)
    : (sensor * sensor) * iic * telemetry Q :=
  let '(x0, d) := poll 0x44 (fst xs) d in
  let '(x1, d) := poll 0x45 (snd xs) d in
  (x0, x1, d, telemetry_power (sample x0, sample x1) tel).
End bus.

Definition no_sample : ina700_sample := InaSample false 0 0 0 0 0 0.
Definition power_init : sensor * sensor := (Sensor no_sample false, Sensor no_sample false).

(** [power_start]: whether the task is created. *)
Definition power_start (dev : device) (t : trace) : bool * trace :=
  let '(v, t) := Xil_In32 dev MINER_HW_VERSION_REG t in (bool_decide (v = 0x01020000), t).

(** ** The interface to the INA700 driver *)

Lemma read_bytes_ok dev clock fuel n d l :
  fst (read_bytes dev clock fuel n d) = Some l → length l = n ∧ is_bytes l.
Proof.
  revert d l. induction n as [|n IH]; intros d l; cbn [read_bytes]; [by intros [= <-]|].
  destruct (wait_status _ _ _ _ _ _ d) as [r d1]. destruct r; [done|].
  destruct (rd dev 0x10c d1) as [v d2]. specialize (IH d2).
  destruct (read_bytes dev clock fuel n d2) as [[rest|] d3]; [|done]. cbn. intros [= <-].
  destruct (IH rest eq_refl) as [<- Hb]. split; [done|]. constructor; [apply u8_range|done].
Qed.

(** The bus keeps the promise [InaLaws] asks for. *)
#[global] Instance power_laws dev clock fuel : InaLaws (H := power_bus dev clock fuel) iic.
Proof.
  intros a r n d b. cbn [ina_read power_bus]. unfold read_reg. destruct (_ || _); [done|].
  destruct (begin _ _ _ a r d) as [r1 d1]. destruct r1; [done|].
  destruct (wait_status _ _ _ _ _ _ d1) as [r2 d2]. destruct r2; [done|].
  match goal with |- context [read_bytes dev clock fuel n ?d3] =>
    pose proof (read_bytes_ok dev clock fuel n d3) as Hb; destruct (read_bytes dev clock fuel n d3) as [[data|] d4] end;
    [|done].
  destruct (wait_status _ _ _ _ _ _ d4) as [r3 d5]. destruct r3; [done|]. cbn. intros [= <-]. by apply Hb.
Qed.

(** ** Deadlines *)

(** Time never runs backwards, a delay of one tick takes at least one, and
    nothing takes 2^29 ticks (62 days). *)
Class Clock (clock : trace → Z) := {
  clock_step : ∀ e t, clock t <= clock (e :: t) < clock t + 2 ^ 29;
  clock_delay : ∀ t, clock t + 1 <= clock (Delay 1 :: t);
}.

Section deadlines.
Context (dev : device) (clock : trace → Z) `{!Clock clock}.

(** What the deadline test of a round sees. *)
Definition after_reads (d : iic) : iic := snd (rd dev 0x104 (snd (rd dev 0x20 d))).
Definition elapsed (d : iic) : Z := xTaskGetTickCount clock d -32 deadline_start d.

Lemma elapsed_grows d :
  elapsed (after_reads d) < 10 →
  elapsed (after_reads d) + 1 <= elapsed (after_reads (yield (after_reads d))).
Proof.
  set (d1 := after_reads d). intros Hlt. unfold elapsed, xTaskGetTickCount in *.
  assert (deadline_start (after_reads (yield d1)) = deadline_start d1) as -> by done.
  assert (∃ v w a b, i_tr (after_reads (yield d1)) = In32 a v :: In32 b w :: Delay 1 :: i_tr d1) as (v & w & a & b & ->)
    by (by eexists _, _, _, _).
  pose proof (clock_step (In32 a v) (In32 b w :: Delay 1 :: i_tr d1)).
  pose proof (clock_step (In32 b w) (Delay 1 :: i_tr d1)).
  pose proof (clock_step (Delay 1) (i_tr d1)). pose proof (clock_delay (i_tr d1)).
  generalize dependent (clock (In32 a v :: In32 b w :: Delay 1 :: i_tr d1)).
  generalize dependent (clock (In32 b w :: Delay 1 :: i_tr d1)).
  generalize dependent (clock (Delay 1 :: i_tr d1)). generalize dependent (clock (i_tr d1)).
  generalize (deadline_start d1). clear. unfold u32. intros. dlia.
Qed.

Lemma wait_round k mask expected errors d :
  wait_loop dev clock (S k) mask expected errors d = (Some true, snd (rd dev 0x20 d)) ∨
  (∃ b, wait_loop dev clock (S k) mask expected errors d = (Some b, after_reads d)) ∨
  elapsed (after_reads d) < 10 ∧
  wait_loop dev clock (S k) mask expected errors d =
  wait_loop dev clock k mask expected errors (yield (after_reads d)).
Proof.
  unfold after_reads. cbn [wait_loop]. destruct (rd dev 0x20 d) as [v d1]. cbn [snd].
  case_bool_decide; [by left|right]. destruct (rd dev 0x104 d1) as [v2 d2]. cbn [snd].
  case_bool_decide; [left; by eexists|]. fold (elapsed d2).
  case_bool_decide as He; [left; by eexists|right]. split; [|done]. change (pdMS_TO_TICKS 100) with 10 in He. lia.
Qed.

Lemma wait_ends k mask expected errors d :
  10 - Z.of_nat k <= elapsed (after_reads d) →
  is_Some (fst (wait_loop dev clock (S k) mask expected errors d)).
Proof.
  revert d. induction k as [|k IH]; intros d He.
  { destruct (wait_round 0 mask expected errors d) as [E|[[b E]|[Hlt E]]]; [rewrite E; by eexists..|lia]. }
  destruct (wait_round (S k) mask expected errors d) as [E|[[b E]|[Hlt E]]]; [rewrite E; by eexists..|].
  rewrite E. apply IH. pose proof (elapsed_grows d Hlt). lia.
Qed.

Lemma wait_more k j mask expected errors d :
  is_Some (fst (wait_loop dev clock k mask expected errors d)) →
  wait_loop dev clock (k + j) mask expected errors d = wait_loop dev clock k mask expected errors d.
Proof.
  revert d. induction k as [|k IH]; intros d; [by intros [? ?]|]. cbn [wait_loop Nat.add].
  destruct (rd dev 0x20 d) as [v d1]. case_bool_decide; [done|].
  destruct (rd dev 0x104 d1) as [v2 d2]. case_bool_decide; [done|]. case_bool_decide; [done|]. apply IH.
Qed.

(** Eleven rounds are enough for every wait. *)
Lemma wait_fuel fuel mask expected errors d :
  (11 <= fuel)%nat →
  wait_status dev clock fuel mask expected errors d = wait_status dev clock 11 mask expected errors d.
Proof.
  intros Hf. unfold wait_status. replace fuel with (11 + (fuel - 11))%nat by lia.
  rewrite wait_more; [done|]. apply (wait_ends 10). assert (0 <= elapsed (after_reads d)) by apply u32_range. lia.
Qed.
End deadlines.

(** ** Accesses *)

(** The IIC core of the power monitors, and nothing else. *)
Definition power_event (e : event) : Prop :=
  match e with
  | Out32 a _ | In32 a _ => a - IIC ∈ [0x20; 0x40; 0x100; 0x104; 0x108; 0x10c; 0x120]
  | Delay n => n = 1
  | _ => False
  end.

(** [d'] follows [d] by at most [n] such events. *)
Definition steps (n : nat) (d d' : iic) : Prop :=
  ∃ es, i_tr d' = es ++ i_tr d ∧ Forall power_event es ∧ (length es <= n)%nat.

Lemma steps_refl n d : steps n d d.
Proof. exists []. split; [done|]. split; [constructor|simpl; lia]. Qed.

Lemma steps_trans n m k d1 d2 d3 : (n + m <= k)%nat → steps n d1 d2 → steps m d2 d3 → steps k d1 d3.
Proof.
  intros Hk (es & E1 & F1 & L1) (fs & E2 & F2 & L2). exists (fs ++ es). rewrite E2, E1, <-app_assoc.
  split; [done|]. split; [by apply Forall_app_2|]. rewrite length_app. lia.
Qed.

Lemma steps_mono n m d d' : (n <= m)%nat → steps n d d' → steps m d d'.
Proof. intros Hn (es & E & F & L). exists es. split_and!; (done || lia). Qed.

Section accesses.
Context (dev : device) (clock : trace → Z).

Lemma rd_steps r d : r ∈ [0x20; 0x40; 0x100; 0x104; 0x108; 0x10c; 0x120] → steps 1 d (snd (rd dev r d)).
Proof.
  intros Hr. eexists [_]. split; [reflexivity|]. split; [|done]. apply Forall_singleton. unfold power_event.
  by replace (IIC + r - IIC) with r by lia.
Qed.

Lemma wr_steps r v d : r ∈ [0x20; 0x40; 0x100; 0x104; 0x108; 0x10c; 0x120] → steps 1 d (wr r v d).
Proof.
  intros Hr. eexists [_]. split; [reflexivity|]. split; [|done]. apply Forall_singleton. unfold power_event.
  by replace (IIC + r - IIC) with r by lia.
Qed.

Lemma wr_after n r v d d' :
  r ∈ [0x20; 0x40; 0x100; 0x104; 0x108; 0x10c; 0x120] → steps n d d' → steps (S n) d (wr r v d').
Proof. intros Hr Hs. eapply (steps_trans n 1); [lia|exact Hs|by apply wr_steps]. Qed.

Lemma yield_steps d : steps 1 d (yield d).
Proof. eexists [_]. split; [reflexivity|]. split; [|done]. by apply Forall_singleton. Qed.

Lemma wait_steps k mask expected errors d :
  steps (3 * k) d (snd (wait_loop dev clock k mask expected errors d)).
Proof.
  revert d. induction k as [|k IH]; intros d; [apply steps_refl|]. cbn [wait_loop].
  pose proof (rd_steps 0x20 d ltac:(by_decide)) as S1. destruct (rd dev 0x20 d) as [v d1]. cbn [snd] in S1.
  case_bool_decide; [eapply steps_mono; [|exact S1]; lia|].
  pose proof (rd_steps 0x104 d1 ltac:(by_decide)) as S2. destruct (rd dev 0x104 d1) as [v2 d2]. cbn [snd] in S2.
  assert (steps 2 d d2) as S02 by (eapply steps_trans; [|exact S1|exact S2]; lia).
  case_bool_decide; [eapply steps_mono; [|exact S02]; lia|].
  case_bool_decide; [eapply steps_mono; [|exact S02]; lia|].
  eapply steps_trans; [|exact S02|]; [|eapply steps_trans; [|apply yield_steps|apply IH]; reflexivity]. lia.
Qed.

Lemma wait_status_steps fuel mask expected errors d :
  steps (3 * fuel) d (snd (wait_status dev clock fuel mask expected errors d)).
Proof.
  unfold wait_status. pose proof (wait_steps fuel mask expected errors d) as Hs.
  by destruct (wait_loop dev clock fuel mask expected errors d).
Qed.

Lemma fail_steps d : steps 1 d (fail d).
Proof. apply wr_steps. by_decide. Qed.

Context (fuel : nat).
Let w : nat := (3 * fuel)%nat.

Lemma begin_steps address reg d : steps (8 + w) d (snd (begin dev clock fuel address reg d)).
Proof.
  unfold begin. set (d0 := Iic _ _). assert (steps 0 d d0) as S0 by (exists []; split; [done|split; [constructor|done]]).
  set (d1 := wr 0x100 1 _). assert (steps 4 d0 d1) as S1.
  { unfold d1. do 4 (apply wr_after; [by_decide|]). apply steps_refl. }
  clearbody d1. pose proof (rd_steps 0x20 d1 ltac:(by_decide)) as S2. destruct (rd dev 0x20 d1) as [v d2]. cbn [snd] in S2.
  pose proof (wr_steps 0x20 v d2 ltac:(by_decide)) as S3.
  pose proof (wait_status_steps fuel 4 0 1 (wr 0x20 v d2)) as S4. fold w in S4.
  destruct (wait_status _ _ _ _ _ _ _) as [r d4]. cbn [snd] in S4.
  assert (steps (6 + w) d d4) as S04.
  { eapply (steps_trans 0 (6 + w)); [lia|exact S0|]. eapply (steps_trans 4 (2 + w)); [lia|exact S1|].
    eapply (steps_trans 1 (1 + w)); [lia|exact S2|]. eapply (steps_trans 1 w); [lia|exact S3|exact S4]. }
  destruct r; cbn [snd]; [eapply steps_mono; [|exact S04]; lia|].
  do 2 (apply wr_after; [by_decide|]). exact S04.
Qed.

Lemma read_bytes_steps n d : steps (n * (1 + w)) d (snd (read_bytes dev clock fuel n d)).
Proof.
  revert d. induction n as [|n IH]; intros d; cbn [read_bytes]; [apply steps_refl|].
  pose proof (wait_status_steps fuel 0x40 0 1 d) as S1. fold w in S1.
  destruct (wait_status _ _ _ _ _ _ d) as [r d1]. cbn [snd] in S1.
  destruct r; [eapply steps_mono; [|exact S1]; lia|].
  pose proof (rd_steps 0x10c d1 ltac:(by_decide)) as S2. destruct (rd dev 0x10c d1) as [v d2]. cbn [snd] in S2.
  specialize (IH d2). destruct (read_bytes dev clock fuel n d2) as [rest d3]. cbn [snd] in *.
  eapply (steps_trans w (1 + n * (1 + w))); [lia|exact S1|]. eapply (steps_trans 1 (n * (1 + w))); [lia|exact S2|exact IH].
Qed.

Lemma read_reg_steps address reg n d : steps (14 + 6 * w) d (snd (read_reg dev clock fuel address reg n d)).
Proof.
  unfold read_reg. destruct (bool_decide_reflect (n = 0%nat)) as [|Hn0]; cbn [orb];
    [eapply steps_mono; [|apply fail_steps]; lia|].
  case_bool_decide as Hn3; [eapply steps_mono; [|apply fail_steps]; lia|].
  pose proof (begin_steps address reg d) as S1. destruct (begin _ _ _ _ _ d) as [r d1]. cbn [snd] in S1.
  destruct r; [eapply (steps_trans (8 + w) 1); [lia|exact S1|apply fail_steps]|].
  pose proof (wait_status_steps fuel 0x80 0x80 3 d1) as S2. fold w in S2.
  destruct (wait_status _ _ _ _ _ _ d1) as [r d2]. cbn [snd] in S2.
  assert (steps (8 + 2 * w) d d2) as S02 by (eapply (steps_trans (8 + w) w); [lia|exact S1|exact S2]).
  destruct r; [eapply (steps_trans (8 + 2 * w) 1); [lia|exact S02|apply fail_steps]|].
  set (d3 := wr 0x108 _ _). assert (steps (10 + 2 * w) d d3) as S03.
  { unfold d3. do 2 (apply wr_after; [by_decide|]). exact S02. }
  clearbody d3. pose proof (read_bytes_steps n d3) as S4.
  destruct (read_bytes dev clock fuel n d3) as [data d4]. cbn [snd] in S4.
  assert (steps (13 + 5 * w) d d4) as S04.
  { eapply (steps_trans (10 + 2 * w) (3 + 3 * w)); [lia|exact S03|]. eapply steps_mono; [|exact S4]. nia. }
  destruct data as [data|]; [|eapply (steps_trans (13 + 5 * w) 1); [lia|exact S04|apply fail_steps]].
  pose proof (wait_status_steps fuel 4 0 1 d4) as S5. fold w in S5.
  destruct (wait_status _ _ _ _ _ _ d4) as [r d5]. cbn [snd] in S5.
  assert (steps (13 + 6 * w) d d5) as S05 by (eapply (steps_trans (13 + 5 * w) w); [lia|exact S04|exact S5]).
  destruct r; cbn [snd]; [eapply (steps_trans (13 + 6 * w) 1); [lia|exact S05|apply fail_steps]|].
  eapply steps_mono; [|exact S05]. lia.
Qed.

Lemma write_reg_steps address reg value d : steps (11 + 3 * w) d (snd (write_reg dev clock fuel address reg value d)).
Proof.
  unfold write_reg. pose proof (begin_steps address reg d) as S1.
  destruct (begin _ _ _ _ _ d) as [r d1]. cbn [snd] in S1.
  destruct r; [eapply (steps_trans (8 + w) 1); [lia|exact S1|apply fail_steps]|].
  set (d2 := wr 0x108 _ _). assert (steps (10 + w) d d2) as S02.
  { unfold d2. do 2 (apply wr_after; [by_decide|]). exact S1. }
  clearbody d2. pose proof (wait_status_steps fuel 0x80 0x80 3 d2) as S3. fold w in S3.
  destruct (wait_status _ _ _ _ _ _ d2) as [r d3]. cbn [snd] in S3.
  assert (steps (10 + 2 * w) d d3) as S03 by (eapply (steps_trans (10 + w) w); [lia|exact S02|exact S3]).
  destruct r; [eapply (steps_trans (10 + 2 * w) 1); [lia|exact S03|apply fail_steps]|].
  pose proof (wait_status_steps fuel 4 0 3 d3) as S4. fold w in S4.
  destruct (wait_status _ _ _ _ _ _ d3) as [r d4]. cbn [snd] in S4.
  assert (steps (10 + 3 * w) d d4) as S04 by (eapply (steps_trans (10 + 2 * w) w); [lia|exact S03|exact S4]).
  destruct r; cbn [snd]; [eapply (steps_trans (10 + 3 * w) 1); [lia|exact S04|apply fail_steps]|].
  eapply steps_mono; [|exact S04]. lia.
Qed.
End accesses.

(** ** The sensors over this bus *)
Section sensors.
Context (dev : device) (clock : trace → Z) (fuel : nat).
#[local] Instance sensor_bus : InaBus iic := power_bus dev clock fuel.
Let r : nat := (14 + 6 * (3 * fuel))%nat.

Lemma ina_read_steps a reg n d : steps r d (snd (ina_read a reg n d)).
Proof. apply read_reg_steps. Qed.

Lemma init_steps a d : steps (6 * r) d (snd (ina700_init a d)).
Proof.
  unfold ina700_init. pose proof (ina_read_steps a 0x3e 2 d) as S1.
  destruct (ina_read a 0x3e 2 d) as [b d1]. cbn [snd] in S1.
  destruct b as [b|]; [|eapply steps_mono; [|exact S1]; lia].
  case_bool_decide; [eapply steps_mono; [|exact S1]; lia|].
  pose proof (write_reg_steps dev clock fuel a 1 INA700_ADC_CONFIG d1) as S2.
  change (write_reg dev clock fuel) with (@ina_write iic sensor_bus) in S2.
  destruct (ina_write a 1 INA700_ADC_CONFIG d1) as [ok d2]. cbn [snd] in S2.
  assert (steps (2 * r) d d2) as S02 by (eapply (steps_trans r r); [lia|exact S1|]; eapply steps_mono; [|exact S2]; lia).
  destruct ok; cbn [negb]; [|eapply steps_mono; [|exact S02]; lia].
  pose proof (ina_read_steps a 1 2 d2) as S3. destruct (ina_read a 1 2 d2) as [b3 d3]. cbn [snd] in S3.
  assert (steps (3 * r) d d3) as S03 by (eapply (steps_trans (2 * r) r); [lia|exact S02|exact S3]).
  destruct b3; (eapply steps_mono; [|exact S03]; lia).
Qed.

Lemma read_checked_steps a reg n check d : steps r d (snd (read_checked a reg n check d)).
Proof.
  unfold read_checked. pose proof (ina_read_steps a reg n d) as S1. by destruct (ina_read a reg n d).
Qed.

(** One more register of a sample. *)
Lemma read_checked_after k a reg n check d d1 :
  steps (k * r) d d1 → steps (S k * r) d (snd (read_checked a reg n check d1)).
Proof. intros S1. eapply (steps_trans (k * r) r); [lia|exact S1|apply read_checked_steps]. Qed.

Lemma read_registers_steps a d : steps (6 * r) d (snd (read_registers a d)).
Proof.
  unfold read_registers. assert (steps (0 * r) d d) as S0 by apply steps_refl.
  repeat (match goal with
  | S : steps (?k * r) d ?d0 |- context [read_checked ?x1 ?x2 ?x3 ?x4 ?d0] =>
      let S' := fresh "S" in let o := fresh "o" in let d1 := fresh "d" in
      pose proof (read_checked_after k x1 x2 x3 x4 d d0 S) as S'; clear S;
      destruct (read_checked x1 x2 x3 x4 d0) as [o d1]; cbn [snd] in S';
      destruct o; [|eapply steps_mono; [|exact S']; lia]
  end). assumption.
Qed.

Lemma sample_read_steps a s d : steps (6 * r) d (snd (ina700_sample_read a s d)).
Proof.
  unfold ina700_sample_read. pose proof (read_registers_steps a d) as S1.
  destruct (read_registers a d) as [regs d1]. cbn [snd] in S1. by destruct regs as [[[[? ?] ?] ?]|].
Qed.

Lemma poll_steps a x d : steps (6 * r) d (snd (poll dev clock fuel a x d)).
Proof.
  unfold poll. destruct (ready x); cbn [negb].
  - pose proof (sample_read_steps a (set_valid false (sample x)) d) as S1.
    change (power_bus dev clock fuel) with sensor_bus.
    destruct (ina700_sample_read a (set_valid false (sample x)) d) as [[rc s] d1]. cbn [snd] in S1.
    by case_bool_decide.
  - pose proof (init_steps a d) as S1. change (power_bus dev clock fuel) with sensor_bus.
    destruct (ina700_init a d) as [rc d1]. cbn [snd] in S1. by case_bool_decide.
Qed.

(** What a poll leaves behind. *)
Lemma poll_spec a x d :
  let '(x', d') := poll dev clock fuel a x d in
  (valid (sample x') = true ↔ ready x = true ∧ ready x' = true) ∧
  errors (sample x') = (if ready x' then errors (sample x) else errors (sample x) +32 1) ∧
  (valid (sample x') = true → sampled_ms (sample x') = u32 (xTaskGetTickCount clock d' * portTICK_PERIOD_MS)) ∧
  (valid (sample x') = true → fst (fst (ina700_sample_read a (set_valid false (sample x)) d)) = 0).
Proof.
  unfold poll. change (power_bus dev clock fuel) with sensor_bus. destruct (ready x); cbn [negb].
  - unfold ina700_sample_read. destruct (read_registers a d) as [regs d1].
    destruct regs as [[[[v t] i] p]|]; case_bool_decide; try done; cbn; intuition congruence.
  - destruct (ina700_init a d) as [rc d1]. case_bool_decide; cbn; intuition congruence.
Qed.
End sensors.

(** ** More fuel changes nothing *)
Section fuel.
Context (dev : device) (clock : trace → Z) `{!Clock clock} (fuel : nat) (Hf : (11 <= fuel)%nat).

Lemma begin_fuel a reg d : begin dev clock fuel a reg d = begin dev clock 11 a reg d.
Proof. unfold begin. destruct (rd dev 0x20 _) as [v d1]. by rewrite wait_fuel. Qed.

Lemma read_bytes_fuel n d : read_bytes dev clock fuel n d = read_bytes dev clock 11 n d.
Proof.
  revert d. induction n as [|n IH]; intros d; [done|]. cbn [read_bytes]. rewrite wait_fuel by done.
  destruct (wait_status _ _ 11 _ _ _ _) as [r d1]. destruct r; [done|]. destruct (rd dev 0x10c d1) as [v d2].
  by rewrite IH.
Qed.

Lemma read_reg_fuel a reg n d : read_reg dev clock fuel a reg n d = read_reg dev clock 11 a reg n d.
Proof.
  unfold read_reg. destruct (_ || _); [done|]. rewrite begin_fuel. destruct (begin _ _ 11 _ _ _) as [r d1].
  destruct r; [done|]. rewrite wait_fuel by done. destruct (wait_status _ _ 11 _ _ _ _) as [r d2].
  destruct r; [done|]. rewrite read_bytes_fuel. destruct (read_bytes _ _ 11 _ _) as [[data|] d3]; [|done].
  by rewrite wait_fuel.
Qed.

Lemma write_reg_fuel a reg v d : write_reg dev clock fuel a reg v d = write_reg dev clock 11 a reg v d.
Proof.
  unfold write_reg. rewrite begin_fuel. destruct (begin _ _ 11 _ _ _) as [r d1].
  destruct r; [done|]. rewrite wait_fuel by done. destruct (wait_status _ _ 11 _ _ _ _) as [r d2].
  destruct r; [done|]. by rewrite wait_fuel.
Qed.

Lemma init_fuel a d :
  ina700_init (H := power_bus dev clock fuel) a d = ina700_init (H := power_bus dev clock 11) a d.
Proof.
  unfold ina700_init. cbn [ina_read ina_write power_bus]. rewrite read_reg_fuel.
  destruct (read_reg dev clock 11 a 0x3e 2 d) as [[b|] d1]; [|done]. case_bool_decide; [done|].
  rewrite write_reg_fuel. destruct (write_reg dev clock 11 a 1 INA700_ADC_CONFIG d1) as [ok d2].
  destruct ok; [|done]. cbn [negb]. by rewrite read_reg_fuel.
Qed.

Lemma read_checked_fuel a reg n check d :
  read_checked (H := power_bus dev clock fuel) a reg n check d =
  read_checked (H := power_bus dev clock 11) a reg n check d.
Proof. unfold read_checked. cbn [ina_read power_bus]. by rewrite read_reg_fuel. Qed.

Lemma registers_fuel a d :
  read_registers (H := power_bus dev clock fuel) a d = read_registers (H := power_bus dev clock 11) a d.
Proof.
  unfold read_registers.
  repeat (rewrite read_checked_fuel; destruct (read_checked (H := power_bus dev clock 11) _ _ _ _ _) as [[?|] ?];
    [|done]). done.
Qed.

Lemma poll_fuel a x d : poll dev clock fuel a x d = poll dev clock 11 a x d.
Proof. unfold poll, ina700_sample_read. by rewrite init_fuel, registers_fuel. Qed.
End fuel.

(** ** Claims *)

(** C28. A turn of the power task ends and stays on its own bus.  Whatever the
    hardware answers, if time advances then eleven rounds of each wait are
    enough (more fuel gives the same result), and a turn makes at most 2544
    accesses and one-tick delays, all of them to the seven registers of the
    power monitors' IIC core: never to the EEPROM's. *)
Theorem power_turn_bounded {Q} dev clock `{!Clock clock} (fuel : nat) xs d (tel : telemetry Q) :
  (11 <= fuel)%nat →
  power_turn dev clock fuel xs d tel = power_turn dev clock 11 xs d tel ∧
  let '(_, d', _) := power_turn dev clock fuel xs d tel in
  ∃ es, i_tr d' = es ++ i_tr d ∧ Forall power_event es ∧ (length es <= 2544)%nat.
Proof.
  intros Hf. assert (power_turn dev clock fuel xs d tel = power_turn dev clock 11 xs d tel) as E.
  { unfold power_turn. rewrite poll_fuel by done. destruct (poll dev clock 11 0x44 (fst xs) d) as [x0 d1].
    by rewrite poll_fuel. }
  split; [exact E|]. rewrite E. unfold power_turn.
  pose proof (poll_steps dev clock 11 0x44 (fst xs) d) as S1.
  destruct (poll dev clock 11 0x44 (fst xs) d) as [x0 d1].
  pose proof (poll_steps dev clock 11 0x45 (snd xs) d1) as S2.
  destruct (poll dev clock 11 0x45 (snd xs) d1) as [x1 d2]. cbn [snd] in *.
  eapply steps_trans; [|exact S1|exact S2]. simpl. lia.
Qed.

(** A sample is shown as valid only when it is fresh.  After a poll of a
    sensor: the sample is valid exactly when the sensor had been configured
    in an earlier turn and all its registers were read in this one; it then
    carries the time of this turn; and the error counter has grown by one
    exactly when the sensor is not ready for the next turn. *)
Theorem power_poll_fresh dev clock fuel a x d :
  let '(x', d') := poll dev clock fuel a x d in
  (valid (sample x') = true ↔ ready x = true ∧ ready x' = true) ∧
  errors (sample x') = (if ready x' then errors (sample x) else errors (sample x) +32 1) ∧
  (valid (sample x') = true → sampled_ms (sample x') = u32 (xTaskGetTickCount clock d' * portTICK_PERIOD_MS)).
Proof.
  pose proof (poll_spec dev clock fuel a x d) as Hs. destruct (poll dev clock fuel a x d) as [x' d']. tauto.
Qed.

(** A clock that advances one tick per event. *)
Module Steady.
Definition clock (t : trace) : Z := Z.of_nat (length t).
#[global] Instance laws : Clock clock.
Proof. split; intros; unfold clock; cbn [length]; lia. Qed.
End Steady.

Lemma power_turn_bounded_witness :
  let '(_, d', _) := power_turn (λ _ _, 0) Steady.clock 20 power_init (Iic 0 []) (Telemetry example_stats (@None unit)) in
  ∃ es, i_tr d' = es ++ [] ∧ Forall power_event es ∧ (length es <= 2544)%nat.
Proof.
  exact (proj2 (power_turn_bounded (λ _ _, 0) Steady.clock 20 power_init (Iic 0 [])
    (Telemetry example_stats (@None unit)) ltac:(lia))).
Defined.
