(* ===== verification/Beacon.v ===== *)
(** * Telemetry beacon (src/software/application/dashboard.c, broadcast_task)

    The task that samples the hash rate, builds the telemetry messages and
    sends them to the board that asked and to the table of subscribers. *)
From stdpp Require Import sorting.
From S2P Require Import Prelude Bus Json Ina700 Protocol Telemetry.
Local Open Scope cword_scope.

(** ** The code *)
Record peer := Peer { sin_address : Z; sin_port : Z }.
#[global] Instance peer_eq_dec : EqDecision peer.
Proof. solve_decision. Defined.

Record client := Client { c_peer : peer; c_last : Z; c_used : bool }.

(** The locals of [broadcast_task]. *)
Record beacon := Beacon {
  clients : list client; seq : Z; last_status : Z; sampled : Z; previous : Z
}.

Definition no_client : client := Client (Peer 0 0) 0 false.
Definition expired (now : Z) (c : client) : bool := bool_decide (now -32 c_last c > pdMS_TO_TICKS 5000).

(** The slot search, [slot] being the last usable one seen. *)
Fixpoint find_slot (cs : list client) (i : nat) (p : peer) (now : Z) (slot : option nat) : option nat :=
  match cs with
  | [] => slot
  | c :: cs =>
      if c_used c && bool_decide (c_peer c = p) then Some i
      else find_slot cs (i + 1) p now (if negb (c_used c) || expired now c then Some i else slot)
  end.

Definition subscribe (p : peer) (now : Z) (cs : list client) : list client :=
  match find_slot cs 0 p now None with
  | Some slot => <[slot := Client p now true]> cs
  | None => cs
  end.

(** A datagram to the clients: the expired ones are dropped from the table. *)
Definition notify_client (now : Z) (text : list Z) (c : client) : client * list (peer * list Z) :=
  if c_used c then
    if expired now c then (Client (c_peer c) (c_last c) false, []) else (c, [(c_peer c, text)])
  else (c, []).
Definition notify_clients (now : Z) (text : list Z) (cs : list client) : list client * list (peer * list Z) :=
  let r := notify_client now text <$> cs in (r.*1, concat r.*2).

(** [if(count<=0||count>1472)continue;] and the sends of one part. *)
Definition send_part (discovery : option peer) (now : Z) (message : Z * list Z) (cs : list client)
    : list client * list (peer * list Z) :=
  let '(count, text) := message in
  if bool_decide (count <= 0) || bool_decide (count > 1472) then (cs, []) else
  let '(cs, out) := notify_clients now text cs in
  (cs, match discovery with Some p => (p, text) :: out | None => out end).

Section beacon.
Context {Q : Type} `{Queue Q}.
Context (dev : device).
(** [XPAR_XSYSMON_0_BASEADDR] of the generated board header, [active_mac],
    and the values of [network_up] and [ethernet_phy_known()] when message
    number [n] is built. *)
Context (sysmon : Z) (mac : list Z) (link : Z → bool * bool).

Definition temperature (raw : Z) : Z := u64 (raw * 5013743) / 6553600 - 27367.

(** The locals before the loop, [now] being the tick count: whether the hash
    counter is present, and the beacon. *)
Definition beacon_start (now : Z) (tr : trace) : bool * beacon * trace :=
  let '(id, tr) := Xil_In32 dev 0x44a300a8 tr in
  let present := bool_decide (id = 0x48534831) in
  let '(count, tr) := if present then Xil_In32 dev 0x44a300ac tr else (0, tr) in
  (present, Beacon (replicate 4 no_client) 0 0 now count, tr).

(** The request at the top of the loop. *)
Definition take_request (request : option (peer * list Z)) (now : Z) (b : beacon) : option peer * beacon :=
  match request with
  | None => (None, b)
  | Some (p, data) =>
      let text := cstr (data ++ [0]) in
      let cs := if bool_decide (text = str "SCU35_SUBSCRIBE/1") then subscribe p now (clients b) else clients b in
      (if bool_decide (text = str "SCU35_DISCOVER/1") then Some p else None,
       Beacon cs (seq b) (last_status b) (sampled b) (previous b))
  end.

(** The hash-rate sample. *)
Definition sample_rate (present : bool) (now : Z) (b : beacon) (t : telemetry Q) (tr : trace)
    : beacon * telemetry Q * trace :=
  if present && bool_decide (now -32 sampled b >= pdMS_TO_TICKS 1000) then
    let '(count, tr) := Xil_In32 dev 0x44a300ac tr in
    let delta := count -32 previous b in
    let s := stats t in
    let s := with_rate (miner_hashrate (previous b) count (now -32 sampled b) 100)
               (u32 ((now -32 sampled b) * portTICK_PERIOD_MS)) (u64 (hashes_total s + delta)) true s in
    (Beacon (clients b) (seq b) (last_status b) now count, Telemetry s (events t), tr)
  else (b, t, tr).

Definition status_event : miner_event := MinerEvent (str "status") [] [] [] 0.

(** [xQueueReceive]; [events] was created before the task. *)
Definition next_event (t : telemetry Q) : option miner_event * telemetry Q :=
  match events t with
  | None => (None, t)
  | Some q => let '(e, q) := xQueueReceive q in (e, Telemetry (stats t) (Some q))
  end.

(** The call of [miner_telemetry_json] for message number [n]. *)
Definition telemetry_message (s : miner_stats) (e : miner_event) (n event_seq uptime centi : Z) : Z * list Z :=
  miner_telemetry_json MINER_TELEMETRY_MAX s e n event_seq uptime centi mac (fst (link n)) (snd (link n)).

(** Building and sending the messages for [e] from the snapshot [s]. *)
Definition publish (discovery : option peer) (now centi : Z) (s : miner_stats) (e : miner_event)
    (event_seq : Z) (b : beacon) : beacon * list (peer * list Z) :=
  let uptime := u32 (now * portTICK_PERIOD_MS) in
  let n := seq b +32 1 in
  let full := telemetry_message s e n event_seq uptime centi in
  let with_seq n cs := Beacon cs n now (sampled b) (previous b) in
  if bool_decide (fst full <= 0) || bool_decide (fst full >= Z.of_nat MINER_TELEMETRY_MAX)
  then (with_seq n (clients b), [])
  else if bool_decide (fst full > 1472) then
    let n1 := n +32 1 in
    let status := telemetry_message s status_event n1 event_seq uptime centi in
    let '(cs, out1) := send_part discovery now status (clients b) in
    let n2 := n1 +32 1 in
    let '(cs, out2) := send_part discovery now (miner_event_json MINER_TELEMETRY_MAX e n2 event_seq uptime centi mac) cs in
    (with_seq n2 cs, out1 ++ out2)
  else
    let '(cs, out) := send_part discovery now full (clients b) in (with_seq n cs, out).

(** [dashboard_start] before it creates the tasks; [q] is the queue created. *)
Definition dashboard_start (q : Q) (t : telemetry Q) (tr : trace) : telemetry Q * trace :=
  let '(n, tr) := Xil_In32 dev MINER_ENGINES_REG tr in
  let '(hw, tr) := Xil_In32 dev MINER_HW_VERSION_REG tr in
  let '(boot, tr) := Xil_In32 dev MINER_BOOT_VERSION_REG tr in
  (Telemetry (with_versions n hw boot (stats t)) (Some q), tr).

(** One turn of the loop of [broadcast_task]: the datagrams sent. *)
Definition broadcast_turn (present : bool) (request : option (peer * list Z)) (now : Z)
    (event_seq : Z) (b : beacon) (t : telemetry Q) (tr : trace)
    : list (peer * list Z) * Z * beacon * telemetry Q * trace :=
  let '(discovery, b) := take_request request now b in
  let '(b, t, tr) := sample_rate present now b t tr in
  let '(queued, t) := next_event t in
  let event_seq := match queued with Some _ => event_seq +32 1 | None => event_seq end in
  if bool_decide (discovery = None) && bool_decide (queued = None) &&
     bool_decide (now -32 last_status b < pdMS_TO_TICKS 1000)
  then ([], event_seq, b, t, tr)
  else
    let '(raw, tr) := Xil_In32 dev (sysmon + 0x400) tr in
    let centi := temperature (raw .& 0xffff) in
    let '(b, out) := publish discovery now centi (stats t) (default status_event queued) event_seq b in
    (out, event_seq, b, t, tr).
End beacon.

(** ** Sending *)

Definition live (now : Z) (c : client) : bool := c_used c && negb (expired now c).
Definition live_peers (now : Z) (cs : list client) : list peer := c_peer <$> filter (live now) cs.

(** The table after a message: expired entries are freed. *)
Definition swept (now : Z) (cs : list client) : list client :=
  (λ c, Client (c_peer c) (c_last c) (live now c)) <$> cs.

(** Who gets a message: the asking peer, then the live subscribers. *)
Definition recipients (discovery : option peer) (now : Z) (cs : list client) : list peer :=
  option_list discovery ++ live_peers now cs.
Definition sent_to (ps : list peer) (texts : list (list Z)) : list (peer * list Z) :=
  texts ≫= λ text, (λ p, (p, text)) <$> ps.

Lemma notify_clients_spec now text cs :
  notify_clients now text cs = (swept now cs, (λ p, (p, text)) <$> live_peers now cs).
Proof.
  unfold notify_clients. f_equal; induction cs as [|c cs IH]; [done| |done|].
  - change (swept now (c :: cs)) with (Client (c_peer c) (c_last c) (live now c) :: swept now cs).
    rewrite <-IH, !fmap_cons. f_equal. unfold notify_client, live.
    destruct c as [p l []]; simpl; [|done]. by destruct (expired now _).
  - rewrite !fmap_cons. cbn [concat]. rewrite IH. unfold live_peers. rewrite filter_cons.
    unfold notify_client. destruct (decide (live now c)) as [Hl|Hl]; unfold live in Hl;
      destruct c as [p l []]; cbn [c_used andb] in *; try done; by destruct (expired now _).
Qed.

Lemma live_swept now cs : live_peers now (swept now cs) = live_peers now cs.
Proof.
  unfold live_peers, swept. induction cs as [|c cs IH]; [done|]. rewrite fmap_cons, !filter_cons.
  assert (live now (Client (c_peer c) (c_last c) (live now c)) = live now c) as Hl.
  { unfold live, expired. destruct c as [p l []]; simpl; [|done]. by destruct (bool_decide _). }
  case_decide as H1; case_decide as H2; rewrite Hl in H1; try done.
  rewrite !fmap_cons. by rewrite IH.
Qed.

Lemma swept_swept now cs : swept now (swept now cs) = swept now cs.
Proof.
  unfold swept. rewrite <-list_fmap_compose. apply list_fmap_ext. intros i [p l u] _.
  unfold compose, live, expired. simpl. f_equal. by destruct u, (bool_decide _).
Qed.

Lemma send_part_spec discovery now text cs :
  (0 < length text <= 1472)%nat →
  send_part discovery now (snprintf MINER_TELEMETRY_MAX text) cs =
  (swept now cs, sent_to (recipients discovery now cs) [text]).
Proof.
  intros Hl. unfold send_part, snprintf. rewrite !bool_decide_eq_false_2 by lia. cbn [orb].
  rewrite take_ge by (unfold MINER_TELEMETRY_MAX; lia). rewrite notify_clients_spec.
  unfold sent_to, recipients. cbn [mbind list_bind]. rewrite app_nil_r. by destruct discovery.
Qed.

Lemma recipients_swept discovery now cs : recipients discovery now (swept now cs) = recipients discovery now cs.
Proof. unfold recipients. by rewrite live_swept. Qed.

Lemma status_ok : event_ok status_event.
Proof. by_decide. Qed.

Lemma land_u16 x : 0 <= x .& 0xffff <= 0xffff.
Proof. change 0xffff with (Z.ones 16) at 1 2. rewrite Z.land_ones by lia. dlia. Qed.

Lemma temperature_range raw : 0 <= raw <= 0xffff → is_s32 (temperature raw).
Proof. intros Hr. unfold temperature, is_s32. rewrite u64_small by (unfold in_bits; lia). dlia. Qed.

Section delivery.
Context {Q : Type} `{Queue Q}.
Context (dev : device) (sysmon : Z) (mac : list Z) (link : Z → bool * bool).
Implicit Types (b : beacon) (t : telemetry Q).

(** The whole text of telemetry message number [n]. *)
Abbreviation whole s e n ev uptime centi :=
  (telemetry_text s e n ev uptime centi mac (fst (link n)) (snd (link n))).

(** What is announced for an event after message number [n], and the number
    of the last message: one message, or a status message and the event. *)
Inductive announced (s : miner_stats) (e : miner_event) (ev uptime centi n : Z) : list (list Z) → Z → Prop :=
| announced_whole :
    announced s e ev uptime centi n [whole s e (n +32 1) ev uptime centi] (n +32 1)
| announced_split :
    announced s e ev uptime centi n
      [whole s status_event (n +32 2) ev uptime centi; event_text e (n +32 3) ev uptime centi mac] (n +32 3).

Lemma whole_length s e n ev uptime centi :
  stats_ok s → event_ok e → is_u32 n → is_u32 ev → is_u32 uptime → is_s32 centi →
  (0 < length (whole s e n ev uptime centi) < MINER_TELEMETRY_MAX)%nat.
Proof.
  intros Hs He Hn Hev Hu Hc. split; [apply Nat.lt_0_succ|].
  eapply Nat.le_lt_trans; [by apply telemetry_text_length|].
  destruct Hs as (? & _), He as (? & ? & ? & ? & _). unfold MINER_TELEMETRY_MAX. lia.
Qed.

Lemma status_length s n ev uptime centi :
  stats_ok s → is_u32 n → is_u32 ev → is_u32 uptime → is_s32 centi →
  (length (whole s status_event n ev uptime centi) <= 1472)%nat.
Proof.
  intros Hs Hn Hev Hu Hc.
  etransitivity; [apply telemetry_text_length; [done|apply status_ok|done..]|].
  destruct Hs as (? & _). unfold status_event. cbn [ev_name ev_job_id ev_submission ev_hash].
  rewrite length_str. cbn [length String.length]. lia.
Qed.

Lemma publish_spec discovery now centi s e ev b :
  stats_ok s → event_ok e → is_u32 ev → is_s32 centi →
  ∃ texts n,
    publish mac link discovery now centi s e ev b =
      (Beacon (swept now (clients b)) n now (sampled b) (previous b),
       sent_to (recipients discovery now (clients b)) texts) ∧
    announced s e ev (u32 (now * portTICK_PERIOD_MS)) centi (seq b) texts n ∧
    Forall (λ text, (length text <= 1472)%nat) texts.
Proof.
  intros Hs He Hev Hc. unfold publish, telemetry_message. cbv zeta.
  set (uptime := u32 (now * portTICK_PERIOD_MS)). assert (is_u32 uptime) as Hu by apply u32_range.
  pose proof (λ k, u32_range (seq b + k)) as Hn.
  assert (seq b +32 1 +32 1 = seq b +32 2) as -> by u32_ring.
  assert (seq b +32 2 +32 1 = seq b +32 3) as -> by u32_ring.
  pose proof (whole_length s e _ ev uptime centi Hs He (Hn 1) Hev Hu Hc) as Hw.
  change (fst (miner_telemetry_json MINER_TELEMETRY_MAX s e (seq b +32 1) ev uptime centi mac _ _))
    with (Z.of_nat (length (whole s e (seq b +32 1) ev uptime centi))).
  rewrite !(bool_decide_eq_false_2 (Z.of_nat _ <= 0)), !(bool_decide_eq_false_2 (Z.of_nat _ >= _)) by lia.
  cbn [orb]. destruct (bool_decide_reflect (Z.of_nat (length (whole s e (seq b +32 1) ev uptime centi)) > 1472)).
  - pose proof (whole_length s status_event _ ev uptime centi Hs status_ok (Hn 2) Hev Hu Hc) as Hw2.
    pose proof (status_length s _ ev uptime centi Hs (Hn 2) Hev Hu Hc) as Hst.
    pose proof (event_text_length e _ ev uptime centi mac He (Hn 3) Hev Hu Hc) as Het.
    unfold miner_telemetry_json, miner_event_json. rewrite send_part_spec by lia. cbv beta iota.
    rewrite send_part_spec by (split; [apply Nat.lt_0_succ|lia]). cbv beta iota.
    rewrite recipients_swept, swept_swept.
    eexists [_; _], _. split; [|split; [constructor|]].
    + unfold sent_to. cbn [mbind list_bind]. by rewrite !app_nil_r.
    + apply Forall_cons_2; [done|]. apply Forall_cons_2; [lia|by constructor].
  - unfold miner_telemetry_json. rewrite send_part_spec by lia.
    eexists [_], _. split; [done|split; [constructor|]]. apply Forall_cons_2; [lia|by constructor].
Qed.

Lemma miner_hashrate_range p c ticks hz : is_u32 (miner_hashrate p c ticks hz).
Proof. unfold miner_hashrate. case_bool_decide; [apply u32_range|done]. Qed.

Lemma sample_rate_spec present now b t tr :
  let '(b', t', tr') := sample_rate dev present now b t tr in
  clients b' = clients b ∧ seq b' = seq b ∧ last_status b' = last_status b ∧ events t' = events t ∧
  (stats_ok (stats t) → stats_ok (stats t')).
Proof.
  clear sysmon mac link. unfold sample_rate. destruct (present && _); [|done].
  destruct (Xil_In32 dev 0x44a300ac tr) as [count tr']. split_and!; [done..|].
  intros (Hj & Hn & Ht & Hp). unfold with_rate. cbn [stats].
  split; [done|]. split; [|split; [apply u64_range|done]].
  cbn [jobs submitted accepted rejected invalid dropped hashrate_hps sample_ms engines hw_version
    bootloader_version]. repeat rewrite Forall_cons in Hn. repeat rewrite Forall_cons.
  pose proof (miner_hashrate_range (previous b) count (now -32 sampled b) 100).
  pose proof (u32_range ((now -32 sampled b) * portTICK_PERIOD_MS)). tauto.
Qed.

Lemma next_event_spec t :
  stats (snd (next_event t)) = stats t.
Proof. unfold next_event. destruct (events t) as [q|]; [|done]. by destruct (xQueueReceive q). Qed.

Lemma next_event_events t t' : events t' = events t → fst (next_event t') = fst (next_event t).
Proof. unfold next_event. intros ->. destruct (events t) as [q|]; [|done]. by destruct (xQueueReceive q). Qed.

Lemma take_request_spec request now b :
  seq (snd (take_request request now b)) = seq b ∧
  last_status (snd (take_request request now b)) = last_status b.
Proof. by destruct request as [[p data]|]. Qed.

(** A turn with nothing to say, and one that publishes. *)
Lemma broadcast_turn_spec present request now ev b t tr :
  let '(discovery, b1) := take_request request now b in
  let queued := fst (next_event t) in
  stats_ok (stats t) → is_u32 ev → (∀ e, queued = Some e → event_ok e) →
  let '(out, ev', b', t', _) := broadcast_turn dev sysmon mac link present request now ev b t tr in
  stats_ok (stats t') ∧ ev' = (if queued is Some _ then ev +32 1 else ev) ∧
  (discovery = None ∧ queued = None ∧ now -32 last_status b < pdMS_TO_TICKS 1000 ∧
     out = [] ∧ clients b' = clients b1 ∧ seq b' = seq b ∨
   ∃ centi texts,
     out = sent_to (recipients discovery now (clients b1)) texts ∧
     clients b' = swept now (clients b1) ∧
     announced (stats t') (default status_event queued) ev' (u32 (now * portTICK_PERIOD_MS)) centi (seq b)
       texts (seq b') ∧
     Forall (λ text, (length text <= 1472)%nat) texts).
Proof.
  unfold broadcast_turn. pose proof (take_request_spec request now b) as [Hs Hl].
  destruct (take_request request now b) as [discovery b1]. cbn [snd] in Hs, Hl.
  pose proof (sample_rate_spec present now b1 t tr) as Hr.
  destruct (sample_rate dev present now b1 t tr) as [[b2 t1] tr1].
  destruct Hr as (Hc2 & Hs2 & Hl2 & Hq & Hok2). cbv zeta. rewrite <-(next_event_events t t1) by done.
  intros Hok Hev He. pose proof (next_event_spec t1) as Hn. destruct (next_event t1) as [queued t2]. cbn [fst snd] in *.
  assert (stats_ok (stats t2)) as Hok' by (rewrite Hn; auto).
  rewrite Hl2, Hl.
  destruct (_ && _ && _) eqn:Hskip.
  { rewrite !andb_true_iff, !bool_decide_eq_true in Hskip. destruct Hskip as [[-> ->] Ht].
    split_and!; [done|done|left; split_and!; congruence]. }
  destruct (Xil_In32 dev (sysmon + 0x400) tr1) as [raw tr2].
  match goal with |- context [publish _ _ _ _ ?c ?s ?e ?v ?b] =>
    destruct (publish_spec discovery now c s e v b) as (texts & n & -> & Ha & Hl');
      [done|destruct queued; [by apply He|apply status_ok]
      |destruct queued; [apply u32_range|done]|apply temperature_range, land_u16|] end.
  rewrite Hs2, Hs in Ha. rewrite Hc2.
  split_and!; [done|by destruct queued|right; eexists _, texts; split_and!; [done|done|exact Ha|done]].
Qed.
End delivery.

(** ** The subscriber table *)

(** Four entries, and no peer has two of them. *)
Definition table_ok (cs : list client) : Prop :=
  length cs = 4%nat ∧
  ∀ i j ci cj, cs !! i = Some ci → cs !! j = Some cj → c_used ci = true → c_used cj = true →
    c_peer ci = c_peer cj → i = j.

Definition absent (p : peer) (cs : list client) : Prop :=
  Forall (λ c, ¬ (c_used c = true ∧ c_peer c = p)) cs.
Definition usable (now : Z) (c : client) : Prop := live now c = false.

Lemma absent_lookup p cs i c : absent p cs → cs !! i = Some c → c_used c = true → c_peer c ≠ p.
Proof. intros Ha Hi Hu Hp. by eapply Forall_lookup_1 in Ha; [apply Ha|]. Qed.

Lemma usable_spec now c : negb (c_used c) || expired now c = negb (live now c).
Proof. unfold live. by destruct (c_used c), (expired now c). Qed.

(** The search finds the peer's entry if it has one, otherwise an entry that
    is not live. *)
Lemma find_slot_spec cs i p now slot :
  match find_slot cs i p now slot with
  | Some k =>
      (∃ j c, k = (i + j)%nat ∧ cs !! j = Some c ∧ c_used c = true ∧ c_peer c = p) ∨
      absent p cs ∧ (slot = Some k ∨ ∃ j c, k = (i + j)%nat ∧ cs !! j = Some c ∧ usable now c)
  | None => slot = None ∧ absent p cs ∧ Forall (live now) cs
  end.
Proof.
  revert i slot. induction cs as [|c cs IH]; intros i slot; cbn [find_slot].
  { destruct slot; [right|]; split; [constructor|by left|done|split; constructor]. }
  destruct (c_used c && bool_decide (c_peer c = p)) eqn:Hm.
  { apply andb_true_iff in Hm as [Hu Hp%bool_decide_eq_true].
    left. exists 0%nat, c. split_and!; [lia|done..]. }
  assert (¬ (c_used c = true ∧ c_peer c = p)) as Hc.
  { intros [Hu Hp]. by rewrite Hu, bool_decide_true in Hm. }
  rewrite usable_spec. specialize (IH (i + 1)%nat (if negb (live now c) then Some i else slot)).
  destruct (find_slot cs (i + 1) p now _) as [k|].
  - destruct IH as [(j & d & -> & Hj)|[Ha [Hs|(j & d & -> & Hj)]]].
    + left. exists (S j), d. split; [lia|done].
    + right. split; [by constructor|]. destruct (live now c) eqn:Hl; cbn [negb] in Hs; [by left|right].
      injection Hs as <-. exists 0%nat, c. split; [lia|done].
    + right. split; [by constructor|right]. exists (S j), d. split; [lia|done].
  - destruct IH as (Hs & Ha & Hl). destruct (live now c) eqn:Hlc; cbn [negb] in Hs; [|done].
    split_and!; [done|by constructor|]. constructor; [by rewrite Hlc|done].
Qed.

Lemma subscribe_length p now cs : length (subscribe p now cs) = length cs.
Proof. unfold subscribe. case_match; [apply length_insert|done]. Qed.

Lemma subscribe_ok p now cs : table_ok cs → table_ok (subscribe p now cs).
Proof.
  intros [Hl Hu]. split; [by rewrite subscribe_length|]. unfold subscribe.
  pose proof (find_slot_spec cs 0 p now None) as Hf.
  destruct (find_slot cs 0 p now None) as [k|]; [|done].
  assert (∀ i c, i ≠ k → cs !! i = Some c → c_used c = true → c_peer c ≠ p) as Hne.
  { intros i c Hi Hc Hcu Hp. destruct Hf as [(j & d & -> & Hd & Hdu & Hdp)|[Ha _]].
    - apply Hi, (Hu i j c d); congruence.
    - by apply (absent_lookup p cs i c). }
  intros i j ci cj Hi Hj. rewrite list_lookup_insert_Some in Hi, Hj.
  destruct Hi as [(-> & <- & _)|[Hik Hi]], Hj as [(-> & <- & _)|[Hjk Hj]]; cbn [c_peer c_used]; intros Ui Uj Hp.
  - done.
  - by destruct (Hne j cj (not_eq_sym Hjk) Hj Uj).
  - by destruct (Hne i ci (not_eq_sym Hik) Hi Ui).
  - by apply (Hu i j ci cj).
Qed.

(** An entry that is live survives every request; its peer's own request
    renews it. *)
Lemma subscribe_keeps p now cs i c :
  table_ok cs → cs !! i = Some c → live now c = true →
  subscribe p now cs !! i = Some (if bool_decide (c_peer c = p) then Client p now true else c).
Proof.
  intros [Hl Hu] Hi Hc. unfold subscribe. pose proof (find_slot_spec cs 0 p now None) as Hf.
  assert (c_used c = true) as Hcu by by apply andb_true_iff in Hc as [??].
  destruct (find_slot cs 0 p now None) as [k|].
  - destruct Hf as [(j & d & -> & Hd & Hdu & Hdp)|[Ha [?|(j & d & -> & Hd & Hdl)]]]; [|done|]; cbn [Nat.add].
    + destruct (bool_decide_reflect (c_peer c = p)) as [Hp|Hp].
      * assert (i = j) as -> by (apply (Hu i j c d); congruence).
        rewrite list_lookup_insert_eq; [done|]. by eapply lookup_lt_Some.
      * rewrite list_lookup_insert_ne; [done|]. intros <-. congruence.
    + rewrite bool_decide_false by (by eapply absent_lookup).
      rewrite list_lookup_insert_ne; [done|]. intros <-. unfold usable in Hdl. congruence.
  - destruct Hf as (_ & Ha & _). by rewrite bool_decide_false by (by eapply absent_lookup).
Qed.

(** A request finds a place unless all four entries are live others. *)
Lemma subscribe_enters p now cs :
  (∃ i, subscribe p now cs !! i = Some (Client p now true)) ∨
  subscribe p now cs = cs ∧ Forall (live now) cs ∧ absent p cs.
Proof.
  unfold subscribe. pose proof (find_slot_spec cs 0 p now None) as Hf.
  destruct (find_slot cs 0 p now None) as [k|]; [left; exists k|right; tauto].
  apply list_lookup_insert_eq.
  destruct Hf as [(j & d & -> & Hd & _)|[_ [?|(j & d & -> & Hd & _)]]]; [|done|]; by eapply lookup_lt_Some.
Qed.

Lemma swept_ok now cs : table_ok cs → table_ok (swept now cs).
Proof.
  intros [Hl Hu]. unfold swept. split; [by rewrite length_fmap|]. intros i j ci cj Hi Hj.
  rewrite list_lookup_fmap in Hi, Hj.
  destruct (cs !! i) as [a|] eqn:Ea; [|done]. destruct (cs !! j) as [b|] eqn:Eb; [|done].
  injection Hi as <-. injection Hj as <-. cbn [c_used c_peer].
  intros [Ha _]%andb_true_iff [Hb _]%andb_true_iff Hp. by apply (Hu i j a b).
Qed.

Lemma swept_keeps now cs i c : cs !! i = Some c → live now c = true → swept now cs !! i = Some c.
Proof.
  intros Hi Hl. unfold swept. rewrite list_lookup_fmap, Hi. cbn. rewrite Hl. f_equal.
  apply andb_true_iff in Hl as [Hu _]. destruct c as [p l u]. cbn in *. by rewrite Hu.
Qed.

(** ** Leases *)

(** The peer has an entry made at tick [l]. *)
Definition subscribed (p : peer) (l : Z) (cs : list client) : Prop :=
  ∃ i, cs !! i = Some (Client p l true).

(** A message reaches the peer if it reaches anyone. *)
Definition reaches (p : peer) (out : list (peer * list Z)) : Prop :=
  ∀ q text, (q, text) ∈ out → (p, text) ∈ out.

Lemma sent_to_reaches p ps texts : p ∈ ps → reaches p (sent_to ps texts).
Proof.
  intros Hp q text. unfold sent_to. rewrite !list_elem_of_bind. intros (x & Hx & Ht). exists x. split; [|done].
  apply list_elem_of_fmap in Hx as (? & [= -> ->] & _). by apply (list_elem_of_fmap_2' _ _ p).
Qed.

Lemma live_peers_elem now cs i c : cs !! i = Some c → live now c = true → c_peer c ∈ live_peers now cs.
Proof.
  intros Hi Hl. unfold live_peers. apply list_elem_of_fmap_2. apply list_elem_of_filter.
  split; [by rewrite Hl|]. by eapply list_elem_of_lookup_2.
Qed.

Lemma take_request_table request now b :
  table_ok (clients b) → table_ok (clients (snd (take_request request now b))).
Proof.
  intros Ht. destruct request as [[q data]|]; [|done]. unfold take_request. cbn [snd clients].
  case_bool_decide; [by apply subscribe_ok|done].
Qed.

Lemma take_request_subscribed request now b p l :
  table_ok (clients b) → subscribed p l (clients b) → live now (Client p l true) = true →
  subscribed p l (clients (snd (take_request request now b))) ∨
  subscribed p now (clients (snd (take_request request now b))).
Proof.
  intros Ht [i Hi] Hl. destruct request as [[q data]|]; [|by left; exists i].
  unfold take_request. cbn [snd clients]. case_bool_decide; [|by left; exists i].
  pose proof (subscribe_keeps q now _ i _ Ht Hi Hl) as Hk. cbn [c_peer] in Hk.
  destruct (bool_decide_reflect (p = q)) as [<-|_]; [right|left]; by exists i.
Qed.

Lemma live_now p now : live now (Client p now true) = true.
Proof.
  unfold live, expired. cbn [c_used c_last]. rewrite Z.sub_diag. by rewrite bool_decide_eq_false_2.
Qed.

Section lease.
Context {Q : Type} `{Queue Q}.
Context (dev : device) (sysmon : Z) (mac : list Z) (link : Z → bool * bool) (present : bool).

(** What the environment supplies to a turn: the time in ticks, not wrapped,
    the datagram received, and the statistics and bus history the other tasks
    left. *)
Record turn := Turn {
  time : Z; request : option (peer * list Z); reported : telemetry Q; history : trace
}.

Definition turn_ok (x : turn) : Prop :=
  stats_ok (stats (reported x)) ∧ ∀ e, fst (next_event (reported x)) = Some e → event_ok e.

(** The turns of the task one after another: the datagrams of each. *)
Fixpoint run_turns (xs : list turn) (ev : Z) (b : beacon) : list (list (peer * list Z)) * beacon :=
  match xs with
  | [] => ([], b)
  | x :: xs =>
      let '(out, ev, b, _, _) :=
        broadcast_turn dev sysmon mac link present (request x) (u32 (time x)) ev b (reported x) (history x) in
      let '(outs, b) := run_turns xs ev b in (out :: outs, b)
  end.

(** After a turn the table is in order, and every peer the request left live
    in it gets each message and keeps its entry. *)
Lemma broadcast_turn_table request now ev b (t : telemetry Q) tr :
  stats_ok (stats t) → (∀ e, fst (next_event t) = Some e → event_ok e) → is_u32 ev → table_ok (clients b) →
  let '(out, ev', b', _, _) := broadcast_turn dev sysmon mac link present request now ev b t tr in
  is_u32 ev' ∧ table_ok (clients b') ∧
  ∀ p l, subscribed p l (clients (snd (take_request request now b))) →
    live now (Client p l true) = true → reaches p out ∧ subscribed p l (clients b').
Proof.
  intros Hs He Hev Ht. pose proof (broadcast_turn_spec dev sysmon mac link present request now ev b t tr) as Hb.
  pose proof (take_request_table request now b Ht) as Ht1.
  destruct (take_request request now b) as [discovery b1]. cbn [snd] in *. specialize (Hb Hs Hev He).
  destruct (broadcast_turn _ _ _ _ _ _ _ _ _ _ _) as [[[[out ev'] b'] t'] tr'].
  destruct Hb as (_ & -> & Hb). split; [by destruct (fst (next_event t)); [apply u32_range|]|].
  destruct Hb as [(_ & _ & _ & -> & -> & _)|(centi & texts & -> & -> & _)].
  { split; [done|]. intros p l Hp Hl. split; [by intros ???%not_elem_of_nil|done]. }
  split; [by apply swept_ok|]. intros p l [i Hi] Hl. split; [|exists i; by apply swept_keeps].
  apply sent_to_reaches. unfold recipients. apply elem_of_app. right.
  by apply (live_peers_elem now _ i _ Hi).
Qed.

Lemma turn_table x ev b :
  turn_ok x → is_u32 ev → table_ok (clients b) →
  let '(out, ev', b', _, _) :=
    broadcast_turn dev sysmon mac link present (request x) (u32 (time x)) ev b (reported x) (history x) in
  is_u32 ev' ∧ table_ok (clients b') ∧
  ∀ p l, subscribed p l (clients (snd (take_request (request x) (u32 (time x)) b))) →
    live (u32 (time x)) (Client p l true) = true → reaches p out ∧ subscribed p l (clients b').
Proof. intros [Hs He]. by apply broadcast_turn_table. Qed.

Lemma live_lease p T0 T : T0 <= T <= T0 + pdMS_TO_TICKS 5000 → live (u32 T) (Client p (u32 T0) true) = true.
Proof.
  change (pdMS_TO_TICKS 5000) with 500. intros HT. unfold live, expired. cbn [c_used c_last].
  assert (u32 T -32 u32 T0 = T - T0) as ->.
  { rewrite <-(u32_small (T - T0)) by (unfold in_bits; lia). u32_ring. }
  rewrite bool_decide_eq_false_2; [done|]. change (pdMS_TO_TICKS 5000) with 500. lia.
Qed.

Lemma run_turns_lease p T0 xs ev b :
  Forall turn_ok xs → is_u32 ev → table_ok (clients b) → subscribed p (u32 T0) (clients b) →
  StronglySorted Z.le (T0 :: (time <$> xs)) → Forall (λ x, time x <= T0 + pdMS_TO_TICKS 5000) xs →
  Forall (reaches p) (fst (run_turns xs ev b)) ∧ table_ok (clients (snd (run_turns xs ev b))).
Proof.
  intros Hok. revert T0 ev b. induction Hok as [|x xs Hx Hxs IH]; intros T0 ev b Hev Ht Hp Hsort Hlim; [done|].
  cbn [run_turns]. pose proof (turn_table x ev b Hx Hev Ht) as Hturn.
  destruct (broadcast_turn _ _ _ _ _ _ _ _ _ _ _) as [[[[out ev'] b'] t'] tr'].
  destruct Hturn as (Hev' & Ht' & Hturn).
  rewrite fmap_cons in Hsort. apply StronglySorted_inv in Hsort as [Hsort Hge].
  apply Forall_cons in Hge as [Hge Hges]. apply Forall_cons in Hlim as [Hlx Hlim].
  assert (live (u32 (time x)) (Client p (u32 T0) true) = true) as Hl by (apply live_lease; lia).
  assert (∃ T, T0 <= T <= time x ∧ reaches p out ∧ subscribed p (u32 T) (clients b')) as (T & HT & Hout & HpT).
  { destruct (take_request_subscribed (request x) _ b p _ Ht Hp Hl); [exists T0|exists (time x)];
      (split; [lia|]); apply Hturn; [done|done|done|apply live_now]. }
  specialize (IH T ev' b' Hev' Ht' HpT).
  destruct (run_turns xs ev' b') as [outs b'']. cbn [fst snd] in *.
  apply StronglySorted_inv in Hsort as [Hsort Hgx].
  destruct IH as [Hr Ht'']; [|eapply Forall_impl; [exact Hlim|]; cbn beta; intros y Hy; lia|].
  - constructor; [done|]. eapply Forall_impl; [exact Hgx|]. cbn. intros y Hy. lia.
  - split; [by constructor|done].
Qed.

(** A subscription and the turns after it. *)
Lemma lease_spec p x xs ev b :
  Forall turn_ok (x :: xs) → is_u32 ev → table_ok (clients b) →
  request x = Some (p, str "SCU35_SUBSCRIBE/1") →
  ¬ (Forall (live (u32 (time x))) (clients b) ∧ absent p (clients b)) →
  StronglySorted Z.le (time <$> x :: xs) → Forall (λ y, time y <= time x + pdMS_TO_TICKS 5000) xs →
  Forall (reaches p) (fst (run_turns (x :: xs) ev b)) ∧ table_ok (clients (snd (run_turns (x :: xs) ev b))).
Proof.
  intros [Hx Hxs]%Forall_cons Hev Ht Hreq Hroom Hsort Hlim. cbn [run_turns].
  pose proof (turn_table x ev b Hx Hev Ht) as Hturn.
  assert (subscribed p (u32 (time x)) (clients (snd (take_request (request x) (u32 (time x)) b)))) as Hp.
  { rewrite Hreq. unfold take_request. cbn [snd clients]. rewrite bool_decide_true by reflexivity.
    destruct (subscribe_enters p (u32 (time x)) (clients b)); [done|tauto]. }
  destruct (broadcast_turn _ _ _ _ _ _ _ _ _ _ _) as [[[[out ev'] b'] t'] tr'].
  destruct Hturn as (Hev' & Ht' & Hturn). destruct (Hturn p _ Hp) as [Hout Hp']; [apply live_now|].
  destruct (run_turns_lease p (time x) xs ev' b' Hxs Hev' Ht' Hp' Hsort Hlim) as [Hr Ht''].
  destruct (run_turns xs ev' b') as [outs b'']. split; [by constructor|done].
Qed.
End lease.

(** The table a beacon starts with is in order. *)
Lemma start_table_ok : table_ok (replicate 4 no_client).
Proof.
  split; [done|]. intros i j ci cj [-> _]%lookup_replicate _ Hu. done.
Qed.

(** ** Claims *)

(** C26. Telemetry is delivered whole.  A turn of the beacon that receives an
    event from the queue sends it to the board that asked and to every live
    subscriber, as one complete message, or, when that would not fit a UDP
    payload, as a complete status message followed by the complete event;
    every datagram is at most 1472 bytes, is numbered, and the statistics
    stay within their types.  With no event and no question it sends the
    status, at the latest one second after the previous message. *)
Theorem broadcast_delivers {Q} `{Queue Q} dev sysmon mac link present request now ev b (t : telemetry Q) tr :
  let '(discovery, b1) := take_request request now b in
  let queued := fst (next_event t) in
  stats_ok (stats t) → is_u32 ev → (∀ e, queued = Some e → event_ok e) →
  let '(out, ev', b', t', _) := broadcast_turn dev sysmon mac link present request now ev b t tr in
  stats_ok (stats t') ∧ ev' = (if queued is Some _ then ev +32 1 else ev) ∧
  (discovery = None ∧ queued = None ∧ now -32 last_status b < pdMS_TO_TICKS 1000 ∧
     out = [] ∧ clients b' = clients b1 ∧ seq b' = seq b ∨
   ∃ centi texts,
     out = sent_to (recipients discovery now (clients b1)) texts ∧
     clients b' = swept now (clients b1) ∧
     announced mac link (stats t') (default status_event queued) ev' (u32 (now * portTICK_PERIOD_MS)) centi
       (seq b) texts (seq b') ∧
     Forall (λ text, (length text <= 1472)%nat) texts).
Proof. apply broadcast_turn_spec. Qed.

(** C27. Subscriptions last.  When a peer subscribes while one of the four
    entries is free, expired or its own, then in that turn and in every turn
    of the following five seconds, whatever other requests arrive, every
    message that is sent to anyone is sent to the peer as well.  The table
    never holds a peer twice. *)
Theorem subscriber_lease {Q} `{Queue Q} dev sysmon mac link present p (x : turn (Q:=Q)) xs ev b :
  Forall turn_ok (x :: xs) → is_u32 ev → table_ok (clients b) →
  request x = Some (p, str "SCU35_SUBSCRIBE/1") →
  ¬ (Forall (live (u32 (time x))) (clients b) ∧ absent p (clients b)) →
  StronglySorted Z.le (time <$> x :: xs) → Forall (λ y, time y <= time x + pdMS_TO_TICKS 5000) xs →
  let '(outs, b') := run_turns dev sysmon mac link present (x :: xs) ev b in
  Forall (reaches p) outs ∧ table_ok (clients b').
Proof.
  intros. pose proof (lease_spec dev sysmon mac link present p x xs ev b) as Hs.
  destruct (run_turns dev sysmon mac link present (x :: xs) ev b). by apply Hs.
Qed.

(** A subscriber, an oversized event, then a question from another peer while
    the clock wraps. *)
Module BeaconRun.
Definition board : device := λ _ _, 0x48534831.
Definition link : Z → bool * bool := λ _, (true, false).
Definition mac : list Z := [2; 0; 0; 0x11; 0x22; 0x33].
Definition listener : peer := Peer 0x0a000002 5000.
Definition other : peer := Peer 0x0a000003 5001.
Definition state : telemetry (list miner_event) := Telemetry example_stats (Some [example_event]).
Definition b0 : beacon := Beacon (replicate 4 no_client) 0 0 0 0.
Definition turns : list (turn (Q:=list miner_event)) :=
  [Turn (2 ^ 32 - 10) (Some (listener, str "SCU35_SUBSCRIBE/1")) state [];
   Turn (2 ^ 32 + 5) None (Telemetry example_stats (Some [])) [];
   Turn (2 ^ 32 + 300) (Some (other, str "SCU35_DISCOVER/1")) state []].

Lemma example_ok : stats_ok example_stats ∧ event_ok example_event.
Proof. by_decide. Qed.
Lemma queue_ok es :
  Forall event_ok es → ∀ e, fst (next_event (Telemetry example_stats (Some es))) = Some e → event_ok e.
Proof. intros Hes e. destruct Hes; [done|]. by intros [= <-]. Qed.
Lemma turns_ok : Forall turn_ok turns.
Proof.
  pose proof example_ok as [Hs He].
  assert (∀ T r es, Forall event_ok es → turn_ok (Turn T r (Telemetry example_stats (Some es)) [])) as Hok.
  { intros T r es Hes. split; [exact Hs|by apply queue_ok]. }
  apply Forall_cons_2; [apply Hok, Forall_cons_2; [done|constructor]|].
  apply Forall_cons_2; [apply Hok; constructor|].
  apply Forall_cons_2; [apply Hok, Forall_cons_2; [done|constructor]|constructor].
Qed.

(** The number of datagrams of each turn: two for the split event, none, and
    two for each of the two peers. *)
Lemma turns_out :
  length <$> fst (run_turns board 0x44a40000 mac link true turns 0 b0) = [2; 0; 4]%nat.
Proof. vm_compute. reflexivity. Qed.
End BeaconRun.

Lemma broadcast_delivers_witness :
  let '(out, ev', b', t', _) := broadcast_turn BeaconRun.board 0x44a40000 BeaconRun.mac BeaconRun.link false
    (Some (BeaconRun.other, str "SCU35_DISCOVER/1")) 100 0 BeaconRun.b0 BeaconRun.state [] in
  stats_ok (stats t') ∧ ev' = 1.
Proof.
  pose proof (broadcast_delivers BeaconRun.board 0x44a40000 BeaconRun.mac BeaconRun.link false
    (Some (BeaconRun.other, str "SCU35_DISCOVER/1")) 100 0 BeaconRun.b0 BeaconRun.state []) as Hb.
  destruct (take_request _ _ _) as [discovery b1]. cbv zeta in Hb.
  specialize (Hb (proj1 BeaconRun.example_ok) ltac:(unfold in_bits; lia)
    (BeaconRun.queue_ok _ (Forall_cons_2 _ _ _ (proj2 BeaconRun.example_ok) (Forall_nil_2 _)))).
  destruct (broadcast_turn _ _ _ _ _ _ _ _ _ _ _) as [[[[out ev'] b'] t'] tr'].
  destruct Hb as (Hs & -> & _). split; [exact Hs|reflexivity].
Defined.

Lemma subscriber_lease_witness :
  let '(outs, b') := run_turns BeaconRun.board 0x44a40000 BeaconRun.mac BeaconRun.link true BeaconRun.turns 0
    BeaconRun.b0 in
  Forall (reaches BeaconRun.listener) outs ∧ table_ok (clients b').
Proof.
  apply (subscriber_lease BeaconRun.board 0x44a40000 BeaconRun.mac BeaconRun.link true BeaconRun.listener).
  - exact BeaconRun.turns_ok.
  - unfold in_bits. lia.
  - exact start_table_ok.
  - reflexivity.
  - intros [Hl _]. apply Forall_cons in Hl as [Hl _]. exact Hl.
  - cbn [fmap list_fmap time]. repeat constructor; lia.
  - repeat (apply Forall_cons; split; [cbn [time]; change (pdMS_TO_TICKS 5000) with 500; lia|]). constructor.
Defined.
