(* ===== verification/TelemetryOk.v ===== *)
(** * Typed telemetry

    The statistics stay within their C types, and every event in the queue
    fits the fields of [miner_event], through every operation that touches
    them: the reports of Telemetry, the start of the services, the samples of
    Power and the sampling of Beacon.  The queue is FreeRTOS code; the class
    [QueueLaws] says that it is first-in first-out and takes an event whole or
    not at all. *)
From S2P Require Import Prelude Bus Json Ina700 Protocol Telemetry Power Beacon.
Local Open Scope cword_scope.

Class QueueLaws (Q : Type) `{Queue Q} := {
  q_items : Q → list miner_event;
  send_items : ∀ q e, q_items (snd (xQueueSend q e)) = q_items q ++ (if fst (xQueueSend q e) then [e] else []);
  receive_items : ∀ q, q_items q = option_list (fst (xQueueReceive q)) ++ q_items (snd (xQueueReceive q));
  receive_none : ∀ q, fst (xQueueReceive q) = None → q_items q = [];
}.

#[global] Instance list_queue_laws : QueueLaws (list miner_event).
Proof.
  refine {| q_items q := q |}.
  - intros q e. cbn. case_bool_decide; cbn; [done|by rewrite app_nil_r].
  - by intros [|e q].
  - by intros [|e q].
Defined.

Section typed.
Context {Q : Type} `{QueueLaws Q}.
Implicit Types t : telemetry Q.

(** The events waiting to be published. *)
Definition waiting t : list miner_event := match events t with Some q => q_items q | None => [] end.

Record tel_ok t : Prop := {
  tel_stats : stats_ok (stats t);
  tel_events : Forall event_ok (waiting t);
}.

(** ** Fields *)

(** An update that respects the types of the numbers it sets. *)
Lemma on_ok name f e s : (stats_ok s → stats_ok (f s)) → stats_ok s → stats_ok (on name f e s).
Proof. intros Hf Hs. unfold on. destruct (named name e); auto. Qed.

Lemma stats_ok_u32 s :
  stats_ok s → is_u32 (jobs s) ∧ is_u32 (dropped s) ∧ (length (st_job_id s) <= 127)%nat.
Proof. intros (Hj & Hn & _). repeat rewrite Forall_cons in Hn. tauto. Qed.

(** Numbers of a typed record: each one in range. *)
Ltac fields :=
  intros (Hj & Hn & Ht & Hp); repeat rewrite Forall_cons in Hn;
  unfold stats_ok; cbn; repeat rewrite Forall_cons;
  repeat match goal with |- context [u32 ?x] =>
    lazymatch goal with Hx : is_u32 (u32 x) |- _ => fail | _ => pose proof (u32_range x) end end;
  tauto.

Lemma count_event_ok e s : stats_ok s → stats_ok (count_event e s).
Proof.
  intros Hs. unfold count_event. cbv zeta.
  repeat (apply on_ok; [|try assumption]);
    try (clear; unfold inc_submitted, inc_accepted, inc_rejected, inc_invalid, pool_up, pool_auth,
           with_shares, with_flags; fields).
  clear. unfold pool_down, with_job, with_flags. intros (Hj & Hn). split; [simpl; lia|done].
Qed.

Lemma dropped_ok s n : is_u32 n → stats_ok s → stats_ok (with_dropped n s).
Proof. intros Hn'. unfold with_dropped. fields. Qed.

(** ** Reports *)

Lemma telemetry_detail_ok e t : event_ok e → tel_ok t → tel_ok (telemetry_detail e t).
Proof.
  intros He [Hs Hq]. unfold telemetry_detail. pose proof (count_event_ok e (stats t) Hs) as Hc.
  unfold waiting in Hq. destruct (events t) as [q|]; [|by split].
  pose proof (send_items q e) as Hi. destruct (xQueueSend q e) as [ok q']. cbn [fst snd] in Hi.
  split; cbn [stats].
  - destruct ok; [done|]. apply dropped_ok; [apply u32_range|done].
  - unfold waiting. cbn [events]. rewrite Hi. apply Forall_app_2; [done|].
    destruct ok; [by apply Forall_singleton|constructor].
Qed.

Lemma telemetry_event_ok name t : tel_ok t → tel_ok (telemetry_event name t).
Proof.
  intros Ht. apply telemetry_detail_ok; [|done]. destruct (stats_ok_u32 _ (tel_stats _ Ht)) as (Hj & _ & Hl).
  unfold event_ok. cbn [ev_name ev_job_id ev_submission ev_hash ev_job_number].
  unfold snprintf. cbn [snd]. rewrite length_take. cbn [length]. split_and!; [lia..|done].
Qed.

Lemma telemetry_job_ok id t :
  tel_ok t → is_u32 (fst (telemetry_job id t)) ∧ tel_ok (snd (telemetry_job id t)).
Proof.
  intros [Hs Hq]. unfold telemetry_job. cbn [fst snd]. split; [apply u32_range|].
  apply telemetry_event_ok. split; [|done]. cbn [stats]. revert Hs. unfold with_job.
  intros (Hj & Hn & Ht & Hp). split; [unfold snprintf; cbn; rewrite length_take; lia|].
  repeat rewrite Forall_cons in Hn. cbn. repeat rewrite Forall_cons. pose proof (u32_range (jobs (stats t) + 1)). tauto.
Qed.

Lemma telemetry_mining_ok b t : tel_ok t → tel_ok (telemetry_mining b t).
Proof. by intros [Hs Hq]. Qed.

Lemma telemetry_power_ok p t : sample_ok (fst p) → sample_ok (snd p) → tel_ok t → tel_ok (telemetry_power p t).
Proof. intros Hp0 Hp1 [(Hj & Hn & Ht & _) Hq]. by split. Qed.

(** ** Samples *)

Lemma with_errors_ok n s : is_u32 n → sample_ok s → sample_ok (with_errors n s).
Proof. by intros Hn (? & ? & ? & ? & ?). Qed.

Lemma set_valid_ok b s : sample_ok s → sample_ok (set_valid b s).
Proof. done. Qed.

Lemma with_sampled_ok n s : sample_ok s → sample_ok (with_sampled n s).
Proof. done. Qed.

Lemma sample_read_ok {D} `{InaLaws D} a s (d : D) :
  sample_ok s → sample_ok (snd (fst (ina700_sample_read a s d))).
Proof.
  intros Hs. pose proof (ina700_sample_spec a s d) as Hr. destruct (ina700_sample_read a s d) as [[rc s'] d'].
  destruct (fst (read_registers a d)) as [[[[v t] i] p]|]; [|by destruct Hr as [_ ->]].
  destruct Hr as (_ & Es & Hv & Hp & Hi & Ht). cbn [fst snd].
  assert (errors s' = errors s) as He by by rewrite Es. destruct Hs as (_ & _ & Hse & _).
  unfold sample_ok, is_s32. by rewrite He.
Qed.
End typed.

(** ** The power task *)
Section power.
Context (dev : device) (clock : trace → Z) (fuel : nat).

Lemma poll_ok a x d : sample_ok (sample x) → sample_ok (sample (fst (poll dev clock fuel a x d))).
Proof.
  intros Hx. unfold poll. destruct (ready x); cbn [negb].
  - pose proof (@sample_read_ok iic (power_bus dev clock fuel) (power_laws dev clock fuel) a (set_valid false (sample x)) d Hx) as Hs.
    destruct (ina700_sample_read a (set_valid false (sample x)) d) as [[rc s] d1]. cbn [fst snd] in Hs.
    case_bool_decide; [|done]. by apply with_errors_ok; [apply u32_range|].
  - destruct (ina700_init a d) as [rc d1]. case_bool_decide; [done|].
    apply with_errors_ok; [apply u32_range|done].
Qed.

(** A turn of the power task keeps the samples and the statistics typed. *)
Lemma power_turn_ok {Q} `{QueueLaws Q} xs d (tel : telemetry Q) :
  sample_ok (sample (fst xs)) → sample_ok (sample (snd xs)) → tel_ok tel →
  let '(x0, x1, _, tel') := power_turn dev clock fuel xs d tel in
  sample_ok (sample x0) ∧ sample_ok (sample x1) ∧ tel_ok tel'.
Proof.
  intros Hx0 Hx1 Ht. unfold power_turn. pose proof (poll_ok 0x44 (fst xs) d Hx0) as P0.
  destruct (poll dev clock fuel 0x44 (fst xs) d) as [x0 d1].
  pose proof (poll_ok 0x45 (snd xs) d1 Hx1) as P1. destruct (poll dev clock fuel 0x45 (snd xs) d1) as [x1 d2].
  split_and!; [done|done|by apply telemetry_power_ok].
Qed.
End power.

(** ** The beacon and the start of the services *)
Section services.
Context {Q : Type} `{QueueLaws Q}.
Implicit Types t : telemetry Q.

Lemma next_event_ok t :
  tel_ok t → tel_ok (snd (next_event t)) ∧ ∀ e, fst (next_event t) = Some e → event_ok e.
Proof.
  intros [Hs Hq]. unfold next_event, waiting in *. destruct (events t) as [q|] eqn:Eq.
  2: { split; [|done]. split; [done|]. unfold waiting. cbn [snd]. by rewrite Eq. }
  pose proof (receive_items q) as Hi. destruct (xQueueReceive q) as [e q']. cbn [fst snd] in Hi.
  rewrite Hi in Hq. apply Forall_app in Hq as [He Hq]. split; [by split|].
  intros x Hx. cbn [fst] in Hx. subst e. by inversion He.
Qed.

Lemma sample_rate_ok dev present now b t tr :
  tel_ok t → let '(_, t', _) := sample_rate dev present now b t tr in tel_ok t'.
Proof.
  intros [Hs Hq]. pose proof (sample_rate_spec dev present now b t tr) as Hr.
  destruct (sample_rate dev present now b t tr) as [[b' t'] tr']. destruct Hr as (_ & _ & _ & He & Hok).
  split; [by apply Hok|]. unfold waiting in *. by rewrite He.
Qed.

Lemma broadcast_turn_ok dev sysmon mac link present request now ev b t tr :
  tel_ok t → is_u32 ev →
  let '(_, ev', _, t', _) := broadcast_turn dev sysmon mac link present request now ev b t tr in
  tel_ok t' ∧ is_u32 ev'.
Proof.
  intros Ht Hev. unfold broadcast_turn. destruct (take_request request now b) as [discovery b1].
  pose proof (sample_rate_ok dev present now b1 t tr Ht) as Hr.
  destruct (sample_rate dev present now b1 t tr) as [[b2 t1] tr1].
  destruct (next_event_ok t1 Hr) as [Hn _]. destruct (next_event t1) as [queued t2]. cbn [snd] in Hn.
  assert (is_u32 (match queued with Some _ => ev +32 1 | None => ev end)) as Hev'
    by (destruct queued; [apply u32_range|done]).
  destruct (_ && _ && _); [done|]. destruct (Xil_In32 dev _ _) as [raw tr2].
  by destruct (publish _ _ _ _ _ _ _ _ _).
Qed.

Lemma dashboard_start_ok dev q t tr :
  stats_ok (stats t) → q_items q = [] → tel_ok (fst (dashboard_start dev q t tr)).
Proof.
  intros (Hj & Hn & Hr) Hq. unfold dashboard_start, Xil_In32. cbn [fst]. split.
  - split; [done|]. split; [|done]. repeat rewrite Forall_cons in Hn. cbn. repeat rewrite Forall_cons.
    pose proof (λ x, u32_range x) as Hu. split_and!; try apply Hu; try tauto.
  - unfold waiting. cbn [events]. by rewrite Hq.
Qed.
End services.
