(* ===== verification/Dashboard.v ===== *)
(** * Configuration server (src/software/application/dashboard.c, config_task)

    The configuration server: one request line, one reply line, over the
    settings store.  Sockets, ticks and the settings lock are the environment:
    what was received and when are arguments, what is sent is a result. *)
From S2P Require Import Prelude Settings Bus Json Ina700 Protocol Telemetry.
Local Open Scope cword_scope.

(** ** Configuration *)
Record app (D Q : Type) := App {
  settings : miner_settings; settings_generation : Z; eeprom : D; app_tel : telemetry Q
}.
Arguments App {D Q} _ _ _ _. Arguments settings {D Q} _. Arguments settings_generation {D Q} _.
Arguments eeprom {D Q} _. Arguments app_tel {D Q} _.

Section config.
Context {D Q : Type} `{Store D} `{Queue Q} `{JsonLibrary}.
Implicit Types s : app D Q.

(** [settings=next] once the save has succeeded, [settings_generation++], and
    the report after the lock is given back. *)
Definition assign_settings (next : miner_settings) (d : D) s : app D Q :=
  App next (settings_generation s) d (app_tel s).
Definition count_save s : app D Q := App (settings s) (settings_generation s +32 1) (eeprom s) (app_tel s).
Definition report_saved s : app D Q :=
  App (settings s) (settings_generation s) (eeprom s) (telemetry_event (str "settings_saved") (app_tel s)).

(** The error message, or [None]. *)
Definition configure (line : list Z) s : option string * app D Q :=
  match miner_config_parse line (settings s) with
  | inl error => (Some error, s)
  | inr next =>
      let '(rc, d) := settings_save next (eeprom s) in
      if bool_decide (rc ≠ 0)
      then (Some "EEPROM write or verification failed"%string,
            App (settings s) (settings_generation s) d (app_tel s))
      else (None, report_saved (count_save (assign_settings next d s)))
  end.

Definition reply_text (error : option string) : list Z :=
  match error with
  | Some error => concat [jstr "{'ok':false,'error':'"; str error; jstr "'}"; [10]]
  | None => concat [jstr "{'ok':true,'message':'Saved; pool reconnects, MAC applies after reboot'}"; [10]]
  end.

(** [config_reply] with its return value and the string it leaves in [out]. *)
Definition config_reply (active : list Z) (line : list Z) (complete : bool) (cap : nat) s
    : Z * list Z * app D Q :=
  let answer error s := let '(n, text) := snprintf cap (reply_text error) in (n, text, s) in
  if negb complete then answer (Some "incomplete or oversized request"%string) s else
  match (if JSON_Validate line then json_string line (str "command") 24 else None) with
  | None => answer (Some "invalid JSON request"%string) s
  | Some command =>
      if bool_decide (command = str "get_settings") then
        let '(stored, saved, d) := settings_load (eeprom s) in
        let s := App (settings s) (settings_generation s) d (app_tel s) in
        if bool_decide (stored < 0) then answer (Some "EEPROM read failed"%string) s
        else let '(n, text) := miner_config_json cap saved (bool_decide (stored ≠ 0)) active in (n, text, s)
      else let '(error, s) := configure line s in answer error s
  end.
End config.

(** What [FreeRTOS_recv(client,&c,1,0)] returned, and the ticks since the
    connection was accepted when the loop condition was evaluated. *)
Inductive request_event := Char (c : Z) | Nothing | Broken.

(** The request loop of [config_task] over the events of a connection. *)
Fixpoint receive_request (es : list (Z * request_event)) (line : list Z) : list Z * bool :=
  match es with
  | [] => (line, false)
  | (elapsed, e) :: es =>
      if bool_decide (length line < 1024)%nat && bool_decide (elapsed < pdMS_TO_TICKS 3000) then
        match e with
        | Broken => (line, false)
        | Nothing => receive_request es line
        | Char c => if bool_decide (c = 10) then (line, true) else receive_request es (line ++ [c])
        end
      else (line, false)
  end.

(** One connection: the bytes of the reply, or [None] when it is closed
    without one. *)
Definition config_turn {D Q} `{Store D} `{Queue Q} `{JsonLibrary} (active : list Z)
    (es : list (Z * request_event)) (s : app D Q) : option (list Z) * app D Q :=
  let '(line, complete) := receive_request es [] in
  let '(n, text, s) := config_reply active line complete 1024 s in
  if bool_decide (n <= 0) || bool_decide (n >= 1024) then (None, s) else (Some text, s).

(** ** The contract of a connection *)

(** The characters a connection delivered, in order. *)
Definition chars (es : list (Z * request_event)) : list Z :=
  es ≫= λ e, match snd e with Char c => [c] | _ => [] end.

Definition EEPROM_FAILED : string := "EEPROM write or verification failed".

(** Every message a reply can carry. *)
Definition config_errors : list string :=
  ["incomplete or oversized request"; "invalid JSON request"; "unsupported command"; "invalid fields";
   "invalid password"; "invalid settings"; "EEPROM read failed"; EEPROM_FAILED]%string.

Lemma config_errors_short error : error ∈ config_errors → (String.length error <= 40)%nat.
Proof. revert error. apply Forall_forall. by_decide. Qed.

Section contract.
Context {D Q : Type} `{StoreLaws D} `{Queue Q} `{JsonLibrary}.
Implicit Types s : app D Q.

(** Nothing but the state of the EEPROM driver differs. *)
Definition unchanged s s' : Prop :=
  settings s' = settings s ∧ settings_generation s' = settings_generation s ∧ app_tel s' = app_tel s ∧
  contents (eeprom s') = contents (eeprom s).

(** What a connection does, by its reply: refuse the request, read the stored
    settings back, report a failed save, or save. *)
Inductive config_outcome (active line : list Z) (complete : bool) s s' : list Z → Prop :=
| config_refused error :
    error ∈ config_errors → unchanged s s' → config_outcome active line complete s s' (reply_text (Some error))
| config_read saved (found : bool) :
    complete = true → unchanged s s' → json_string line (str "command") 24 = Some (str "get_settings") →
    stored (contents (eeprom s)) = (if found then Some saved else None) →
    (found = false → saved = settings_defaults) →
    config_outcome active line complete s s' (config_text saved found active)
| config_unsaved next :
    complete = true → accepted_config line (settings s) next →
    settings s' = settings s → settings_generation s' = settings_generation s → app_tel s' = app_tel s →
    save_step next (stored (contents (eeprom s))) (-1) (stored (contents (eeprom s'))) →
    config_outcome active line complete s s' (reply_text (Some EEPROM_FAILED))
| config_saved next :
    complete = true → accepted_config line (settings s) next →
    settings s' = next → settings_generation s' = settings_generation s +32 1 →
    stored (contents (eeprom s')) = Some next →
    app_tel s' = telemetry_event (str "settings_saved") (app_tel s) →
    config_outcome active line complete s s' (reply_text None).

(** ** Proofs *)

(** The messages of the parser are among them. *)
Lemma config_parse_error line current error :
  miner_config_parse line current = inl error → error ∈ config_errors.
Proof.
  unfold miner_config_parse. intros Hp.
  repeat match goal with
  | E : inl _ = inl _ |- _ => injection E as <-; by_decide
  | E : inr _ = inl _ |- _ => discriminate E
  | E : (if ?b then _ else _) = inl _ |- _ => destruct b
  | E : match ?x with _ => _ end = inl _ |- _ => destruct x
  end.
Qed.

Lemma reply_text_length error :
  match error with Some error => error ∈ config_errors | None => True end →
  (0 < length (reply_text error) < 1024)%nat.
Proof.
  intros He. destruct error as [error|]; unfold reply_text; [|split; [apply Nat.lt_0_succ|fragments]].
  apply config_errors_short in He. rewrite <-length_str in He. revert He. generalize (str error). intros text He. split; [apply Nat.lt_0_succ|fragments].
Qed.

Lemma snprintf_whole text :
  (0 < length text < 1024)%nat → snprintf 1024 text = (Z.of_nat (length text), text).
Proof. intros. unfold snprintf. rewrite take_ge by lia. done. Qed.

Lemma configure_spec line s :
  settings_ok (settings s) →
  let '(error, s') := configure line s in
  match error with
  | Some error => error ∈ config_errors ∧ settings s' = settings s ∧
      (unchanged s s' ∨ error = EEPROM_FAILED ∧ ∃ next,
        accepted_config line (settings s) next ∧ settings_generation s' = settings_generation s ∧
        app_tel s' = app_tel s ∧
        save_step next (stored (contents (eeprom s))) (-1) (stored (contents (eeprom s'))))
  | None => ∃ next, accepted_config line (settings s) next ∧ settings s' = next ∧
      settings_generation s' = settings_generation s +32 1 ∧ stored (contents (eeprom s')) = Some next ∧
      app_tel s' = telemetry_event (str "settings_saved") (app_tel s)
  end.
Proof.
  intros Hok. unfold configure. pose proof (config_parse_spec line (settings s) Hok) as Hp.
  destruct (miner_config_parse line (settings s)) as [error|next] eqn:E.
  { split; [by eapply config_parse_error|]. split; [done|]. by left. }
  pose proof (settings_save_step next (eeprom s) (proj1 Hp)) as Hs.
  destruct (settings_save next (eeprom s)) as [rc d]. destruct Hs as [Hs _].
  destruct (bool_decide_reflect (rc ≠ 0)) as [Hrc|Hrc].
  - split; [by_decide|]. split; [done|]. right. split; [done|]. exists next.
    assert (rc = -1) as -> by (inversion Hs; congruence). done.
  - exists next. apply dec_stable in Hrc as ->. apply save_step_zero in Hs. done.
Qed.

Lemma config_reply_spec active line complete s :
  settings_ok (settings s) →
  let '(n, text, s') := config_reply active line complete 1024 s in
  n = Z.of_nat (length text) ∧ (0 < length text < 1024)%nat ∧
  config_outcome active line complete s s' text ∧ settings_ok (settings s').
Proof.
  intros Hok. unfold config_reply.
  assert (∀ error s', error ∈ config_errors → unchanged s s' →
    let '(n, text, s'') := (let '(n, text) := snprintf 1024 (reply_text (Some error)) in (n, text, s')) in
    n = Z.of_nat (length text) ∧ (0 < length text < 1024)%nat ∧
    config_outcome active line complete s s'' text ∧ settings_ok (settings s'')) as Href.
  { intros error s' He Hu. pose proof (reply_text_length (Some error) He) as Hl.
    rewrite snprintf_whole by done. split_and!; [done|lia|lia|by constructor|].
    by destruct Hu as (-> & _). }
  destruct complete; cbn [negb]; [|apply Href; [by_decide|done]].
  destruct (if JSON_Validate line then _ else _) as [command|] eqn:Ec; [|apply Href; [by_decide|done]].
  destruct (JSON_Validate line); [|done].
  destruct (bool_decide_reflect (command = str "get_settings")) as [->|_].
  - pose proof (settings_load_spec (eeprom s)) as Hl.
    destruct (settings_load (eeprom s)) as [[rc saved] d]. destruct Hl as [Hd Hl].
    destruct (bool_decide_reflect (rc < 0)); [apply Href; [by_decide|done]|].
    destruct Hl as [[-> _]|Hl]; [lia|].
    assert (settings_valid saved = true ∧ length (host saved) = 96%nat ∧
      length (worker saved) = 128%nat ∧ is_u16 (port saved)) as (Hv & Lh & Lw & Hp).
    { destruct (stored (contents (eeprom s))) as [x|] eqn:Hx; destruct Hl as [-> ->].
      - eapply stored_shape; [apply contents_length|done].
      - by_decide. }
    unfold miner_config_json. rewrite Hv. cbn [negb].
    pose proof (config_text_length saved (bool_decide (rc ≠ 0)) active Lh Lw Hp).
    rewrite snprintf_whole by done. split_and!; [done|lia|lia| |done].
    apply (config_read _ _ _ _ _ saved (bool_decide (rc ≠ 0))).
    { reflexivity. } { split_and!; [reflexivity..|exact Hd]. } { exact Ec. }
    + destruct (stored (contents (eeprom s))); by destruct Hl as [-> ->].
    + destruct (stored (contents (eeprom s))); by destruct Hl as [-> ->].
  - pose proof (configure_spec line s Hok) as Hc. destruct (configure line s) as [[error|] s'].
    + destruct Hc as (Hl & Hset & [Hu|(-> & next & Ha & Hg & Ht & Hs)]); [by apply Href|].
      pose proof (reply_text_length (Some EEPROM_FAILED) Hl).
      rewrite snprintf_whole by done. split_and!; [done|lia|lia| |by rewrite Hset].
      by eapply config_unsaved.
    + destruct Hc as (next & Ha & <- & Hg & Hs & Ht). pose proof (reply_text_length None I).
      rewrite snprintf_whole by done. split_and!; [done|lia|lia| |apply Ha].
      by eapply config_saved.
Qed.

(** The settings in use are the ones in force on the device. *)
Definition coherent s : Prop := stored (contents (eeprom s)) = Some (settings s).

Lemma outcome_coherent active line complete s s' text :
  config_outcome active line complete s s' text →
  coherent s → text ≠ reply_text (Some EEPROM_FAILED) → coherent s'.
Proof.
  unfold coherent. intros Ho Hc Ht.
  destruct Ho as [error _ (Hs & _ & _ & He)|saved found _ (Hs & _ & _ & He) _ _ _| |]; try congruence.
Qed.

(** The three kinds of answer are different texts. *)
Lemma reply_saved_unique error : reply_text (Some error) ≠ reply_text None.
Proof. intros Heq%(f_equal (lookup 6%nat)). discriminate. Qed.

Lemma config_text_unique saved found active : config_text saved found active ≠ reply_text None.
Proof. intros Heq%(f_equal (lookup 12%nat)). discriminate. Qed.

Lemma outcome_saved active line complete s s' text :
  config_outcome active line complete s s' text → text = reply_text None → coherent s'.
Proof.
  intros Ho Ht. unfold coherent.
  destruct Ho; [by apply reply_saved_unique in Ht|by apply config_text_unique in Ht
               |by apply reply_saved_unique in Ht|congruence].
Qed.
End contract.

(** A request line ends at the first newline and stays inside its buffer. *)
Lemma receive_request_spec es line0 :
  (length line0 <= 1024)%nat → 10 ∉ line0 →
  let '(line, complete) := receive_request es line0 in
  (length line <= 1024)%nat ∧ (10 ∉ line) ∧
  (complete = true → ∃ rest, line0 ++ chars es = line ++ [10] ++ rest).
Proof.
  revert line0. induction es as [|[elapsed e] es IH]; intros line0 Hl Hn; cbn [receive_request]; [done|].
  destruct (bool_decide_reflect (length line0 < 1024)%nat); cbn [andb]; [|done].
  destruct (bool_decide_reflect (elapsed < pdMS_TO_TICKS 3000)); [|done].
  destruct e as [c| |]; [|apply (IH line0); done|done].
  destruct (bool_decide_reflect (c = 10)) as [->|Hc].
  { split_and!; [done|done|]. intros _. by exists (chars es). }
  specialize (IH (line0 ++ [c])). destruct (receive_request es (line0 ++ [c])) as [line complete].
  destruct IH as (H1 & H2 & H3); [rewrite length_app; simpl; lia| |].
  { intros [?|?%list_elem_of_singleton]%elem_of_app; [done|lia]. }
  split_and!; [done|done|]. intros Hcomp. destruct (H3 Hcomp) as [rest Hrest]. exists rest.
  by rewrite <-Hrest, <-app_assoc.
Qed.

(** A connection as a whole. *)
Lemma config_turn_step {D Q} `{StoreLaws D} `{Queue Q} `{JsonLibrary} active es (s : app D Q) :
  settings_ok (settings s) →
  let '(line, complete) := receive_request es [] in
  let '(reply, s') := config_turn active es s in
  ∃ text, reply = Some text ∧ (0 < length text < 1024)%nat ∧
    config_outcome active line complete s s' text ∧ settings_ok (settings s').
Proof.
  intros Hok. unfold config_turn. destruct (receive_request es []) as [line complete].
  pose proof (config_reply_spec active line complete s Hok) as Hc.
  destruct (config_reply active line complete 1024 s) as [[n text] s'].
  destruct Hc as (-> & Hl & Ho & Hs'). rewrite !bool_decide_eq_false_2 by lia. by exists text.
Qed.

(** What moves with the generation counter. *)
Lemma outcome_generation {D Q} `{StoreLaws D} `{Queue Q} `{JsonLibrary} active line complete (s s' : app D Q) text :
  config_outcome active line complete s s' text →
  settings s' = settings s ∧ settings_generation s' = settings_generation s ∧ app_tel s' = app_tel s ∨
  settings_generation s' = settings_generation s +32 1 ∧
    app_tel s' = telemetry_event (str "settings_saved") (app_tel s).
Proof.
  intros [error _ (? & ? & ? & _)|saved found _ (? & ? & ? & _) _ _ _|next _ _ ? ? ? _|next _ _ _ ? _ ?];
    [by left|by left|by left|by right].
Qed.

(** A connection that saves: assignment, count and report, in this order, on
    the state after everything before. *)
Lemma config_turn_saves {D Q} `{StoreLaws D} `{Queue Q} `{JsonLibrary} active es (s : app D Q) :
  settings_ok (settings s) →
  let '(_, s') := config_turn active es s in
  settings_generation s' = settings_generation s ∧ settings s' = settings s ∧ app_tel s' = app_tel s ∨
  s' = report_saved (count_save (assign_settings (settings s') (eeprom s') s)).
Proof.
  intros Hok. pose proof (config_turn_step active es s Hok) as Hs.
  destruct (receive_request es []) as [line complete]. destruct (config_turn active es s) as [reply s'].
  destruct Hs as (text & _ & _ & Ho & _). destruct (outcome_generation _ _ _ _ _ _ Ho) as [(? & ? & ?)|[Eg Et]]; [by left|].
  right. destruct s' as [x g d t]. cbn in *. by subst.
Qed.

(** ** Claims *)

(** C17. Every connection to the configuration port is answered, with a line
    that fits the reply buffer, and the answer tells what happened.  A request
    is the text before the first newline.  A refusal carries one
    of eight messages and leaves settings, generation counter and EEPROM
    contents as they were; a read-back shows the settings in force on the device; a reported EEPROM failure keeps the
    settings in use and leaves the old or the requested ones on the device;
    [ok] is answered only when the requested settings, checked and with an
    omitted password kept, are in force on the device and in use, the
    generation counter has moved on and the event has been reported.  Unless
    the failure was reported, settings in use and settings on the device stay
    the same. *)
Theorem config_connection {D Q} `{StoreLaws D} `{Queue Q} `{JsonLibrary} active es (s : app D Q) :
  settings_ok (settings s) →
  let '(line, complete) := receive_request es [] in
  let '(reply, s') := config_turn active es s in
  (complete = true → ∃ rest, (10 ∉ line) ∧ chars es = line ++ [10] ++ rest) ∧
  ∃ text, reply = Some text ∧ (0 < length text < 1024)%nat ∧
    config_outcome active line complete s s' text ∧ settings_ok (settings s') ∧
    (coherent s → text ≠ reply_text (Some EEPROM_FAILED) → coherent s').
Proof.
  intros Hok. pose proof (config_turn_step active es s Hok) as Hc.
  pose proof (receive_request_spec es [] ltac:(simpl; lia) (not_elem_of_nil 10)) as Hr.
  destruct (receive_request es []) as [line complete]. destruct Hr as (_ & Hn & Hr).
  destruct (config_turn active es s) as [reply s']. destruct Hc as (text & -> & Hl & Ho & Hs'). split.
  - intros Hcomp. destruct (Hr Hcomp) as [rest Hrest]. by exists rest.
  - exists text. split_and!; [done|lia|lia|done|done|]. by apply (outcome_coherent _ _ _ _ _ _ Ho).
Qed.

(** A request on a device that never fails is saved. *)
Module ConfigRun.
Definition connection : list (Z * request_event) := [(0, Char 123); (1, Nothing); (2, Char 10)].
Definition start : app FaultyRam.good (list miner_event) :=
  App example_settings 7 [] (Telemetry example_stats (Some [])).
Abbreviation answer := (config_turn (mac example_settings) connection start).

Lemma request_line : receive_request connection [] = ([123], true).
Proof. vm_compute. reflexivity. Qed.
Lemma reply_ok : fst answer = Some (reply_text None).
Proof. vm_compute. reflexivity. Qed.
Lemma ok_start : settings_ok (settings start).
Proof. by_decide. Qed.
End ConfigRun.

Lemma config_connection_witness :
  config_outcome (mac example_settings) [123] true ConfigRun.start (snd ConfigRun.answer) (reply_text None).
Proof.
  pose proof (config_connection (mac example_settings) ConfigRun.connection ConfigRun.start
    ConfigRun.ok_start) as H.
  pose proof ConfigRun.reply_ok as Hr.
  rewrite ConfigRun.request_line in H. cbv iota beta in H.
  destruct ConfigRun.answer as [reply s']. destruct H as (_ & text & -> & _ & Ho & _).
  injection Hr as ->. exact Ho.
Defined.
