(* ===== verification/Sockets.v ===== *)
(** * The sockets of dashboard.c (bound_socket, the set-up of broadcast_task
    and config_task, and a connection to the configuration server)

    The configuration connection of Dashboard with its sockets: every socket
    opened is closed again, and the reply reaches the client as far as the
    stack takes it. *)
From stdpp Require Import strings.
From S2P Require Import Prelude Settings Bus Json Ina700 Protocol Telemetry Dashboard Rtos.
Local Open Scope cword_scope.

Section code.
Context (env : environment).

Definition bound_socket (type : socket_type) (port : Z) : rtos Z :=
  s ← invoke env (FreeRTOS_socket type);
  if bool_decide (s = FREERTOS_INVALID_SOCKET) then mret s else
  rc ← invoke env (FreeRTOS_bind s port);
  if bool_decide (rc ≠ 0) then
    void (FreeRTOS_closesocket s);; mret FREERTOS_INVALID_SOCKET
  else
    void (FreeRTOS_setsockopt s FREERTOS_SO_RCVTIMEO (pdMS_TO_TICKS 100));; mret s.

(** The sockets of the two tasks before their loops. *)
Definition broadcast_open : rtos Z :=
  s ← bound_socket FREERTOS_SOCK_DGRAM 4028;
  configASSERT (negb (bool_decide (s = FREERTOS_INVALID_SOCKET))) "dashboard.c" 69;;
  mret s.
Definition config_open : rtos Z :=
  server ← bound_socket FREERTOS_SOCK_STREAM 4029;
  configASSERT (negb (bool_decide (server = FREERTOS_INVALID_SOCKET))) "dashboard.c" 162;;
  rc ← invoke env (FreeRTOS_listen server 2);
  configASSERT (bool_decide (rc = 0)) "dashboard.c" 163;;
  mret server.

(** The loop that sends the reply; [false] when the fuel ran out. *)
Fixpoint send_reply (fuel : nat) (client : Z) (rest : list Z) : rtos bool :=
  match rest with
  | [] => mret true
  | _ :: _ =>
      match fuel with
      | O => mret false
      | S fuel =>
          k ← invoke env (FreeRTOS_send client rest);
          if bool_decide (k <= 0) then mret true else send_reply fuel client (drop (Z.to_nat k) rest)
      end
  end.

(** One round of the loop of [config_task]: the request received is [es]. *)
Definition config_round {D Q} `{Store D} `{Queue Q} `{JsonLibrary} (server : Z) (active : list Z)
    (es : list (Z * request_event)) (a : app D Q) : rtos (app D Q) :=
  client ← invoke env (FreeRTOS_accept server);
  if bool_decide (client = 0) || bool_decide (client = FREERTOS_INVALID_SOCKET) then
    on_bus (λ t, ((), vTaskDelay 1 t));; mret a
  else
    void (FreeRTOS_setsockopt client FREERTOS_SO_RCVTIMEO (pdMS_TO_TICKS 100));;
    void (FreeRTOS_setsockopt client FREERTOS_SO_SNDTIMEO (pdMS_TO_TICKS 500));;
    let '(reply, a) := config_turn active es a in
    match reply with
    | None => void (FreeRTOS_closesocket client);; mret a
    | Some text =>
        send_reply (length text) client text;;
        void (FreeRTOS_shutdown client);;
        void (FreeRTOS_closesocket client);;
        mret a
    end.
End code.

(** ** Accounts *)

(** The socket [h] is opened by a call that returns it, and closed. *)
Definition opens (h : Z) (c : call * Z) : Z :=
  match fst c with
  | FreeRTOS_socket _ | FreeRTOS_accept _ => if bool_decide (snd c = h) then 1 else 0
  | FreeRTOS_closesocket s => if bool_decide (s = h) then -1 else 0
  | _ => 0
  end.
(** How many times [h] was opened and not closed since. *)
Definition balance (h : Z) (l : list (call * Z)) : Z := foldr (λ c n, opens h c + n) 0 l.

(** The bytes the stack accepted on [h], in the order they were sent. *)
Fixpoint transmitted (h : Z) (l : list (call * Z)) : list Z :=
  match l with
  | [] => []
  | (FreeRTOS_send s data, k) :: l => transmitted h l ++ (if bool_decide (s = h) then take (Z.to_nat k) data else [])
  | _ :: l => transmitted h l
  end.
Definition send_failed (c : call * Z) : bool :=
  match fst c with FreeRTOS_send _ _ => bool_decide (snd c <= 0) | _ => false end.

Lemma balance_cons h c l : balance h (c :: l) = opens h c + balance h l.
Proof. done. Qed.

(** A computation adds to the history only. *)
Definition extends {A} (m : rtos A) (s : rt) (P : A → list (call * Z) → Prop) : Prop :=
  ∃ a t new, m s = (Returned a, Rt t (new ++ calls s)) ∧ P a new.

Lemma extends_bind {A B} (m : rtos A) (k : A → rtos B) s P Q :
  extends m s P → (∀ a t new, P a new → extends (k a) (Rt t (new ++ calls s)) (λ b l, Q b (l ++ new))) →
  extends (a ← m; k a) s Q.
Proof.
  intros (a & t & new & Em & Hp) Hk. destruct (Hk a t new Hp) as (b & t' & l & Ek & Hq).
  exists b, t', (l ++ new). unfold mbind, rtos_bind. rewrite Em, Ek. cbn [calls]. by rewrite app_assoc.
Qed.
Lemma extends_ret {A} (a : A) s (P : A → list (call * Z) → Prop) : P a [] → extends (mret a) s P.
Proof. intros Hp. exists a, (bus s), []. split; [by destruct s|done]. Qed.
Lemma extends_void c s (P : () → list (call * Z) → Prop) : P () [(c, 0)] → extends (void c) s P.
Proof. intros Hp. by exists (), (bus s), [(c, 0)]. Qed.
Lemma extends_invoke env c s (P : Z → list (call * Z) → Prop) :
  P (env s c) [(c, env s c)] → extends (invoke env c) s P.
Proof. intros Hp. by exists (env s c), (bus s), [(c, env s c)]. Qed.
Lemma extends_then {B} c (k : () → rtos B) s (P : B → list (call * Z) → Prop) :
  extends (k ()) (Rt (bus s) ((c, 0) :: calls s)) (λ b l, P b (l ++ [(c, 0)])) → extends (u ← void c; k u) s P.
Proof.
  intros (b & t & new & E & Hp). exists b, t, (new ++ [(c, 0)]). split; [|done].
  unfold mbind, rtos_bind. cbn [void]. rewrite E. by rewrite <-app_assoc.
Qed.
Lemma extends_bus {A} (f : trace → A * trace) s (P : A → list (call * Z) → Prop) :
  (∀ a, P a []) → extends (on_bus f) s P.
Proof. intros Hp. unfold extends, on_bus. destruct (f (bus s)) as [a t]. by exists a, t, []. Qed.

Lemma balance_app h l1 l2 : balance h (l1 ++ l2) = balance h l1 + balance h l2.
Proof. unfold balance. induction l1 as [|c l1 IH]; cbn; [done|]. rewrite IH. lia. Qed.

Lemma transmitted_app h l1 l2 : transmitted h (l1 ++ l2) = transmitted h l2 ++ transmitted h l1.
Proof.
  induction l1 as [|[c k] l1 IH]; cbn [Datatypes.app transmitted]; [by rewrite app_nil_r|].
  destruct c; try done. rewrite IH. by rewrite app_assoc.
Qed.

(** The loop ends, sends the reply from its start, and all of it unless a call
    of the stack fails. *)
Lemma send_reply_spec env fuel client rest s :
  (length rest <= fuel)%nat →
  extends (send_reply env fuel client rest) s (λ ok new,
    ok = true ∧ (∀ h, balance h new = 0) ∧ transmitted client new `prefix_of` rest ∧
    (Forall (λ c, send_failed c = false) new → transmitted client new = rest)).
Proof.
  revert rest s. induction fuel as [|fuel IH]; intros rest s Hl.
  { destruct rest as [|x rest]; cbn [length] in Hl; [|lia]. by apply extends_ret. }
  destruct rest as [|x rest]; [by apply extends_ret|]. cbn [send_reply].
  set (all := x :: rest) in *. set (k := env s (FreeRTOS_send client all)).
  apply (extends_bind _ _ _ (λ v new, v = k ∧ new = [(FreeRTOS_send client all, k)])); [by apply extends_invoke|].
  intros v t new [-> ->]. destruct (bool_decide_reflect (k <= 0)) as [Hk|Hk].
  - apply extends_ret. cbn [Datatypes.app transmitted]. rewrite bool_decide_true by done.
    rewrite (Z2Nat.nonpos k Hk). cbn [take Datatypes.app]. split_and!; [done|done|apply prefix_nil|].
    rewrite Forall_singleton. cbn [send_failed fst snd]. intros Hf%bool_decide_eq_false. done.
  - assert (length (drop (Z.to_nat k) all) <= fuel)%nat as Hd by (rewrite length_drop; unfold all in *; cbn [length] in *; lia).
    destruct (IH (drop (Z.to_nat k) all) (Rt t ([(FreeRTOS_send client all, k)] ++ calls s)) Hd)
      as (ok & t' & new & E & -> & Hb & Hp & Hw).
    exists true, t', new. split; [done|]. rewrite transmitted_app. cbn [transmitted Datatypes.app].
    rewrite bool_decide_true by done. split_and!; [done| | |].
    + intros h. rewrite balance_app, Hb. done.
    + rewrite <-(take_drop (Z.to_nat k) all) at 2. by apply prefix_app.
    + intros [Hf _]%Forall_app. by rewrite (Hw Hf), take_drop.
Qed.

(** A socket is left open only if it is returned. *)
Lemma bound_socket_balance env type port s :
  extends (bound_socket env type port) s (λ r new,
    ∀ h, h ≠ FREERTOS_INVALID_SOCKET → balance h new = (if bool_decide (r = h) then 1 else 0)).
Proof.
  unfold bound_socket, extends, mbind, rtos_bind, invoke, void. set (x := env s (FreeRTOS_socket type)). cbv beta iota.
  destruct (bool_decide_reflect (x = FREERTOS_INVALID_SOCKET)) as [Hx|Hx].
  { exists x, (bus s), [(FreeRTOS_socket type, x)]. split; [done|]. intros h Hh. unfold balance. cbn. lia. }
  cbv beta iota. match goal with |- context [env ?s1 (FreeRTOS_bind x port)] => set (y := env s1 (FreeRTOS_bind x port)) end.
  destruct (bool_decide_reflect (y ≠ 0)) as [Hy|Hy].
  - exists FREERTOS_INVALID_SOCKET, (bus s), [(FreeRTOS_closesocket x, 0); (FreeRTOS_bind x port, y); (FreeRTOS_socket type, x)].
    split; [done|]. intros h Hh. unfold balance. cbn. rewrite (bool_decide_false (FREERTOS_INVALID_SOCKET = h)) by done.
    case_bool_decide; lia.
  - exists x, (bus s), [(FreeRTOS_setsockopt x FREERTOS_SO_RCVTIMEO (pdMS_TO_TICKS 100), 0); (FreeRTOS_bind x port, y);
      (FreeRTOS_socket type, x)]. split; [done|]. intros h Hh. unfold balance. cbn. lia.
Qed.

(** ** The tasks' sockets *)

(** The history of a run that ends in a failed assertion. *)
Definition asserted (l : list (call * Z)) : Prop :=
  ∃ file line l', l = [(taskDISABLE_INTERRUPTS, 0); (xil_printf "FreeRTOS assert: %s:%lu\r\n" [Text (str file); Num line], 0)] ++ l'.

(** A valid socket is open, once more than before, and no other one is. *)
Definition one_more (r : Z) (l l' : list (call * Z)) : Prop :=
  r ≠ FREERTOS_INVALID_SOCKET ∧
  ∀ h, h ≠ FREERTOS_INVALID_SOCKET → balance h l' = balance h l + (if bool_decide (r = h) then 1 else 0).

Lemma broadcast_open_spec env s :
  match broadcast_open env s with
  | (Returned r, s') => one_more r (calls s) (calls s')
  | (Halted, s') => asserted (calls s')
  end.
Proof.
  unfold broadcast_open. destruct (bound_socket_balance env FREERTOS_SOCK_DGRAM 4028 s) as (r & t & new & E & Hb).
  unfold mbind, rtos_bind. rewrite E. case_bool_decide as Hr; cbn; [by eexists _, _, _|].
  split; [done|]. intros h Hh. rewrite balance_app, Hb by done. lia.
Qed.

(** The configuration server listens on the one socket it opened. *)
Lemma config_open_spec env s :
  match config_open env s with
  | (Returned r, s') => one_more r (calls s) (calls s') ∧ head (calls s') = Some (FreeRTOS_listen r 2, 0)
  | (Halted, s') => asserted (calls s')
  end.
Proof.
  unfold config_open. destruct (bound_socket_balance env FREERTOS_SOCK_STREAM 4029 s) as (r & t & new & E & Hb).
  unfold mbind, rtos_bind. rewrite E. case_bool_decide as Hr; cbn; [by eexists _, _, _|].
  case_bool_decide as Hl; cbn; [|by eexists _, _, _]. rewrite Hl. split; [|done]. split; [done|].
  intros h Hh. rewrite balance_cons, balance_app, Hb by done. change (opens h _) with 0. lia.
Qed.

(** ** A connection *)
Section round.
Context {D Q : Type} `{StoreLaws D} `{Queue Q} `{JsonLibrary}.

(** The end of a connection with a reply. *)
Lemma reply_spec env client text (a : app D Q) s :
  extends (send_reply env (length text) client text;; void (FreeRTOS_shutdown client);;
           void (FreeRTOS_closesocket client);; mret a) s (λ a' new,
    a' = a ∧ (∀ h, balance h new = if bool_decide (client = h) then -1 else 0) ∧
    transmitted client new `prefix_of` text ∧
    (Forall (λ c, send_failed c = false) new → transmitted client new = text)).
Proof.
  eapply extends_bind; [by apply send_reply_spec|]. cbv beta. intros ok t new (_ & Hb & Hp & Hw).
  exists a, t, [(FreeRTOS_closesocket client, 0); (FreeRTOS_shutdown client, 0)]. split; [done|].
  rewrite transmitted_app. cbn [transmitted]. rewrite app_nil_r. split_and!; [done| |done|].
  - intros h. rewrite balance_app, Hb. unfold balance. cbn. case_bool_decide; lia.
  - intros Hf. apply Hw. by apply Forall_app in Hf as [_ Hf].
Qed.

Lemma config_round_spec env server active es (a : app D Q) s :
  settings_ok (settings a) →
  let '(line, complete) := receive_request es [] in
  let client := env s (FreeRTOS_accept server) in
  extends (config_round env server active es a) s (λ a' new,
    (∀ h, h ≠ 0 → h ≠ FREERTOS_INVALID_SOCKET → balance h new = 0) ∧ settings_ok (settings a') ∧
    if bool_decide (client = 0) || bool_decide (client = FREERTOS_INVALID_SOCKET)
    then a' = a ∧ new = [(FreeRTOS_accept server, client)]
    else ∃ text, config_outcome active line complete a a' text ∧ transmitted client new `prefix_of` text ∧
      (Forall (λ c, send_failed c = false) new → transmitted client new = text)).
Proof.
  intros Hok. pose proof (config_turn_step active es a Hok) as Hc. unfold config_round.
  destruct (receive_request es []) as [line complete]. set (client := env s (FreeRTOS_accept server)). cbv zeta.
  apply (extends_bind _ _ _ (λ v new, v = client ∧ new = [(FreeRTOS_accept server, client)])); [by apply extends_invoke|].
  intros v t new [-> ->]. destruct (_ || _) eqn:Hcl.
  { exists a, (vTaskDelay 1 t), []. split; [done|]. split_and!; [|done|done|done].
    intros h H0' Hi. apply orb_prop in Hcl. unfold balance. cbn. rewrite bool_decide_false; [done|].
    destruct Hcl as [E|E]; apply bool_decide_eq_true in E; congruence. }
  do 2 apply extends_then. destruct (config_turn active es a) as [reply a']. destruct Hc as (text & -> & _ & Ho & Hok').
  destruct (reply_spec env client text a' (Rt t ((FreeRTOS_setsockopt client FREERTOS_SO_SNDTIMEO (pdMS_TO_TICKS 500), 0)
    :: (FreeRTOS_setsockopt client FREERTOS_SO_RCVTIMEO (pdMS_TO_TICKS 100), 0)
    :: [(FreeRTOS_accept server, client)] ++ calls s))) as (a2 & t2 & new & E & -> & Hb & Hp & Hw).
  exists a', t2, new. split; [exact E|]. rewrite <-!app_assoc. cbn [Datatypes.app]. split_and!; [|done|].
  - intros h _ _. rewrite balance_app, Hb. unfold balance. cbn. destruct (bool_decide_reflect (client = h)); lia.
  - exists text. rewrite transmitted_app. cbn [transmitted]. rewrite app_nil_l. split_and!; [done|done|].
    intros [Hf _]%Forall_app. by apply Hw.
Qed.
End round.

(** ** Claims *)

(** C19. Connections are served and their sockets given back.  Whatever the
    stack answers, a round of the configuration task ends; every socket it
    accepted it has closed exactly once; the client received the beginning of
    the reply that tells what was done, and all of it unless a call to send
    failed. *)
Theorem config_served {D Q} `{StoreLaws D} `{Queue Q} `{JsonLibrary} env server active es (a : app D Q) s :
  settings_ok (settings a) →
  let '(line, complete) := receive_request es [] in
  let client := env s (FreeRTOS_accept server) in
  ∃ a' t new, config_round env server active es a s = (Returned a', Rt t (new ++ calls s)) ∧
    (∀ h, h ≠ 0 → h ≠ FREERTOS_INVALID_SOCKET → balance h new = 0) ∧ settings_ok (settings a') ∧
    if bool_decide (client = 0) || bool_decide (client = FREERTOS_INVALID_SOCKET)
    then a' = a ∧ new = [(FreeRTOS_accept server, client)]
    else ∃ text, config_outcome active line complete a a' text ∧ transmitted client new `prefix_of` text ∧
      (Forall (λ c, send_failed c = false) new → transmitted client new = text).
Proof. apply config_round_spec. Qed.

(** A client that takes the reply in pieces of 40 bytes. *)
Module SocketRun.
Definition env : environment := λ _ c,
  match c with FreeRTOS_send _ data => 40 `min` Z.of_nat (length data) | FreeRTOS_accept _ => 7 | _ => 0 end.
Lemma pieces :
  let '(_, s) := config_round env 3 (mac example_settings) ConfigRun.connection ConfigRun.start (Rt [] []) in
  transmitted 7 (calls s) = reply_text None.
Proof. vm_compute. reflexivity. Qed.
End SocketRun.

Lemma config_served_witness :
  ∃ a' t new text, config_round SocketRun.env 3 (mac example_settings) ConfigRun.connection ConfigRun.start (Rt [] []) =
      (Returned a', Rt t (new ++ [])) ∧ balance 7 new = 0 ∧
    config_outcome (mac example_settings) [123] true ConfigRun.start a' text ∧ transmitted 7 new `prefix_of` text.
Proof.
  pose proof (config_served SocketRun.env 3 (mac example_settings) ConfigRun.connection ConfigRun.start (Rt [] [])
    ConfigRun.ok_start) as H. rewrite ConfigRun.request_line in H. cbv iota beta in H.
  destruct H as (a' & t & new & E & Hb & _ & text & Ho & Hp & _). exists a', t, new, text.
  split; [exact E|]. split; [apply Hb; discriminate|]. split; [exact Ho|exact Hp].
Defined.
