(* ===== verification/AppMain.v ===== *)
(** * Application start (src/software/application/main.c)

    [main] loads the settings, fixes the MAC address and seeds the random
    numbers of the IP stack; the network event hook and the DHCP watch.  With
    the configuration server of Dashboard, over the same device: what the
    application runs with after a restart. *)
From Stdlib Require Import Zdivisibility.
From S2P Require Import Prelude Settings Json Ina700 Protocol Telemetry Dashboard.
Local Open Scope cword_scope.

(** ** The code *)
Definition random_state_init : Z := 0x712ae951.

(** [xApplicationGetRandomNumber]: the next state is the number. *)
Definition xApplicationGetRandomNumber (random_state : Z) : Z :=
  let random_state := random_state .^ (random_state <<. 13) in
  let random_state := random_state .^ (random_state >>. 17) in
  random_state .^ (random_state <<. 5).

Definition ulApplicationGetNextSequenceNumber (src sp dst dp random_state : Z) : Z * Z :=
  let n := xApplicationGetRandomNumber random_state in
  (n .^ src .^ dst .^ (sp <<. 16) .^ dp, n).

(** [network_up] after an event; [address] is [FreeRTOS_GetIPAddress()]. *)
Definition vApplicationIPNetworkEventHook (up : bool) (address : Z) : bool := up && bool_decide (address ≠ 0).

(** Whether [network_watch] restarts DHCP. *)
Definition network_watch (up : bool) (address : Z) : bool := up && bool_decide (address = 0).

Definition seed_random (random_state timer : Z) (active_mac : list Z) : Z :=
  foldl (λ r b, u32 (r * 33 + b)) (random_state .^ timer) active_mac.

Section start.
Context {D Q : Type} `{Store D}.

(** The variables [main] sets before the tasks start: the result of the load,
    the shared state, [active_mac] and [random_state].  [timer] is the timer
    register, [tel] the static telemetry state. *)
Definition main (timer : Z) (tel : telemetry Q) (d : D) : Z * app D Q * list Z * Z :=
  let '(stored, settings, d) := settings_load d in
  let active_mac := mac settings in
  (stored, App settings 0 d tel, active_mac, seed_random random_state_init timer active_mac).
End start.

(** ** Random numbers *)

Lemma xor_shl_nonzero x k : is_u32 x → 0 < k → x ≠ 0 → x .^ (x <<. k) ≠ 0.
Proof.
  intros Hx Hk Hne Heq. apply Z.lxor_eq in Heq. unfold shl32, u32 in Heq.
  rewrite Z.shiftl_mul_pow2 in Heq by lia. unfold in_bits in Hx.
  assert (2 ^ 32 | (2 ^ k - 1) * x) as Hd.
  { exists (x * 2 ^ k / 2 ^ 32). pose proof (Z.div_mod (x * 2 ^ k) (2 ^ 32)). lia. }
  apply Z.gauss in Hd as [q Hq].
  - assert (q = 0) by nia. subst q. lia.
  - rewrite Z.gcd_comm. apply Z.coprime_pow_r; [lia|].
    apply Z.coprime_Bezout. exists (-1), (2 ^ (k - 1)).
    replace (2 ^ k) with (2 * 2 ^ (k - 1)); [lia|].
    rewrite <-Z.pow_succ_r by lia. f_equal. lia.
Qed.

Lemma xor_shr_nonzero x k : 0 <= x → 0 < k → x ≠ 0 → x .^ (x >>. k) ≠ 0.
Proof.
  intros Hx Hk Hne Heq%Z.lxor_eq. rewrite Z.shiftr_div_pow2 in Heq by lia.
  assert (1 < 2 ^ k) by (apply Z.pow_gt_1; lia).
  pose proof (Z.div_lt x (2 ^ k)). lia.
Qed.

(** The generator stays in 32 bits and never falls into the fixed point 0. *)
Lemma random_nonzero r :
  is_u32 r → r ≠ 0 → is_u32 (xApplicationGetRandomNumber r) ∧ xApplicationGetRandomNumber r ≠ 0.
Proof.
  intros Hr Hne. unfold xApplicationGetRandomNumber.
  assert (∀ x, is_u32 x → is_u32 (x >>. 17)) as Hshr by (intros; by apply in_bits_shiftr).
  assert (∀ x k, is_u32 x → is_u32 (x .^ (x <<. k))) as Hshl
    by (intros; apply u32_lxor; [done|apply shl32_range]).
  set (a := r .^ (r <<. 13)). assert (is_u32 a ∧ a ≠ 0) as [Ha Ha0] by (split; [by apply Hshl|by apply xor_shl_nonzero]).
  set (b := a .^ (a >>. 17)). assert (is_u32 b ∧ b ≠ 0) as [Hb Hb0].
  { split; [apply u32_lxor; auto|apply xor_shr_nonzero; unfold in_bits in Ha; lia]. }
  split; [by apply Hshl|by apply xor_shl_nonzero].
Qed.

(** ** Restarts *)

Section restart.
Context {D Q : Type} `{StoreLaws D} `{Queue Q} `{JsonLibrary}.
Implicit Types s : app D Q.

(** Connections to the configuration port one after another: the replies. *)
Fixpoint serve (active : list Z) (conns : list (list (Z * request_event))) s : list (option (list Z)) * app D Q :=
  match conns with
  | [] => ([], s)
  | es :: conns =>
      let '(reply, s) := config_turn active es s in
      let '(replies, s) := serve active conns s in (reply :: replies, s)
  end.

Lemma serve_spec active conns s :
  settings_ok (settings s) →
  let '(replies, s') := serve active conns s in
  settings_ok (settings s') ∧
  (coherent s ∨ Some (reply_text None) ∈ replies → Some (reply_text (Some EEPROM_FAILED)) ∉ replies →
   coherent s').
Proof.
  revert s. induction conns as [|es conns IH]; intros s Hok.
  { split; [done|]. by intros [?|?%not_elem_of_nil]. }
  cbn [serve].
  pose proof (config_turn_step active es s Hok) as Hc. destruct (receive_request es []) as [line complete].
  destruct (config_turn active es s) as [reply s1]. destruct Hc as (text & -> & _ & Ho & Hok1).
  specialize (IH s1 Hok1). destruct (serve active conns s1) as [replies s']. destruct IH as [Hok' IH].
  split; [done|]. intros Hco [Hne Hni]%not_elem_of_cons. apply IH; [|done].
  destruct Hco as [Hco|[Ht%(inj Some)|?]%elem_of_cons]; [left|left|by right].
  - eapply outcome_coherent; [done|done|congruence].
  - by eapply outcome_saved, eq_sym.
Qed.

Lemma main_spec timer (tel : telemetry Q) d :
  let '(rc, s, active, r) := main timer tel d in
  active = mac (settings s) ∧ contents (eeprom s) = contents d ∧ settings_valid (settings s) = true ∧
  (rc = -1 ∧ settings s = settings_defaults ∨
   match stored (contents d) with
   | Some x => rc = 1 ∧ settings s = x
   | None => rc = 0 ∧ settings s = settings_defaults
   end).
Proof.
  unfold main. pose proof (settings_load_spec d) as Hl.
  destruct (settings_load d) as [[rc x] d']. destruct Hl as [Hd Hl]. cbn [settings eeprom].
  split_and!; [done|done| |done].
  assert (settings_valid settings_defaults = true) as Hdef by by_decide.
  destruct Hl as [[_ ->]|Hl]; [done|].
  destruct (stored (contents d)) as [y|] eqn:Hy; destruct Hl as [_ ->]; [|done].
  by destruct (stored_shape _ _ (contents_length d) Hy).
Qed.
End restart.

(** ** Claims *)

(** C20. Configuration survives a restart.  Start the application on any
    device, serve any connections, none of which reports an EEPROM failure,
    and start it again.  If the first start found a record or one of the
    connections was answered with a save, and the second load does not fail,
    the second start runs with exactly the settings the first one ended with
    and takes their MAC address as its own.  A start always runs with valid
    settings, and where nothing can be loaded with the defaults, which name
    no pool. *)
Theorem restart_settings {D Q} `{StoreLaws D} `{Queue Q} `{JsonLibrary}
    (timer timer' : Z) (tel tel' : telemetry Q) (d : D) conns :
  is_bytes (contents d) →
  let '(rc, s, active, _) := main timer tel d in
  let '(replies, s1) := serve active conns s in
  let '(rc', s', active', _) := main timer' tel' (eeprom s1) in
  active' = mac (settings s') ∧ settings_valid (settings s') = true ∧
  (rc' <= 0 → settings s' = settings_defaults ∧ host (settings s') !!! 0%nat = 0) ∧
  (rc = 1 ∨ Some (reply_text None) ∈ replies → Some (reply_text (Some EEPROM_FAILED)) ∉ replies → rc' ≠ -1 →
   rc' = 1 ∧ settings s' = settings s1).
Proof.
  intros Hb. pose proof (main_spec timer tel d) as Hm. destruct (main timer tel d) as [[[rc s] active] r].
  destruct Hm as (_ & Hc & _ & Hm).
  assert (settings_ok (settings s) ∧ (rc = 1 → coherent s)) as [Hok Hco].
  { assert (settings_ok settings_defaults) as Hdef by by_decide. unfold coherent. rewrite Hc.
    destruct Hm as [[-> ->]|Hm]; [done|]. destruct (stored (contents d)) as [x|] eqn:Hx; destruct Hm as [-> ->]; [|done].
    split; [|done]. eapply stored_ok; [|done]. split; [|done]. pose proof (contents_length d). lia. }
  pose proof (serve_spec active conns s Hok) as Hs. destruct (serve active conns s) as [replies s1].
  pose proof (main_spec timer' tel' (eeprom s1)) as Hm'.
  destruct (main timer' tel' (eeprom s1)) as [[[rc' s'] active'] r'].
  destruct Hm' as (Ha & _ & Hv & Hm'), Hs as [_ Hs]. split_and!; [done|done| |].
  - intros Hrc. assert (settings s' = settings_defaults) as ->; [|done].
    destruct Hm' as [[_ ?]|Hm']; [done|].
    destruct (stored (contents (eeprom s1))); destruct Hm' as [-> ?]; [lia|done].
  - intros Hsaved Hni Hrc'. assert (coherent s1) as Hco1 by (apply Hs; [|done]; destruct Hsaved; auto).
    unfold coherent in Hco1. rewrite Hco1 in Hm'.
    destruct Hm' as [[-> _]|Hm']; [done|]. by destruct Hm' as [-> ->].
Qed.

(** A blank device, one saved request, a restart. *)
Module RestartRun.
Definition blank : FaultyRam.good := [].
Definition tel : telemetry (list miner_event) := Telemetry example_stats (Some []).
Definition first : app FaultyRam.good (list miner_event) := snd (fst (fst (main 5 tel blank))).
Abbreviation served := (serve (mac settings_defaults) [ConfigRun.connection] first).
Abbreviation second := (main 9 tel (eeprom (snd served))).

Lemma blank_bytes : is_bytes (contents blank).
Proof. change (is_bytes (FaultyRam.cells [])). by_decide. Qed.
Lemma served_replies : fst served = [Some (reply_text None)].
Proof. vm_compute. reflexivity. Qed.
Lemma second_loads : fst (fst (fst second)) = 1.
Proof. vm_compute. reflexivity. Qed.
Lemma first_main : main 5 tel blank = (0, first, mac settings_defaults, seed_random random_state_init 5 (mac settings_defaults)).
Proof. vm_compute. reflexivity. Qed.
Lemma replies_differ : reply_text None ≠ reply_text (Some EEPROM_FAILED).
Proof. apply not_eq_sym, reply_saved_unique. Qed.
End RestartRun.

Lemma restart_settings_witness :
  settings (snd (fst (fst RestartRun.second))) = settings (snd RestartRun.served).
Proof.
  pose proof (restart_settings 5 9 RestartRun.tel RestartRun.tel RestartRun.blank [ConfigRun.connection]
    RestartRun.blank_bytes) as Hr.
  rewrite RestartRun.first_main in Hr. cbv beta iota in Hr.
  pose proof RestartRun.served_replies as Hreply.
  pose proof RestartRun.second_loads as Hload.
  destruct RestartRun.served as [replies s1]. cbn [fst snd] in *.
  destruct (main 9 RestartRun.tel (eeprom s1)) as [[[rc' s'] active'] r']. cbn [fst snd] in *.
  destruct Hr as (_ & _ & _ & Hr). apply Hr; subst.
  - right. apply list_elem_of_singleton. reflexivity.
  - intros Heq%list_elem_of_singleton%(inj Some). by apply RestartRun.replies_differ.
  - discriminate.
Defined.
