(* ===== verification/Network.v ===== *)
(** * Ethernet interface (src/software/application/NetworkInterface.c)

    The glue between the FreeRTOS+TCP stack and the vendor's EthernetLite
    driver: checked reception into network buffers, transmission with a
    deadline, link state and PHY set-up.  Driver and stack are library code:
    the classes [EmacLite] and [IpStack] have the functions the file calls and
    the constants of the driver's header; [EmacLaws] says what reception
    relies on.  The receiver has two buffers, of which the driver looks at
    one first. *)
From stdpp Require Import relations.
From S2P Require Import Prelude Bus.
Local Open Scope cword_scope.

(** The driver with the hardware behind it: any access may find that frames
    have arrived. *)
Class EmacLite (E : Type) := {
  XEL_RSR_RECV_DONE_MASK : Z; XEL_BUFFER_OFFSET : Z; XEL_RXBUFF_OFFSET : Z;
  XEL_HEADER_IP_LENGTH_OFFSET : Z; XEL_ETHER_PROTO_TYPE_ARP : Z; XEL_ETHER_PROTO_TYPE_IP : Z;
  XEL_FCS_SIZE : Z;
  XEmacLite_NextReceiveAddr : E → Z;
  XEmacLite_GetRxStatus : Z → E → Z * E;
  XEmacLite_SetRxStatus : Z → Z → E → E;
  XEmacLite_ReadReg : Z → Z → E → Z * E;
  (** The bytes stored at [frame]; the return value is their number. *)
  XEmacLite_Recv : E → list Z * E;
  XEmacLite_TxBufferAvailable : E → bool * E;
  XEmacLite_Send : list Z → E → bool * E;
  XEmacLite_PhyRead : Z → Z → E → option Z * E;
  XEmacLite_PhyWrite : Z → Z → Z → E → E;
  (** Whether the configuration is found; initialisation; handlers and
      interrupts. *)
  XEmacLite_LookupConfig : bool;
  XEmacLite_CfgInitialize : E → bool * E;
  XEmacLite_SetMacAddress : list Z → E → E;
  XEmacLite_FlushReceive : E → E;
  XEmacLite_SetRecvHandler : E → E;
  XEmacLite_SetSendHandler : E → E;
  XEmacLite_EnableInterrupts : E → E;
}.

(** FreeRTOS and its stack.  Network buffers are numbers; [true] is
    [pdPASS]. *)
Class IpStack (N : Type) := {
  xTaskCreate : N → bool * N;
  xPortInstallInterruptHandler : N → bool * N;
  vPortEnableInterrupt : N → N;
  vTaskNotifyGiveFromISR : N → N;
  ulTaskNotifyTake : N → N;
  FreeRTOS_NetworkDown : N → N;
  pxGetNetworkBufferWithDescriptor : N → option nat * N;
  FreeRTOS_MatchingEndpoint : list Z → N → bool;
  xSendEventStructToIPTask : nat → list Z → N → bool * N;
}.

(** ** The code *)

(** [BUFFER_BYTES] and the buffers carved out of [storage], for the stack's
    [ipBUFFER_PADDING]. *)
Definition BUFFER_BYTES (padding : Z) : Z := Z.land (1536 + padding + 31) (Z.lnot 31).
Definition ipconfigNUM_NETWORK_BUFFER_DESCRIPTORS : nat := 24.
Definition ipconfigNETWORK_MTU : Z := 1500.
Definition pucEthernetBuffer (padding : Z) (i : nat) : Z := Z.of_nat i * BUFFER_BYTES padding + padding.
Definition uxNetworkInterfaceAllocateRAMToBuffers (padding : Z) : list Z * Z :=
  (pucEthernetBuffer padding <$> seq 0 ipconfigNUM_NETWORK_BUFFER_DESCRIPTORS, BUFFER_BYTES padding - padding).

(** What happens to memory and buffers, in order. *)
Inductive net_event :=
| Got (b : nat) | Copied (b : option nat) (n : nat) | Released (b : nat) | Passed (b : nat) (frame : list Z)
| TaskCreated | RecvHandlerSet | SendHandlerSet | HandlerInstalled | IrqEnabled | MacEnabled | Notified.

#[global] Instance net_event_eq_dec : EqDecision net_event.
Proof. solve_decision. Defined.

(** The static variables, the driver, the stack and the history. *)
Record nic (E N : Type) := Nic {
  emac : E; ip : N; net_log : list net_event; phy : Z; rx_task : bool; iface : bool
}.
Arguments Nic {E N} _ _ _ _ _ _. Arguments emac {E N} _. Arguments ip {E N} _. Arguments net_log {E N} _.
Arguments phy {E N} _. Arguments rx_task {E N} _. Arguments iface {E N} _.

(** The two bytes of a big-endian field in a little-endian word. *)
Definition field16 (word : Z) : Z := ((word .& 255) <<. 8) .| ((word >>. 8) .& 255).

Section receive.
Context {E : Type} `{EmacLite E}.
Implicit Types e : E.

(** The buffer with a frame, and its status word. *)
Definition select_buffer e : option (Z * Z) * E :=
  let base := XEmacLite_NextReceiveAddr e in
  let '(status, e) := XEmacLite_GetRxStatus base e in
  if bool_decide (status .& XEL_RSR_RECV_DONE_MASK = 0) then
    let base := base .^ XEL_BUFFER_OFFSET in
    let '(status, e) := XEmacLite_GetRxStatus base e in
    if bool_decide (status .& XEL_RSR_RECV_DONE_MASK = 0) then (None, e) else (Some (base, status), e)
  else (Some (base, status), e).

Definition frame_valid (base : Z) e : bool * E :=
  let '(type_word, e) := XEmacLite_ReadReg base (XEL_RXBUFF_OFFSET + 12) e in
  let type := u16 (field16 type_word) in
  let valid := bool_decide (type = XEL_ETHER_PROTO_TYPE_ARP) in
  if bool_decide (type = XEL_ETHER_PROTO_TYPE_IP) then
    let '(word, e) := XEmacLite_ReadReg base (XEL_RXBUFF_OFFSET + XEL_HEADER_IP_LENGTH_OFFSET) e in
    let length := field16 word in
    (bool_decide (length >= 20) && bool_decide (length <= ipconfigNETWORK_MTU), e)
  else (valid, e).

(** The return value and the bytes stored. *)
Definition bounded_receive e : Z * list Z * E :=
  let '(found, e) := select_buffer e in
  match found with
  | None => (0, [], e)
  | Some (base, status) =>
      let '(valid, e) := frame_valid base e in
      if negb valid then (-1, [], XEmacLite_SetRxStatus base (status .& not32 XEL_RSR_RECV_DONE_MASK) e) else
      let '(frame, e) := XEmacLite_Recv e in
      let n := Z.of_nat (length frame) in
      (if bool_decide (n >= XEL_FCS_SIZE) then n - XEL_FCS_SIZE else -1, frame, e)
  end.
End receive.

Section interface.
Context {E N : Type} `{EmacLite E} `{IpStack N}.
Implicit Types s : nic E N.

Definition logged (es : list net_event) s : nic E N :=
  Nic (emac s) (ip s) (net_log s ++ es) (phy s) (rx_task s) (iface s).
Definition set_emac (e : E) s : nic E N := Nic e (ip s) (net_log s) (phy s) (rx_task s) (iface s).
Definition vReleaseNetworkBufferAndDescriptor (b : nat) s : nic E N := logged [Released b] s.

(** One turn of the inner loop of [receive_task]; [false] for [break]. *)
Definition receive_turn s : bool * nic E N :=
  let '(b, stack) := pxGetNetworkBufferWithDescriptor (ip s) in
  let s := logged (match b with Some b => [Got b] | None => [] end)
             (Nic (emac s) stack (net_log s) (phy s) (rx_task s) (iface s)) in
  let '(n, frame, e) := bounded_receive (emac s) in
  let s := logged [Copied b (length frame)] (set_emac e s) in
  let release s := match b with Some b => vReleaseNetworkBufferAndDescriptor b s | None => s end in
  if bool_decide (n = 0) then (false, release s) else
  if bool_decide (n < 0) then (true, release s) else
  match b with
  | None => (true, s)
  | Some b =>
      let data := take (Z.to_nat n) frame in
      if bool_decide (n < 14) || bool_decide (n > ipconfigNETWORK_MTU + 14) ||
         negb (FreeRTOS_MatchingEndpoint frame (ip s))
      then (true, vReleaseNetworkBufferAndDescriptor b s)
      else
        let '(ok, stack) := xSendEventStructToIPTask b data (ip s) in
        let s := Nic (emac s) stack (net_log s) (phy s) (rx_task s) (iface s) in
        if ok then (true, logged [Passed b data] s) else (true, vReleaseNetworkBufferAndDescriptor b s)
  end.

(** The inner loop: [None] when the fuel ran out while frames kept coming. *)
Fixpoint receive_loop (fuel : nat) s : option (nic E N) :=
  match fuel with
  | O => None
  | S fuel => let '(more, s) := receive_turn s in if more then receive_loop fuel s else Some s
  end.

Definition link_status s : bool * nic E N :=
  if bool_decide (phy s < 0) then (true, s) else
  let '(r, e) := XEmacLite_PhyRead (phy s) 1 (emac s) in
  match r with
  | None => (false, set_emac e s)
  | Some _ =>
      let '(r, e) := XEmacLite_PhyRead (phy s) 1 e in
      match r with
      | None => (false, set_emac e s)
      | Some status => (bool_decide (status .& 4 ≠ 0), set_emac e s)
      end
  end.
Definition ethernet_phy_known s : bool := bool_decide (phy s >= 0).

(** The search for a PHY from address [p] on. *)
Fixpoint scan_phy (k : nat) (p : Z) (e : E) : Z * E :=
  match k with
  | O => (-1, e)
  | S k =>
      let '(id, e) := XEmacLite_PhyRead p 2 e in
      match id with
      | Some id => if bool_decide (id ≠ 0) && bool_decide (id ≠ 0xffff) then (p, e) else scan_phy k (p + 1) e
      | None => scan_phy k (p + 1) e
      end
  end.

(** Restart of the negotiation, 10/100 full duplex only. *)
Definition setup_phy (p : Z) (e : E) : E :=
  let '(gigabit, e) := XEmacLite_PhyRead p 9 e in
  let e := match gigabit with Some g => XEmacLite_PhyWrite p 9 (g .& not32 0x300) e | None => e end in
  let e := XEmacLite_PhyWrite p 4 0x0141 e in
  let '(control, e) := XEmacLite_PhyRead p 0 e in
  match control with
  | Some c => XEmacLite_PhyWrite p 0 ((c .& not32 0xcc00) .| 0x1200) e
  | None => e
  end.

Definition set_ip (stack : N) s : nic E N := Nic (emac s) stack (net_log s) (phy s) (rx_task s) (iface s).

(** [initialise] up to the creation of the receive task: it returned, or goes
    on with the task in place. *)
Definition initialise_begin (active_mac : list Z) s : (bool * nic E N) + nic E N :=
  if rx_task s then inl (link_status s) else
  let s := Nic (emac s) (ip s) (net_log s) (phy s) (rx_task s) true in
  if negb XEmacLite_LookupConfig then inl (false, s) else
  let '(ok, e) := XEmacLite_CfgInitialize (emac s) in
  if negb ok then inl (false, set_emac e s) else
  let e := XEmacLite_FlushReceive (XEmacLite_SetMacAddress active_mac e) in
  let '(p, e) := scan_phy 32 0 e in
  let p := if bool_decide (p = -1) then phy s else p in
  let e := if bool_decide (p >= 0) then setup_phy p e else e in
  let '(created, stack) := xTaskCreate (ip s) in
  let s := Nic e stack (net_log s) p created (iface s) in
  if negb created then inl (false, s) else inr (logged [TaskCreated] s).

(** The points of the rest, one call between each and the next: the receive
    task runs and interrupts come at any of them.  [None] is the failed
    assertion. *)
Inductive point := AfterCreate | AfterRecvHandler | AfterSendHandler | AfterInstall | AfterIrqEnable | AfterMacEnable.

Definition initialise_next (p : point) s : option ((bool * nic E N) + (point * nic E N)) :=
  match p with
  | AfterCreate =>
      Some (inr (AfterRecvHandler, logged [RecvHandlerSet] (set_emac (XEmacLite_SetRecvHandler (emac s)) s)))
  | AfterRecvHandler =>
      Some (inr (AfterSendHandler, logged [SendHandlerSet] (set_emac (XEmacLite_SetSendHandler (emac s)) s)))
  | AfterSendHandler =>
      let '(installed, stack) := xPortInstallInterruptHandler (ip s) in
      if negb installed then None else Some (inr (AfterInstall, logged [HandlerInstalled] (set_ip stack s)))
  | AfterInstall => Some (inr (AfterIrqEnable, logged [IrqEnabled] (set_ip (vPortEnableInterrupt (ip s)) s)))
  | AfterIrqEnable =>
      Some (inr (AfterMacEnable, logged [MacEnabled] (set_emac (XEmacLite_EnableInterrupts (emac s)) s)))
  | AfterMacEnable => Some (inl (link_status s))
  end.

(** The whole, with nothing in between; there are six points. *)
Fixpoint initialise_rest (fuel : nat) (p : point) s : option (bool * nic E N) :=
  match fuel with
  | O => None
  | S fuel =>
      match initialise_next p s with
      | None => None
      | Some (inl r) => Some r
      | Some (inr (p, s)) => initialise_rest fuel p s
      end
  end.
Definition initialise (active_mac : list Z) s : option (bool * nic E N) :=
  match initialise_begin active_mac s with
  | inl r => Some r
  | inr s => initialise_rest 6 AfterCreate s
  end.

(** [None] when there is no task to notify. *)
Definition receive_irq s : option (nic E N) :=
  if rx_task s then Some (logged [Notified] (set_ip (vTaskNotifyGiveFromISR (ip s)) s)) else None.
Definition sent_irq s : nic E N := s.

(** One turn of the outer loop of [receive_task]. *)
Definition receive_wake (fuel : nat) s : option (nic E N) :=
  receive_loop fuel (set_ip (ulTaskNotifyTake (ip s)) s).

Definition ethernet_retry_dhcp s : nic E N := if iface s then set_ip (FreeRTOS_NetworkDown (ip s)) s else s.

(** [xTaskGetTickCount], not wrapped, and [vTaskDelay(1)]. *)
Context (now : E → Z) (sleep : E → E).

(** The do-while loop of [output] for the frame [data]: whether it was sent;
    [None] when the fuel ran out. *)
Fixpoint output_loop (fuel : nat) (start : Z) (data : list Z) (e : E) : option (bool * E) :=
  match fuel with
  | O => None
  | S fuel =>
      let '(available, e) := XEmacLite_TxBufferAvailable e in
      if available then
        if bool_decide (Z.of_nat (length data) <= 1514) then Some (XEmacLite_Send data e) else Some (false, e)
      else
        let e := sleep e in
        if bool_decide (u32 (now e) -32 start < pdMS_TO_TICKS 20) then output_loop fuel start data e
        else Some (false, e)
  end.

Definition output (fuel : nat) (b : nat) (data : list Z) (release : bool) s : option (bool * nic E N) :=
  match output_loop fuel (u32 (now (emac s))) data (emac s) with
  | None => None
  | Some (ok, e) =>
      let s := set_emac e s in
      Some (ok, if release then vReleaseNetworkBufferAndDescriptor b s else s)
  end.

(** The descriptor through which the stack calls the interface. *)
Record NetworkInterface := {
  pcName : string;
  pfInitialise : nic E N → option (bool * nic E N);
  pfOutput : nat → list Z → bool → nic E N → option (bool * nic E N);
  pfGetPhyLinkStatus : nic E N → bool * nic E N;
}.
Definition pxFillInterfaceDescriptor (active_mac : list Z) (fuel : nat) : NetworkInterface := {|
  pcName := "eth0"; pfInitialise := initialise active_mac; pfOutput := output fuel; pfGetPhyLinkStatus := link_status
|}.
End interface.

(** ** What reception relies on *)

(** [rx_done] and [rx_word] are what the two receive buffers hold.  A status
    word and a register tell the truth; a complete frame stays as it is until
    it is taken; [XEmacLite_Recv] takes the buffer it looks at first if that
    is complete, otherwise the other one, and stores as many bytes as the
    frame's header says: 28 + 18 for ARP, the IP length + 18 for IPv4, as a
    16-bit number. *)
Class EmacLaws (E : Type) `{EmacLite E} := {
  rx_done : Z → E → bool;
  rx_word : Z → Z → E → Z;
  fcs_size : XEL_FCS_SIZE = 4;
  proto_types : XEL_ETHER_PROTO_TYPE_ARP ≠ XEL_ETHER_PROTO_TYPE_IP;
  status_spec : ∀ base e, fst (XEmacLite_GetRxStatus base e) .& XEL_RSR_RECV_DONE_MASK ≠ 0 ↔ rx_done base e = true;
  reg_spec : ∀ base off e, fst (XEmacLite_ReadReg base off e) = rx_word base off e;
  status_keeps : ∀ base b e, rx_done b e = true →
    rx_done b (snd (XEmacLite_GetRxStatus base e)) = true ∧
    ∀ off, rx_word b off (snd (XEmacLite_GetRxStatus base e)) = rx_word b off e;
  reg_keeps : ∀ base off b e, rx_done b e = true →
    rx_done b (snd (XEmacLite_ReadReg base off e)) = true ∧
    ∀ off', rx_word b off' (snd (XEmacLite_ReadReg base off e)) = rx_word b off' e;
  status_next : ∀ base e, XEmacLite_NextReceiveAddr (snd (XEmacLite_GetRxStatus base e)) = XEmacLite_NextReceiveAddr e;
  reg_next : ∀ base off e, XEmacLite_NextReceiveAddr (snd (XEmacLite_ReadReg base off e)) = XEmacLite_NextReceiveAddr e;
  recv_spec : ∀ e,
    let next := XEmacLite_NextReceiveAddr e in
    let base := if rx_done next e then next else next .^ XEL_BUFFER_OFFSET in
    let type := u16 (field16 (rx_word base (XEL_RXBUFF_OFFSET + 12) e)) in
    rx_done base e = true →
    (type = XEL_ETHER_PROTO_TYPE_ARP → length (fst (XEmacLite_Recv e)) = 46%nat) ∧
    (type = XEL_ETHER_PROTO_TYPE_IP → Z.of_nat (length (fst (XEmacLite_Recv e))) =
       u16 (field16 (rx_word base (XEL_RXBUFF_OFFSET + XEL_HEADER_IP_LENGTH_OFFSET) e) + 18));
}.

(** No frame is completed while [bounded_receive] looks at the registers. *)
Class QuietReceiver (E : Type) `{EmacLaws E} : Prop := {
  status_quiet : ∀ base b e, rx_done b (snd (XEmacLite_GetRxStatus base e)) = rx_done b e;
  reg_quiet : ∀ base off b e, rx_done b (snd (XEmacLite_ReadReg base off e)) = rx_done b e;
}.

(** ** Reception *)

Section bounds.
Context {E : Type} `{EmacLaws E}.
Implicit Types e : E.

(** What reading registers leaves alone: the frame in [base], the buffer the
    driver looks at first, and, in a quiet receiver, everything. *)
Definition undisturbed (base : Z) e e' : Prop :=
  rx_done base e' = true ∧ (∀ off, rx_word base off e' = rx_word base off e) ∧
  XEmacLite_NextReceiveAddr e' = XEmacLite_NextReceiveAddr e ∧
  (∀ b, rx_done b e = true → rx_done b e' = true) ∧
  (QuietReceiver E → ∀ b, rx_done b e' = rx_done b e).

Lemma undisturbed_refl base e : rx_done base e = true → undisturbed base e e.
Proof. intros. by unfold undisturbed. Qed.

Lemma undisturbed_reg base b off e e' :
  undisturbed base e e' → undisturbed base e (snd (XEmacLite_ReadReg b off e')).
Proof.
  intros (Hd & Hw & Hn & Hk & Hq). destruct (reg_keeps b off base e' Hd) as [Hd' Hw'].
  unfold undisturbed. split_and!; [done| | | |].
  - intros off'. by rewrite Hw'.
  - by rewrite reg_next.
  - intros b' Hb. apply reg_keeps. by apply Hk.
  - intros Hquiet b'. by rewrite reg_quiet, Hq.
Qed.

Lemma select_buffer_spec e :
  let '(found, e') := select_buffer e in
  let next := XEmacLite_NextReceiveAddr e in
  XEmacLite_NextReceiveAddr e' = next ∧
  match found with
  | None => True
  | Some (base, status) => rx_done base e' = true ∧
      (base = next ∨ base = next .^ XEL_BUFFER_OFFSET ∧ rx_done next e = false ∧
        (QuietReceiver E → rx_done next e' = false))
  end.
Proof.
  unfold select_buffer. cbv zeta. set (next := XEmacLite_NextReceiveAddr e).
  pose proof (status_spec next e) as S1. pose proof (status_next next e) as N1.
  pose proof (λ b, status_keeps next b e) as K1. pose proof (λ Q : QuietReceiver E, status_quiet next next e) as Q1.
  destruct (XEmacLite_GetRxStatus next e) as [status e1]. cbn [fst snd] in *.
  destruct (bool_decide_reflect (status .& XEL_RSR_RECV_DONE_MASK = 0)) as [Hz|Hz].
  2: { split; [done|]. split; [|by left]. by apply K1, S1. }
  set (other := next .^ XEL_BUFFER_OFFSET).
  pose proof (status_spec other e1) as S2. pose proof (status_next other e1) as N2.
  pose proof (λ b, status_keeps other b e1) as K2. pose proof (λ Q : QuietReceiver E, status_quiet other next e1) as Q2.
  destruct (XEmacLite_GetRxStatus other e1) as [status2 e2]. cbn [fst snd] in *.
  destruct (bool_decide_reflect (status2 .& XEL_RSR_RECV_DONE_MASK = 0)); [by rewrite N2|].
  assert (rx_done next e = false) as Hn.
  { apply not_true_iff_false. intros Hd. by apply S1 in Hd. }
  split; [by rewrite N2|]. split; [by apply K2, S2|]. right. split_and!; [done|done|].
  intros Q. by rewrite Q2, Q1.
Qed.

(** Accepted headers. *)
Definition header_ok (base : Z) e : Prop :=
  let type := u16 (field16 (rx_word base (XEL_RXBUFF_OFFSET + 12) e)) in
  type = XEL_ETHER_PROTO_TYPE_ARP ∨
  type = XEL_ETHER_PROTO_TYPE_IP ∧
    20 <= field16 (rx_word base (XEL_RXBUFF_OFFSET + XEL_HEADER_IP_LENGTH_OFFSET) e) <= 1500.

Lemma frame_valid_spec base e :
  rx_done base e = true →
  let '(valid, e') := frame_valid base e in
  undisturbed base e e' ∧ (valid = true → header_ok base e).
Proof.
  intros Hd. unfold frame_valid, header_ok.
  pose proof (undisturbed_reg base base (XEL_RXBUFF_OFFSET + 12) e e (undisturbed_refl _ _ Hd)) as U1.
  pose proof (reg_spec base (XEL_RXBUFF_OFFSET + 12) e) as R1.
  destruct (XEmacLite_ReadReg base (XEL_RXBUFF_OFFSET + 12) e) as [word e1]. cbn [fst snd] in *. rewrite <-R1.
  destruct (bool_decide_reflect (u16 (field16 word) = XEL_ETHER_PROTO_TYPE_IP)) as [Ht|Ht].
  - pose proof (undisturbed_reg base base (XEL_RXBUFF_OFFSET + XEL_HEADER_IP_LENGTH_OFFSET) e e1 U1) as U2.
    pose proof (reg_spec base (XEL_RXBUFF_OFFSET + XEL_HEADER_IP_LENGTH_OFFSET) e1) as R2.
    destruct (XEmacLite_ReadReg base (XEL_RXBUFF_OFFSET + XEL_HEADER_IP_LENGTH_OFFSET) e1) as [word2 e2].
    cbn [fst snd] in *. split; [done|].
    intros [H1%bool_decide_eq_true H2%bool_decide_eq_true]%andb_true_iff. right. split; [done|].
    destruct U1 as (_ & Hw & _). rewrite <-Hw, <-R2. unfold ipconfigNETWORK_MTU in H2. lia.
  - split; [done|]. intros ?%bool_decide_eq_true. by left.
Qed.

Lemma bounded_receive_spec e :
  rx_done (XEmacLite_NextReceiveAddr e) e = true ∨ QuietReceiver E →
  let '(n, frame, e') := bounded_receive e in
  (n <= 0 ∧ frame = []) ∨ n = Z.of_nat (length frame) - 4 ∧ (n = 42 ∨ 34 <= n <= 1514).
Proof.
  intros Hrace. unfold bounded_receive. pose proof (select_buffer_spec e) as Hs.
  destruct (select_buffer e) as [[[base status]|] e1]; [|by left]. cbv zeta in Hs.
  destruct Hs as (Hn1 & Hd1 & Hbase).
  pose proof (frame_valid_spec base e1 Hd1) as Hv. destruct (frame_valid base e1) as [valid e2].
  destruct Hv as [U Hok]. destruct valid; cbn [negb]; [specialize (Hok eq_refl)|by left].
  destruct U as (Hd2 & Hw & Hn2 & Hk & Hq).
  assert ((if rx_done (XEmacLite_NextReceiveAddr e2) e2 then XEmacLite_NextReceiveAddr e2
           else XEmacLite_NextReceiveAddr e2 .^ XEL_BUFFER_OFFSET) = base) as Hb.
  { rewrite Hn2, Hn1. destruct Hbase as [-> |(-> & Hnd & Hnq)]; [by rewrite Hd2|].
    destruct Hrace as [?|Q]; [congruence|]. by rewrite (Hq Q), (Hnq Q). }
  pose proof (recv_spec e2) as Hr. cbv zeta in Hr. rewrite Hb in Hr. specialize (Hr Hd2).
  destruct (XEmacLite_Recv e2) as [frame e3]. cbn [fst] in Hr. right. rewrite fcs_size.
  rewrite !Hw in Hr. destruct Hr as [Harp Hip]. unfold header_ok in Hok.
  destruct Hok as [Ht|[Ht Hlen]].
  - rewrite (Harp Ht). split; [done|]. by left.
  - specialize (Hip Ht). rewrite u16_small in Hip by (unfold in_bits; lia).
    rewrite bool_decide_true by lia. lia.
Qed.
End bounds.

(** ** Buffers *)

Lemma BUFFER_BYTES_spec padding : 1536 <= BUFFER_BYTES padding - padding < 1536 + 32 ∧ BUFFER_BYTES padding `mod` 32 = 0.
Proof.
  unfold BUFFER_BYTES. set (x := 1536 + padding + 31).
  assert (Z.land x (Z.lnot 31) = x - x `mod` 32) as ->.
  { change 31 with (Z.ones 5). rewrite <-Z.ldiff_land, Z.ldiff_ones_r by lia.
    rewrite Z.shiftr_div_pow2, Z.shiftl_mul_pow2 by lia. change (2 ^ 5) with 32. dlia. }
  unfold x. dlia.
Qed.

(** The buffers handed to the stack hold 1536 bytes each and do not overlap. *)
Lemma buffers_disjoint padding i j :
  0 <= padding → (i < j)%nat →
  pucEthernetBuffer padding i + 1536 <= pucEthernetBuffer padding j - padding.
Proof.
  intros Hp Hij. unfold pucEthernetBuffer. pose proof (BUFFER_BYTES_spec padding) as [? _].
  assert (Z.of_nat j * BUFFER_BYTES padding >= (Z.of_nat i + 1) * BUFFER_BYTES padding) by nia. lia.
Qed.

(** The history of one turn, with the number of bytes copied: no buffer was to
    be had, or one was, and was given back, or went to the stack with a frame
    of legal size. *)
Inductive turn_log (n : nat) : list net_event → Prop :=
| log_discard : turn_log n [Copied None n]
| log_release b : turn_log n [Got b; Copied (Some b) n; Released b]
| log_pass b data : length data = (n - 4)%nat → (14 <= length data <= 1514)%nat →
    turn_log n [Got b; Copied (Some b) n; Passed b data].

(** The turns of the receive task, one after the other. *)
Definition turns_log (turns : list (nat * list net_event)) : Prop := Forall (λ '(n, es), turn_log n es) turns.

Section ownership.
Context {E N : Type} `{EmacLaws E} `{IpStack N}.
Implicit Types s : nic E N.

(** What is returned is the number of bytes stored, less the checksum. *)
Lemma bounded_receive_length (e : E) :
  let '(n, frame, _) := bounded_receive e in 0 < n → n = Z.of_nat (length frame) - 4.
Proof.
  unfold bounded_receive. destruct (select_buffer e) as [[[base status]|] e1]; [|done].
  destruct (frame_valid base e1) as [[] e2]; cbn [negb]; [|lia].
  destruct (XEmacLite_Recv e2) as [frame e3]. rewrite fcs_size. case_bool_decide; lia.
Qed.

Lemma receive_turn_spec s :
  ∃ n es, turn_log n es ∧ net_log (snd (receive_turn s)) = net_log s ++ es ∧ (QuietReceiver E → (n <= 1518)%nat).
Proof.
  unfold receive_turn. destruct (pxGetNetworkBufferWithDescriptor (ip s)) as [b stack]. cbn [emac logged].
  pose proof (bounded_receive_length (emac s)) as Hr. pose proof (λ q, bounded_receive_spec (emac s) (or_intror q)) as Hq.
  destruct (bounded_receive (emac s)) as [[n frame] e].
  assert (QuietReceiver E → (length frame <= 1518)%nat) as Hl
    by (intros q; destruct (Hq q) as [[_ ->]|Hq']; [simpl; lia|lia]).
  exists (length frame). destruct b as [b|].
  2: { exists [Copied None (length frame)]. split; [by constructor|].
       split; [|done]. repeat case_bool_decide; cbn; by rewrite app_nil_r. }
  assert (turn_log (length frame) [Got b; Copied (Some b) (length frame); Released b]) as Hrel by by constructor.
  repeat case_bool_decide; cbn [orb]; try (eexists; split; [exact Hrel|]; cbn; by rewrite <-!app_assoc).
  destruct (FreeRTOS_MatchingEndpoint _ _); cbn [negb];
    [|eexists; split; [exact Hrel|]; cbn; by rewrite <-!app_assoc].
  destruct (xSendEventStructToIPTask _ _ _) as [[] stack'];
    [|eexists; split; [exact Hrel|]; cbn; by rewrite <-!app_assoc].
  eexists. split; [|cbn; by rewrite <-!app_assoc]. specialize (Hr ltac:(lia)).
  assert (length (take (Z.to_nat n) frame) = Z.to_nat n) as Hd by (rewrite length_take; lia).
  unfold ipconfigNETWORK_MTU in *. constructor; rewrite ?Hd; lia.
Qed.

Lemma receive_turns_spec k s :
  ∃ turns, turns_log turns ∧ length turns = k ∧
    net_log (Nat.iter k (λ s, snd (receive_turn s)) s) = net_log s ++ concat (snd <$> turns) ∧
    (QuietReceiver E → Forall (λ n, (n <= 1518)%nat) (fst <$> turns)).
Proof.
  induction k as [|k (ess & Hess & Hk & Hlog & Hq)]; [exists []; split_and!; [by constructor|done|by rewrite app_nil_r|constructor]|].
  destruct (receive_turn_spec (Nat.iter k (λ s, snd (receive_turn s)) s)) as (n & es & Hes & Hlog' & Hq').
  exists (ess ++ [(n, es)]). split_and!.
  - apply Forall_app; by split; [|constructor].
  - rewrite length_app. cbn. lia.
  - rewrite Nat.iter_succ, Hlog', Hlog, fmap_app, concat_app. cbn. by rewrite app_nil_r, app_assoc.
  - intros q. rewrite fmap_app. apply Forall_app_2; [auto|]. constructor; [auto|done].
Qed.
End ownership.

(** ** Draining *)

(** Nothing arrives at all: taking a frame, or giving it up by clearing its
    status, empties its buffer and leaves the other one as it is. *)
Class StillReceiver (E : Type) `{QuietReceiver E} : Prop := {
  mask_range : is_u32 XEL_RSR_RECV_DONE_MASK;
  buffers_differ : XEL_BUFFER_OFFSET ≠ 0;
  recv_takes : ∀ e,
    let next := XEmacLite_NextReceiveAddr e in
    let base := if rx_done next e then next else next .^ XEL_BUFFER_OFFSET in
    let e' := snd (XEmacLite_Recv e) in
    rx_done base e = true →
    rx_done base e' = false ∧ (∀ b, b ≠ base → rx_done b e' = rx_done b e) ∧
    (XEmacLite_NextReceiveAddr e' = next ∨ XEmacLite_NextReceiveAddr e' = next .^ XEL_BUFFER_OFFSET);
  set_takes : ∀ base v e,
    let e' := XEmacLite_SetRxStatus base v e in
    v .& XEL_RSR_RECV_DONE_MASK = 0 →
    rx_done base e' = false ∧ (∀ b, b ≠ base → rx_done b e' = rx_done b e) ∧
    XEmacLite_NextReceiveAddr e' = XEmacLite_NextReceiveAddr e;
}.

Section draining.
Context {E : Type} `{StillReceiver E}.
Implicit Types e : E.

Definition other e : Z := XEmacLite_NextReceiveAddr e .^ XEL_BUFFER_OFFSET.
(** The buffers that hold a frame. *)
Definition waiting_frames e : nat :=
  Nat.b2n (rx_done (XEmacLite_NextReceiveAddr e) e) + Nat.b2n (rx_done (other e) e).

Lemma other_ne e : other e ≠ XEmacLite_NextReceiveAddr e.
Proof.
  unfold other. intros Heq. apply buffers_differ.
  rewrite <-(Z.lxor_nilpotent (XEmacLite_NextReceiveAddr e)). rewrite <-Heq at 2.
  by rewrite <-Z.lxor_assoc, Z.lxor_nilpotent, Z.lxor_0_l.
Qed.

(** Only which of the two is looked at first may change. *)
Lemma waiting_frames_same e e' :
  XEmacLite_NextReceiveAddr e' = XEmacLite_NextReceiveAddr e ∨ XEmacLite_NextReceiveAddr e' = other e →
  waiting_frames e' = (Nat.b2n (rx_done (XEmacLite_NextReceiveAddr e) e') + Nat.b2n (rx_done (other e) e'))%nat.
Proof.
  unfold waiting_frames, other. intros [->| ->]; [done|].
  rewrite Z.lxor_assoc, Z.lxor_nilpotent, Z.lxor_0_r. lia.
Qed.

(** Emptying a full buffer. *)
Lemma waiting_frames_take base e e' :
  base = XEmacLite_NextReceiveAddr e ∨ base = other e → rx_done base e = true →
  rx_done base e' = false → (∀ b, b ≠ base → rx_done b e' = rx_done b e) →
  XEmacLite_NextReceiveAddr e' = XEmacLite_NextReceiveAddr e ∨ XEmacLite_NextReceiveAddr e' = other e →
  waiting_frames e = S (waiting_frames e').
Proof.
  intros Hb Hd Hd' Ho Hn. rewrite (waiting_frames_same e e' Hn). unfold waiting_frames.
  pose proof (other_ne e) as Hne. destruct Hb as [-> | ->].
  - rewrite Hd, Hd', (Ho (other e)) by done. done.
  - rewrite Hd, Hd', (Ho (XEmacLite_NextReceiveAddr e)) by done. cbn. lia.
Qed.

(** Looking changes nothing. *)
Definition seen e e' : Prop :=
  (∀ b, rx_done b e' = rx_done b e) ∧ XEmacLite_NextReceiveAddr e' = XEmacLite_NextReceiveAddr e.

Lemma select_buffer_still e :
  let '(found, e') := select_buffer e in
  seen e e' ∧
  match found with
  | None => waiting_frames e = 0%nat
  | Some (base, _) => rx_done base e = true ∧
      base = (if rx_done (XEmacLite_NextReceiveAddr e) e then XEmacLite_NextReceiveAddr e else other e)
  end.
Proof.
  unfold select_buffer. cbv zeta. unfold waiting_frames, other. set (next := XEmacLite_NextReceiveAddr e).
  pose proof (status_spec next e) as S1. pose proof (status_next next e) as N1.
  pose proof (λ b, status_quiet next b e) as Q1.
  destruct (XEmacLite_GetRxStatus next e) as [status e1]. cbn [fst snd] in *.
  destruct (bool_decide_reflect (status .& XEL_RSR_RECV_DONE_MASK = 0)) as [Hz|Hz].
  2: { apply S1 in Hz. rewrite Hz. by split. }
  assert (rx_done next e = false) as Hn by (apply not_true_iff_false; intros Hd; by apply S1 in Hd).
  set (oth := next .^ XEL_BUFFER_OFFSET). pose proof (status_spec oth e1) as S2.
  pose proof (status_next oth e1) as N2. pose proof (λ b, status_quiet oth b e1) as Q2.
  destruct (XEmacLite_GetRxStatus oth e1) as [status2 e2]. cbn [fst snd] in *. rewrite Q1 in S2. rewrite Hn.
  assert (seen e e2) as Hseen by (split; [intros b; by rewrite Q2, Q1|by rewrite N2]).
  destruct (bool_decide_reflect (status2 .& XEL_RSR_RECV_DONE_MASK = 0)) as [Hz2|Hz2].
  - split; [done|]. assert (rx_done oth e = false) as -> by (apply not_true_iff_false; intros Hd; by apply S2 in Hd).
    done.
  - apply S2 in Hz2. done.
Qed.

Lemma frame_valid_still base e : seen e (snd (frame_valid base e)).
Proof.
  unfold frame_valid. pose proof (λ b, reg_quiet base (XEL_RXBUFF_OFFSET + 12) b e) as Q1.
  pose proof (reg_next base (XEL_RXBUFF_OFFSET + 12) e) as N1.
  destruct (XEmacLite_ReadReg base (XEL_RXBUFF_OFFSET + 12) e) as [word e1]. cbn [snd] in *.
  case_bool_decide; [|by split].
  pose proof (λ b, reg_quiet base (XEL_RXBUFF_OFFSET + XEL_HEADER_IP_LENGTH_OFFSET) b e1) as Q2.
  pose proof (reg_next base (XEL_RXBUFF_OFFSET + XEL_HEADER_IP_LENGTH_OFFSET) e1) as N2.
  destruct (XEmacLite_ReadReg _ _ e1) as [word2 e2]. cbn [snd] in *.
  split; [intros b; by rewrite Q2, Q1|by rewrite N2].
Qed.

Lemma status_cleared status : (status .& not32 XEL_RSR_RECV_DONE_MASK) .& XEL_RSR_RECV_DONE_MASK = 0.
Proof.
  rewrite <-Z.land_assoc. assert (not32 XEL_RSR_RECV_DONE_MASK .& XEL_RSR_RECV_DONE_MASK = 0) as ->; [|apply Z.land_0_r].
  pose proof mask_range as Hm. unfold in_bits in Hm. apply Z.bits_inj'. intros i Hi.
  rewrite Z.land_spec, Z.bits_0. unfold not32, u32. destruct (Z.lt_ge_cases i 32).
  - rewrite Z.mod_pow2_bits_low, Z.lnot_spec by lia. apply andb_negb_l.
  - rewrite Z.mod_pow2_bits_high by lia. done.
Qed.

(** [bounded_receive] finds nothing, or takes one frame. *)
Lemma bounded_receive_drains e :
  let '(n, _, e') := bounded_receive e in
  match waiting_frames e with
  | O => n = 0 ∧ waiting_frames e' = 0%nat
  | S k => n ≠ 0 ∧ waiting_frames e' = k
  end.
Proof.
  pose proof (bounded_receive_spec e (or_intror _)) as Hn. revert Hn. unfold bounded_receive.
  pose proof (select_buffer_still e) as Hs. destruct (select_buffer e) as [[[base status]|] e1]; destruct Hs as [[Hd Hx] Hs].
  2: { intros _. rewrite Hs. split; [done|]. unfold waiting_frames, other in *. by rewrite !Hx, !Hd. }
  destruct Hs as [Hb Ebase]. pose proof (frame_valid_still base e1) as [Hd2 Hx2].
  destruct (frame_valid base e1) as [valid e2]. cbn [snd] in *.
  assert (base = XEmacLite_NextReceiveAddr e ∨ base = other e) as Hbase.
  { destruct (rx_done (XEmacLite_NextReceiveAddr e) e); [by left|by right]. }
  destruct valid; cbn [negb].
  - pose proof (recv_takes e2) as Ht. cbv zeta in Ht. rewrite Hx2, Hx, !Hd2, !Hd in Ht. fold (other e) in Ht.
    rewrite <-Ebase in Ht. destruct (Ht Hb) as (Hb' & Ho & Hnext).
    destruct (XEmacLite_Recv e2) as [frame e3]. cbn [snd] in *.
    rewrite (waiting_frames_take base e e3 Hbase Hb Hb'); [|intros b Hne; by rewrite Ho, Hd2, Hd|done].
    intros [[Hle ->]|[-> Hn]]; split; [|done|lia|done].
    rewrite fcs_size. by case_bool_decide.
  - intros _. pose proof (set_takes base (status .& not32 XEL_RSR_RECV_DONE_MASK) e2 (status_cleared status)) as (Hb' & Ho & Hnext).
    rewrite (waiting_frames_take base e _ Hbase Hb Hb'); [done|intros b Hne; by rewrite Ho, Hd2, Hd|left; by rewrite Hnext, Hx2].
Qed.

Context {N : Type} `{IpStack N}.
Implicit Types s : nic E N.

Lemma receive_turn_drains s :
  let '(more, s') := receive_turn s in
  more = negb (bool_decide (waiting_frames (emac s) = 0%nat)) ∧
  waiting_frames (emac s') = pred (waiting_frames (emac s)).
Proof.
  unfold receive_turn. destruct (pxGetNetworkBufferWithDescriptor (ip s)) as [b stack]. cbn [emac logged].
  pose proof (bounded_receive_drains (emac s)) as Hr. destruct (bounded_receive (emac s)) as [[n frame] e].
  destruct (waiting_frames (emac s)) as [|k]; destruct Hr as [Hn He].
  - rewrite Hn. cbn. by destruct b.
  - rewrite (bool_decide_false (n = 0)) by done. rewrite (bool_decide_false (S k = 0%nat)) by done.
    cbn [negb pred]. case_bool_decide; [by destruct b|]. destruct b; [|done].
    destruct (_ || _ || _); [done|]. by destruct (xSendEventStructToIPTask _ _ _) as [[] ?].
Qed.

Lemma receive_loop_drains fuel s :
  (waiting_frames (emac s) < fuel)%nat →
  ∃ s', receive_loop fuel s = Some s' ∧ waiting_frames (emac s') = 0%nat.
Proof.
  revert s. induction fuel as [|fuel IH]; intros s Hf; [lia|]. cbn [receive_loop].
  pose proof (receive_turn_drains s) as Ht. destruct (receive_turn s) as [more s']. destruct Ht as [-> Hs].
  case_bool_decide as Hz; cbn [negb]; [|apply IH; lia]. exists s'. rewrite Hs, Hz. done.
Qed.

Lemma waiting_frames_bound e : (waiting_frames e <= 2)%nat.
Proof. unfold waiting_frames. destruct (rx_done _ _), (rx_done _ _); cbn; lia. Qed.
End draining.

(** ** Transmission *)

(** Time passes while the task sleeps, a tick at least. *)
Class TaskClock {E : Type} `{EmacLite E} (now : E → Z) (sleep : E → E) : Prop := {
  sleep_passes : ∀ e, now e + 1 <= now (sleep e) <= now e + 2 ^ 28;
  tx_passes : ∀ e, now e <= now (snd (XEmacLite_TxBufferAvailable e)) <= now e + 2 ^ 28;
}.

Section transmission.
Context {E N : Type} `{EmacLite E} (now : E → Z) (sleep : E → E) `{!TaskClock now sleep}.

(** The loop ends after at most two sleeps. *)
Lemma output_loop_ends k e0 data e :
  (k <= 2)%nat → now e0 + Z.of_nat k <= now e <= now e0 + Z.of_nat k * 2 ^ 29 →
  is_Some (output_loop now sleep (3 - k) (u32 (now e0)) data e).
Proof.
  intros Hk. remember (2 - k)%nat as j eqn:Hj. revert k e Hk Hj. induction j as [|j IH]; intros k e Hk Hj He.
  all: replace (3 - k)%nat with (S (2 - k)) by lia; cbn [output_loop].
  all: pose proof (tx_passes e) as Ht; destruct (XEmacLite_TxBufferAvailable e) as [[] e1]; cbn [snd] in Ht;
    [case_bool_decide; by eexists|].
  all: pose proof (sleep_passes e1) as Hs.
  all: destruct (bool_decide_reflect (u32 (now (sleep e1)) -32 u32 (now e0) < pdMS_TO_TICKS 20)) as [Hlt|]; [|by eexists].
  - exfalso. assert (k = 2%nat) as -> by lia. change (pdMS_TO_TICKS 20) with 2 in Hlt.
    revert Hlt. replace (u32 (now (sleep e1)) -32 u32 (now e0)) with (now (sleep e1) -32 now e0) by u32_ring.
    rewrite u32_small by (unfold in_bits; lia). lia.
  - replace (2 - k)%nat with (3 - (k + 1))%nat by lia. apply IH; lia.
Qed.

Lemma output_loop_none data e start fuel :
  (1514 < length data)%nat → ∀ ok e', output_loop now sleep fuel start data e = Some (ok, e') → ok = false.
Proof.
  intros Hl ok e'. revert e. induction fuel as [|fuel IH]; intros e; cbn [output_loop]; [done|].
  destruct (XEmacLite_TxBufferAvailable e) as [[] e1].
  - rewrite bool_decide_eq_false_2 by lia. by intros [= <- <-].
  - case_bool_decide; [apply IH|by intros [= <- <-]].
Qed.

(** [output] returns, gives the buffer back exactly when asked to, and does
    not send frames longer than an Ethernet frame. *)
Lemma output_spec (s : nic E N) b data release :
  ∃ ok s', output now sleep 3 b data release s = Some (ok, s') ∧
    net_log s' = net_log s ++ (if release then [Released b] else []) ∧
    ((1514 < length data)%nat → ok = false).
Proof.
  unfold output. destruct (output_loop_ends 0 (emac s) data (emac s)) as [[ok e] Hr]; [lia|lia|].
  cbn [Nat.sub] in Hr. rewrite Hr. eexists ok, _. split; [done|]. split.
  - destruct release; [done|]. cbn. by rewrite app_nil_r.
  - intros Hl. by eapply output_loop_none.
Qed.
End transmission.

(** The scan finds the first address that answers with an identifier. *)
Lemma scan_phy_range {E} `{EmacLite E} k p (e : E) :
  fst (scan_phy k p e) = -1 ∨ p <= fst (scan_phy k p e) < p + Z.of_nat k.
Proof.
  revert p e. induction k as [|k IH]; intros p e; cbn [scan_phy]; [by left|].
  destruct (XEmacLite_PhyRead p 2 e) as [[id|] e1]; [case_match; [right; cbn; lia|]|];
    (destruct (IH (p + 1) e1); [by left|right; lia]).
Qed.

(** ** The interface in use *)

Section calls.
Context {E N : Type} `{EmacLite E} `{IpStack N}.
Context (now : E → Z) (sleep : E → E) (active_mac : list Z) (fuel : nat).
Implicit Types s : nic E N.

Definition eth : NetworkInterface := pxFillInterfaceDescriptor now sleep active_mac fuel.

(** Both interrupt enables have been called. *)
Definition interrupts_on s : Prop := IrqEnabled ∈ net_log s ∧ MacEnabled ∈ net_log s.

(** What happens to the interface, in any order: calls of the stack through
    the descriptor, [initialise] in single steps, turns of the receive task
    once it exists, interrupts once they are enabled, and the DHCP retry.
    The point is the one [initialise] has come to, [None] when it is not
    running; the stack makes one call at a time. *)
Inductive nic_step : option point * nic E N → option point * nic E N → Prop :=
| InitialiseReturns s ok s' : initialise_begin active_mac s = inl (ok, s') → nic_step (None, s) (None, s')
| InitialiseBegins s s' : initialise_begin active_mac s = inr s' → nic_step (None, s) (Some AfterCreate, s')
| InitialiseGoesOn p s p' s' : initialise_next p s = Some (inr (p', s')) → nic_step (Some p, s) (Some p', s')
| InitialiseEnds p s ok s' : initialise_next p s = Some (inl (ok, s')) → nic_step (Some p, s) (None, s')
| CallOutput s b data release ok s' : pfOutput eth b data release s = Some (ok, s') → nic_step (None, s) (None, s')
| CallLinkStatus s ok s' : pfGetPhyLinkStatus eth s = (ok, s') → nic_step (None, s) (None, s')
| Receive pc s more s' : rx_task s = true → receive_turn s = (more, s') → nic_step (pc, s) (pc, s')
| TakeNotification pc s : rx_task s = true → nic_step (pc, s) (pc, set_ip (ulTaskNotifyTake (ip s)) s)
| ReceiveInterrupt pc s s' : interrupts_on s → receive_irq s = Some s' → nic_step (pc, s) (pc, s')
| SendInterrupt pc s : interrupts_on s → nic_step (pc, s) (pc, sent_irq s)
| RetryDhcp pc s : nic_step (pc, s) (pc, ethernet_retry_dhcp s).

(** The static variables before [initialise]. *)
Definition nic_start (e : E) (stack : N) : nic E N := Nic e stack [] (-1) false false.
Definition nic_reachable pc s : Prop := ∃ e stack, rtc nic_step (None, nic_start e stack) (pc, s).

(** The steps of the set-up in the history, and those done at each point. *)
Definition is_setup (e : net_event) : bool :=
  match e with
  | TaskCreated | RecvHandlerSet | SendHandlerSet | HandlerInstalled | IrqEnabled | MacEnabled => true
  | _ => false
  end.
Definition setup s : list net_event := filter is_setup (net_log s).
Definition SETUP : list net_event :=
  [TaskCreated; RecvHandlerSet; SendHandlerSet; HandlerInstalled; IrqEnabled; MacEnabled].
Definition progress (p : point) : nat :=
  match p with
  | AfterCreate => 1 | AfterRecvHandler => 2 | AfterSendHandler => 3 | AfterInstall => 4 | AfterIrqEnable => 5
  | AfterMacEnable => 6
  end.

Record nic_ok (pc : option point) s : Prop := {
  ok_setup : setup s = match pc with
    | Some p => take (progress p) SETUP
    | None => if rx_task s then SETUP else []
    end;
  ok_running : is_Some pc → rx_task s = true;
  ok_phy : -1 <= phy s < 32;
  ok_task : rx_task s = true → iface s = true;
}.

(** A step that keeps the static variables and sets up nothing. *)
Definition keeps_setup s s' : Prop :=
  phy s' = phy s ∧ rx_task s' = rx_task s ∧ iface s' = iface s ∧ setup s' = setup s.

Lemma keeps_setup_ok pc s s' : keeps_setup s s' → nic_ok pc s → nic_ok pc s'.
Proof. intros (Ep & Et & Ei & El) [O1 O2 O3 O4]. split; by rewrite ?El, ?Ep, ?Et, ?Ei. Qed.

Lemma keeps_logged s s' es :
  phy s' = phy s → rx_task s' = rx_task s → iface s' = iface s → net_log s' = net_log s ++ es →
  filter is_setup es = [] → keeps_setup s s'.
Proof.
  intros Ep Et Ei El Hes. split_and!; [done..|]. unfold setup. by rewrite El, filter_app, Hes, app_nil_r.
Qed.

Lemma keeps_nothing s s' :
  phy s' = phy s → rx_task s' = rx_task s → iface s' = iface s → net_log s' = net_log s → keeps_setup s s'.
Proof. intros Ep Et Ei El. apply (keeps_logged s s' []); try done. by rewrite app_nil_r. Qed.

Lemma link_status_keeps s : keeps_setup s (snd (link_status s)).
Proof.
  unfold link_status. case_bool_decide; [by apply keeps_nothing|].
  destruct (XEmacLite_PhyRead _ _ _) as [[r|] e]; [|by apply keeps_nothing].
  destruct (XEmacLite_PhyRead _ _ _) as [[r2|] e2]; by apply keeps_nothing.
Qed.

Lemma receive_turn_keeps s : keeps_setup s (snd (receive_turn s)).
Proof.
  unfold receive_turn. destruct (pxGetNetworkBufferWithDescriptor (ip s)) as [b stack]. cbn [emac logged].
  destruct (bounded_receive (emac s)) as [[n frame] e].
  destruct b as [b|]; repeat case_bool_decide; cbn [orb snd];
    try destruct (FreeRTOS_MatchingEndpoint _ _); cbn [negb snd];
    try (destruct (xSendEventStructToIPTask _ _ _) as [[] ?]; cbn [snd]);
    (eapply keeps_logged; [done|done|done|cbn; rewrite <-?app_assoc; reflexivity|done]).
Qed.

Lemma output_keeps b data release s ok s' :
  output now sleep fuel b data release s = Some (ok, s') → keeps_setup s s'.
Proof.
  unfold output. destruct (output_loop _ _ _ _ _ _) as [[ok' e]|]; [|done]. intros [= _ <-].
  destruct release; [|by apply keeps_nothing]. by eapply keeps_logged.
Qed.

Lemma initialise_begin_ok s :
  nic_ok None s →
  match initialise_begin active_mac s with
  | inl (_, s') => nic_ok None s'
  | inr s' => nic_ok (Some AfterCreate) s'
  end.
Proof.
  intros O. pose proof (ok_phy _ _ O) as Hp. pose proof (ok_setup _ _ O) as Hset. unfold initialise_begin.
  destruct (rx_task s) eqn:Et.
  { pose proof (link_status_keeps s) as K. destruct (link_status s). by apply (keeps_setup_ok _ s). }
  assert (∀ e stack p, -1 <= p < 32 → nic_ok None (Nic e stack (net_log s) p false true)) as Hfail
    by (intros; split; [exact Hset|by intros []|done|done]).
  cbv zeta. destruct XEmacLite_LookupConfig; cbn [negb]; [|by apply Hfail].
  cbn [emac ip net_log phy]. destruct (XEmacLite_CfgInitialize (emac s)) as [[] e]; cbn [negb]; [|by apply Hfail].
  match goal with |- context [scan_phy 32 0 ?e0] => pose proof (scan_phy_range 32 0 e0) as Hscan;
    destruct (scan_phy 32 0 e0) as [p e1] end. cbn [fst] in Hscan.
  match goal with |- context [Nic _ _ _ ?p0 _ _] => assert (-1 <= p0 < 32) as Hp0 by (case_bool_decide; lia);
    revert Hp0; generalize p0 end. intros p0 Hp0.
  destruct (xTaskCreate (ip s)) as [[] stack]; cbn [negb]; [|by apply Hfail].
  split; [|done|done|done]. unfold setup in *. cbn [logged net_log]. by rewrite filter_app, Hset.
Qed.

Lemma initialise_next_ok p s :
  nic_ok (Some p) s →
  match initialise_next p s with
  | None => True
  | Some (inl (_, s')) => nic_ok None s'
  | Some (inr (p', s')) => nic_ok (Some p') s'
  end.
Proof.
  intros [O1 O2 O3 O4]. specialize (O2 ltac:(done)).
  assert (∀ p' e s', take (progress p') SETUP = take (progress p) SETUP ++ [e] → is_setup e = true →
    phy s' = phy s → rx_task s' = rx_task s → iface s' = iface s → net_log s' = net_log s ++ [e] →
    nic_ok (Some p') s') as Hstep.
  { intros p' e s' Hp He E1 E2 E3 E4. split; rewrite ?E1, ?E2, ?E3; try done.
    unfold setup in *. by rewrite E4, filter_app, O1, Hp, filter_cons_True, filter_nil by (by rewrite He). }
  destruct p; cbn [initialise_next]; try by eapply Hstep.
  - destruct (xPortInstallInterruptHandler (ip s)) as [[] stack]; cbn [negb]; [by eapply Hstep|done].
  - pose proof (link_status_keeps s) as K. destruct (link_status s) as [ok s']. apply (keeps_setup_ok _ s); [done|].
    split; [|by intros []|done|done]. by rewrite O1, O2.
Qed.

Lemma nic_step_ok x y : nic_ok (fst x) (snd x) → nic_step x y → nic_ok (fst y) (snd y).
Proof.
  intros O Hst. revert O.
  destruct Hst as [s ok s' E1|s s' E1|p s p' s' E1|p s ok s' E1|s b data release ok s' E1|s ok s' E1|pc s more s' _ E1
    |pc s _|pc s s' _ E1|pc s|pc s]; cbn [fst snd]; intros O.
  - pose proof (initialise_begin_ok s O) as Hi. by rewrite E1 in Hi.
  - pose proof (initialise_begin_ok s O) as Hi. by rewrite E1 in Hi.
  - pose proof (initialise_next_ok p s O) as Hi. by rewrite E1 in Hi.
  - pose proof (initialise_next_ok p s O) as Hi. by rewrite E1 in Hi.
  - apply (keeps_setup_ok _ s); [exact (output_keeps _ _ _ _ _ _ E1)|done].
  - apply (keeps_setup_ok _ s); [|done]. pose proof (link_status_keeps s) as K. cbn in E1. by rewrite E1 in K.
  - apply (keeps_setup_ok _ s); [|done]. pose proof (receive_turn_keeps s) as K. by rewrite E1 in K.
  - apply (keeps_setup_ok _ s); [by apply keeps_nothing|done].
  - unfold receive_irq in E1. destruct (rx_task s) eqn:Et; [|done]. injection E1 as <-.
    apply (keeps_setup_ok _ s); [|done]. by eapply keeps_logged.
  - done.
  - apply (keeps_setup_ok _ s); [|done]. unfold ethernet_retry_dhcp. destruct (iface s) eqn:Ei; by apply keeps_nothing.
Qed.

Lemma nic_reachable_ok pc s : nic_reachable pc s → nic_ok pc s.
Proof.
  intros (e & stack & Hr). change (nic_ok (fst (pc, s)) (snd (pc, s))). revert Hr.
  assert (nic_ok (fst (@None point, nic_start e stack)) (snd (@None point, nic_start e stack))) as O by (by split; [|intros []|..]).
  revert O. generalize (@None point, nic_start e stack) (pc, s). intros x y O Hr.
  induction Hr as [|x y z Hst _ IH]; [done|]. apply IH. by eapply nic_step_ok.
Qed.

(** What has been set up is the beginning of the set-up, in its order. *)
Lemma nic_ok_prefix pc s : nic_ok pc s → setup s `prefix_of` SETUP.
Proof.
  intros O. rewrite (ok_setup _ _ O). destruct pc as [p|]; [apply prefix_take|].
  destruct (rx_task s); [done|apply prefix_nil].
Qed.

Lemma setup_elem e s : is_setup e = true → e ∈ net_log s ↔ e ∈ setup s.
Proof. intros He. unfold setup. rewrite list_elem_of_filter, He. split; [by intros|by intros []]. Qed.

(** Interrupts are on only when all of it is done. *)
Lemma nic_ok_interrupts pc s : nic_ok pc s → MacEnabled ∈ net_log s → setup s = SETUP ∧ rx_task s = true.
Proof.
  intros O Hm. apply setup_elem in Hm; [|done]. rewrite (ok_setup _ _ O) in Hm |- *.
  destruct pc as [p|]; [split; [|by apply (ok_running _ _ O)]|by destruct (rx_task s); [|apply not_elem_of_nil in Hm]].
  revert Hm. destruct p; cbn [progress]; try done; intros Hm; exfalso; revert Hm; by_decide.
Qed.
End calls.

(** ** A receiver

    Two buffers at 0 and 0x800, each empty or with a frame of a type and an IP
    length, after the host model of the repository's test_network.c.  After
    every register access [step] happens. *)
Module TwoBuffers.
Record rx := Rx { ping : option (Z * Z); pong : option (Z * Z); arrivals : list (option (Z * Z)) }.
Definition frame_at (base : Z) (e : rx) : option (Z * Z) :=
  if bool_decide (base = 0) then ping e else if bool_decide (base = 0x800) then pong e else None.
Definition wire (n : Z) : Z := ((n .& 255) <<. 8) .| (n >>. 8).
Definition word (base off : Z) (e : rx) : Z :=
  match frame_at base e with
  | None => 0
  | Some (type, len) =>
      if bool_decide (off = 0x1000 + 12) then wire type else if bool_decide (off = 0x1000 + 16) then wire len else 0
  end.
Definition is_full (base : Z) (e : rx) : bool := bool_decide (frame_at base e ≠ None).
Definition drop_frame (base : Z) (e : rx) : rx :=
  Rx (if bool_decide (base = 0) then None else ping e) (if bool_decide (base = 0x800) then None else pong e) (arrivals e).
Definition frame_size (base : Z) (e : rx) : Z :=
  if bool_decide (u16 (field16 (word base (0x1000 + 12) e)) = 0x800)
  then u16 (field16 (word base (0x1000 + 16) e) + 18) else 46.

Definition ops (step : rx → rx) : EmacLite rx := {|
  XEL_RSR_RECV_DONE_MASK := 1; XEL_BUFFER_OFFSET := 0x800; XEL_RXBUFF_OFFSET := 0x1000;
  XEL_HEADER_IP_LENGTH_OFFSET := 16; XEL_ETHER_PROTO_TYPE_ARP := 0x806; XEL_ETHER_PROTO_TYPE_IP := 0x800;
  XEL_FCS_SIZE := 4;
  XEmacLite_NextReceiveAddr _ := 0;
  XEmacLite_GetRxStatus base e := (if is_full base e then 1 else 0, step e);
  XEmacLite_SetRxStatus base v e := if bool_decide (v .& 1 = 0) then drop_frame base e else e;
  XEmacLite_ReadReg base off e := (word base off e, step e);
  XEmacLite_Recv e :=
    let base := if is_full 0 e then 0 else 0x800 in
    (replicate (Z.to_nat (frame_size base e)) 0, drop_frame base e);
  XEmacLite_TxBufferAvailable e := (true, e);
  XEmacLite_Send _ e := (true, e);
  XEmacLite_PhyRead _ _ e := (None, e);
  XEmacLite_PhyWrite _ _ _ e := e;
  XEmacLite_LookupConfig := true;
  XEmacLite_CfgInitialize e := (true, e);
  XEmacLite_SetMacAddress _ e := e;
  XEmacLite_FlushReceive e := e;
  XEmacLite_SetRecvHandler e := e;
  XEmacLite_SetSendHandler e := e;
  XEmacLite_EnableInterrupts e := e;
|}.

Definition steady (step : rx → rx) : Prop :=
  ∀ base e, is_full base e = true → frame_at base (step e) = frame_at base e.

Lemma laws step : steady step → @EmacLaws rx (ops step).
Proof.
  intros Hstep.
  assert (∀ b e, is_full b e = true → is_full b (step e) = true ∧ ∀ off, word b off (step e) = word b off e) as Hk.
  { intros b e Hb. unfold is_full, word. by rewrite (Hstep b e Hb). }
  refine (@Build_EmacLaws rx (ops step) is_full word _ _ _ _ _ _ _ _ _); try done.
  - intros base e. cbn. by destruct (is_full base e).
  - intros e. cbv zeta. cbn [XEmacLite_NextReceiveAddr ops]. intros Hd. cbn [XEmacLite_Recv fst XEL_BUFFER_OFFSET ops
      XEL_RXBUFF_OFFSET XEL_HEADER_IP_LENGTH_OFFSET XEL_ETHER_PROTO_TYPE_ARP XEL_ETHER_PROTO_TYPE_IP].
    change (0 .^ 0x800) with 0x800. set (base := if is_full 0 e then 0 else 0x800).
    rewrite length_replicate. unfold frame_size. split; intros ->; [done|].
    rewrite bool_decide_true by done. rewrite Z2Nat.id; [done|]. pose proof (u16_range (field16 (word base (0x1000 + 16) e) + 18)) as Hu.
    unfold in_bits in Hu. lia.
Defined.

(** A receiver on which nothing arrives, and one on which frames arrive in
    the first buffer as the list [arrivals] says. *)
Definition still : Type := rx.
Definition busy : Type := rx.
#[global] Typeclasses Opaque still busy.
#[global] Instance still_ops : EmacLite still := ops id.
#[global] Instance still_laws : EmacLaws still := laws id (λ _ _ _, eq_refl).
#[global] Instance still_quiet : QuietReceiver still.
Proof. split; done. Qed.

Lemma drop_frame_spec base e :
  (base = 0 ∨ base = 0x800) → is_full base (drop_frame base e) = false ∧
  ∀ b, b ≠ base → is_full b (drop_frame base e) = is_full b e.
Proof.
  intros [-> | ->]; (split; [done|]); intros b Hb; unfold is_full, frame_at, drop_frame; cbn;
    destruct (bool_decide_reflect (b = 0)), (bool_decide_reflect (b = 0x800)); first [done | by subst].
Qed.
#[global] Instance still_still : StillReceiver still.
Proof.
  assert (∀ b e, b ≠ 0 → b ≠ 0x800 → is_full b e = false) as Hout.
  { intros b e H1 H2. unfold is_full, frame_at. by rewrite !(bool_decide_false (b = _)). }
  split.
  - unfold in_bits. cbn. lia.
  - done.
  - intros e. cbv zeta. intros _. change (XEmacLite_NextReceiveAddr e) with 0. cbn [rx_done still_laws laws].
    change (0 .^ XEL_BUFFER_OFFSET) with 0x800.
    destruct (drop_frame_spec (if is_full 0 e then 0 else 0x800) e) as [H1 H2]; [destruct (is_full 0 e); auto|].
    split; [exact H1|]. split; [exact H2|by left].
  - intros base v e. cbv zeta. cbn [XEmacLite_SetRxStatus still_ops ops XEL_RSR_RECV_DONE_MASK]. intros Hv.
    rewrite bool_decide_true by done. cbn [rx_done still_laws laws].
    destruct (bool_decide_reflect (base = 0)) as [Hb|Hb]; [destruct (drop_frame_spec base e); [by left|done]|].
    destruct (bool_decide_reflect (base = 0x800)) as [Hb2|Hb2]; [destruct (drop_frame_spec base e); [by right|done]|].
    split; [by apply Hout|]. split; [|done]. intros b _. unfold is_full, frame_at, drop_frame. cbn.
    by rewrite !(bool_decide_false (base = _)).
Qed.

Definition arrive (e : rx) : rx :=
  match arrivals e with
  | [] => e
  | a :: rest => Rx (match ping e with Some f => Some f | None => a end) (pong e) rest
  end.
Lemma arrive_steady : steady arrive.
Proof.
  intros base e. unfold is_full, arrive, frame_at. destruct (arrivals e) as [|a rest]; [done|]. cbn.
  destruct (bool_decide (base = 0)); [|done]. by destruct (ping e).
Qed.
#[global] Instance busy_ops : EmacLite busy := ops arrive.
#[global] Instance busy_laws : EmacLaws busy := laws arrive arrive_steady.
End TwoBuffers.

(** ** Claims *)

(** C21. No frame overruns its buffer.  Provided the buffer the driver looks at
    first is already complete, or no frame is completed in it while the
    registers are being read, [bounded_receive] has the driver store at most
    1518 bytes, which fit the 1536 bytes of every network buffer (and of
    [discard]), whatever the frame's header claims; and its result is 0 or -1
    with nothing stored, or the number of bytes without the checksum: 42 for
    ARP, 34 to 1514 for IPv4. *)
Theorem receive_bounded {E} `{EmacLaws E} (e : E) (padding : Z) :
  rx_done (XEmacLite_NextReceiveAddr e) e = true ∨ QuietReceiver E →
  let '(n, frame, _) := bounded_receive e in
  Z.of_nat (length frame) <= 1518 <= snd (uxNetworkInterfaceAllocateRAMToBuffers padding) ∧
  ((n <= 0 ∧ frame = []) ∨ n = Z.of_nat (length frame) - 4 ∧ (n = 42 ∨ 34 <= n <= 1514)).
Proof.
  intros Hrace. pose proof (bounded_receive_spec e Hrace) as Hr.
  destruct (bounded_receive e) as [[n frame] e']. cbn [snd uxNetworkInterfaceAllocateRAMToBuffers].
  pose proof (BUFFER_BYTES_spec padding) as [? _]. split; [|done]. destruct Hr as [[_ ->]|Hr]; cbn [length]; lia.
Qed.

(** An IPv4 frame of the largest size waits, another of 60000 claimed bytes
    arrives behind it. *)
Lemma receive_bounded_witness :
  let e : TwoBuffers.busy := TwoBuffers.Rx (Some (0x800, 1500)) None [Some (0x800, 60000)] in
  fst (fst (bounded_receive e)) = 1514 ∧ Z.of_nat (length (snd (fst (bounded_receive e)))) <= 1518.
Proof.
  cbv zeta. set (e := TwoBuffers.Rx (Some (0x800, 1500)) None [Some (0x800, 60000)] : TwoBuffers.busy).
  pose proof (receive_bounded e 10 (or_introl eq_refl)) as Hr.
  split; [vm_compute; reflexivity|].
  destruct (bounded_receive e) as [[n frame] e']. apply Hr.
Defined.

(** C22. Network buffers are neither leaked nor used twice.  In any number of
    turns of the receive task, whatever arrives meanwhile, each turn either
    had no buffer, or gave the buffer it got back exactly once, or passed it
    to the stack exactly once, then with a frame of 14 to 1514 bytes, the
    bytes copied without their checksum.  If moreover no frame is completed
    while registers are read, every copy fits the buffer. *)
Theorem buffers_conserved {E N} `{EmacLaws E} `{IpStack N} (k : nat) (s : nic E N) :
  ∃ turns, turns_log turns ∧ length turns = k ∧
    net_log (Nat.iter k (λ s, snd (receive_turn s)) s) = net_log s ++ concat (snd <$> turns) ∧
    (QuietReceiver E → Forall (λ n, (n <= 1518)%nat) (fst <$> turns)).
Proof. apply receive_turns_spec. Qed.

(** A stack with a number of buffers that accepts everything. *)
Module SimpleStack.
#[global] Instance ops : IpStack (list nat) := {
  xTaskCreate bs := (true, bs);
  xPortInstallInterruptHandler bs := (true, bs);
  vPortEnableInterrupt bs := bs;
  vTaskNotifyGiveFromISR bs := bs;
  ulTaskNotifyTake bs := bs;
  FreeRTOS_NetworkDown bs := bs;
  pxGetNetworkBufferWithDescriptor bs := match bs with [] => (None, []) | b :: bs => (Some b, bs) end;
  FreeRTOS_MatchingEndpoint _ _ := true;
  xSendEventStructToIPTask _ _ bs := (true, bs);
}.
Definition start : nic TwoBuffers.still (list nat) :=
  Nic (TwoBuffers.Rx (Some (0x806, 0)) (Some (0x800, 19)) []) [7; 8; 9]%nat [] (-1) true true.

(** An ARP frame is passed on, a frame with a wrong length is dropped. *)
Lemma start_log :
  net_log (Nat.iter 3 (λ s, snd (receive_turn s)) start) =
  [Got 7; Copied (Some 7%nat) 46; Passed 7 (replicate 42 0);
   Got 8; Copied (Some 8%nat) 0; Released 8; Got 9; Copied (Some 9%nat) 0; Released 9].
Proof. vm_compute. reflexivity. Qed.
End SimpleStack.

Lemma buffers_conserved_witness :
  ∃ turns, turns_log turns ∧ Forall (λ n, (n <= 1518)%nat) (fst <$> turns) ∧
    net_log (Nat.iter 3 (λ s, snd (receive_turn s)) SimpleStack.start) = concat (snd <$> turns).
Proof.
  destruct (buffers_conserved 3 SimpleStack.start) as (turns & Ht & _ & El & Hq). exists turns.
  split; [exact Ht|]. split; [exact (Hq _)|exact El].
Defined.

(** C23. Reception catches up.  While no frame arrives, a turn of the receive
    task ends after at most three rounds, whatever is in the two buffers and
    whether or not network buffers can be had, and leaves both receive
    buffers empty. *)
Theorem reception_drains {E N} `{StillReceiver E} `{IpStack N} (s : nic E N) (fuel : nat) :
  (3 <= fuel)%nat → ∃ s', receive_wake fuel s = Some s' ∧ waiting_frames (emac s') = 0%nat.
Proof.
  intros Hf. apply receive_loop_drains. pose proof (waiting_frames_bound (emac s)). cbn. lia.
Qed.

Lemma reception_drains_witness :
  ∃ s', receive_wake 3 SimpleStack.start = Some s' ∧ waiting_frames (emac s') = 0%nat.
Proof. exact (reception_drains SimpleStack.start 3 (le_n 3)). Defined.

(** C24. The interface is ready before it is used.  However the calls of the
    stack, the steps of [initialise], the receive task, the interrupts and the
    DHCP retry interleave: whenever interrupts can come, also in the middle of
    [initialise], both handlers are set, the interrupt handler is installed,
    and the receive interrupt finds the task it notifies.  The set-up is done
    once and in its order, however often [initialise] is called; when it is
    not running and the task exists, interrupts are on.  The PHY address is -1
    or that of a PHY. *)
Theorem interface_ready {E N} `{EmacLite E} `{IpStack N} now sleep active_mac fuel pc (s : nic E N) :
  nic_reachable now sleep active_mac fuel pc s →
  (interrupts_on s → is_Some (receive_irq s) ∧
    RecvHandlerSet ∈ net_log s ∧ SendHandlerSet ∈ net_log s ∧ HandlerInstalled ∈ net_log s) ∧
  filter is_setup (net_log s) `prefix_of` SETUP ∧
  (pc = None → rx_task s = true → interrupts_on s) ∧
  -1 <= phy s < 32.
Proof.
  intros O%nic_reachable_ok. split_and!; [|by eapply nic_ok_prefix| |apply O..].
  - intros [_ Hm]. destruct (nic_ok_interrupts _ _ O Hm) as [Hs Ht]. unfold receive_irq. rewrite Ht.
    split; [done|]. split_and!; (apply setup_elem; [done|]); rewrite Hs; by_decide.
  - intros -> Ht. pose proof (ok_setup _ _ O) as Hs. rewrite Ht in Hs.
    split; (apply setup_elem; [done|]); rewrite Hs; by_decide.
Qed.

(** An interface that has been initialised, with a turn of the receive task
    as soon as it exists. *)
Module InterfaceRun.
Abbreviation reached := (nic_reachable (E:=TwoBuffers.still) (N:=list nat) (λ _, 0) id [2; 0; 0; 1; 2; 3] 3).
Abbreviation steps := (nic_step (E:=TwoBuffers.still) (N:=list nat) (λ _, 0) id [2; 0; 0; 1; 2; 3] 3).
Definition at_log (log : list net_event) (bs : list nat) : nic TwoBuffers.still (list nat) :=
  Nic (TwoBuffers.Rx None None []) bs log (-1) true true.
Definition early : list net_event := [TaskCreated; Got 1; Copied (Some 1%nat) 0; Released 1].
Definition up := at_log (early ++ [RecvHandlerSet; SendHandlerSet; HandlerInstalled; IrqEnabled; MacEnabled]) [2%nat].

Lemma up_reached : reached (Some AfterMacEnable) up.
Proof.
  eexists (TwoBuffers.Rx None None []), [1; 2]%nat.
  eapply rtc_l; [eapply InitialiseBegins; vm_compute; reflexivity|].
  eapply rtc_l; [eapply Receive; vm_compute; reflexivity|].
  do 4 (eapply rtc_l; [eapply InitialiseGoesOn; vm_compute; reflexivity|]).
  eapply rtc_once, InitialiseGoesOn. vm_compute. reflexivity.
Qed.
End InterfaceRun.

Lemma interface_ready_witness :
  is_Some (receive_irq InterfaceRun.up) ∧ RecvHandlerSet ∈ net_log InterfaceRun.up.
Proof.
  destruct (interface_ready _ _ _ _ _ InterfaceRun.up InterfaceRun.up_reached) as (Hi & _).
  destruct Hi as (H1 & H2 & _); [split; by_decide|]. split; [exact H1|exact H2].
Defined.

(** An empty first buffer, a small frame in the second; while its header is
    being read a frame that claims 60000 bytes arrives in the first. *)
Module RaceRun.
Definition e : TwoBuffers.busy := TwoBuffers.Rx None (Some (0x800, 100)) [None; Some (0x800, 60000)].
Lemma copied : Z.of_nat (length (snd (fst (bounded_receive e)))) = 60018.
Proof. vm_compute. reflexivity. Qed.
End RaceRun.

(** C25. The proviso of the bound is needed: what the driver does alone does not
    keep frames inside their buffers.  The length is checked in the second
    buffer while the first is empty; if a frame arrives in the first before
    [XEmacLite_Recv] looks, that one is copied, unchecked.  (A frame dropped
    as invalid leaves the driver looking at the buffer the hardware fills
    next, so the window opens after any such frame.) *)
Theorem receive_race :
  ¬ ∀ (E : Type) (ops : EmacLite E) (laws : EmacLaws E) (e : E),
    Z.of_nat (length (snd (fst (bounded_receive e)))) <= 1536.
Proof.
  intros Hall. pose proof (Hall _ _ TwoBuffers.busy_laws RaceRun.e) as Hr.
  rewrite RaceRun.copied in Hr. lia.
Qed.
