(* ===== verification/Stratum.v ===== *)
(** * Stratum session and mining control (src/software/application/stratum.c)

    One task owns the pool connection and the mining registers.  Its static
    variables are the record [stratum], grouped by purpose; the outside world
    is the bus history, the bytes sent on the connection and the telemetry
    state.  The socket layer, the tick counter and the JSON parser are
    library code and appear as parameters.  C's [a||b] over operations that
    change state is [a ||! b]. *)
From S2P Require Import Prelude Fips180 Sha256 Bitcoin Target Settings Bus Json Ina700 Protocol Telemetry.
Local Open Scope cword_scope.

(** ** The code *)
Definition MINER : Z := 0x44a30000.
Definition LINE_MAX : nat := Z.to_nat 24000.
Definition RANGE : Z := 0x01000000.

Record pool_job := PoolJob {
  j_id : list Z; j_time : list Z; j_number : Z;
  j_prev : list Z; j_version : list Z; j_bits : list Z;
  j_coin1 : list Z; j_coin2 : list Z; j_branches : list (list Z);
  j_n1 : nat; j_n2 : nat; j_nb : nat; j_target : list Z
}.

Record pending_share := Pending { p_id : Z; p_sent : Z; p_event : miner_event }.

Record flags := Flags {
  subscribed : bool; authorized : bool; have_job : bool; running : bool; extra_exhausted : bool
}.
Record extranonce := Extra {
  extra1 : list Z; extra1_size : nat; extra2 : list Z; extra2_size : nat; extra2_hex : list Z
}.
Record work := Work { job : pool_job; header : list Z; pending_target : list Z; range_start : Z }.
Record shares := Shares { next_id : Z; pending : list pending_share }.
Record world (Q : Type) := World { w_tr : trace; w_sent : list Z; w_tel : telemetry Q }.
Arguments World {Q} _ _ _. Arguments w_tr {Q} _. Arguments w_sent {Q} _. Arguments w_tel {Q} _.

Record stratum (Q : Type) := Stratum {
  fl : flags; ex : extranonce; wk : work; sh : shares; session : miner_settings; wd : world Q
}.
Arguments Stratum {Q} _ _ _ _ _ _. Arguments fl {Q} _. Arguments ex {Q} _. Arguments wk {Q} _.
Arguments sh {Q} _. Arguments session {Q} _. Arguments wd {Q} _.

Section stratum.
Context {Q : Type} `{Queue Q} `{JsonLibrary}.
Context (dev : device).
(** [FreeRTOS_send(connection,data,n,0)], given what was sent before. *)
Context (FreeRTOS_send : list Z → list Z → Z).
Context (xTaskGetTickCount : world Q → Z).
Implicit Types s : stratum Q.

Definition set_fl (f : flags) s := Stratum f (ex s) (wk s) (sh s) (session s) (wd s).
Definition set_ex (e : extranonce) s := Stratum (fl s) e (wk s) (sh s) (session s) (wd s).
Definition set_wk (w : work) s := Stratum (fl s) (ex s) w (sh s) (session s) (wd s).
Definition set_sh (x : shares) s := Stratum (fl s) (ex s) (wk s) x (session s) (wd s).
Definition set_wd (w : world Q) s := Stratum (fl s) (ex s) (wk s) (sh s) (session s) w.
Definition set_job (j : pool_job) s :=
  set_wk (Work j (header (wk s)) (pending_target (wk s)) (range_start (wk s))) s.
Definition set_header (h : list Z) s :=
  set_wk (Work (job (wk s)) h (pending_target (wk s)) (range_start (wk s))) s.
Definition set_range (r : Z) s :=
  set_wk (Work (job (wk s)) (header (wk s)) (pending_target (wk s)) r) s.
Definition set_tel (t : telemetry Q) s := set_wd (World (w_tr (wd s)) (w_sent (wd s)) t) s.

Definition reg_read (a : Z) s : Z * stratum Q :=
  let '(v, t) := Xil_In32 dev (MINER + a) (w_tr (wd s)) in
  (v, set_wd (World t (w_sent (wd s)) (w_tel (wd s))) s).
Definition reg_write (a v : Z) s : stratum Q :=
  set_wd (World (Xil_Out32 (MINER + a) v (w_tr (wd s))) (w_sent (wd s)) (w_tel (wd s))) s.
Definition delay_ticks (n : Z) s : stratum Q :=
  set_wd (World (vTaskDelay n (w_tr (wd s))) (w_sent (wd s)) (w_tel (wd s))) s.
Definition tell (name : string) s : stratum Q := set_tel (telemetry_event (str name) (w_tel (wd s))) s.

Definition set_running (b : bool) s : stratum Q :=
  let f := fl s in
  set_fl (Flags (subscribed f) (authorized f) (have_job f) b (extra_exhausted f)) s.
Definition set_have_job (b : bool) s : stratum Q :=
  let f := fl s in
  set_fl (Flags (subscribed f) (authorized f) b (running f) (extra_exhausted f)) s.

Definition stop s : stratum Q :=
  let s := reg_write 0xa0 1 s in
  let s := reg_write 0 2 s in
  let s := delay_ticks 1 s in
  let s := reg_write 0 4 s in
  let s := reg_write 0x98 3 s in
  let s := set_running false s in
  set_tel (telemetry_mining false (w_tel (wd s))) s.

(** The loop of [send_line] on the characters still to send.  A positive
    return value moves on by at least one character, so the length of the
    text is fuel enough. *)
Fixpoint send_loop (fuel : nat) (rest : list Z) (w : world Q) : bool * world Q :=
  match rest with
  | [] => (false, w)
  | _ :: _ =>
      match fuel with
      | O => (true, w)
      | S fuel =>
          let k := FreeRTOS_send (w_sent w) rest in
          if bool_decide (k <= 0) then (true, w)
          else send_loop fuel (drop (Z.to_nat k) rest)
                 (World (w_tr w) (w_sent w ++ take (Z.to_nat k) rest) (w_tel w))
      end
  end.
(** [true] is a failure (-1). *)
Definition send_line (text : list Z) s : bool * stratum Q :=
  let '(failed, w) := send_loop (length text) text (wd s) in (failed, set_wd w s).

(** [json_hex(s,n,query,out,cap)]: the return value and the array. *)
Definition json_hex (b q out : list Z) (cap : nat) : Z * list Z :=
  match JSON_SearchConst b q with
  | JSONSuccess v t => if bool_decide (t ≠ JSONString) then (-1, out) else hex_decode v out cap
  | _ => (-1, out)
  end.

Definition start_range s : stratum Q :=
  let s := reg_write 0 4 s in
  let s := reg_write 0x80 (range_start (wk s)) s in
  let s := reg_write 0x84 RANGE s in
  let s := reg_write 0 1 s in
  let s := set_running true s in
  set_tel (telemetry_mining true (w_tel (wd s))) s.

(** [while(i){if(++extra2[--i])break;if(i==0)extra_exhausted=1;}]; the flag is
    true when the assignment was reached. *)
Fixpoint increment (i : nat) (e : list Z) : list Z * bool :=
  match i with
  | O => (e, false)
  | S i =>
      let v := u8 (e !!! i + 1) in
      let e := <[i := v]> e in
      if bool_decide (v ≠ 0) then (e, false)
      else if bool_decide (i = 0%nat) then (e, true)
      else increment i e
  end.

(** The register stores of a new header. *)
Definition program_work (mid tail target : list Z) s : stratum Q :=
  let s := for_loop 0 8 (λ i s, reg_write (0x60 + Z.of_nat i * 4) (target !!! i)
             (reg_write (0x20 + Z.of_nat i * 4) (mid !!! i) s)) s in
  for_loop 0 4 (λ i s, reg_write (0x40 + Z.of_nat i * 4) (tail !!! i) s) s.

Definition build_header s : Z * stratum Q :=
  if extra_exhausted (fl s) then (-1, s) else
  let e := ex s in
  let s := set_ex (Extra (extra1 e) (extra1_size e) (extra2 e) (extra2_size e)
             (hex_encode (take (extra2_size e) (extra2 e)) (extra2_hex e))) s in
  let j := job (wk s) in
  let '(rc, time) := hex_decode (take 8 (j_time j ++ replicate 9 0)) (replicate 4 0) 4 in
  if bool_decide (rc ≠ 4) then (-1, s) else
  let h := bitcoin_build_header (j_version j) (j_prev j) (j_bits j) time
             (take (j_n1 j) (j_coin1 j)) (take (extra1_size e) (extra1 e))
             (take (extra2_size e) (extra2 e)) (take (j_n2 j) (j_coin2 j))
             (take (j_nb j) (j_branches j)) (header (wk s)) in
  let s := set_header h s in
  let mid := bitcoin_header_midstate h in
  let tail := bitcoin_header_tail_words h in
  let s := program_work mid tail (j_target j) s in
  let '(e2, exhausted) := increment (extra2_size e) (extra2 e) in
  let s := set_ex (Extra (extra1 e) (extra1_size e) e2 (extra2_size e) (extra2_hex (ex s))) s in
  let f := fl s in
  let s := set_fl (Flags (subscribed f) (authorized f) (have_job f) (running f)
             (extra_exhausted f || exhausted)) s in
  (0, start_range (set_range 0 s)).

(** A step of a condition: [true] for a nonzero (failing) operand. *)
Definition step := stratum Q → bool * stratum Q.
Definition orelse (a b : step) : step := λ s, let '(r, s) := a s in if r then (true, s) else b s.
Infix "||!" := orelse (at level 60, right associativity).

Definition read_id (b : list Z) : step := λ s,
  match json_string b (str "params[0]") 128 with
  | None => (true, s)
  | Some id =>
      let j := job (wk s) in
      let s := set_job (PoolJob id (j_time j) (j_number j) (j_prev j) (j_version j) (j_bits j)
                 (j_coin1 j) (j_coin2 j) (j_branches j) (j_n1 j) (j_n2 j) (j_nb j) (j_target j)) s in
      (bool_decide (id = []), s)
  end.
Definition read_prev (b : list Z) : step := λ s,
  let j := job (wk s) in
  let '(rc, a) := json_hex b (str "params[1]") (j_prev j) 32 in
  (bool_decide (rc ≠ 32),
   set_job (PoolJob (j_id j) (j_time j) (j_number j) a (j_version j) (j_bits j) (j_coin1 j)
     (j_coin2 j) (j_branches j) (j_n1 j) (j_n2 j) (j_nb j) (j_target j)) s).
(** The local variables [n1] and [n2] reach [job] only after all checks. *)
Definition read_coin1 (b : list Z) (s : stratum Q) : Z * stratum Q :=
  let j := job (wk s) in
  let '(rc, a) := json_hex b (str "params[2]") (j_coin1 j) (Z.to_nat 4096) in
  (rc, set_job (PoolJob (j_id j) (j_time j) (j_number j) (j_prev j) (j_version j) (j_bits j) a
         (j_coin2 j) (j_branches j) (j_n1 j) (j_n2 j) (j_nb j) (j_target j)) s).
Definition read_coin2 (b : list Z) (s : stratum Q) : Z * stratum Q :=
  let j := job (wk s) in
  let '(rc, a) := json_hex b (str "params[3]") (j_coin2 j) (Z.to_nat 4096) in
  (rc, set_job (PoolJob (j_id j) (j_time j) (j_number j) (j_prev j) (j_version j) (j_bits j) (j_coin1 j)
         a (j_branches j) (j_n1 j) (j_n2 j) (j_nb j) (j_target j)) s).
Definition read_version (b : list Z) : step := λ s,
  let j := job (wk s) in
  let '(rc, a) := json_hex b (str "params[5]") (j_version j) 4 in
  (bool_decide (rc ≠ 4),
   set_job (PoolJob (j_id j) (j_time j) (j_number j) (j_prev j) a (j_bits j) (j_coin1 j)
     (j_coin2 j) (j_branches j) (j_n1 j) (j_n2 j) (j_nb j) (j_target j)) s).
Definition read_bits (b : list Z) : step := λ s,
  let j := job (wk s) in
  let '(rc, a) := json_hex b (str "params[6]") (j_bits j) 4 in
  (bool_decide (rc ≠ 4),
   set_job (PoolJob (j_id j) (j_time j) (j_number j) (j_prev j) (j_version j) a (j_coin1 j)
     (j_coin2 j) (j_branches j) (j_n1 j) (j_n2 j) (j_nb j) (j_target j)) s).
Definition read_time (b : list Z) : step := λ s,
  match json_string b (str "params[7]") 9 with
  | None => (true, s)
  | Some t =>
      let j := job (wk s) in
      (bool_decide (length t ≠ 8%nat),
       set_job (PoolJob (j_id j) t (j_number j) (j_prev j) (j_version j) (j_bits j) (j_coin1 j)
         (j_coin2 j) (j_branches j) (j_n1 j) (j_n2 j) (j_nb j) (j_target j)) s)
  end.
Definition has_type (b q : list Z) (ts : list JSONTypes_t) : step := λ s,
  (match JSON_SearchConst b q with
   | JSONSuccess _ t => bool_decide (t ∉ ts)
   | _ => true
   end, s).
Definition set_sizes (n1 n2 nb : nat) s : stratum Q :=
  let j := job (wk s) in
  set_job (PoolJob (j_id j) (j_time j) (j_number j) (j_prev j) (j_version j) (j_bits j) (j_coin1 j)
    (j_coin2 j) (j_branches j) n1 n2 nb (j_target j)) s.

(** The branch loop at [i] with [k] iterations left. *)
Fixpoint read_branches (b : list Z) (k i : nat) (s : stratum Q) : bool * stratum Q :=
  match k with
  | O => (false, s)
  | S k =>
      let query := str "params[4][" ++ fmt_u (Z.of_nat i) ++ str "]" in
      match JSON_SearchConst b query with
      | JSONNotFound => (false, s)
      | JSONError => (true, s)
      | JSONSuccess v t =>
          if bool_decide (t ≠ JSONString) || bool_decide (i = 32%nat) then (true, s)
          else
            let j := job (wk s) in
            let '(rc, a) := hex_decode v (default [] (j_branches j !! i)) 32 in
            let s := set_job (PoolJob (j_id j) (j_time j) (j_number j) (j_prev j) (j_version j)
                       (j_bits j) (j_coin1 j) (j_coin2 j) (<[i := a]> (j_branches j))
                       (j_n1 j) (j_n2 j) (j_nb j) (j_target j)) s in
            if bool_decide (rc ≠ 32) then (true, s)
            else read_branches b k (i + 1)
                   (set_sizes (j_n1 j) (j_n2 j) (j_nb j + 1) s)
      end
  end.

(** [mining.notify] up to the last [return -1]; [true] is a failure. *)
Definition read_job (b : list Z) : step := λ s,
  let '(r, s) := (read_id b ||! read_prev b) s in
  if r then (true, s) else
  let '(n1, s) := read_coin1 b s in
  if bool_decide (n1 < 0) then (true, s) else
  let '(n2, s) := read_coin2 b s in
  if bool_decide (n2 < 0) then (true, s) else
  let '(r, s) := (read_version b ||! read_bits b ||! read_time b ||!
                  has_type b (str "params[4]") [JSONArray] ||!
                  has_type b (str "params[8]") [JSONTrue; JSONFalse]) s in
  if r then (true, s) else
  let s := set_sizes (Z.to_nat n1) (Z.to_nat n2) 0 s in
  read_branches b 33 0 s.

Definition set_difficulty (b : list Z) s : Z * stratum Q :=
  match JSON_SearchConst b (str "params[0]") with
  | JSONSuccess v JSONNumber =>
      match bitcoin_target v with
      | None => (-1, s)
      | Some target =>
          (0, tell "difficulty_changed"
                (set_wk (Work (job (wk s)) (header (wk s)) target (range_start (wk s))) s))
      end
  | _ => (-1, s)
  end.

Definition set_extranonce (b : list Z) s : Z * stratum Q :=
  let e := ex s in
  let '(k, a) := json_hex b (str "params[0]") (extra1 e) 32 in
  let s := set_ex (Extra a (extra1_size e) (extra2 e) (extra2_size e) (extra2_hex e)) s in
  if bool_decide (k < 0) then (-1, s) else
  match json_u32 b (str "params[1]") with
  | None => (-1, s)
  | Some count =>
      if bool_decide (count = 0) || bool_decide (count > 16) then (-1, s)
      else
        let s := set_have_job false (stop s) in
        let s := set_ex (Extra a (Z.to_nat k) (replicate 16 0) (Z.to_nat count) (extra2_hex e)) s in
        let f := fl s in
        (0, set_fl (Flags (subscribed f) (authorized f) (have_job f) (running f) false) s)
  end.

Definition notify (b : list Z) s : Z * stratum Q :=
  if negb (subscribed (fl s)) then (-1, s) else
  let s := set_have_job false (stop s) in
  let '(failed, s) := read_job b s in
  if failed then (-1, s) else
  let j := job (wk s) in
  let s := set_have_job true s in
  let '(number, tel) := telemetry_job (j_id j) (w_tel (wd s)) in
  let s := set_tel tel s in
  let s := set_job (PoolJob (j_id j) (j_time j) number (j_prev j) (j_version j) (j_bits j) (j_coin1 j)
             (j_coin2 j) (j_branches j) (j_n1 j) (j_n2 j) (j_nb j) (pending_target (wk s))) s in
  if authorized (fl s) then build_header s else (0, s).

Definition notification (b : list Z) s : Z * stratum Q :=
  match json_string b (str "method") 64 with
  | None => (-1, s)
  | Some method =>
      if bool_decide (method = str "mining.set_difficulty") then set_difficulty b s
      else if bool_decide (method = str "mining.set_extranonce") then set_extranonce b s
      else if bool_decide (method ≠ str "mining.notify") then (0, s)
      else notify b s
  end.

Definition authorize_text (worker password : list Z) : list Z :=
  concat [jstr "{'id':2,'method':'mining.authorize','params':['"; worker; jstr "','"; password;
          jstr "']}"; [10]].

Definition reply_subscribe (b : list Z) s : Z * stratum Q :=
  if subscribed (fl s) then (-1, s) else
  let e := ex s in
  let '(k, a) := json_hex b (str "result[1]") (extra1 e) 32 in
  let s := set_ex (Extra a (extra1_size e) (extra2 e) (extra2_size e) (extra2_hex e)) s in
  if bool_decide (k < 0) then (-1, s) else
  match json_u32 b (str "result[2]") with
  | None => (-1, s)
  | Some count =>
      if bool_decide (count = 0) || bool_decide (count > 16) then (-1, s)
      else
        let s := set_ex (Extra a (Z.to_nat k) (extra2 e) (Z.to_nat count) (extra2_hex e)) s in
        let f := fl s in
        let s := set_fl (Flags true (authorized f) (have_job f) (running f) (extra_exhausted f)) s in
        let text := snd (snprintf 512 (authorize_text (cstr (worker (session s))) (cstr (password (session s))))) in
        let '(failed, s) := send_line text s in
        (if failed then -1 else 0, s)
  end.

Definition suggest_text : list Z :=
  jstr "{'id':3,'method':'mining.suggest_difficulty','params':[0.0001]}" ++ [10].

Definition reply_authorize (b : list Z) s : Z * stratum Q :=
  if negb (subscribed (fl s)) || authorized (fl s) then (-1, s) else
  if negb (json_true b (str "result")) then (-1, tell "authorization_failed" s) else
  let f := fl s in
  let s := set_fl (Flags (subscribed f) true (have_job f) (running f) (extra_exhausted f)) s in
  let s := tell "pool_authorized" s in
  let '(failed, s) := send_line suggest_text s in
  if failed then (-1, s) else
  if have_job (fl s) then build_header s else (0, s).

(** The search of the reply's slot from [i] on: the first pending share with
    this id is settled. *)
Fixpoint settle (b : list Z) (id : Z) (k i : nat) (s : stratum Q) : stratum Q :=
  match k with
  | O => s
  | S k =>
      match pending (sh s) !! i with
      | Some p =>
          if bool_decide (id >= 4) && bool_decide (p_id p = id) then
            let name := if json_true b (str "result") then "solution_accepted" else "solution_rejected" in
            let e := p_event p in
            let e := MinerEvent (str name) (ev_job_id e) (ev_submission e) (ev_hash e) (ev_job_number e) in
            let s := set_sh (Shares (next_id (sh s)) (<[i := Pending 0 (p_sent p) e]> (pending (sh s)))) s in
            set_tel (telemetry_detail e (w_tel (wd s))) s
          else settle b id k (i + 1) s
      | None => s
      end
  end.

Definition reply (b : list Z) s : Z * stratum Q :=
  match json_u32 b (str "id") with
  | None => (0, s)
  | Some id =>
      if bool_decide (id = 1) then reply_subscribe b s
      else if bool_decide (id = 2) then reply_authorize b s
      else (0, settle b id 8 0 s)
  end.

Definition handle_line (b : list Z) s : Z * stratum Q :=
  if negb (JSON_Validate b) then (-1, s) else
  match JSON_SearchConst b (str "method") with
  | JSONSuccess _ _ => notification b s
  | _ => reply b s
  end.

(** The target comparison of [service_results] from byte [i] on. *)
Fixpoint meets_target (k i : nat) (digest target : list Z) : bool :=
  match k with
  | O => true
  | S k =>
      let t := u8 (target !!! (i / 4)%nat >>. (24 - 8 * Z.of_nat (i mod 4))) in
      let d := digest !!! (31 - i)%nat in
      if bool_decide (d < t) then true
      else if bool_decide (d > t) then false
      else meets_target k (i + 1) digest target
  end.

(** The first free slot. *)
Definition free_slot (ps : list pending_share) : option nat :=
  fst <$> list_find (λ p, p_id p = 0) (take 8 ps).

Definition submit_text (id : Z) (worker job_id extra2 time : list Z) (nonce : Z) : list Z :=
  concat [jstr "{'id':"; fmt_u id; jstr ",'method':'mining.submit','params':['"; worker; jstr "','";
    job_id; jstr "','"; extra2; jstr "','"; time; jstr "','"; fmt_hex 8 (bitcoin_swap32 nonce);
    jstr "']}"; [10]].

(** [for(i<4)header[76+i]=(uint8_t)(nonce>>(24-i*8));] *)
Definition put_nonce (h : list Z) (nonce : Z) : list Z :=
  for_loop 0 4 (λ i h, <[(76 + i)%nat := u8 (nonce >>. (24 - Z.of_nat i * 8))]> h) h.

(** One result of the hardware FIFO; [true] is a [return -1]. *)
Definition submit_result (nonce : Z) s : bool * stratum Q :=
  let s := set_header (put_nonce (header (wk s)) nonce) s in
  let digest := sha256d (header (wk s)) in
  let j := job (wk s) in
  if negb (meets_target 32 0 digest (j_target j)) then (true, tell "hardware_solution_invalid" s) else
  match free_slot (pending (sh s)) with
  | None => (true, tell "share_queue_full" s)
  | Some slot =>
      if bool_decide (next_id (sh s) < 4) then (true, s) else
      let id := next_id (sh s) in
      let s := set_sh (Shares (id +32 1) (pending (sh s))) s in
      let '(length, request) := snprintf 640
        (submit_text id (cstr (worker (session s))) (j_id j) (cstr (extra2_hex (ex s))) (j_time j) nonce) in
      if bool_decide (length <= 0) || bool_decide (length >= 640) then (true, s) else
      let '(failed, s) := send_line request s in
      if failed then (true, s) else
      let hash := cstr (hex_encode (rev digest) (replicate 65 0)) in
      let e := MinerEvent (str "solution_submitted") (j_id j) request hash (j_number j) in
      let s := set_sh (Shares (next_id (sh s))
                 (<[slot := Pending id (xTaskGetTickCount (wd s)) e]> (pending (sh s)))) s in
      (false, set_tel (telemetry_detail e (w_tel (wd s))) s)
  end.

(** [for(k<16&&(reg_read(0x98)&1))] *)
Fixpoint drain (k : nat) s : bool * stratum Q :=
  match k with
  | O => (false, s)
  | S k =>
      let '(v, s) := reg_read 0x98 s in
      if bool_decide (v .& 1 = 0) then (false, s) else
      let '(nonce, s) := reg_read 0x90 s in
      let s := reg_write 0x98 1 s in
      let '(failed, s) := submit_result nonce s in
      if failed then (true, s) else drain k s
  end.

Definition next_range s : Z * stratum Q :=
  let '(v, s) := reg_read 4 s in
  if bool_decide (v .& 4 = 0) then (0, s) else
  let '(v, s) := reg_read 0x98 s in
  if bool_decide (v .& 1 ≠ 0) then (0, s) else
  let s := set_range (range_start (wk s) +32 RANGE) s in
  if bool_decide (range_start (wk s) = 0) then build_header (stop s) else (0, start_range s).

Definition service_results s : Z * stratum Q :=
  if negb (running (fl s)) then (0, s) else
  let '(v, s) := reg_read 4 s in
  if bool_decide (v .& 8 ≠ 0) then (-1, tell "result_fifo_overflow" s) else
  let '(failed, s) := drain 16 s in
  if failed then (-1, s) else next_range s.

(** ** The session loop of [stratum_task] *)

Definition no_event : miner_event := MinerEvent [] [] [] [] 0.

(** [session=settings], under the settings lock. *)
Definition take_settings (settings : miner_settings) s : stratum Q :=
  Stratum (fl s) (ex s) (wk s) (sh s) settings (wd s).

(** The assignments before the connection is made; nothing has been sent on
    it yet. *)
Definition session_begin s : stratum Q :=
  let e := ex s in
  let target := default (pending_target (wk s)) (bitcoin_target (str "1")) in
  Stratum (Flags false false false false false)
    (Extra (extra1 e) (extra1_size e) (replicate 16 0) (extra2_size e) (extra2_hex e))
    (Work (job (wk s)) (header (wk s)) target (range_start (wk s)))
    (Shares 4 (replicate 8 (Pending 0 0 no_event)))
    (session s) (World (w_tr (wd s)) [] (w_tel (wd s))).

Definition subscribe_text : list Z :=
  jstr "{'id':1,'method':'mining.subscribe','params':['SCU35/1']}" ++ [10].

Definition session_end s : stratum Q :=
  delay_ticks (pdMS_TO_TICKS 3000) (tell "pool_disconnected" (set_have_job false (stop s))).

(** The loop over a received chunk: [line] is the part of a line received so
    far ([used] characters), [last] the tick of the last full line. *)
Fixpoint feed (chunk : list Z) (line : list Z) (last : Z) s : bool * list Z * Z * stratum Q :=
  match chunk with
  | [] => (false, line, last, s)
  | c :: chunk =>
      if bool_decide (c = 10) then
        if bool_decide (length line ≠ 0%nat) then
          let '(rc, s) := handle_line line s in
          if bool_decide (rc ≠ 0) then (true, line, last, s)
          else feed chunk [] (xTaskGetTickCount (wd s)) s
        else feed chunk [] (xTaskGetTickCount (wd s)) s
      else if bool_decide (length line < LINE_MAX)%nat then feed chunk (line ++ [c]) last s
      else (true, line, last, s)
  end.

(** The loop that reports shares without a reply for 30 seconds. *)
Definition timeout_slot (now : Z) (i : nat) '(bad, s) : bool * stratum Q :=
  match pending (sh s) !! i with
  | Some p =>
      if bool_decide (p_id p ≠ 0) && bool_decide (now -32 p_sent p > pdMS_TO_TICKS 30000) then
        let e := p_event p in
        let e := MinerEvent (str "share_reply_timeout") (ev_job_id e) (ev_submission e) (ev_hash e)
                   (ev_job_number e) in
        let s := set_sh (Shares (next_id (sh s)) (<[i := Pending (p_id p) (p_sent p) e]> (pending (sh s)))) s in
        (true, set_tel (telemetry_detail e (w_tel (wd s))) s)
      else (bad, s)
  | None => (bad, s)
  end.

(** The result of [FreeRTOS_recv]: bytes, a timeout, or another error. *)
Inductive received := Bytes (chunk : list Z) | WouldBlock | ReceiveError.

(** The inner [while] after the receive: [true] when it breaks. *)
Definition process (chunk : list Z) (started : Z) (line : list Z) (last : Z) s
    : bool * list Z * Z * stratum Q :=
  let '(bad, line, last, s) := feed chunk line last s in
  let now := xTaskGetTickCount (wd s) in
  if bad || (negb (authorized (fl s)) && bool_decide (now -32 started > pdMS_TO_TICKS 15000)) ||
     bool_decide (now -32 last > pdMS_TO_TICKS 120000)
  then (true, line, last, s) else
  let '(rc, s) := service_results s in
  if bool_decide (rc ≠ 0) then (true, line, last, s) else
  let '(bad, s) := for_loop 0 8 (timeout_slot now) (false, s) in
  (bad, line, last, s).

(** One iteration. *)
Definition iteration (r : received) (started : Z) (line : list Z) (last : Z) s
    : bool * list Z * Z * stratum Q :=
  match r with
  | ReceiveError => (true, line, last, s)
  | WouldBlock => process [] started line last s
  | Bytes chunk => process chunk started line last s
  end.
End stratum.
