(* ===== verification/StratumInv.v ===== *)
(** * Invariants of the Stratum session

    The array invariant, the session flags, and the link between the pool
    job, the header and the mining registers, with the effect of every
    operation of Stratum on them. *)
From S2P Require Import Prelude Fips180 Sha256 Bitcoin Target Settings Bus Json Ina700 Protocol Telemetry Stratum.
Local Open Scope cword_scope.

(** ** Mining registers *)

(** The last value stored in register [a]. *)
Fixpoint reg_last (a : Z) (t : trace) : option Z :=
  match t with
  | [] => None
  | Out32 b v :: t => if bool_decide (b = MINER + a) then Some v else reg_last a t
  | _ :: t => reg_last a t
  end.

(** The registers that describe a job: midstate, tail and target. *)
Definition work_reg (a : Z) : Prop := 0x20 <= a < 0x80.
Definition keeps_work (t t' : trace) : Prop := ∀ a, work_reg a → reg_last a t' = reg_last a t.

#[global] Instance keeps_work_preorder : PreOrder keeps_work.
Proof.
  split; [by intros t a|]. intros t1 t2 t3 H1 H2 a Ha. by rewrite H2, H1.
Qed.

Lemma keeps_out b v t : ¬ work_reg b → keeps_work t (Xil_Out32 (MINER + b) v t).
Proof.
  intros Hb a Ha. unfold Xil_Out32. cbn [reg_last]. rewrite bool_decide_false; [done|].
  intros E. apply Hb. by replace b with a by lia.
Qed.

Lemma keeps_in a v t : keeps_work t (In32 a v :: t).
Proof. done. Qed.

Lemma keeps_delay n t : keeps_work t (Delay n :: t).
Proof. done. Qed.

(** The registers hold the work of a header and target. *)
Definition programmed (t : trace) (header target : list Z) : Prop :=
  (∀ i, (i < 8)%nat → reg_last (0x20 + Z.of_nat i * 4) t = Some (u32 (bitcoin_header_midstate header !!! i)) ∧
                      reg_last (0x60 + Z.of_nat i * 4) t = Some (u32 (target !!! i))) ∧
  (∀ i, (i < 4)%nat → reg_last (0x40 + Z.of_nat i * 4) t = Some (u32 (bitcoin_header_tail_words header !!! i))).

Lemma programmed_keeps t t' h target : keeps_work t t' → programmed t h target → programmed t' h target.
Proof.
  intros Hk [H1 H2]. split; intros i Hi; rewrite !Hk by (unfold work_reg; lia); auto.
Qed.

(** ** Invariants *)

Record job_ok (j : pool_job) : Prop := {
  ok_prev : bytes_n 32 (j_prev j);
  ok_version : bytes_n 4 (j_version j);
  ok_bits : bytes_n 4 (j_bits j);
  ok_coin1 : bytes_n (Z.to_nat 4096) (j_coin1 j);
  ok_coin2 : bytes_n (Z.to_nat 4096) (j_coin2 j);
  ok_branches : length (j_branches j) = 32%nat ∧ Forall (bytes_n 32) (j_branches j);
  ok_sizes : (j_n1 j <= Z.to_nat 4096)%nat ∧ (j_n2 j <= Z.to_nat 4096)%nat ∧ (j_nb j <= 32)%nat;
  ok_target : is_target (j_target j);
}.

Record extra_ok (e : extranonce) : Prop := {
  ok_extra1 : bytes_n 32 (extra1 e);
  ok_extra2 : bytes_n 16 (extra2 e);
  ok_extra_sizes : (extra1_size e <= 32)%nat ∧ (extra2_size e <= 16)%nat;
  ok_extra2_hex : length (extra2_hex e) = 33%nat;
}.

(** Share ids are zero (free) or were handed out by [next_id], without
    repetition.  After 2^32 - 4 shares [next_id] has wrapped below 4 and no
    more are handed out. *)
Record shares_inv (x : shares) : Prop := {
  ok_pending : length (pending x) = 8%nat;
  ok_next : is_u32 (next_id x);
  ok_ids : Forall (λ p, p_id p = 0 ∨ 4 <= p_id p < 2 ^ 32 ∧ (p_id p < next_id x ∨ next_id x < 4)) (pending x);
  ok_distinct : ∀ i j p q, pending x !! i = Some p → pending x !! j = Some q →
    p_id p = p_id q → p_id p ≠ 0 → i = j;
}.

Record work_arrays (w : work) : Prop := {
  ok_job : job_ok (job w);
  ok_header : bytes_n 80 (header w);
  ok_pending_target : is_target (pending_target w);
}.

Section inv.
Context {Q : Type}.
Implicit Types s : stratum Q.

Record arrays_ok s : Prop := {
  arr_ex : extra_ok (ex s); arr_wk : work_arrays (wk s); arr_sh : shares_inv (sh s)
}.

Record flags_ok s : Prop := {
  auth_sub : authorized (fl s) = true → subscribed (fl s) = true;
  run_job : running (fl s) = true → have_job (fl s) = true ∧ authorized (fl s) = true;
  job_time : have_job (fl s) = true → length (j_time (job (wk s))) = 8%nat;
}.

(** The header the pool and the miner agree on for the extranonce [e2]. *)
Definition job_header (j : pool_job) (x1 e2 time : list Z) : list Z :=
  BlockSpec.header (j_version j) (j_prev j)
    (BlockSpec.root (BlockSpec.hash256 (take (j_n1 j) (j_coin1 j) ++ x1 ++ e2 ++ take (j_n2 j) (j_coin2 j)))
       (take (j_nb j) (j_branches j))) time (j_bits j).

(** While the miner runs, the header in memory, the mining registers and the
    strings that will be submitted all describe the same work. *)
Definition work_ok s (e2 time : list Z) : Prop :=
  let j := job (wk s) in
  let h := job_header j (take (extra1_size (ex s)) (extra1 (ex s))) e2 time in
  bytes_n (extra2_size (ex s)) e2 ∧ cstr (extra2_hex (ex s)) = to_hex e2 ∧
  hex_pairs (j_time j) = Some time ∧ length time = 4%nat ∧
  take 76 (header (wk s)) = take 76 h ∧ programmed (w_tr (wd s)) h (j_target j).

Record session_inv s : Prop := {
  inv_arrays : arrays_ok s;
  inv_flags : flags_ok s;
  inv_work : running (fl s) = true → ∃ e2 time, work_ok s e2 time;
}.
End inv.

(** ** Operations that only touch the world *)
Section world.
Context {Q : Type} `{Queue Q}.
Implicit Types s : stratum Q.

(** Same variables, registers kept. *)
Definition world_step s s' : Prop :=
  fl s' = fl s ∧ ex s' = ex s ∧ wk s' = wk s ∧ sh s' = sh s ∧ session s' = session s ∧
  keeps_work (w_tr (wd s)) (w_tr (wd s')).

#[global] Instance world_step_preorder : PreOrder world_step.
Proof.
  split; [done|]. intros s1 s2 s3 (?&?&?&?&?&?) (?&?&?&?&?&?). split_and!; try congruence.
  by etransitivity.
Qed.

Lemma tell_step name s : world_step s (tell name s) ∧ w_sent (wd (tell name s)) = w_sent (wd s).
Proof. done. Qed.

Lemma reg_read_step dev a s : world_step s (snd (reg_read dev a s)) ∧
  w_sent (wd (snd (reg_read dev a s))) = w_sent (wd s).
Proof. done. Qed.

Lemma reg_write_step a v s : ¬ work_reg a → world_step s (reg_write a v s) ∧
  w_sent (wd (reg_write a v s)) = w_sent (wd s).
Proof. intros Ha. split; [|done]. split_and!; try done. by apply keeps_out. Qed.

(** What was sent: a prefix of the text, all of it on success. *)
Lemma send_loop_spec send fuel rest (w : world Q) :
  (length rest <= fuel)%nat →
  let '(failed, w') := send_loop send fuel rest w in
  w_tr w' = w_tr w ∧ ∃ p, w_sent w' = w_sent w ++ p ∧ p `prefix_of` rest ∧ (failed = false → p = rest).
Proof.
  revert rest w. induction fuel as [|fuel IH]; intros rest w Hl.
  { destruct rest; [|simpl in Hl; lia]. simpl. split; [done|]. exists []. by rewrite app_nil_r. }
  destruct rest as [|c rest]; [simpl; split; [done|]; exists []; by rewrite app_nil_r|].
  cbn [send_loop]. case_bool_decide as Hk.
  { split; [done|]. exists []. rewrite app_nil_r. split; [done|]. split; [apply prefix_nil|done]. }
  set (k := Z.to_nat _). assert (0 < k)%nat by lia.
  match goal with |- context [send_loop send fuel ?r ?w1] =>
    specialize (IH r w1); destruct (send_loop send fuel r w1) as [failed w'] end.
  destruct IH as (Ht & p & Hs & Hp & Hf); [rewrite length_drop; simpl in *; lia|].
  split; [done|]. exists (take k (c :: rest) ++ p). cbn [w_sent] in Hs. rewrite Hs, <-app_assoc.
  split; [done|]. split.
  - rewrite <-(take_drop k (c :: rest)) at 2. by apply prefix_app.
  - intros Hff. by rewrite (Hf Hff), take_drop.
Qed.

Lemma send_line_spec send text s :
  let '(failed, s') := send_line send text s in
  world_step s s' ∧ w_tr (wd s') = w_tr (wd s) ∧
  ∃ p, w_sent (wd s') = w_sent (wd s) ++ p ∧ p `prefix_of` text ∧ (failed = false → p = text).
Proof.
  unfold send_line. pose proof (send_loop_spec send (length text) text (wd s) ltac:(lia)) as Hl.
  destruct (send_loop send (length text) text (wd s)) as [failed w]. destruct Hl as [Ht Hp].
  split; [|done]. split_and!; try done. cbn [wd set_wd]. by rewrite Ht.
Qed.
End world.

(** ** Starting and stopping *)

(** Like [world_step], with the flags given. *)
Definition moved {Q} (f : flags) (s s' : stratum Q) : Prop :=
  fl s' = f ∧ ex s' = ex s ∧ wk s' = wk s ∧ sh s' = sh s ∧ session s' = session s ∧
  w_sent (wd s') = w_sent (wd s) ∧ keeps_work (w_tr (wd s)) (w_tr (wd s')).

Definition with_running (b : bool) (f : flags) : flags :=
  Flags (subscribed f) (authorized f) (have_job f) b (extra_exhausted f).

Ltac not_work_reg := unfold work_reg; lia.

(** Projections of updated states. *)
Tactic Notation "proj" := cbn [fl ex wk sh session wd set_fl set_ex set_wk set_sh set_wd set_job
  set_header set_range set_tel set_running set_have_job set_sizes with_running tell
  job header pending_target range_start extra1 extra1_size extra2 extra2_size extra2_hex
  subscribed authorized have_job running extra_exhausted next_id pending w_tr w_sent w_tel
  j_id j_time j_number j_prev j_version j_bits j_coin1 j_coin2 j_branches j_n1 j_n2 j_nb j_target
  p_id p_sent p_event fst snd].
Tactic Notation "proj" "in" "*" := cbn [fl ex wk sh session wd set_fl set_ex set_wk set_sh set_wd set_job
  set_header set_range set_tel set_running set_have_job set_sizes with_running tell
  job header pending_target range_start extra1 extra1_size extra2 extra2_size extra2_hex
  subscribed authorized have_job running extra_exhausted next_id pending w_tr w_sent w_tel
  j_id j_time j_number j_prev j_version j_bits j_coin1 j_coin2 j_branches j_n1 j_n2 j_nb j_target
  p_id p_sent p_event fst snd] in *.

Section control.
Context {Q : Type} `{Queue Q}.
Implicit Types s : stratum Q.

Lemma stop_spec s : moved (with_running false (fl s)) s (stop s).
Proof.
  split_and!; try done. unfold stop. cbn.
  do 2 (etransitivity; [|apply keeps_out; not_work_reg]).
  etransitivity; [|apply keeps_delay].
  do 2 (etransitivity; [|apply keeps_out; not_work_reg]). reflexivity.
Qed.

Lemma start_range_spec s : moved (with_running true (fl s)) s (start_range s).
Proof.
  split_and!; try done. unfold start_range. cbn.
  do 4 (etransitivity; [|apply keeps_out; not_work_reg]). reflexivity.
Qed.

(** The twenty register stores of a new header. *)
Definition program_trace (mid tail target : list Z) (t : trace) : trace :=
  let t := foldl (λ t i, Xil_Out32 (MINER + (0x60 + Z.of_nat i * 4)) (target !!! i)
             (Xil_Out32 (MINER + (0x20 + Z.of_nat i * 4)) (mid !!! i) t)) t (seq 0 8) in
  foldl (λ t i, Xil_Out32 (MINER + (0x40 + Z.of_nat i * 4)) (tail !!! i) t) t (seq 0 4).

Lemma program_work_eq mid tail target s :
  program_work mid tail target s =
  set_wd (World (program_trace mid tail target (w_tr (wd s))) (w_sent (wd s)) (w_tel (wd s))) s.
Proof. by destruct s as [????? []]. Qed.

#[local] Opaque bitcoin_header_midstate bitcoin_header_tail_words.
Lemma program_trace_programmed h target t :
  programmed (program_trace (bitcoin_header_midstate h) (bitcoin_header_tail_words h) target t) h target.
Proof.
  split; intros i Hi.
  - do 8 (destruct i as [|i]; [split; reflexivity|]). lia.
  - do 4 (destruct i as [|i]; [reflexivity|]). lia.
Qed.
End control.

(** ** The extranonce counter *)

(** Incrementing the big-endian counter in the first [n] bytes. *)
Lemma be_value_take_S (e : list Z) n :
  (n < length e)%nat → Fips.be_value (take (S n) e) 0 = Fips.be_value (take n e) 0 * 256 + e !!! n.
Proof.
  intros Hn. rewrite (take_S_r e n (e !!! n)) by (by apply lookup_total_alt_lt). apply be_value_snoc.
Qed.

Lemma increment_spec n e :
  (n <= length e)%nat → is_bytes e →
  let '(e', exhausted) := increment n e in
  length e' = length e ∧ is_bytes e' ∧ drop n e' = drop n e ∧
  (exhausted = true → Fips.be_value (take n e) 0 = 256 ^ Z.of_nat n - 1 ∧ (0 < n)%nat) ∧
  (exhausted = false → (0 < n)%nat → Fips.be_value (take n e') 0 = Fips.be_value (take n e) 0 + 1).
Proof.
  revert e. induction n as [|n IH]; intros e Hn Hb; cbn [increment].
  { split_and!; (done || lia). }
  pose proof (is_bytes_lookup e n Hb) as Hv. unfold in_bits in Hv.
  assert (is_bytes (<[n := u8 (e !!! n + 1)]> e)) as Hb'
    by (apply Forall_insert; [done|apply u8_range]).
  assert (drop (S n) (<[n := u8 (e !!! n + 1)]> e) = drop (S n) e) as Hd by (apply drop_insert_lt; lia).
  rewrite (be_value_take_S e n) by lia. case_bool_decide as Hnz.
  { split_and!; [by rewrite length_insert|done|done|done|]. intros _ _.
    rewrite be_value_take_S, list_lookup_total_insert_eq, take_insert_ge by (rewrite ?length_insert; lia).
    unfold u8 in *. dlia. }
  assert (e !!! n = 255) as H255 by (unfold u8 in Hnz; dlia).
  case_bool_decide as H0.
  { subst n. split_and!; [by rewrite length_insert|done|done|intros _|done]. rewrite H255.
    simpl. split; lia. }
  specialize (IH (<[n := u8 (e !!! n + 1)]> e) ltac:(rewrite length_insert; lia) Hb').
  destruct (increment n (<[n := u8 (e !!! n + 1)]> e)) as [e' ex'].
  destruct IH as (Hl & Hbe & Hdr & Hex & Hinc).
  rewrite length_insert in Hl. rewrite take_insert_ge in Hex, Hinc by lia.
  split_and!; [done|done| | |].
  - rewrite <-Hd. apply (f_equal (drop 1)) in Hdr. rewrite !drop_drop in Hdr.
    by rewrite Nat.add_1_r in Hdr.
  - intros E. destruct (Hex E) as [Hv1 _]. split; [|lia].
    rewrite Hv1, H255, Nat2Z.inj_succ, Z.pow_succ_r by lia. lia.
  - intros E _. specialize (Hinc E ltac:(lia)). rewrite be_value_take_S by lia.
    assert (e' !!! n = 0) as ->.
    { apply list_lookup_total_correct. rewrite <-(Nat.add_0_r n), <-lookup_drop, Hdr, lookup_drop, Nat.add_0_r.
      rewrite list_lookup_insert_eq by lia. by rewrite H255. }
    lia.
Qed.

(** ** Building a header *)

Lemma memcpy_all (out src : list Z) : length out = length src → memcpy out 0 src = src.
Proof.
  intros Hl. rewrite memcpy_eq by lia. cbn [take]. rewrite app_nil_l, drop_ge by lia. apply app_nil_r.
Qed.

Lemma decode_time text :
  length text = 8%nat →
  match hex_pairs text with
  | Some time => hex_decode (take 8 (text ++ replicate 9 0)) (replicate 4 0) 4 = (4, time) ∧ bytes_n 4 time
  | None => fst (hex_decode (take 8 (text ++ replicate 9 0)) (replicate 4 0) 4) = -1
  end.
Proof.
  intros Hl. rewrite take_app_length' by done.
  pose proof (hex_decode_spec text (replicate 4 0) 4 ltac:(simpl; lia)) as Hs.
  destruct (hex_pairs text) as [time|] eqn:Hp; [|apply Hs].
  pose proof (hex_pairs_length _ _ Hp). pose proof (hex_pairs_bytes _ _ Hp).
  assert (length time = 4%nat) as H4 by lia. rewrite bool_decide_true in Hs by lia.
  rewrite Hs, memcpy_all by (simpl; lia). rewrite H4. split; [done|by split].
Qed.

Lemma extra2_text e2 out :
  is_bytes e2 → (2 * length e2 + 1 <= length out)%nat →
  cstr (hex_encode e2 out) = to_hex e2 ∧ length (hex_encode e2 out) = length out.
Proof.
  intros Hb Hl. rewrite hex_encode_to_hex. split; [|apply length_memcpy].
  rewrite memcpy_eq by (rewrite length_app, length_to_hex; simpl; lia). cbn [take].
  rewrite app_nil_l, <-app_assoc. by apply cstr_app, to_hex_nonzero.
Qed.

Lemma swap_words_ok l n : length l = (4 * n)%nat → is_bytes l → bytes_n (4 * n) (BlockSpec.swap_words l).
Proof.
  revert l. induction n as [|n IH]; intros l Hl Hb.
  { destruct l; [|simpl in Hl; lia]. done. }
  destruct l as [|a [|b [|c [|d l]]]]; try (simpl in Hl; lia).
  repeat (apply Forall_cons in Hb as [? Hb]). destruct (IH l) as [IH1 IH2]; [simpl in Hl; lia|done|].
  split; [simpl; lia|]. cbn [BlockSpec.swap_words]. do 4 (constructor; [done|]). done.
Qed.

Section header.
Context {Q : Type} `{Queue Q}.
Implicit Types s : stratum Q.

Lemma job_coinbase_ok j e e2 :
  job_ok j → extra_ok e → bytes_n (extra2_size e) e2 →
  coinbase_ok (take (j_n1 j) (j_coin1 j)) (take (extra1_size e) (extra1 e)) e2 (take (j_n2 j) (j_coin2 j)).
Proof.
  intros [_ _ _ [_ B1] [_ B2] _ [N1 [N2 _]] _] [[L1 B3] _ [S1 S2] _] [L2 B4].
  split; [cword|]. rewrite !length_app, !length_take. lia.
Qed.

Lemma job_branches_ok j :
  job_ok j → Forall (λ b, length b = 32%nat ∧ is_bytes b) (take (j_nb j) (j_branches j)).
Proof. intros Hj. apply Forall_take. apply (ok_branches _ Hj). Qed.

Lemma job_header_ok j e e2 time :
  job_ok j → extra_ok e → bytes_n (extra2_size e) e2 → bytes_n 4 time →
  bytes_n 80 (job_header j (take (extra1_size e) (extra1 e)) e2 time).
Proof.
  intros Hj He He2 [Lt Bt]. pose proof (job_coinbase_ok j e e2 Hj He He2) as [Hcb _].
  destruct (ok_prev _ Hj) as [Lp Bp], (ok_version _ Hj) as [Lv Bv], (ok_bits _ Hj) as [Lb Bb].
  destruct (root_ok (BlockSpec.hash256 (take (j_n1 j) (j_coin1 j) ++ take (extra1_size e) (extra1 e) ++ e2
    ++ take (j_n2 j) (j_coin2 j))) (take (j_nb j) (j_branches j))) as [Br Lr];
    [apply hash256_ok|by apply hash256_ok|by apply job_branches_ok|].
  destruct (swap_words_ok (j_prev j) 8 Lp Bp) as [Ls Bs].
  unfold job_header, BlockSpec.header. split.
  - rewrite !length_app, !length_rev, Lr, Lv, Lt, Lb, Ls. done.
  - repeat apply Forall_app_2; try done; try (by apply Forall_rev). by repeat constructor.
Qed.

(** [build_header] either fails before touching the registers, or leaves the
    miner running on the header of the current job and extranonce. *)
Lemma build_header_inv s :
  arrays_ok s → length (j_time (job (wk s))) = 8%nat →
  let '(rc, s') := build_header s in
  arrays_ok s' ∧ job (wk s') = job (wk s) ∧ pending_target (wk s') = pending_target (wk s) ∧
  sh s' = sh s ∧ session s' = session s ∧ w_sent (wd s') = w_sent (wd s) ∧
  extra1 (ex s') = extra1 (ex s) ∧ extra1_size (ex s') = extra1_size (ex s) ∧
  extra2_size (ex s') = extra2_size (ex s) ∧
  (rc = -1 ∧ fl s' = fl s ∨
   rc = 0 ∧ extra_exhausted (fl s) = false ∧
     (∃ x, fl s' = Flags (subscribed (fl s)) (authorized (fl s)) (have_job (fl s)) true x ∧
        increment (extra2_size (ex s)) (extra2 (ex s)) = (extra2 (ex s'), x)) ∧
     ∃ time, work_ok s' (take (extra2_size (ex s)) (extra2 (ex s))) time).
Proof.
  intros [He Hw Hx] Ht. unfold build_header.
  destruct (extra_exhausted (fl s)) eqn:Hexh; [split; [done|]; split_and!; auto|].
  destruct Hw as [Hj [Lh Bh] Hpt]. pose proof He as [[L1 B1] [L2 B2] [S1 S2] L3].
  pose proof (decode_time _ Ht) as Hdt. cbn [wk set_ex job].
  assert (bytes_n (extra2_size (ex s)) (take (extra2_size (ex s)) (extra2 (ex s)))) as He2
    by (split; [rewrite length_take; lia|cword]).
  destruct (extra2_text (take (extra2_size (ex s)) (extra2 (ex s))) (extra2_hex (ex s))) as [Hc Hlh];
    [apply He2|rewrite (proj1 He2), L3; lia|].
  destruct (hex_pairs (j_time (job (wk s)))) as [time|] eqn:Hp.
  2: { destruct (hex_decode _ _ _) as [rc time]. cbn [fst] in Hdt. subst rc.
       rewrite bool_decide_true by done. split; [|split_and!; auto].
       split; [|done..]. split; try done. cbn. lia. }
  destruct Hdt as [Hdt Htime]. rewrite Hdt. rewrite bool_decide_false by lia.
  set (e2 := take (extra2_size (ex s)) (extra2 (ex s))) in *.
  rewrite build_header_spec; [|apply Hj..|apply Htime|done|by apply job_coinbase_ok|by apply job_branches_ok].
  fold (job_header (job (wk s)) (take (extra1_size (ex s)) (extra1 (ex s))) e2 time).
  set (h := job_header _ _ _ _).
  assert (bytes_n 80 h) as Hh by (by apply job_header_ok).
  rewrite program_work_eq.
  pose proof (increment_spec (extra2_size (ex s)) (extra2 (ex s)) ltac:(lia) B2) as Hinc.
  destruct (increment (extra2_size (ex s)) (extra2 (ex s))) as [e' x] eqn:Ei.
  destruct Hinc as (Le' & Be' & _).
  match goal with |- context [start_range ?s0] =>
    pose proof (start_range_spec s0) as (Mf & Me & Mw & Ms & Mss & Msent & Mk);
    set (s' := start_range s0) in * end.
  clearbody s'. proj in *.
  assert (programmed (w_tr (wd s')) h (j_target (job (wk s)))) as Hprog
    by (eapply programmed_keeps; [exact Mk|apply program_trace_programmed]).
  unfold work_ok. rewrite Mf, Me, Mw, Ms, Mss, Msent. proj. split_and!; try done.
  - split; rewrite ?Me, ?Mw, ?Ms; [|by split|done]. split; proj; [done| |done|lia].
    split; [lia|done].
  - right. split_and!; try done; [exists x; by rewrite Hexh|].
    exists time. split_and!; try done. apply Htime.
Qed.
End header.

(** ** Reading a job *)

Lemma hex_decode_loop_bytes v i out :
  is_bytes out →
  length (snd (hex_decode_loop v i out)) = length out ∧ is_bytes (snd (hex_decode_loop v i out)).
Proof.
  revert i out. induction v as [|c v IH]; intros i out Hb; cbn [hex_decode_loop]; [done|].
  case_bool_decide; [done|].
  match goal with |- context [hex_decode_loop v _ ?o] =>
    assert (length o = length out ∧ is_bytes o) as [Lo Bo]; [|destruct (IH (i + 1)%nat o Bo) as [-> ?]; done] end.
  destruct (Nat.even i); rewrite length_insert; (split; [done|]); (apply Forall_insert; [done|]).
  - apply u8_range.
  - apply in_bits_lor; [lia|by apply is_bytes_lookup|apply u8_range].
Qed.

Lemma hex_decode_ok v out cap n :
  bytes_n n out →
  bytes_n n (snd (hex_decode v out cap)) ∧
  (fst (hex_decode v out cap) = -1 ∨ 0 <= fst (hex_decode v out cap) <= Z.of_nat cap).
Proof.
  intros [Hl Hb]. unfold hex_decode. destruct (Nat.odd (length v)); cbn [orb]; [split; [done|by left]|].
  case_bool_decide as Hc; [split; [done|by left]|].
  pose proof (hex_decode_loop_bytes v 0 out Hb) as [L B].
  destruct (hex_decode_loop v 0 out) as [ok o]. cbn [snd] in L, B.
  destruct ok; cbn [fst snd]; (split; [split; [congruence|done]|]); [right; lia|by left].
Qed.

Lemma json_hex_ok `{JsonLibrary} b q out cap n :
  bytes_n n out →
  bytes_n n (snd (json_hex b q out cap)) ∧
  (fst (json_hex b q out cap) = -1 ∨ 0 <= fst (json_hex b q out cap) <= Z.of_nat cap).
Proof.
  intros Hb. unfold json_hex. destruct (JSON_SearchConst b q) as [v t| |]; [|split; [done|by left]..].
  case_bool_decide; [split; [done|by left]|]. by apply hex_decode_ok.
Qed.

Section reading.
Context {Q : Type} `{JsonLibrary}.
Implicit Types s : stratum Q.

(** Only the job changed, and its arrays stay well formed. *)
Definition job_only s s' : Prop :=
  fl s' = fl s ∧ ex s' = ex s ∧ sh s' = sh s ∧ session s' = session s ∧ wd s' = wd s ∧
  header (wk s') = header (wk s) ∧ pending_target (wk s') = pending_target (wk s) ∧
  (job_ok (job (wk s)) → job_ok (job (wk s'))).

#[global] Instance job_only_preorder : PreOrder job_only.
Proof.
  split; [done|]. intros s1 s2 s3 (?&?&?&?&?&?&?&?) (?&?&?&?&?&?&?&?).
  split_and!; try congruence. tauto.
Qed.

Ltac one_field :=
  split_and!; try done; proj; intros []; split; proj; try done.

Lemma read_id_spec b s : job_only s (snd (read_id b s)).
Proof. unfold read_id. destruct (json_string _ _ _); [|done]. one_field. Qed.

Lemma read_prev_spec b s : job_only s (snd (read_prev b s)).
Proof.
  unfold read_prev. pose proof (json_hex_ok b (str "params[1]") (j_prev (job (wk s))) 32 32) as Hh.
  destruct (json_hex _ _ _ _) as [rc a]. one_field. by apply Hh.
Qed.

Lemma read_version_spec b s : job_only s (snd (read_version b s)).
Proof.
  unfold read_version. pose proof (json_hex_ok b (str "params[5]") (j_version (job (wk s))) 4 4) as Hh.
  destruct (json_hex _ _ _ _) as [rc a]. one_field. by apply Hh.
Qed.

Lemma read_bits_spec b s : job_only s (snd (read_bits b s)).
Proof.
  unfold read_bits. pose proof (json_hex_ok b (str "params[6]") (j_bits (job (wk s))) 4 4) as Hh.
  destruct (json_hex _ _ _ _) as [rc a]. one_field. by apply Hh.
Qed.

Lemma read_coin1_spec b s :
  job_only s (snd (read_coin1 b s)) ∧ (job_ok (job (wk s)) → fst (read_coin1 b s) <= 4096).
Proof.
  unfold read_coin1.
  pose proof (json_hex_ok b (str "params[2]") (j_coin1 (job (wk s))) (Z.to_nat 4096) (Z.to_nat 4096)) as Hh.
  destruct (json_hex _ _ _ _) as [rc a]. split; [one_field; by apply Hh|].
  intros Hj. proj. destruct (Hh (ok_coin1 _ Hj)) as [_ Hr]. cbn [fst] in Hr. lia.
Qed.

Lemma read_coin2_spec b s :
  job_only s (snd (read_coin2 b s)) ∧ (job_ok (job (wk s)) → fst (read_coin2 b s) <= 4096).
Proof.
  unfold read_coin2.
  pose proof (json_hex_ok b (str "params[3]") (j_coin2 (job (wk s))) (Z.to_nat 4096) (Z.to_nat 4096)) as Hh.
  destruct (json_hex _ _ _ _) as [rc a]. split; [one_field; by apply Hh|].
  intros Hj. proj. destruct (Hh (ok_coin2 _ Hj)) as [_ Hr]. cbn [fst] in Hr. lia.
Qed.

Lemma read_time_spec b s :
  job_only s (snd (read_time b s)) ∧
  (fst (read_time b s) = false → length (j_time (job (wk (snd (read_time b s))))) = 8%nat).
Proof.
  unfold read_time. destruct (json_string _ _ _) as [t|]; [|done]. split; [one_field|].
  proj. intros Ht%bool_decide_eq_false. lia.
Qed.

Lemma has_type_spec b q ts s : snd (has_type (Q := Q) b q ts s) = s.
Proof. done. Qed.

Lemma orelse_spec (R : stratum Q → stratum Q → Prop) `{!PreOrder R} a b s :
  R s (snd (a s)) → (∀ s, R s (snd (b s))) → R s (snd (orelse a b s)).
Proof.
  intros Ha Hb. unfold orelse. destruct (a s) as [r s1]. cbn [snd] in *.
  destruct r; [done|]. by etransitivity.
Qed.

Lemma set_sizes_spec n1 n2 nb s :
  (n1 <= Z.to_nat 4096)%nat → (n2 <= Z.to_nat 4096)%nat → (nb <= 32)%nat →
  job_only s (set_sizes n1 n2 nb s).
Proof. intros. one_field. Qed.

Lemma read_branches_spec b k i s :
  (i + k = 33)%nat → (j_nb (job (wk s)) <= i)%nat →
  job_only s (snd (read_branches b k i s)) ∧
  j_time (job (wk (snd (read_branches b k i s)))) = j_time (job (wk s)).
Proof.
  revert i s. induction k as [|k IH]; intros i s Hk Hnb; cbn [read_branches]; [done|].
  destruct (JSON_SearchConst _ _) as [v t| |]; [|done..].
  destruct (bool_decide_reflect (t ≠ JSONString)); cbn [orb]; [done|].
  case_bool_decide as Hi; [done|].
  pose proof (hex_decode_ok v (default [] (j_branches (job (wk s)) !! i)) 32 32) as Hh.
  destruct (hex_decode _ _ _) as [rc a]. proj in *.
  set (s1 := set_job _ s).
  assert (job_only s s1) as Hs1.
  { one_field. unfold s1. proj. destruct ok_branches0 as [Lb Fb]. rewrite length_insert. split; [done|].
    apply Forall_insert; [done|]. apply Hh.
    destruct (lookup_lt_is_Some_2 (j_branches (job (wk s))) i ltac:(lia)) as [x Hx]. rewrite Hx. cbn.
    by eapply Forall_lookup_1. }
  case_bool_decide; [done|].
  set (s2 := set_sizes _ _ _ s1). assert (job_only s1 s2) as Hs2.
  { split_and!; try done. intros Hj1. pose proof (ok_sizes _ Hj1) as Hsz. unfold s1 in Hsz. proj in *.
    destruct Hj1. split; try done. unfold s2. proj. lia. }
  destruct (IH (i + 1)%nat s2) as [H1 H2]; [lia|unfold s2; proj; lia|].
  split; [|done]. etransitivity; [exact Hs1|]. etransitivity; [exact Hs2|exact H1].
Qed.

(** The checks after the coinbase parts: on success the time has 8 digits. *)
Lemma read_fields_spec b s :
  let '(r, s') := orelse (read_version b) (orelse (read_bits b) (orelse (read_time b)
    (orelse (has_type b (str "params[4]") [JSONArray])
            (has_type b (str "params[8]") [JSONTrue; JSONFalse])))) s in
  job_only s s' ∧ (r = false → length (j_time (job (wk s'))) = 8%nat).
Proof.
  unfold orelse at 1. pose proof (read_version_spec b s) as H1.
  destruct (read_version b s) as [r1 s1]. destruct r1; [done|]. cbn [snd] in H1.
  unfold orelse at 1. pose proof (read_bits_spec b s1) as H2.
  destruct (read_bits b s1) as [r2 s2]. cbn [snd] in H2.
  assert (job_only s s2) as H02 by (by etransitivity). destruct r2; [done|].
  unfold orelse at 1. pose proof (read_time_spec b s2) as [H3 Ht].
  destruct (read_time b s2) as [r3 s3]. cbn [fst snd] in *.
  assert (job_only s s3) as H03 by (by etransitivity). destruct r3; [done|].
  unfold orelse, has_type.
  match goal with |- context [if ?b then _ else _] => destruct b end; split; auto.
Qed.

Lemma read_job_spec b s :
  job_ok (job (wk s)) →
  let '(failed, s') := read_job b s in
  job_only s s' ∧ (failed = false → length (j_time (job (wk s'))) = 8%nat).
Proof.
  intros Hj. unfold read_job.
  pose proof (orelse_spec job_only (read_id b) (read_prev b) s (read_id_spec b s) (read_prev_spec b)) as H1.
  destruct (orelse (read_id b) (read_prev b) s) as [r s1]. cbn [snd] in H1. destruct r; [done|].
  assert (job_ok (job (wk s1))) as Hj1 by (by apply H1).
  destruct (read_coin1_spec b s1) as [H2 N1]. destruct (read_coin1 b s1) as [n1 s2]. cbn [fst snd] in *.
  assert (job_only s s2) as H02 by (by etransitivity). case_bool_decide as Hn1; [done|].
  assert (job_ok (job (wk s2))) as Hj2 by (by apply H2).
  destruct (read_coin2_spec b s2) as [H3 N2]. destruct (read_coin2 b s2) as [n2 s3]. cbn [fst snd] in *.
  assert (job_only s s3) as H03 by (by etransitivity). case_bool_decide as Hn2; [done|].
  pose proof (read_fields_spec b s3) as H4.
  destruct (orelse (read_version b) _ s3) as [r s4]. destruct H4 as [H4 Ht].
  assert (job_only s s4) as H04 by (by etransitivity). destruct r; [done|].
  specialize (N1 Hj1). specialize (N2 Hj2).
  pose proof (set_sizes_spec (Z.to_nat n1) (Z.to_nat n2) 0 s4 ltac:(lia) ltac:(lia) ltac:(lia)) as H5.
  destruct (read_branches_spec b 33 0 (set_sizes (Z.to_nat n1) (Z.to_nat n2) 0 s4)) as [H6 Et];
    [done|proj; lia|].
  destruct (read_branches b 33 0 _) as [failed s6]. cbn [snd] in *.
  split; [by do 2 (etransitivity; [eassumption|])|]. intros _. rewrite Et. proj. by apply Ht.
Qed.
End reading.

(** ** Messages *)
Section messages.
Context {Q : Type} `{Queue Q} `{JsonLibrary}.
Implicit Types s : stratum Q.

(** A step that keeps everything but the world keeps the invariant. *)
Lemma inv_world_step s s' : session_inv s → world_step s s' → session_inv s'.
Proof.
  intros [[Ae Aw As] [F1 F2 F3] W] (Ef & Ee & Ew & Es & Ess & Hk).
  split; [split; congruence|split; rewrite ?Ef, ?Ew; done|].
  rewrite Ef. intros Hr. destruct (W Hr) as (e2 & time & Hw). exists e2, time.
  unfold work_ok in *. rewrite Ee, Ew. destruct Hw as (?&?&?&?&?&Hp). split_and!; try done.
  by eapply programmed_keeps.
Qed.

Lemma inv_stop s : session_inv s → session_inv (stop s).
Proof.
  intros [[Ae Aw As] [F1 F2 F3] W]. destruct (stop_spec s) as (Ef & Ee & Ew & Es & Ess & _).
  revert Ef Ee Ew Es Ess. generalize (stop s). intros s' Ef Ee Ew Es Ess.
  split; [split; congruence| |by rewrite Ef]. split; rewrite Ef, ?Ew; [exact F1|done|exact F3].
Qed.

(** [stop();have_job=0;] *)
Lemma inv_stop_job s : session_inv s → session_inv (set_have_job false (stop s)).
Proof.
  intros [[Ae Aw As] [F1 F2 F3] W]. destruct (stop_spec s) as (Ef & Ee & Ew & Es & Ess & _).
  revert Ef Ee Ew Es Ess. generalize (stop s). intros s' Ef Ee Ew Es Ess.
  split; [split; proj; congruence|split; proj; rewrite ?Ef; done|]. proj. rewrite Ef. done.
Qed.

(** Starting the miner on a new header. *)
Lemma inv_build_header s :
  session_inv s → running (fl s) = false → have_job (fl s) = true → authorized (fl s) = true →
  session_inv (snd (build_header s)).
Proof.
  intros [A [F1 F2 F3] W] Hr Hj Ha. pose proof (build_header_inv s A (F3 Hj)) as Hb.
  destruct (build_header s) as [rc s']. cbn [snd].
  destruct Hb as (A' & Ej & _ & _ & _ & _ & _ & _ & _ & Hb).
  split; [done| |].
  - destruct Hb as [[_ Ef]|(_ & _ & (x & Ef & _) & _)]; split; rewrite Ef, ?Ej; try done; cbn; auto; congruence.
  - destruct Hb as [[_ Ef]|(_ & _ & _ & time & Hw)]; [congruence|]. intros _. by eexists _, time.
Qed.

Lemma inv_notify b s : session_inv s → session_inv (snd (notify b s)).
Proof.
  intros I. unfold notify. destruct (subscribed (fl s)) eqn:Hsub; cbn [negb]; [|done].
  pose proof (inv_stop_job s I) as I1.
  assert (running (fl (set_have_job false (stop s))) = false) as Hr1 by (proj; by rewrite (proj1 (stop_spec s))).
  assert (have_job (fl (set_have_job false (stop s))) = false) as Hj1 by done.
  set (s1 := set_have_job false (stop s)) in *. clearbody s1.
  destruct I1 as [[Ae [Aj Ah Ap] As] [F1 F2 F3] _].
  pose proof (read_job_spec b s1 Aj) as Hread. destruct (read_job b s1) as [failed s2].
  destruct Hread as [(Ef & Ee & Es & Ess & Ewd & Eh & Ept & Ejok) Ht].
  assert (arrays_ok s2) as A2 by (split; [congruence|split; [auto|congruence|congruence]|congruence]).
  destruct failed.
  { cbn [snd]. split; [done|split; rewrite Ef; [exact F1|congruence|congruence]|congruence]. }
  destruct (telemetry_job _ _) as [number tel]. proj.
  match goal with |- session_inv (snd (if _ then build_header ?s3 else _)) => set (s3' := s3) end.
  assert (session_inv s3') as I3.
  { destruct A2 as [A2e [A2j A2h A2p] A2s]. split.
    - split; [done|split; [|done|done]|done]. destruct A2j. split; proj; try done.
    - split; unfold s3'; proj; rewrite ?Ef; [exact F1|congruence|intros _; by apply Ht].
    - unfold s3'. proj. congruence. }
  destruct (authorized (fl s2)) eqn:Ha; [|done].
  apply inv_build_header; unfold s3'; proj; [done|congruence|done|done].
Qed.

Lemma inv_set_difficulty b s : session_inv s → session_inv (snd (set_difficulty b s)).
Proof.
  intros I. unfold set_difficulty. destruct (JSON_SearchConst _ _) as [v t| |]; [|done..].
  destruct t; try done. destruct (bitcoin_target v) as [target|] eqn:Et; [|done]. cbn [snd].
  eapply inv_world_step; [|apply tell_step].
  destruct I as [[Ae [Aj Ah Ap] As] [F1 F2 F3] W]. split; [split; proj; try done|done|done].
  split; proj; try done. by eapply bitcoin_target_words.
Qed.

Lemma inv_set_extranonce b s : session_inv s → fst (set_extranonce b s) = 0 → session_inv (snd (set_extranonce b s)).
Proof.
  intros I. unfold set_extranonce.
  pose proof (json_hex_ok b (str "params[0]") (extra1 (ex s)) 32 32) as Hh.
  destruct (json_hex _ _ _ _) as [k a]. cbn [fst snd] in Hh.
  destruct (Hh (ok_extra1 _ (arr_ex _ (inv_arrays _ I)))) as [Ba Hk].
  case_bool_decide as Hk0; [done|]. destruct (json_u32 _ _) as [count|] eqn:Hc; [|done].
  destruct (bool_decide_reflect (count = 0)); cbn [orb]; [done|]. case_bool_decide as Hc16; [done|].
  intros _. apply json_u32_range in Hc. destruct I as [[Ae Aw As] [F1 F2 F3] W].
  match goal with |- context [stop ?s0] => destruct (stop_spec s0) as (Ef & Ee & Ew & Es & Ess & _);
    revert Ef Ee Ew Es Ess; generalize (stop s0) end. proj.
  intros s' Ef Ee Ew Es Ess. split; [|split; proj; rewrite ?Ef; done|proj; rewrite Ef; done].
  split; proj; [|congruence|congruence]. destruct Ae. split; proj; try done; [|lia].
  split; [done|]. apply Forall_replicate. unfold in_bits. lia.
Qed.
End messages.
