(* ===== verification/Session.v ===== *)
(** * The Stratum session as a whole

    Replies, results and the session loop on top of the invariants of
    StratumInv: the abstract validity of a share, the conversation a session
    may have with its pool, and the reachable states of [stratum_task]. *)
From S2P Require Import Prelude Fips180 Sha256 Bitcoin Target Settings Bus Json Ina700 Protocol Telemetry Stratum StratumInv.
Local Open Scope cword_scope.

(** ** The target comparison *)

(** Comparison of little-endian numbers from the top digit down. *)
Lemma le_value_top base (a b : list Z) k :
  0 < base → Forall (λ d, 0 <= d < base) a → Forall (λ d, 0 <= d < base) b →
  (k < length a)%nat → (k < length b)%nat →
  le_value base (take (S k) a) <= le_value base (take (S k) b) ↔
  a !!! k < b !!! k ∨ a !!! k = b !!! k ∧ le_value base (take k a) <= le_value base (take k b).
Proof.
  intros Hb Ha Hb' La Lb. rewrite !le_value_take_S by done.
  pose proof (le_value_bound base Hb (take k a) ltac:(by apply Forall_take)) as Ba.
  pose proof (le_value_bound base Hb (take k b) ltac:(by apply Forall_take)) as Bb.
  rewrite length_take, Nat.min_l in Ba, Bb by lia.
  generalize dependent (le_value base (take k a)). generalize dependent (le_value base (take k b)).
  generalize dependent (a !!! k). generalize dependent (b !!! k).
  generalize dependent (base ^ Z.of_nat k). intros P y x v Hv u Hu. split.
  - intros Hle. destruct (Z.lt_trichotomy x y) as [|[->|Hxy]]; [by left|right; lia|nia].
  - intros [Hlt|[-> Hle]]; [nia|lia].
Qed.

(** The bytes of a target, least significant first. *)
Definition word_bytes (w : Z) : list Z := [u8 (w >>. 0); u8 (w >>. 8); u8 (w >>. 16); u8 (w >>. 24)].
Definition target_bytes (t : list Z) : list Z := rev t ≫= word_bytes.

Lemma word_bytes_value w : is_u32 w → le_value 256 (word_bytes w) = w.
Proof. intros [H1 H2]. cbn [word_bytes le_value]. unfold u8. rewrite !Z.shiftr_div_pow2 by lia. dlia. Qed.

Lemma words_bytes_value ws : is_words ws → le_value 256 (ws ≫= word_bytes) = le_value (2 ^ 32) ws.
Proof.
  induction 1 as [|w ws Hw Hws IH]; [done|]. rewrite bind_cons, le_value_app, word_bytes_value by (done || lia).
  by rewrite IH.
Qed.

Lemma words_bytes_ok ws : bytes_n (4 * length ws) (ws ≫= word_bytes).
Proof.
  induction ws as [|w ws [IHl IHb]]; [done|]. rewrite bind_cons. split; [rewrite length_app, IHl; simpl; lia|].
  apply Forall_app_2; [|done]. repeat (apply Forall_cons; split; [apply u8_range|]). constructor.
Qed.

Lemma target_bytes_ok t :
  is_target t → bytes_n 32 (target_bytes t) ∧ le_value 256 (target_bytes t) = target_val t.
Proof.
  intros Ht. destruct (is_target_rev t Ht) as [Hl Hw]. split; [|by apply words_bytes_value].
  pose proof (words_bytes_ok (rev t)) as Hb. by rewrite Hl in Hb.
Qed.

Lemma target_byte t i :
  is_target t → (i < 32)%nat →
  u8 (t !!! (i / 4)%nat >>. (24 - 8 * Z.of_nat (i mod 4))) = target_bytes t !!! (31 - i)%nat.
Proof.
  intros [Hl _] Hi. list_elems t Hl. do 32 (destruct i as [|i]; [reflexivity|]). lia.
Qed.

Lemma meets_target_from k i digest target :
  (i + k = 32)%nat → bytes_n 32 digest → is_target target →
  meets_target k i digest target =
  bool_decide (le_value 256 (take k digest) <= le_value 256 (take k (target_bytes target))).
Proof.
  intros Hi [Ld Bd] Ht. destruct (target_bytes_ok target Ht) as [[Lt Bt] _].
  revert i Hi. induction k as [|k IH]; intros i Hi.
  { symmetry. apply bool_decide_eq_true_2. rewrite !take_0. lia. }
  cbn [meets_target]. rewrite target_byte by (done || lia). replace (31 - i)%nat with k by lia.
  pose proof (le_value_top 256 digest (target_bytes target) k ltac:(lia) Bd Bt ltac:(lia) ltac:(lia)) as Htop.
  destruct (bool_decide_reflect (digest !!! k < target_bytes target !!! k));
    [symmetry; apply bool_decide_eq_true_2, Htop; by left|].
  destruct (bool_decide_reflect (digest !!! k > target_bytes target !!! k));
    [symmetry; apply bool_decide_eq_false_2; rewrite Htop; lia|].
  rewrite IH by lia. apply bool_decide_ext. rewrite Htop. lia.
Qed.

(** The test of [service_results] is the proof-of-work inequality. *)
Lemma meets_target_spec digest target :
  bytes_n 32 digest → is_target target →
  meets_target 32 0 digest target = bool_decide (le_value 256 digest <= target_val target).
Proof.
  intros Hd Ht. rewrite meets_target_from by done. destruct (target_bytes_ok target Ht) as [[Lt _] <-].
  rewrite !take_ge; [done|lia|destruct Hd; lia].
Qed.

(** ** Nonces *)

Lemma put_nonce_spec h nonce :
  length h = 80%nat → is_u32 nonce → put_nonce h nonce = take 76 h ++ Fips.be_bytes 4 nonce.
Proof.
  intros Hh [H1 H2]. unfold put_nonce.
  rewrite (for_loop_memcpy (λ i, u8 (nonce >>. (24 - Z.of_nat i * 8)))), memcpy_eq by (simpl; lia).
  rewrite (drop_ge h) by (simpl; lia). rewrite app_nil_r. f_equal. simpl. unfold u8.
  rewrite !Z.shiftr_div_pow2 by lia. repeat f_equal; simpl; rewrite ?Z.div_1_r; done.
Qed.

Lemma hex_digit_table d : 0 <= d < 16 → hex_digit d = hex_digits !!! Z.to_nat d.
Proof.
  intros Hd. assert (∃ n, d = Z.of_nat n ∧ (n < 16)%nat) as (n & -> & Hn) by (exists (Z.to_nat d); lia).
  rewrite Nat2Z.id. do 16 (destruct n as [|n]; [reflexivity|]). lia.
Qed.

Lemma fmt_hex_bytes l : is_bytes l → fmt_hex (2 * length l) (Fips.be_value l 0) = to_hex l.
Proof.
  induction l as [|b l IH] using rev_ind; intros Hl; [done|].
  apply Forall_app in Hl as [Hl Hb]. apply Forall_cons in Hb as [Hb _]. unfold in_bits in Hb.
  assert (0 <= b / 16 < 16) as Hq by (split; [apply Z.div_pos|apply Z.div_lt_upper_bound]; lia).
  rewrite be_value_snoc, to_hex_snoc, length_app, Nat.mul_add_distr_l, <-IH by done.
  replace (2 * length l + 2 * length [b])%nat with (S (S (2 * length l))) by (simpl; lia). cbn [fmt_hex].
  generalize (Fips.be_value l 0). intros v.
  rewrite !hex_digit_table by (apply Z.mod_pos_bound; lia).
  assert (v * 256 + b = b `mod` 16 + (v * 16 + b / 16) * 16 ∧ v * 16 + b / 16 = b / 16 + v * 16) as [E1 E2] by dlia.
  rewrite E1, Z.mod_add, Z.mod_mod, Z.div_add, (Z.div_small (b `mod` 16)) by (try apply Z.mod_pos_bound; lia).
  rewrite Z.add_0_l, E2, Z.mod_add, Z.div_add by lia.
  rewrite (Z.mod_small (b / 16)), (Z.div_small (b / 16)) by lia. done.
Qed.

(** The nonce field of a submission is the hex of the header's nonce bytes
    in reverse: the pool reads it as a number and stores it little-endian. *)
Lemma nonce_text nonce :
  is_u32 nonce → fmt_hex 8 (bitcoin_swap32 nonce) = to_hex (rev (Fips.be_bytes 4 nonce)).
Proof.
  intros Hx. destruct (swap32_value nonce Hx) as (b0 & b1 & b2 & b3 & H0 & H1 & H2 & H3 & Hv & Hs).
  assert (is_bytes [b3; b2; b1; b0]) as Hb by (by rewrite !Forall_cons, Forall_nil).
  rewrite Hs, Hv. pose proof (be_bytes_value [b3; b2; b1; b0] Hb) as E. cbn [length] in E. rewrite E.
  apply (fmt_hex_bytes [b0; b1; b2; b3]). by rewrite !Forall_cons, Forall_nil.
Qed.

(** ** Steps that keep the current work *)
Section steps.
Context {Q : Type} `{Queue Q}.
Implicit Types s : stratum Q.

(** Handling results changes the share table, the nonce in the header, the
    range and the world, and nothing the current work is made of. *)
Definition result_step s s' : Prop :=
  fl s' = fl s ∧ ex s' = ex s ∧ job (wk s') = job (wk s) ∧ pending_target (wk s') = pending_target (wk s) ∧
  session s' = session s ∧ keeps_work (w_tr (wd s)) (w_tr (wd s')) ∧
  (bytes_n 80 (header (wk s)) → bytes_n 80 (header (wk s')) ∧ take 76 (header (wk s')) = take 76 (header (wk s))) ∧
  (shares_inv (sh s) → shares_inv (sh s')).

#[global] Instance result_step_preorder : PreOrder result_step.
Proof.
  split; [intros s; split_and!; done|]. intros s1 s2 s3 (?&?&?&?&?&?&Hh1&Hs1) (?&?&?&?&?&?&Hh2&Hs2).
  split_and!; try congruence; [by etransitivity| |auto].
  intros Hb. destruct (Hh1 Hb) as [Hb2 E2]. destruct (Hh2 Hb2) as [Hb3 E3]. split; congruence.
Qed.

Lemma world_result_step s s' : world_step s s' → result_step s s'.
Proof. intros (?&?&Ew&Es&?&?). split_and!; try congruence; rewrite ?Ew, ?Es; auto. Qed.

Lemma tell_result_step name s : result_step s (tell name s).
Proof. apply world_result_step, tell_step. Qed.

Lemma work_result_step s s' e2 time :
  bytes_n 80 (header (wk s)) → result_step s s' → work_ok s e2 time → work_ok s' e2 time.
Proof.
  intros Hb (?&Ee&Ej&?&?&Hk&Hh&?) (?&?&?&?&Eh&Hp). destruct (Hh Hb) as [_ Eh'].
  unfold work_ok. rewrite Ee, Ej. split_and!; try done; [congruence|]. by eapply programmed_keeps.
Qed.

Lemma inv_result_step s s' : session_inv s → result_step s s' → session_inv s'.
Proof.
  intros [[Ae [Aj Ah Ap] As] [F1 F2 F3] W] Hst. pose proof Hst as (Ef&Ee&Ej&Ept&Ess&Hk&Hh&Hs).
  destruct (Hh Ah) as [Ah' _].
  split; [split; [congruence|split; congruence|auto]|split; rewrite ?Ef, ?Ej; auto|].
  rewrite Ef. intros Hr. destruct (W Hr) as (e2 & time & Hw). exists e2, time.
  by apply (work_result_step s).
Qed.

(** ** The share table *)

Lemma next_id_step x :
  is_u32 x → 4 <= x → x +32 1 = x + 1 ∧ x + 1 < 2 ^ 32 ∨ x +32 1 = 0 ∧ x = 2 ^ 32 - 1.
Proof.
  intros [H1 H2] H4. destruct (decide (x = 2 ^ 32 - 1)) as [->|]; [by right|left].
  rewrite u32_small; unfold in_bits; lia.
Qed.

Lemma shares_bump x : shares_inv x → 4 <= next_id x → shares_inv (Shares (next_id x +32 1) (pending x)).
Proof.
  intros [H1 H2 H3 H4] Hn. split; cbn [pending next_id]; [done|apply u32_range| |done].
  eapply Forall_impl; [exact H3|]. intros p [Hp|[Hp Hlt]]; [by left|right]. split; [done|].
  destruct (next_id_step (next_id x) H2 Hn) as [[-> ?]|[-> ?]]; lia.
Qed.

Lemma shares_add x slot p t e :
  shares_inv x → 4 <= next_id x → pending x !! slot = Some p → p_id p = 0 →
  shares_inv (Shares (next_id x +32 1) (<[slot := Pending (next_id x) t e]> (pending x))).
Proof.
  intros Hx Hn Hp H0. destruct (shares_bump x Hx Hn) as [H1 H2 H3 H4]. cbn [pending next_id] in *.
  assert (∀ i q, pending x !! i = Some q → p_id q = next_id x → False) as Hfresh.
  { intros i q Hi Hq. pose proof (Forall_lookup_1 _ _ _ _ (ok_ids _ Hx) Hi) as Hids. cbn in Hids. lia. }
  split; cbn [pending next_id]; [by rewrite length_insert|done| |].
  - apply Forall_insert; [done|]. right. cbn [p_id]. pose proof (ok_next _ Hx) as Hu. unfold in_bits in Hu.
    destruct (next_id_step (next_id x) (ok_next _ Hx) Hn) as [[-> ?]|[-> ?]]; lia.
  - intros i j q r Hi Hj Hq Hne. apply list_lookup_insert_Some in Hi, Hj.
    destruct Hi as [(-> & <- & _)|[Hi Hi']], Hj as [(-> & <- & _)|[Hj Hj']]; cbn [p_id] in *; try done.
    + exfalso. by eapply (Hfresh j r).
    + exfalso. by eapply (Hfresh i q).
    + by eapply H4.
Qed.

(** Any update of a slot that keeps its id or frees it. *)
Lemma shares_update x i p t e id :
  shares_inv x → pending x !! i = Some p → id = 0 ∨ id = p_id p →
  shares_inv (Shares (next_id x) (<[i := Pending id t e]> (pending x))).
Proof.
  intros [H1 H2 H3 H4] Hp Hid. split; cbn [pending next_id]; [by rewrite length_insert|done| |].
  - apply Forall_insert; [done|]. cbn [p_id].
    destruct Hid as [->| ->]; [by left|]. exact (Forall_lookup_1 _ _ _ _ H3 Hp).
  - intros a b q r Ha Hb Hq Hne. apply list_lookup_insert_Some in Ha, Hb.
    destruct Ha as [(-> & <- & _)|[Ha Ha']], Hb as [(-> & <- & _)|[Hb Hb']]; cbn [p_id] in *; try done.
    + destruct Hid as [->| ->]; [done|]. exact (H4 a b p r Hp Hb' Hq Hne).
    + rewrite Hq in Hne. destruct Hid as [->| ->]; [done|]. apply (H4 a b q p Ha' Hp); congruence.
    + by eapply H4.
Qed.

Lemma free_slot_spec ps slot :
  free_slot ps = Some slot → (slot < 8)%nat ∧ ∃ p, ps !! slot = Some p ∧ p_id p = 0.
Proof.
  unfold free_slot. intros ([i p] & Hf & ->)%fmap_Some. apply list_find_Some in Hf as (Hp & H0 & _).
  apply lookup_take_Some in Hp as [Hp Hi]. cbn [fst]. eauto.
Qed.
End steps.

(** ** Shares *)

(** A submission as the pool reads it: byte fields written in hex. *)
Record share := Share { sh_id : Z; sh_job : list Z; sh_extra2 : list Z; sh_time : list Z; sh_nonce : list Z }.

Definition share_text (worker : list Z) (x : share) : list Z :=
  concat [jstr "{'id':"; fmt_u (sh_id x); jstr ",'method':'mining.submit','params':['"; worker; jstr "','";
    sh_job x; jstr "','"; to_hex (sh_extra2 x); jstr "','"; sh_time x; jstr "','"; to_hex (sh_nonce x);
    jstr "']}"; [10]].

(** The pool's check: the header made of the job, the extranonces, the time
    and the nonce of the submission hashes to a number within the job's
    target. *)
Definition pool_accepts (j : pool_job) (x1 : list Z) (n2 : nat) (x : share) : Prop :=
  sh_job x = j_id j ∧ sh_time x = j_time j ∧ bytes_n n2 (sh_extra2 x) ∧ bytes_n 4 (sh_nonce x) ∧
  ∃ time, hex_pairs (sh_time x) = Some time ∧ length time = 4%nat ∧
    le_value 256 (BlockSpec.hash256 (take 76 (job_header j x1 (sh_extra2 x) time) ++ rev (sh_nonce x)))
      <= target_val (j_target j).

#[local] Opaque sha256d BlockSpec.hash256 meets_target put_nonce.

Section results.
Context {Q : Type} `{Queue Q} `{JsonLibrary}.
Context (dev : device) (send : list Z → list Z → Z) (ticks : world Q → Z).
Implicit Types s : stratum Q.

(** Shares the current work of [s] may submit. *)
Definition good_share s (x : share) : Prop :=
  pool_accepts (job (wk s)) (take (extra1_size (ex s)) (extra1 (ex s))) (extra2_size (ex s)) x.

Lemma good_share_step s s' x : result_step s s' → good_share s' x → good_share s x.
Proof. intros (_ & Ee & Ej & _). unfold good_share. by rewrite Ee, Ej. Qed.

(** The bytes added to the connection by a step. *)
Definition sends s s' (p : list Z) : Prop := w_sent (wd s') = w_sent (wd s) ++ p.

Lemma put_nonce_step nonce s :
  is_u32 nonce → result_step s (set_header (put_nonce (header (wk s)) nonce) s).
Proof.
  intros Hn. split_and!; try done. proj. intros [Hl Hb]. rewrite put_nonce_spec by done. split; [split|].
  - rewrite length_app, length_take, Hl. done.
  - apply Forall_app_2; [by apply Forall_take|apply be_bytes_bytes].
  - by rewrite take_app_le, take_take by (rewrite length_take; lia).
Qed.

Lemma sha256d_80 h : bytes_n 80 h → sha256d h = BlockSpec.hash256 h ∧ bytes_n 32 (sha256d h).
Proof.
  intros [Hl Hb]. rewrite sha256d_hash256 by (done || (rewrite Hl; done)). split; [done|].
  split; [|apply hash256_ok]. by apply hash256_ok.
Qed.

(** The checked nonce is a good share. *)
Lemma meets_target_share s e2 time nonce :
  arrays_ok s → work_ok s e2 time → is_u32 nonce →
  let h := put_nonce (header (wk s)) nonce in
  meets_target 32 0 (sha256d h) (j_target (job (wk s))) = true → ∀ id,
  good_share s (Share id (j_id (job (wk s))) e2 (j_time (job (wk s))) (rev (Fips.be_bytes 4 nonce))).
Proof.
  intros [_ [Aj [Lh Bh] _] _] (He2 & _ & Ht & Lt & Eh & _) Hn h Hm id.
  pose proof (put_nonce_step nonce s Hn) as (_&_&_&_&_&_&Hh&_). destruct (Hh (conj Lh Bh)) as [Hb80 _].
  proj in *. fold h in Hb80. destruct (sha256d_80 h Hb80) as [Eh256 Hb32].
  rewrite (meets_target_spec _ _ Hb32 (ok_target _ Aj)) in Hm. apply bool_decide_eq_true in Hm.
  do 3 (split; [done|]). split; cbn [sh_nonce].
  - split; [by rewrite length_rev, length_be_bytes|]. apply Forall_rev, be_bytes_bytes.
  - exists time. do 2 (split; [done|]). cbn [sh_extra2 sh_nonce]. rewrite rev_involutive, <-Eh.
    rewrite Eh256 in Hm. unfold h in Hm. rewrite put_nonce_spec in Hm by done. exact Hm.
Qed.

Definition my_worker s : list Z := cstr (worker (session s)).

Lemma submit_share_text s e2 time id nonce :
  work_ok s e2 time → is_u32 nonce →
  submit_text id (my_worker s) (j_id (job (wk s))) (cstr (extra2_hex (ex s))) (j_time (job (wk s))) nonce =
  share_text (my_worker s) (Share id (j_id (job (wk s))) e2 (j_time (job (wk s))) (rev (Fips.be_bytes 4 nonce))).
Proof. intros (_ & -> & _) Hn. unfold submit_text, share_text. by rewrite nonce_text. Qed.

(** What one result sends: on success one good share with the next id, and
    otherwise nothing or the start of one. *)
Definition sends_share s (failed : bool) (id' : Z) (p : list Z) : Prop :=
  if failed
  then p = [] ∨ ∃ x, good_share s x ∧ sh_id x = next_id (sh s) ∧ p `prefix_of` share_text (my_worker s) x
  else ∃ x, good_share s x ∧ sh_id x = next_id (sh s) ∧ p = share_text (my_worker s) x ∧
    4 <= next_id (sh s) ∧ id' = next_id (sh s) +32 1.

Lemma submit_result_spec nonce s e2 time :
  arrays_ok s → work_ok s e2 time → is_u32 nonce →
  let '(failed, s') := submit_result send ticks nonce s in
  result_step s s' ∧ ∃ p, sends s s' p ∧ sends_share s failed (next_id (sh s')) p.
Proof.
  intros A W Hn. pose proof (put_nonce_step nonce s Hn) as R1.
  pose proof (meets_target_share s e2 time nonce A W Hn) as Hgood. cbv zeta in Hgood.
  pose proof (λ id, submit_share_text s e2 time id nonce W Hn) as Htext.
  unfold submit_result. proj. set (h := put_nonce _ _) in *.
  assert (∀ s', w_sent (wd s') = w_sent (wd s) → ∃ p, sends s s' p ∧ sends_share s true (next_id (sh s')) p) as Hnone.
  { intros s' E. exists []. split; [unfold sends; by rewrite app_nil_r|by left]. }
  destruct (meets_target 32 0 (sha256d h) (j_target (job (wk s)))); cbn [negb];
    [|split; [etransitivity; [exact R1|apply tell_result_step]|by apply Hnone]].
  specialize (Hgood eq_refl).
  destruct (free_slot (pending (sh s))) as [slot|] eqn:Hslot;
    [|split; [etransitivity; [exact R1|apply tell_result_step]|by apply Hnone]].
  apply free_slot_spec in Hslot as (Hslot & p0 & Hp0 & Hz).
  case_bool_decide as H4; [split; [exact R1|by apply Hnone]|].
  unfold snprintf. fold (my_worker s). rewrite Htext.
  specialize (Hgood (next_id (sh s))). set (x := Share _ _ _ _ _) in *.
  set (s2 := set_sh (Shares (next_id (sh s) +32 1) (pending (sh s))) (set_header h s)).
  assert (result_step s s2) as R2.
  { etransitivity; [exact R1|]. split_and!; try done. proj. intros Hx. apply (shares_bump _ Hx). lia. }
  destruct (bool_decide _ || bool_decide _) eqn:Hlen; [split; [exact R2|by apply Hnone]|].
  apply orb_false_elim in Hlen as [_ Hlen%bool_decide_eq_false].
  rewrite (take_ge (share_text (my_worker s) x)) by lia.
  pose proof (send_line_spec send (share_text (my_worker s) x) s2) as Hsend.
  destruct (send_line send (share_text (my_worker s) x) s2) as [failed s3].
  destruct Hsend as (R3 & _ & p & Es3 & Hpre & Hfull). pose proof R3 as (_ & _ & _ & Esh3 & _).
  apply world_result_step in R3. destruct failed.
  { split; [by etransitivity|]. exists p. split; [exact Es3|]. right. by exists x. }
  specialize (Hfull eq_refl). subst p.
  assert (4 <= next_id (sh s)) as Hn4 by lia. split.
  - etransitivity; [exact R2|]. etransitivity; [exact R3|]. split_and!; try done. proj. rewrite Esh3.
    intros _. exact (shares_add (sh s) slot p0 _ _ (arr_sh _ A) Hn4 Hp0 Hz).
  - exists (share_text (my_worker s) x). split; [exact Es3|]. exists x. proj. by rewrite Esh3.
Qed.

(** Consecutive ids, from [n] to [n']. *)
Fixpoint numbered (n : Z) (xs : list share) (n' : Z) : Prop :=
  match xs with
  | [] => n' = n
  | x :: xs => sh_id x = n ∧ 4 <= n ∧ numbered (n +32 1) xs n'
  end.

Lemma numbered_app n xs ys n' n'' : numbered n xs n' → numbered n' ys n'' → numbered n (xs ++ ys) n''.
Proof. revert n. induction xs as [|x xs IH]; intros n; [by intros ->|]. intros (? & ? & ?) ?. cbn. eauto. Qed.

Definition texts (worker : list Z) (xs : list share) : list Z := concat (share_text worker <$> xs).

(** What a batch of results sends: good shares with consecutive ids, and on
    failure possibly the start of one more. *)
Definition sends_shares s (failed : bool) s' : Prop :=
  ∃ xs p n, sends s s' (texts (my_worker s) xs ++ p) ∧ Forall (good_share s) xs ∧
  numbered (next_id (sh s)) xs n ∧ (failed = false → p = [] ∧ next_id (sh s') = n) ∧
  (p = [] ∨ ∃ x, good_share s x ∧ p `prefix_of` share_text (my_worker s) x).

Lemma sends_shares_none failed s s' :
  w_sent (wd s') = w_sent (wd s) → sh s' = sh s → sends_shares s failed s'.
Proof.
  intros E Es. exists [], [], (next_id (sh s)). unfold sends. rewrite E, app_nil_r, Es.
  split_and!; [done|constructor|done|done|by left].
Qed.

Lemma sends_shares_cons s s1 s2 failed x :
  result_step s s1 → good_share s x → sh_id x = next_id (sh s) → 4 <= next_id (sh s) →
  next_id (sh s1) = next_id (sh s) +32 1 → sends s s1 (share_text (my_worker s) x) →
  sends_shares s1 failed s2 → sends_shares s failed s2.
Proof.
  intros R Hx Hid H4 Hn Hs (xs & p & n & Hs2 & Hxs & Hnum & Hok & Hp).
  assert (my_worker s1 = my_worker s) as Ew by (unfold my_worker; by destruct R as (_&_&_&_&->&_)).
  rewrite Ew in *. exists (x :: xs), p, n. split_and!.
  - unfold sends in *. rewrite Hs2, Hs. unfold texts. rewrite fmap_cons. cbn [concat]. by rewrite <-!app_assoc.
  - constructor; [done|]. eapply Forall_impl; [exact Hxs|]. intros y. by apply good_share_step.
  - rewrite Hn in Hnum. done.
  - done.
  - destruct Hp as [->|(y & Hy & Hpre)]; [by left|right]. exists y. split; [by eapply good_share_step|done].
Qed.

(** Steps that send nothing before a batch. *)
Lemma sends_shares_world s s1 s2 failed :
  world_step s s1 → w_sent (wd s1) = w_sent (wd s) → sends_shares s1 failed s2 → sends_shares s failed s2.
Proof.
  intros Hw Es (xs & p & n & Hs2 & Hxs & Hnum & Hok & Hp). pose proof (world_result_step _ _ Hw) as R.
  destruct Hw as (_ & _ & _ & Esh & Ess & _).
  assert (my_worker s1 = my_worker s) as Ew by (unfold my_worker; by rewrite Ess).
  rewrite Ew, Esh in *. exists xs, p, n. unfold sends in *. rewrite Es in Hs2. split_and!; try done.
  - eapply Forall_impl; [exact Hxs|]. intros y. by apply good_share_step.
  - destruct Hp as [->|(y & Hy & Hpre)]; [by left|right]. exists y. split; [by eapply good_share_step|done].
Qed.

Lemma drain_spec k s :
  session_inv s → running (fl s) = true →
  let '(failed, s') := drain dev send ticks k s in result_step s s' ∧ sends_shares s failed s'.
Proof.
  revert s. induction k as [|k IH]; intros s I Hr; cbn [drain]; [split; [done|by apply sends_shares_none]|].
  destruct (reg_read dev 0x98 s) as [v s1] eqn:E1.
  destruct (reg_read_step dev 0x98 s) as [W1 S1]. rewrite E1 in W1, S1. cbn [snd] in W1, S1.
  case_bool_decide.
  { split; [by apply world_result_step|]. apply sends_shares_none; [done|apply W1]. }
  destruct (reg_read dev 0x90 s1) as [nonce s2] eqn:E2.
  destruct (reg_read_step dev 0x90 s1) as [W2 S2]. rewrite E2 in W2, S2. cbn [snd] in W2, S2.
  destruct (reg_write_step 0x98 1 s2 ltac:(not_work_reg)) as [W3 S3].
  assert (is_u32 nonce) as Hn by (injection E2 as <- _; apply u32_range).
  set (s3 := reg_write 0x98 1 s2) in *. clearbody s3.
  assert (world_step s s3) as W by (by do 2 (etransitivity; [eassumption|])).
  assert (w_sent (wd s3) = w_sent (wd s)) as Sn by congruence.
  assert (session_inv s3) as I3 by (by eapply inv_world_step).
  assert (running (fl s3) = true) as Hr3 by (by rewrite (proj1 W)).
  destruct (inv_work _ I3 Hr3) as (e2 & time & Hw).
  pose proof (submit_result_spec nonce s3 e2 time (inv_arrays _ I3) Hw Hn) as Hsub.
  destruct (submit_result send ticks nonce s3) as [failed s4]. destruct Hsub as (R4 & p & Hp & Hsh).
  pose proof (world_result_step _ _ W) as R3. destruct failed.
  { split; [by etransitivity|]. apply (sends_shares_world s s3); [done|done|].
    exists [], p, (next_id (sh s3)). split; [done|]. split; [constructor|]. split; [done|]. split; [done|].
    destruct Hsh as [->|(x & ? & _ & ?)]; [by left|right; by exists x]. }
  destruct Hsh as (x & Hx & Hid & -> & H4 & Hnext).
  specialize (IH s4 (inv_result_step _ _ I3 R4)). rewrite (proj1 R4) in IH. specialize (IH Hr3).
  destruct (drain dev send ticks k s4) as [failed s5]. destruct IH as [R5 Hs5].
  split; [by do 2 (etransitivity; [eassumption|])|].
  apply (sends_shares_world s s3); [done|done|]. by apply (sends_shares_cons s3 s4 s5 failed x).
Qed.

(** Steps the pool does not see. *)
Definition quiet s s' : Prop :=
  w_sent (wd s') = w_sent (wd s) ∧ sh s' = sh s ∧ session s' = session s ∧
  subscribed (fl s') = subscribed (fl s) ∧ authorized (fl s') = authorized (fl s).

#[global] Instance quiet_preorder : PreOrder quiet.
Proof. split; [done|]. intros s1 s2 s3 (?&?&?&?&?) (?&?&?&?&?). split_and!; congruence. Qed.

Lemma world_quiet s s' : world_step s s' → w_sent (wd s') = w_sent (wd s) → quiet s s'.
Proof. intros (Ef & _ & _ & Es & Ess & _) E. unfold quiet. by rewrite Ef. Qed.

Lemma moved_quiet b s s' : moved (with_running b (fl s)) s s' → quiet s s'.
Proof. intros (Ef & _ & _ & Es & Ess & E & _). unfold quiet. by rewrite Ef. Qed.

Lemma build_header_quiet s : quiet s (snd (build_header s)).
Proof.
  unfold build_header. destruct (extra_exhausted (fl s)); [done|]. destruct (hex_decode _ _ _) as [rc time].
  case_bool_decide; [done|]. rewrite program_work_eq. destruct (increment _ _) as [e2 x].
  cbn [snd]. match goal with |- quiet _ (start_range ?s0) => trans s0; [done|] end.
  apply (moved_quiet true), start_range_spec.
Qed.

Lemma sends_shares_after s s1 s2 failed :
  sends_shares s false s1 → quiet s1 s2 → sends_shares s failed s2.
Proof.
  intros (xs & p & n & Hs & Hxs & Hnum & Hok & Hp) (E & Es & _). exists xs, p, n. unfold sends in *. rewrite E, Es.
  destruct (Hok eq_refl). split_and!; done.
Qed.

Lemma inv_set_range r s : session_inv s → session_inv (set_range r s).
Proof. intros I. eapply inv_result_step; [exact I|]. by split_and!. Qed.

Lemma inv_start_range s : session_inv s → running (fl s) = true → session_inv (start_range s).
Proof.
  intros I Hr. pose proof (start_range_spec s) as (Ef & Ee & Ew & Es & Ess & _ & Hk).
  apply (inv_world_step s); [done|]. split_and!; try done. rewrite Ef. unfold with_running.
  destruct (fl s). cbn in Hr. by subst.
Qed.

Lemma next_range_spec s :
  session_inv s → running (fl s) = true →
  let '(rc, s') := next_range dev s in session_inv s' ∧ quiet s s'.
Proof.
  intros I Hr. unfold next_range.
  destruct (reg_read dev 4 s) as [v s1] eqn:E1.
  destruct (reg_read_step dev 4 s) as [W1 S1]. rewrite E1 in W1, S1. cbn [snd] in W1, S1.
  case_bool_decide; [split; [by eapply inv_world_step|by apply world_quiet]|].
  destruct (reg_read dev 0x98 s1) as [v2 s2] eqn:E2.
  destruct (reg_read_step dev 0x98 s1) as [W2 S2]. rewrite E2 in W2, S2. cbn [snd] in W2, S2.
  assert (world_step s s2) as W by (by etransitivity).
  assert (session_inv s2) as I2 by (by eapply inv_world_step).
  assert (quiet s s2) as Q2 by (apply world_quiet; [done|congruence]).
  assert (running (fl s2) = true) as Hr2 by (by rewrite (proj1 W)).
  case_bool_decide; [done|].
  set (s3 := set_range _ s2). assert (session_inv s3) as I3 by (by apply inv_set_range).
  assert (quiet s s3) as Q3 by done. assert (running (fl s3) = true) as Hr3 by done. clearbody s3.
  case_bool_decide.
  - pose proof (inv_stop s3 I3) as I4. pose proof (stop_spec s3) as M. pose proof (moved_quiet _ _ _ M) as Q4.
    destruct M as (Ef & _). destruct (run_job _ (inv_flags _ I3) Hr3) as [Hj Ha].
    assert (have_job (fl (stop s3)) = true) as Hj4 by (by rewrite Ef).
    pose proof (inv_build_header (stop s3) I4) as I5.
    pose proof (build_header_quiet (stop s3)) as Q5.
    rewrite Ef in I5. destruct (build_header (stop s3)) as [rc s5]. cbn [snd] in *.
    split; [by apply I5|]. by do 2 (etransitivity; [eassumption|]).
  - split; [by apply inv_start_range|]. etransitivity; [exact Q3|].
    apply (moved_quiet true), start_range_spec.
Qed.

Lemma service_results_spec s :
  session_inv s →
  let '(rc, s') := service_results dev send ticks s in
  session_inv s' ∧ sends_shares s (bool_decide (rc ≠ 0)) s' ∧
  session s' = session s ∧ subscribed (fl s') = subscribed (fl s) ∧ authorized (fl s') = authorized (fl s).
Proof.
  intros I. unfold service_results. destruct (running (fl s)) eqn:Hr; cbn [negb];
    [|split; [done|]; split; [by apply sends_shares_none|done]].
  destruct (reg_read dev 4 s) as [v s1] eqn:E1.
  destruct (reg_read_step dev 4 s) as [W1 S1]. rewrite E1 in W1, S1. cbn [snd] in W1, S1.
  assert (session_inv s1) as I1 by (by eapply inv_world_step).
  assert (quiet s s1) as Q1 by (by apply world_quiet).
  case_bool_decide.
  { split; [eapply inv_world_step; [exact I1|apply tell_step]|].
    split; [apply sends_shares_none; apply Q1|apply Q1]. }
  assert (running (fl s1) = true) as Hr1 by (by rewrite (proj1 W1)).
  pose proof (drain_spec 16 s1 I1 Hr1) as Hd. destruct (drain dev send ticks 16 s1) as [failed s2].
  destruct Hd as [R2 Sh2]. pose proof (inv_result_step _ _ I1 R2) as I2.
  pose proof R2 as (Ef2 & _ & _ & _ & Ess2 & _). destruct Q1 as (_ & _ & Ess1 & Esub & Eau).
  destruct failed.
  { split; [done|]. split; [by apply (sends_shares_world s s1)|]. rewrite Ef2. split_and!; congruence. }
  rewrite <-Ef2 in Hr1. pose proof (next_range_spec s2 I2 Hr1) as Hn.
  destruct (next_range dev s2) as [rc s3]. destruct Hn as [I3 Q3]. split; [done|]. split.
  - apply (sends_shares_world s s1); [done|done|]. by eapply sends_shares_after.
  - destruct Q3 as (_ & _ & -> & -> & ->). rewrite Ef2. split_and!; congruence.
Qed.
End results.

(** ** The conversation with the pool *)
Section conversation.
Context {Q : Type} `{Queue Q} `{JsonLibrary}.
Context (dev : device) (send : list Z → list Z → Z) (ticks : world Q → Z).
Implicit Types s : stratum Q.

Definition authorize_line (st : miner_settings) : list Z :=
  snd (snprintf 512 (authorize_text (cstr (worker st)) (cstr (password st)))).

(** Subscription, then authorization, then the difficulty wish. *)
Definition opening (st : miner_settings) (sub auth : bool) : list Z :=
  subscribe_text ++ (if sub then authorize_line st else []) ++ (if auth then suggest_text else []).

(** Everything sent so far is the opening the flags stand for, followed by
    submissions numbered from 4 on. *)
Definition conversation s : Prop :=
  ∃ xs, w_sent (wd s) = opening (session s) (subscribed (fl s)) (authorized (fl s)) ++ texts (my_worker s) xs ∧
    numbered 4 xs (next_id (sh s)) ∧ (authorized (fl s) = false → xs = []).

(** A session that fails may leave a line half sent. *)
Definition broken s : Prop :=
  ∃ sub auth xs x, w_sent (wd s) `prefix_of` opening (session s) sub auth ++ texts (my_worker s) (xs ++ [x]) ∧
    (auth = true → sub = true) ∧ ∃ n, numbered 4 xs n.

Lemma texts_app w xs ys : texts w (xs ++ ys) = texts w xs ++ texts w ys.
Proof. unfold texts. by rewrite fmap_app, concat_app. Qed.

Lemma texts_one w x : texts w [x] = share_text w x.
Proof. apply app_nil_r. Qed.

Definition no_share : share := Share 0 [] [] [] [].

Lemma broken_intro s sub auth xs n p :
  w_sent (wd s) = opening (session s) sub auth ++ texts (my_worker s) xs ++ p →
  (auth = true → sub = true) → numbered 4 xs n →
  (p = [] ∨ ∃ x, p `prefix_of` share_text (my_worker s) x) → broken s.
Proof.
  intros E Hf Hn Hp. assert (∃ x, p `prefix_of` share_text (my_worker s) x) as [x Hx].
  { destruct Hp as [->|?]; [|done]. exists no_share. apply prefix_nil. }
  exists sub, auth, xs, x. split; [|by eauto]. rewrite E, texts_app, texts_one.
  by do 2 apply prefix_app.
Qed.

Lemma conversation_broken s : flags_ok s → conversation s → broken s.
Proof.
  intros [F1 _ _] (xs & E & Hn & _). eapply (broken_intro s _ _ xs _ []); [by rewrite app_nil_r|done|done|by left].
Qed.

(** The conversation is a function of these components. *)
Definition silent s s' : Prop :=
  w_sent (wd s') = w_sent (wd s) ∧ next_id (sh s') = next_id (sh s) ∧ session s' = session s ∧
  subscribed (fl s') = subscribed (fl s) ∧ authorized (fl s') = authorized (fl s).

#[global] Instance silent_preorder : PreOrder silent.
Proof. split; [done|]. intros s1 s2 s3 (?&?&?&?&?) (?&?&?&?&?). split_and!; congruence. Qed.

#[global] Instance conversation_proper : Proper (silent ==> impl) conversation.
Proof.
  intros s s' (E & En & Ess & Esub & Eau) (xs & Hx). exists xs. unfold my_worker.
  by rewrite E, En, Ess, Esub, Eau.
Qed.

#[global] Instance broken_proper : Proper (silent ==> impl) broken.
Proof.
  intros s s' (E & _ & Ess & _) (sub & auth & xs & x & Hx). exists sub, auth, xs, x. unfold my_worker.
  by rewrite E, Ess.
Qed.

Lemma quiet_silent s s' : quiet s s' → silent s s'.
Proof. intros (?&Es&?&?&?). split_and!; try done. by rewrite Es. Qed.

Lemma moved_silent f s s' :
  moved f s s' → subscribed f = subscribed (fl s) → authorized f = authorized (fl s) → silent s s'.
Proof. intros (Ef & _ & _ & Es & Ess & E & _). unfold silent. by rewrite Ef, Es. Qed.

(** The result of handling a message: on success everything holds again; on
    failure the arrays are still intact and the peer saw at most the start of
    a line too many. *)
Definition outcome (rc : Z) s' : Prop :=
  arrays_ok s' ∧ broken s' ∧ (rc = 0 → session_inv s' ∧ conversation s').

Lemma outcome_inv rc s' : session_inv s' → conversation s' → outcome rc s'.
Proof. intros I C. split; [apply I|]. split; [by apply conversation_broken; [apply I|]|done]. Qed.

Lemma set_extranonce_spec b s :
  session_inv s → let '(rc, s') := set_extranonce b s in arrays_ok s' ∧ quiet s s' ∧ (rc = 0 → session_inv s').
Proof.
  intros I. pose proof (inv_set_extranonce b s I) as Hinv.
  destruct (set_extranonce b s) as [rc s'] eqn:E. cbn [fst snd] in Hinv. revert E. unfold set_extranonce.
  pose proof (json_hex_ok b (str "params[0]") (extra1 (ex s)) 32 32) as Hh.
  destruct (json_hex _ _ _ _) as [k a]. destruct I as [[Ae Aw As] _ _].
  destruct (Hh (ok_extra1 _ Ae)) as [Ba _]. cbn [snd] in Ba.
  assert (arrays_ok (set_ex (Extra a (extra1_size (ex s)) (extra2 (ex s)) (extra2_size (ex s))
    (extra2_hex (ex s))) s)) as A1 by (split; [by destruct Ae; split|done|done]).
  case_bool_decide; [by intros [= <- <-]|]. destruct (json_u32 _ _) as [count|]; [|by intros [= <- <-]].
  destruct (bool_decide _ || bool_decide _); [by intros [= <- <-]|].
  match goal with |- context [stop ?s0] => pose proof (moved_quiet _ _ _ (stop_spec s0)) as Q2;
    revert Q2; generalize (stop s0) end.
  intros s2 Q2 [= <- <-]. specialize (Hinv eq_refl). split; [apply Hinv|]. done.
Qed.

Lemma notify_quiet b s : session_inv s → quiet s (snd (notify b s)).
Proof.
  intros I. unfold notify. destruct (subscribed (fl s)) eqn:Hsub; cbn [negb]; [|done].
  pose proof (moved_quiet _ _ _ (stop_spec s)) as Q1. pose proof (inv_stop s I) as I1.
  revert Q1 I1. generalize (stop s). intros s1 Q1 I1.
  pose proof (read_job_spec b (set_have_job false s1) (ok_job _ (arr_wk _ (inv_arrays _ I1)))) as Hread.
  destruct (read_job b (set_have_job false s1)) as [failed s2].
  destruct Hread as [(Ef & Ee & Es & Ess & Ewd & _) _].
  assert (quiet s s2) as Q2 by (etransitivity; [exact Q1|]; unfold quiet; by rewrite Ewd, Ef).
  destruct failed; [done|]. destruct (telemetry_job _ _) as [number tel].
  match goal with |- quiet _ (snd (if _ then build_header ?s3 else _)) =>
    assert (quiet s s3) as Q3 by exact Q2; pose proof (build_header_quiet s3) as Q4 end.
  destruct (authorized _); [by etransitivity|done].
Qed.

Lemma set_difficulty_quiet b s : quiet s (snd (set_difficulty b s)).
Proof.
  unfold set_difficulty. destruct (JSON_SearchConst _ _) as [v t| |]; [|done..].
  destruct t; try done. by destruct (bitcoin_target v).
Qed.

Lemma notification_spec b s :
  session_inv s → conversation s → let '(rc, s') := notification b s in outcome rc s'.
Proof.
  intros I C.
  assert (∀ rc s', session_inv s' → quiet s s' → outcome rc s') as Hq.
  { intros rc s' I' Hq. apply outcome_inv; [done|]. by rewrite <-(quiet_silent _ _ Hq). }
  unfold notification. destruct (json_string _ _ _) as [method|]; [|by apply Hq].
  case_bool_decide.
  { pose proof (inv_set_difficulty b s I). pose proof (set_difficulty_quiet b s).
    destruct (set_difficulty b s). by apply Hq. }
  case_bool_decide.
  { pose proof (set_extranonce_spec b s I) as Hs. destruct (set_extranonce b s) as [rc s'].
    destruct Hs as (A & Hs & Hi). assert (conversation s') as C' by (by rewrite <-(quiet_silent _ _ Hs)).
    split; [done|]. split; [|auto]. apply quiet_silent in Hs. rewrite <-Hs.
    apply conversation_broken; [apply I|done]. }
  case_bool_decide; [by apply Hq|].
  pose proof (inv_notify b s I). pose proof (notify_quiet b s I). destruct (notify b s). by apply Hq.
Qed.

(** Before authorization only the opening has been sent. *)
Lemma conversation_opening s :
  conversation s → authorized (fl s) = false →
  w_sent (wd s) = opening (session s) (subscribed (fl s)) false ∧ next_id (sh s) = 4.
Proof. intros (xs & E & Hn & Hx) Ha. rewrite (Hx Ha), Ha in *. cbn in Hn. by rewrite app_nil_r in E. Qed.

Lemma conversation_start s :
  w_sent (wd s) = opening (session s) (subscribed (fl s)) (authorized (fl s)) → next_id (sh s) = 4 →
  conversation s.
Proof. intros E Hn. exists []. by rewrite E, app_nil_r. Qed.

Lemma broken_opening s sub auth :
  w_sent (wd s) `prefix_of` opening (session s) sub auth → (auth = true → sub = true) → broken s.
Proof.
  intros Hp Hf. exists sub, auth, [], no_share. split; [by apply prefix_app_r|]. split; [done|by exists 4].
Qed.

(** A line of the opening goes out on a state whose flags announce it. *)
Lemma send_opening line s :
  session_inv s → next_id (sh s) = 4 →
  w_sent (wd s) ++ line = opening (session s) (subscribed (fl s)) (authorized (fl s)) →
  let '(failed, s') := send_line send line s in
  session_inv s' ∧ broken s' ∧ (failed = false → conversation s') ∧ fl s' = fl s.
Proof.
  intros I Hn Hop. pose proof (send_line_spec send line s) as Hs. destruct (send_line send line s) as [failed s'].
  destruct Hs as (W & _ & p & E & Hp & Hfull). pose proof W as (Ef & _ & _ & Esh & Ess & _).
  split; [by eapply inv_world_step|]. split_and!; [| |done].
  - apply (broken_opening s' (subscribed (fl s)) (authorized (fl s))); [|apply I].
    rewrite E, Ess, <-Hop. by apply prefix_app.
  - intros Hf. apply conversation_start; [|by rewrite Esh]. by rewrite E, (Hfull Hf), Ess, Ef.
Qed.

Lemma reply_subscribe_spec b s :
  session_inv s → conversation s → let '(rc, s') := reply_subscribe send b s in outcome rc s'.
Proof.
  intros I C. unfold reply_subscribe. destruct (subscribed (fl s)) eqn:Hsub; [by apply outcome_inv|].
  pose proof (json_hex_ok b (str "result[1]") (extra1 (ex s)) 32 32) as Hh.
  destruct (json_hex _ _ _ _) as [k a]. cbn [fst snd] in Hh.
  pose proof I as [[Ae Aw As] [F1 F2 F3] _]. destruct (Hh (ok_extra1 _ Ae)) as [Ba Hk].
  assert (authorized (fl s) = false) as Ha by (destruct (authorized (fl s)); [|done]; specialize (F1 eq_refl); congruence).
  assert (running (fl s) = false) as Hr by (destruct (running (fl s)); [|done]; destruct (F2 eq_refl); congruence).
  assert (∀ n1 n2 sub, (n1 <= 32)%nat → (n2 <= 16)%nat →
    session_inv (set_fl (Flags sub (authorized (fl s)) (have_job (fl s)) (running (fl s)) (extra_exhausted (fl s)))
      (set_ex (Extra a n1 (extra2 (ex s)) n2 (extra2_hex (ex s))) s))) as Hinv.
  { intros n1 n2 sub H1 H2. split.
    - split; [|done|done]. destruct Ae. by split.
    - split; proj; [congruence|congruence|done].
    - proj. congruence. }
  destruct (ok_extra_sizes _ Ae) as [S1 S2].
  assert (∀ rc, outcome rc (set_ex (Extra a (extra1_size (ex s)) (extra2 (ex s)) (extra2_size (ex s))
    (extra2_hex (ex s))) s)) as Hfail.
  { intros rc. specialize (Hinv _ _ false S1 S2). apply outcome_inv; [|exact C].
    destruct Hinv as [[A1 A2 A3] _ _]. split; [split; [exact A1|exact A2|exact A3]| |proj; congruence].
    split; proj; [exact F1|congruence|exact F3]. }
  case_bool_decide; [apply Hfail|]. destruct (json_u32 _ _) as [count|] eqn:Hc; [|apply Hfail].
  destruct (bool_decide_reflect (count = 0)); cbn [orb]; [apply Hfail|]. case_bool_decide; [apply Hfail|].
  apply json_u32_range in Hc. proj.
  specialize (Hinv (Z.to_nat k) (Z.to_nat count) true ltac:(lia) ltac:(lia)).
  destruct (conversation_opening s C Ha) as [Eo En].
  match goal with |- context [send_line send ?line ?s2] =>
    pose proof (send_opening line s2 Hinv En) as Hsend; destruct (send_line send line s2) as [failed s3] end.
  destruct Hsend as (I3 & B3 & C3 & _).
  { proj. rewrite Eo, Hsub, Ha. unfold opening. cbn [app]. by rewrite !app_nil_r. }
  split; [apply I3|]. split; [done|]. destruct failed; [done|]. auto.
Qed.

Lemma reply_authorize_spec b s :
  session_inv s → conversation s → let '(rc, s') := reply_authorize send b s in outcome rc s'.
Proof.
  intros I C. unfold reply_authorize. destruct (subscribed (fl s)) eqn:Hsub; cbn [negb orb]; [|by apply outcome_inv].
  destruct (authorized (fl s)) eqn:Ha; [by apply outcome_inv|].
  destruct (json_true _ _); cbn [negb].
  2: { apply outcome_inv; [eapply inv_world_step; [exact I|apply tell_step]|exact C]. }
  set (s1 := tell _ _). pose proof I as [A [F1 F2 F3] W].
  assert (running (fl s) = false) as Hr by (destruct (running (fl s)); [|done]; destruct (F2 eq_refl); congruence).
  assert (session_inv s1) as I1.
  { eapply inv_world_step; [|apply tell_step]. split; [by destruct A| |proj; congruence].
    split; proj; [done|congruence|exact F3]. }
  destruct (conversation_opening s C Ha) as [Eo En].
  pose proof (send_opening suggest_text s1 I1 En) as Hsend.
  destruct (send_line send suggest_text s1) as [failed s2].
  destruct Hsend as (I2 & B2 & C2 & Ef).
  { unfold s1. proj. rewrite Eo, Hsub. unfold opening. by rewrite app_nil_r, <-app_assoc. }
  destruct failed; [split; [apply I2|done]|]. specialize (C2 eq_refl).
  destruct (have_job (fl s2)) eqn:Hj; [|by apply outcome_inv].
  pose proof (inv_build_header s2 I2) as I3. pose proof (build_header_quiet s2) as Q3.
  destruct (build_header s2) as [rc s3]. cbn [snd] in *.
  apply outcome_inv; [apply I3; [rewrite Ef; exact Hr|done|by rewrite Ef]|].
  by rewrite <-(quiet_silent _ _ Q3).
Qed.

Lemma settle_step b id k i s : result_step s (settle b id k i s) ∧ silent s (settle b id k i s).
Proof.
  revert i. induction k as [|k IH]; intros i; cbn [settle]; [done|].
  destruct (pending (sh s) !! i) as [p|] eqn:Hp; [|done].
  destruct (bool_decide _ && bool_decide _); [|apply IH]. split; [|done].
  split_and!; try done. intros Hx. proj. apply (shares_update _ i p); auto.
Qed.

Lemma handle_line_spec b s :
  session_inv s → conversation s → let '(rc, s') := handle_line send b s in outcome rc s'.
Proof.
  intros I C. unfold handle_line. destruct (JSON_Validate b); cbn [negb]; [|by apply outcome_inv].
  assert (let '(rc, s') := reply send b s in outcome rc s') as Hreply.
  { unfold reply. destruct (json_u32 _ _) as [id|]; [|by apply outcome_inv].
    case_bool_decide; [by apply reply_subscribe_spec|]. case_bool_decide; [by apply reply_authorize_spec|].
    destruct (settle_step b id 8 0 s) as [R Hs]. apply outcome_inv; [by eapply inv_result_step|].
    by rewrite <-Hs. }
  destruct (JSON_SearchConst _ _) as [v t| |]; [by apply notification_spec|done|done].
Qed.
End conversation.
