(* ===== verification/StratumTask.v ===== *)
(** * The task of the Stratum client (stratum_task) and its guarantees

    The endless loop of the task as a step relation between phases, the
    invariant of its reachable states, and the claims on the client. *)
From stdpp Require Import relations.
From S2P Require Import Prelude Fips180 Sha256 Bitcoin Target Settings Bus Json Ina700 Protocol Telemetry Stratum StratumInv Session.
Local Open Scope cword_scope.

(** ** The task *)
Section task.
Context {Q : Type} `{Queue Q} `{JsonLibrary}.
Context (dev : device) (send : list Z → list Z → Z) (ticks : world Q → Z).
Implicit Types s : stratum Q.

(** The static variables before the first [stop]. *)
Definition static_job : pool_job :=
  PoolJob [] [] 0 (replicate 32 0) (replicate 4 0) (replicate 4 0) (replicate (Z.to_nat 4096) 0)
    (replicate (Z.to_nat 4096) 0) (replicate 32 (replicate 32 0)) 0 0 0 (replicate 8 0).
Definition static_state (st : miner_settings) (w : world Q) : stratum Q :=
  Stratum (Flags false false false false false)
    (Extra (replicate 32 0) 0 (replicate 16 0) 0 (replicate 33 0))
    (Work static_job (replicate 80 0) (replicate 8 0) 0)
    (Shares 0 (replicate 8 (Pending 0 0 no_event))) st w.

(** Between sessions, inside the inner loop, and after it. *)
Inductive phase :=
  | Idle (s : stratum Q)
  | Active (started : Z) (line : list Z) (last : Z) (s : stratum Q)
  | Closing (s : stratum Q).

Definition task_state (p : phase) : stratum Q :=
  match p with Idle s => s | Active _ _ _ s => s | Closing s => s end.

(** [session.host[0]&&session.worker[0]] *)
Definition configured s : bool :=
  negb (bool_decide (host (session s) !!! 0%nat = 0)) && negb (bool_decide (worker (session s) !!! 0%nat = 0)).

(** The environment decides whether the network is up, the name resolves, a
    socket is available, the peer accepts and what it sends, and when the
    settings change. *)
Inductive task_step : phase → phase → Prop :=
  | Wait s st :
      task_step (Idle s) (Idle (delay_ticks (pdMS_TO_TICKS 1000) (take_settings st s)))
  | NoName s st :
      configured (take_settings st s) = true →
      task_step (Idle s)
        (Idle (delay_ticks (pdMS_TO_TICKS 5000) (tell "pool_dns_failed" (take_settings st s))))
  | Refused s st :
      configured (take_settings st s) = true →
      task_step (Idle s) (Closing (session_begin (take_settings st s)))
  | Unheard s st s' :
      configured (take_settings st s) = true →
      send_line send subscribe_text (session_begin (take_settings st s)) = (true, s') →
      task_step (Idle s) (Closing s')
  | Connect s st s' :
      configured (take_settings st s) = true →
      send_line send subscribe_text (session_begin (take_settings st s)) = (false, s') →
      let s'' := tell "pool_connected" s' in
      task_step (Idle s) (Active (ticks (wd s'')) [] (ticks (wd s'')) s'')
  | Iterate r started line last s line' last' s' :
      iteration dev send ticks r started line last s = (false, line', last', s') →
      task_step (Active started line last s) (Active started line' last' s')
  | Break r started line last s line' last' s' :
      iteration dev send ticks r started line last s = (true, line', last', s') →
      task_step (Active started line last s) (Closing s')
  | Leave started line last s :
      task_step (Active started line last s) (Closing s)
  | Close s :
      task_step (Closing s) (Idle (session_end s)).

Definition task_start (st : miner_settings) (w : world Q) : phase := Idle (stop (static_state st w)).
Definition reachable (p : phase) : Prop := ∃ st w, rtc task_step (task_start st w) p.

(** ** The invariant *)

Definition phase_ok (p : phase) : Prop :=
  match p with
  | Idle s => arrays_ok s ∧ running (fl s) = false ∧ have_job (fl s) = false
  | Active _ line _ s => session_inv s ∧ conversation s ∧ (length line <= LINE_MAX)%nat
  | Closing s => arrays_ok s ∧ broken s
  end.

Lemma zeros_ok n : bytes_n n (replicate n 0).
Proof. split; [apply length_replicate|]. apply Forall_replicate. unfold in_bits. lia. Qed.

Lemma static_arrays st w : arrays_ok (static_state st w).
Proof.
  split.
  - split; [apply zeros_ok|apply zeros_ok|simpl; lia|done].
  - split; [|apply zeros_ok|split; [done|]; apply Forall_replicate; unfold in_bits; lia].
    split; cbn [static_state wk job static_job j_prev j_version j_bits j_coin1 j_coin2 j_branches j_n1 j_n2 j_nb j_target];
      try apply zeros_ok; [|lia|split; [done|]; apply Forall_replicate; unfold in_bits; lia].
    split; [done|]. apply Forall_replicate, zeros_ok.
  - split; [done|done|apply Forall_replicate; by left|].
    intros i j p q [-> _]%lookup_replicate [-> _]%lookup_replicate. done.
Qed.

Lemma session_end_ok s :
  arrays_ok s → arrays_ok (session_end s) ∧ running (fl (session_end s)) = false ∧
  have_job (fl (session_end s)) = false.
Proof.
  intros [Ae Aw As]. unfold session_end. destruct (stop_spec s) as (Ef & Ee & Ew & Es & _).
  revert Ef Ee Ew Es. generalize (stop s). intros s' Ef Ee Ew Es.
  unfold delay_ticks. proj. rewrite Ef. split; [|done]. split; proj; [rewrite Ee|rewrite Ew|rewrite Es]; done.
Qed.

Lemma session_begin_inv s :
  arrays_ok s → session_inv (session_begin s) ∧ next_id (sh (session_begin s)) = 4 ∧
  w_sent (wd (session_begin s)) = [].
Proof.
  intros [Ae [Aj Ah Ap] As]. split; [|done]. split; [|done|done]. split.
  - destruct Ae. split; try done. apply zeros_ok.
  - split; [done|done|]. unfold session_begin. proj.
    destruct (bitcoin_target (str "1")) as [t|] eqn:Et; [|done]. by eapply bitcoin_target_words.
  - split; [done|done|apply Forall_replicate; by left|].
    intros i j p q [-> _]%lookup_replicate [-> _]%lookup_replicate. done.
Qed.

(** The subscription opens the conversation. *)
Lemma subscribe_spec s :
  arrays_ok s → let '(failed, s') := send_line send subscribe_text (session_begin s) in
  session_inv s' ∧ broken s' ∧ (failed = false → conversation s').
Proof.
  intros A. destruct (session_begin_inv s A) as (I & Hn & Hs).
  pose proof (send_opening send subscribe_text (session_begin s) I Hn) as Hop. rewrite Hs in Hop.
  specialize (Hop eq_refl). destruct (send_line send subscribe_text (session_begin s)). tauto.
Qed.

Lemma feed_spec chunk line last s :
  session_inv s → conversation s → (length line <= LINE_MAX)%nat →
  let '(bad, line', last', s') := feed send ticks chunk line last s in
  outcome (if bad then -1 else 0) s' ∧ (length line' <= LINE_MAX)%nat.
Proof.
  revert line last s. induction chunk as [|c chunk IH]; intros line last s I C Hl; cbn [feed];
    [split; [by apply outcome_inv|done]|].
  assert (∀ s, session_inv s → conversation s →
    let '(bad, line', last', s') := feed send ticks chunk [] (ticks (wd s)) s in
    outcome (if bad then -1 else 0) s' ∧ (length line' <= LINE_MAX)%nat) as Hnext
    by (intros; apply IH; [done|done|simpl; lia]).
  case_bool_decide.
  - case_bool_decide; [|by apply Hnext]. pose proof (handle_line_spec send line s I C) as Hh.
    destruct (handle_line send line s) as [rc s1]. destruct Hh as (A1 & B1 & Hok).
    case_bool_decide as Hrc; [by split|]. assert (rc = 0) as -> by lia. by apply Hnext; try apply Hok.
  - case_bool_decide; [|split; [by apply outcome_inv|done]]. apply IH; [done|done|].
    rewrite length_app. simpl. lia.
Qed.

Lemma timeout_slot_step now i b s :
  result_step s (snd (timeout_slot now i (b, s))) ∧ silent s (snd (timeout_slot now i (b, s))).
Proof.
  unfold timeout_slot. destruct (pending (sh s) !! i) as [p|] eqn:Hp; [|done].
  destruct (bool_decide _ && bool_decide _); [|done]. split; [|done].
  split_and!; try done. intros Hx. cbn [snd]. proj. apply (shares_update _ i p); auto.
Qed.

Lemma timeouts_step now n s :
  let '(bad, s') := for_loop 0 n (timeout_slot now) (false, s) in result_step s s' ∧ silent s s'.
Proof.
  induction n as [|n IH]; [done|]. rewrite for_loop_S.
  destruct (for_loop 0 n (timeout_slot now) (false, s)) as [b s1].
  destruct (timeout_slot_step now (0 + n) b s1) as [R1 S1].
  destruct (timeout_slot now (0 + n) (b, s1)) as [b2 s2]. cbn [snd] in *. destruct IH.
  split; by etransitivity.
Qed.

(** Shares sent continue the conversation, or break it off. *)
Lemma sends_outcome failed s s' :
  session_inv s → conversation s → authorized (fl s) = true → sends_shares s failed s' →
  session s' = session s → subscribed (fl s') = subscribed (fl s) → authorized (fl s') = authorized (fl s) →
  broken s' ∧ (failed = false → conversation s').
Proof.
  intros I C Ha (xs & p & n & Hs & _ & Hnum & Hok & Hp) Ess Esub Eau. destruct C as (ys & E & Hn & _).
  assert (my_worker s' = my_worker s) as Ew by (unfold my_worker; by rewrite Ess).
  assert (numbered 4 (ys ++ xs) n) as Hall by (by eapply numbered_app).
  unfold sends in Hs. rewrite E, <-app_assoc, (app_assoc (texts _ ys)), <-texts_app in Hs. split.
  - eapply (broken_intro s' (subscribed (fl s)) (authorized (fl s)) (ys ++ xs) _ p);
      [by rewrite Hs, Ew, Ess|apply I|done|]. rewrite Ew. destruct Hp as [?|(x & _ & ?)]; eauto.
  - intros ->. destruct (Hok eq_refl) as [-> En]. rewrite app_nil_r in Hs. exists (ys ++ xs).
    rewrite Hs, Ew, Ess, Esub, Eau, En. split_and!; [done|done|congruence].
Qed.

Lemma service_outcome s :
  session_inv s → conversation s →
  let '(rc, s') := service_results dev send ticks s in
  session_inv s' ∧ broken s' ∧ (rc = 0 → conversation s').
Proof.
  intros I C. destruct (authorized (fl s)) eqn:Ha.
  2: { unfold service_results. destruct (running (fl s)) eqn:Hr.
       - destruct (run_job _ (inv_flags _ I) Hr). congruence.
       - split; [done|]. split; [by apply conversation_broken; [apply I|]|done]. }
  pose proof (service_results_spec dev send ticks s I) as Hs.
  destruct (service_results dev send ticks s) as [rc s']. destruct Hs as (I' & Hs & Ess & Esub & Eau). split; [done|].
  destruct (sends_outcome _ s s' I C Ha Hs Ess Esub Eau) as [B Hc]. split; [done|]. intros ->. by apply Hc.
Qed.

Lemma process_spec chunk started line last s :
  session_inv s → conversation s → (length line <= LINE_MAX)%nat →
  let '(brk, line', last', s') := process dev send ticks chunk started line last s in
  outcome (if brk then -1 else 0) s' ∧ (length line' <= LINE_MAX)%nat.
Proof.
  intros I C Hl. unfold process. pose proof (feed_spec chunk line last s I C Hl) as Hf.
  destruct (feed send ticks chunk line last s) as [[[bad line1] last1] s1].
  destruct Hf as [(A1 & B1 & Hok) Hl1].
  destruct bad; cbn [orb]; [by split|]. destruct (Hok eq_refl) as [I1 C1].
  destruct (_ || _); [split; [by apply outcome_inv|done]|].
  pose proof (service_outcome s1 I1 C1) as Hs. destruct (service_results dev send ticks s1) as [rc s2].
  destruct Hs as (I2 & B2 & C2). case_bool_decide as Hrc; [split; [|done]; split; [apply I2|done]|].
  assert (rc = 0) as -> by lia. specialize (C2 eq_refl).
  pose proof (timeouts_step (ticks (wd s1)) 8 s2) as Ht.
  destruct (for_loop 0 8 _ (false, s2)) as [bad s3]. destruct Ht as [R3 S3].
  split; [|done]. apply outcome_inv; [by eapply inv_result_step|by rewrite <-S3].
Qed.

Lemma iteration_spec r started line last s :
  session_inv s → conversation s → (length line <= LINE_MAX)%nat →
  let '(brk, line', last', s') := iteration dev send ticks r started line last s in
  outcome (if brk then -1 else 0) s' ∧ (length line' <= LINE_MAX)%nat.
Proof.
  intros I C Hl. destruct r as [chunk| |]; cbn [iteration]; [by apply process_spec..|].
  split; [by apply outcome_inv|done].
Qed.

Lemma task_step_ok p p' : phase_ok p → task_step p p' → phase_ok p'.
Proof.
  intros Hp Hst. destruct Hst as [s st|s st|s st|s st s' _ E|s st s' _ E|r t l u s l' u' s' E|r t l u s l' u' s' E|t l u s|s];
    cbn [phase_ok] in *.
  - destruct Hp as ([Ae Aw As] & ? & ?). split; [by split|done].
  - destruct Hp as ([Ae Aw As] & ? & ?). split; [by split|done].
  - destruct Hp as (A & _). destruct (session_begin_inv (take_settings st s)) as (I & _ & E); [by destruct A; split|].
    split; [apply I|]. apply (broken_opening _ false false); [|done]. rewrite E. apply prefix_nil.
  - destruct Hp as (A & _). pose proof (subscribe_spec (take_settings st s)) as Hs. rewrite E in Hs.
    destruct Hs as (I & B & _); [by destruct A; split|]. split; [apply I|done].
  - destruct Hp as (A & _). pose proof (subscribe_spec (take_settings st s)) as Hs. rewrite E in Hs.
    destruct Hs as (I & _ & C); [by destruct A; split|].
    split; [eapply inv_world_step; [exact I|apply tell_step]|]. split; [exact (C eq_refl)|simpl; lia].
  - destruct Hp as (I & C & Hl). pose proof (iteration_spec r t l u s I C Hl) as Hi. rewrite E in Hi.
    destruct Hi as [(_ & _ & Hok) Hl']. by destruct (Hok eq_refl).
  - destruct Hp as (I & C & Hl). pose proof (iteration_spec r t l u s I C Hl) as Hi. rewrite E in Hi.
    by destruct Hi as [(A & B & _) _].
  - destruct Hp as (I & C & Hl). split; [apply I|]. by apply conversation_broken; [apply I|].
  - apply session_end_ok, Hp.
Qed.

Lemma task_start_ok st w : phase_ok (task_start st w).
Proof.
  pose proof (static_arrays st w) as [Ae Aw As]. cbn [phase_ok task_start].
  assert (have_job (fl (static_state st w)) = false) as Hj by done. revert Ae Aw As Hj.
  generalize (static_state st w). intros s Ae Aw As Hj. destruct (stop_spec s) as (-> & Ee & Ew & Es & _).
  split; [split; congruence|done].
Qed.

Lemma reachable_ok p : reachable p → phase_ok p.
Proof.
  intros (st & w & Hr). remember (task_start st w) as p0 eqn:E0. pose proof (task_start_ok st w) as Hstart.
  rewrite <-E0 in Hstart. clear E0. induction Hr as [|p0 p1 p2 Hst _ IH]; [done|]. apply IH. by eapply task_step_ok.
Qed.
End task.

(** ** Timeouts *)
Section timeouts.
Context {Q : Type} `{Queue Q} `{JsonLibrary}.
Context (dev : device) (send : list Z → list Z → Z) (ticks : world Q → Z).
Implicit Types s : stratum Q.

Definition fresh (now : Z) (p : pending_share) : Prop := p_id p ≠ 0 → now -32 p_sent p <= pdMS_TO_TICKS 30000.

(** A slot the loop does not report is free or recent, and is left alone. *)
Lemma timeout_slot_false now i b s s' :
  timeout_slot now i (b, s) = (false, s') →
  b = false ∧ s' = s ∧ (∀ p, pending (sh s) !! i = Some p → fresh now p).
Proof.
  unfold timeout_slot. destruct (pending (sh s) !! i) as [p|]; [|intros [= -> ->]; done].
  destruct (bool_decide_reflect (p_id p ≠ 0)) as [Hz|Hz]; cbn [andb].
  - case_bool_decide as Ht; [done|]. intros [= -> ->]. split_and!; try done.
    intros ? [= <-] _. lia.
  - intros [= -> ->]. split_and!; try done. by intros ? [= <-] ?.
Qed.

Lemma timeouts_false now n s s' :
  for_loop 0 n (timeout_slot now) (false, s) = (false, s') →
  s' = s ∧ ∀ i p, (i < n)%nat → pending (sh s) !! i = Some p → fresh now p.
Proof.
  revert s'. induction n as [|n IH]; intros s'; [intros [= ->]; split; [done|]; intros; lia|].
  rewrite for_loop_S. destruct (for_loop 0 n (timeout_slot now) (false, s)) as [b s1] eqn:E.
  intros (-> & -> & Hn)%timeout_slot_false. destruct (IH _ eq_refl) as [-> Hi]. split; [done|].
  intros i p Hlt Hp. destruct (decide (i = n)) as [->|]; [by apply Hn|]. apply (Hi i p); [lia|done].
Qed.

Lemma process_continues chunk started line last s line' last' s' :
  process dev send ticks chunk started line last s = (false, line', last', s') →
  ∃ s1, feed send ticks chunk line last s = (false, line', last', s1) ∧
    let now := ticks (wd s1) in
    (authorized (fl s1) = true ∨ now -32 started <= pdMS_TO_TICKS 15000) ∧
    now -32 last' <= pdMS_TO_TICKS 120000 ∧
    fst (service_results dev send ticks s1) = 0 ∧
    ∀ i p, (i < 8)%nat → pending (sh s') !! i = Some p → fresh now p.
Proof.
  unfold process. destruct (feed send ticks chunk line last s) as [[[bad line1] last1] s1].
  destruct (bad || _ || _) eqn:Hg; [done|]. apply orb_false_elim in Hg as [[-> Ha]%orb_false_elim Hl].
  apply bool_decide_eq_false in Hl. destruct (service_results dev send ticks s1) as [rc s2] eqn:Es.
  destruct (bool_decide_reflect (rc ≠ 0)) as [|Hrc]; [done|].
  destruct (for_loop 0 8 _ (false, s2)) as [bad s3] eqn:Et. intros [= -> -> -> ->]. exists s1. split; [done|]. cbv zeta. split_and!; [|lia|rewrite Es; cbn; lia|].
  - destruct (authorized (fl s1)); [by left|right]. cbn [negb andb] in Ha. apply bool_decide_eq_false in Ha. lia.
  - apply timeouts_false in Et as [-> Hi]. exact Hi.
Qed.
End timeouts.

(** ** Extranonces *)
Section extranonces.
Context {Q : Type} `{Queue Q}.
Implicit Types s : stratum Q.

(** Headers for a sequence of jobs: the extranonce texts used, or [None] when
    a header could not be built. *)
Fixpoint build_headers (js : list pool_job) s : option (list (list Z) * stratum Q) :=
  match js with
  | [] => Some ([], s)
  | j :: js =>
      let '(rc, s) := build_header (set_job j s) in
      if bool_decide (rc = 0) then
        '(xs, s') ← build_headers js s; Some (cstr (extra2_hex (ex s)) :: xs, s')
      else None
  end.

Definition counter s : Z := Fips.be_value (take (extra2_size (ex s)) (extra2 (ex s))) 0.
Definition usable_job (j : pool_job) : Prop := job_ok j ∧ length (j_time j) = 8%nat.

(** One header: it uses the counter's value, and the counter moves on or the
    space is used up. *)
Lemma build_header_counter j s s' :
  arrays_ok s → usable_job j → (0 < extra2_size (ex s))%nat → build_header (set_job j s) = (0, s') →
  arrays_ok s' ∧ extra2_size (ex s') = extra2_size (ex s) ∧ extra_exhausted (fl s) = false ∧
  cstr (extra2_hex (ex s')) = to_hex (Fips.be_bytes (extra2_size (ex s)) (counter s)) ∧
  (extra_exhausted (fl s') = false → counter s' = counter s + 1).
Proof.
  intros A [Hj Ht] Hn E.
  assert (arrays_ok (set_job j s)) as A1 by (destruct A as [? [? ? ?] ?]; split; [done|by split|done]).
  pose proof (build_header_inv (set_job j s) A1 Ht) as Hb. rewrite E in Hb.
  destruct Hb as (A2 & _ & _ & _ & _ & _ & _ & _ & En & [[? _]|(_ & Hx & (x & Ef & Hi) & time & Hw)]); [done|].
  proj in *. split_and!; try done.
  - destruct Hw as (_ & -> & _). proj. f_equal. unfold counter.
    destruct (arr_ex _ A) as [_ [L2 B2] [_ S2] _].
    pose proof (be_bytes_value (take (extra2_size (ex s)) (extra2 (ex s))) ltac:(by apply Forall_take)) as Eb.
    rewrite length_take, Nat.min_l in Eb by lia. done.
  - destruct (arr_ex _ A) as [_ [L2 B2] [_ S2] _].
    pose proof (increment_spec (extra2_size (ex s)) (extra2 (ex s)) ltac:(lia) B2) as Hinc.
    rewrite Hi in Hinc. rewrite Ef. proj. intros ->. unfold counter. rewrite En. by apply Hinc.
Qed.

Lemma build_header_exhausted s : extra_exhausted (fl s) = true → build_header s = (-1, s).
Proof. intros E. unfold build_header. by rewrite E. Qed.

Lemma build_headers_open js s x : js ≠ [] → build_headers js s = Some x → extra_exhausted (fl s) = false.
Proof.
  destruct js as [|j js]; [done|]. intros _. cbn [build_headers].
  destruct (extra_exhausted (fl s)) eqn:Hx; [|done].
  by rewrite (build_header_exhausted (set_job j s)).
Qed.

Lemma counter_bound s : arrays_ok s → 0 <= counter s < 256 ^ Z.of_nat (extra2_size (ex s)).
Proof.
  intros A. destruct (arr_ex _ A) as [_ [L2 B2] [_ S2] _].
  pose proof (be_value_bound (take (extra2_size (ex s)) (extra2 (ex s)))) as Hb. revert Hb.
  rewrite length_take, Nat.min_l by lia. intros Hb. apply Hb. by apply Forall_take.
Qed.

Lemma build_headers_counter js s xs s' :
  arrays_ok s → Forall usable_job js → (0 < extra2_size (ex s))%nat →
  build_headers js s = Some (xs, s') →
  xs = (λ i, to_hex (Fips.be_bytes (extra2_size (ex s)) (counter s + Z.of_nat i))) <$> seq 0 (length js) ∧
  counter s + Z.of_nat (length js) <= 256 ^ Z.of_nat (extra2_size (ex s)).
Proof.
  revert s xs. induction js as [|j js IH]; intros s xs A Hjs Hn; cbn [build_headers].
  { intros [= <- <-]. pose proof (counter_bound s A). split; [done|simpl; lia]. }
  apply Forall_cons in Hjs as [Hj Hjs]. destruct (build_header (set_job j s)) as [rc s1] eqn:E.
  case_bool_decide as Hrc; [subst rc|done].
  destruct (build_header_counter j s s1 A Hj Hn E) as (A1 & En & _ & Hc & Hnext).
  destruct (build_headers js s1) as [[ys s2]|] eqn:Eb; [|done]. cbn [mbind option_bind]. intros [= <- <-].
  pose proof (counter_bound s A) as Hbound. destruct (IH s1 ys A1 Hjs ltac:(lia) Eb) as [-> Hle].
  rewrite Hc, En in *. cbn [length]. rewrite <-cons_seq, fmap_cons, Z.add_0_r.
  destruct (decide (js = [])) as [->|Hne]; [split; [done|simpl; lia]|].
  rewrite (Hnext (build_headers_open _ _ _ Hne Eb)) in *. split; [|lia]. f_equal.
  rewrite <-fmap_S_seq, <-list_fmap_compose. apply list_fmap_ext. intros i x _. cbn [compose].
  do 2 f_equal. lia.
Qed.

(** Distinct counter values give distinct texts. *)
Lemma to_hex_counter_inj n a b :
  0 <= a < 256 ^ Z.of_nat n → 0 <= b < 256 ^ Z.of_nat n →
  to_hex (Fips.be_bytes n a) = to_hex (Fips.be_bytes n b) → a = b.
Proof.
  intros Ha Hb E. assert (Some (Fips.be_bytes n a) = Some (Fips.be_bytes n b)) as [= E'].
  { rewrite <-!hex_pairs_to_hex by apply be_bytes_bytes. by rewrite E. }
  apply (f_equal (λ l, Fips.be_value l 0)) in E'. rewrite !be_value_bytes, !Z.mod_small in E' by lia. done.
Qed.
End extranonces.

(** ** A concrete run: subscribe, authorize, difficulty, job, one result *)
Module Run.
(** A library that knows five lines by their only character. *)
Definition answers : list (Z * list (list Z * json_search)) :=
  let text q v := (str q, JSONSuccess (str v) JSONString) in
  let number q v := (str q, JSONSuccess (str v) JSONNumber) in
  let other q t := (str q, JSONSuccess [] t) in
  [(49, [number "id" "1"; text "result[1]" "f000"; number "result[2]" "4"]);
   (50, [number "id" "2"; other "result" JSONTrue]);
   (51, [text "method" "mining.set_difficulty"; number "params[0]" "1e-20"]);
   (52, [text "method" "mining.notify"; text "params[0]" "job7";
         text "params[1]" "00112233445566778899aabbccddeeff00112233445566778899aabbccddeeff";
         text "params[2]" "01"; text "params[3]" "02"; other "params[4]" JSONArray;
         text "params[5]" "20000000"; text "params[6]" "1d00ffff"; text "params[7]" "5f5e1000";
         other "params[8]" JSONTrue])]%string.
Definition answer (b q : list Z) : option json_search :=
  r ← list_find (λ x, fst x = b !!! 0%nat) answers;
  e ← list_find (λ x, fst x = q) (snd (snd r));
  Some (snd (snd e)).
#[global] Instance library : JsonLibrary := {
  JSON_Validate _ := true;
  JSON_SearchConst b q := default JSONNotFound (answer b q);
}.

(** The result FIFO holds one nonce until it is read. *)
Definition was_read (t : trace) : bool :=
  existsb (λ e, match e with In32 a _ => bool_decide (a = MINER + 0x90) | _ => false end) t.
Definition dev : device := λ t a,
  if bool_decide (a = MINER + 0x98) then (if was_read t then 0 else 1)
  else if bool_decide (a = MINER + 0x90) then 0x12345678 else 0.
Definition send (sent data : list Z) : Z := Z.of_nat (length data).
Definition ticks (w : world (list miner_event)) : Z := 0.

Definition world0 : world (list miner_event) := World [] [] (Telemetry example_stats (Some [])).
Definition idle : stratum (list miner_event) := stop (static_state example_settings world0).
Definition begun := session_begin (take_settings example_settings idle).
Definition connected := tell "pool_connected" (snd (send_line send subscribe_text begun)).
Definition lines : list Z := [49; 10; 50; 10; 51; 10; 52; 10].
(** The state when the results are first polled, and after the iteration. *)
Definition fed := snd (feed send ticks lines [] 0 connected).
Definition after := iteration dev send ticks (Bytes lines) 0 [] 0 connected.
End Run.

(** ** Claims *)

(** C2. Every reachable state of the client task is consistent.  Between
    sessions the miner is stopped and no job is held.  Inside a session the
    arrays are well formed, authorization follows subscription, the miner
    runs only on a held job of an authorized session, and while it runs the
    header in memory, the midstate, tail and target registers and the strings
    to be submitted all describe the same job and extranonce; no share id is
    pending twice; the line buffer is never overrun; and the bytes sent are
    exactly subscribe, then authorize, then suggest_difficulty, as far as the
    flags say, followed by submissions numbered 4, 5, 6 and so on.  A session
    that failed has sent a prefix of such a conversation. *)
Theorem session_reachable {Q} `{Queue Q} `{JsonLibrary} dev send ticks (p : phase) :
  reachable (Q := Q) dev send ticks p →
  match p with
  | Idle s => arrays_ok s ∧ running (fl s) = false ∧ have_job (fl s) = false
  | Active _ line _ s => session_inv s ∧ conversation s ∧ (length line <= LINE_MAX)%nat
  | Closing s => arrays_ok s ∧ broken s
  end.
Proof. apply reachable_ok. Qed.

(** The reachability of the example run, by its steps. *)
Lemma run_flags :
  fst (send_line Run.send subscribe_text Run.begun) = false ∧
  fst (fst (fst Run.after)) = false ∧ fst (fst (fst (feed Run.send Run.ticks Run.lines [] 0 Run.connected))) = false ∧
  running (fl Run.fed) = true ∧ running (fl (snd Run.after)) = true.
Proof. vm_compute. by repeat split. Qed.

Lemma run_connected_steps :
  rtc (task_step Run.dev Run.send Run.ticks) (task_start example_settings Run.world0) (Active 0 [] 0 Run.connected).
Proof.
  destruct run_flags as (Hs & _). eapply rtc_l; [|apply rtc_refl]. unfold Run.connected.
  apply (Connect Run.dev Run.send Run.ticks Run.idle example_settings); [reflexivity|].
  unfold Run.begun in *. by destruct (send_line _ _ _); cbn in *; subst.
Qed.

Lemma run_after_steps :
  rtc (task_step Run.dev Run.send Run.ticks) (task_start example_settings Run.world0)
    (Active 0 (snd (fst (fst Run.after))) (snd (fst Run.after)) (snd Run.after)).
Proof.
  destruct run_flags as (_ & Ha & _). eapply rtc_r; [exact run_connected_steps|].
  apply (Iterate _ _ _ (Bytes Run.lines)). revert Ha. unfold Run.after.
  destruct (iteration _ _ _ _ _ _ _ _) as [[[b l] t] s]. cbn. by intros ->.
Qed.

Lemma session_reachable_witness :
  running (fl (snd Run.after)) = true ∧ session_inv (snd Run.after) ∧ conversation (snd Run.after).
Proof.
  split; [exact (proj2 (proj2 (proj2 (proj2 run_flags))))|].
  destruct (session_reachable Run.dev Run.send Run.ticks _
    (ex_intro _ example_settings (ex_intro _ Run.world0 run_after_steps))) as (Hi & Hc & _).
  split; [exact Hi|exact Hc].
Defined.

(** C1. Only real proofs of work are submitted.  Whatever the mining hardware
    returns, everything [service_results] sends is a sequence of complete
    mining.submit lines with consecutive ids, possibly followed by the start
    of one more when the connection fails; and for each of them the header
    the pool rebuilds from the job, the extranonces, the time and the nonce
    of that line has a double SHA-256 that is, as a little-endian number, at
    most the job's target. *)
Theorem shares_valid {Q} `{Queue Q} `{JsonLibrary} dev send ticks (s : stratum Q) :
  session_inv s →
  let '(rc, s') := service_results dev send ticks s in
  ∃ xs p n, w_sent (wd s') = w_sent (wd s) ++ texts (my_worker s) xs ++ p ∧ Forall (good_share s) xs ∧
    numbered (next_id (sh s)) xs n ∧ (rc = 0 → p = [] ∧ next_id (sh s') = n) ∧
    (p = [] ∨ ∃ x, good_share s x ∧ p `prefix_of` share_text (my_worker s) x).
Proof.
  intros I. pose proof (service_results_spec dev send ticks s I) as Hs.
  destruct (service_results dev send ticks s) as [rc s'].
  destruct Hs as (_ & (xs & p & n & Hs & Hx & Hn & Hok & Hp) & _). exists xs, p, n.
  split_and!; try done. intros ->. by apply Hok.
Qed.

(** In the example run one share is found and submitted. *)
Lemma run_fed_inv : session_inv Run.fed.
Proof.
  destruct (reachable_ok Run.dev Run.send Run.ticks (Active 0 [] 0 Run.connected)) as (I & C & _);
    [by eexists _, _; apply run_connected_steps|].
  destruct run_flags as (_ & _ & Hf & _).
  pose proof (feed_spec Run.send Run.ticks Run.lines [] 0 Run.connected I C ltac:(simpl; lia)) as Hfeed.
  unfold Run.fed. destruct (feed _ _ _ _ _ _) as [[[bad l] t] s]. cbn in *. subst bad.
  by apply Hfeed.
Qed.

Definition polled := service_results Run.dev Run.send Run.ticks.

Lemma run_served : fst (polled Run.fed) = 0 ∧ w_sent (wd (snd (polled Run.fed))) ≠ w_sent (wd Run.fed).
Proof. by vm_compute. Qed.

Lemma share_found {Q} (s : stratum Q) (r : Z * stratum Q) :
  (let '(rc, s') := r in
   ∃ xs p n, w_sent (wd s') = w_sent (wd s) ++ texts (my_worker s) xs ++ p ∧ Forall (good_share s) xs ∧
     numbered (next_id (sh s)) xs n ∧ (rc = 0 → p = [] ∧ next_id (sh s') = n) ∧
     (p = [] ∨ ∃ x, good_share s x ∧ p `prefix_of` share_text (my_worker s) x)) →
  fst r = 0 → w_sent (wd (snd r)) ≠ w_sent (wd s) →
  ∃ x xs, Forall (good_share s) (x :: xs) ∧ w_sent (wd (snd r)) = w_sent (wd s) ++ texts (my_worker s) (x :: xs).
Proof.
  destruct r as [rc s']. cbn [fst snd]. intros (xs & p & n & E & Hx & _ & Hok & _) -> Hne.
  destruct (Hok eq_refl) as [-> _]. rewrite app_nil_r in E.
  destruct xs as [|x xs]; [|exists x, xs; split; [exact Hx|exact E]].
  destruct Hne. rewrite E. apply app_nil_r.
Qed.

Lemma shares_valid_witness :
  ∃ x xs, Forall (good_share Run.fed) (x :: xs) ∧
    w_sent (wd (snd (polled Run.fed))) = w_sent (wd Run.fed) ++ texts (my_worker Run.fed) (x :: xs).
Proof.
  generalize run_fed_inv (proj1 run_served) (proj2 run_served). generalize Run.fed. intros s I Hrc Hne.
  exact (share_found s (polled s) (shares_valid Run.dev Run.send Run.ticks s I) Hrc Hne).
Defined.

(** C4. Every header gets a fresh extranonce.  Headers built one after the
    other, for any jobs, use the consecutive values of the big-endian
    extranonce counter, so no two of them are the same; the counter never
    wraps: at most 256^size headers are built, and once the space is used up
    the next attempt fails and changes nothing. *)
Theorem extranonces_fresh {Q} `{Queue Q} (js : list pool_job) (s s' : stratum Q) xs :
  arrays_ok s → Forall usable_job js → (0 < extra2_size (ex s))%nat → build_headers js s = Some (xs, s') →
  xs = (λ i, to_hex (Fips.be_bytes (extra2_size (ex s)) (counter s + Z.of_nat i))) <$> seq 0 (length js) ∧
  NoDup xs ∧ counter s + Z.of_nat (length js) <= 256 ^ Z.of_nat (extra2_size (ex s)) ∧
  (extra_exhausted (fl s') = true → build_header s' = (-1, s')).
Proof.
  intros A Hjs Hn Hb. destruct (build_headers_counter js s xs s' A Hjs Hn Hb) as [-> Hle].
  pose proof (counter_bound s A) as Hc. split_and!; [done| |done|apply build_header_exhausted].
  apply NoDup_fmap_2_strong; [|apply NoDup_seq].
  intros i j Hi%elem_of_seq Hj%elem_of_seq E%to_hex_counter_inj; lia.
Qed.

(** Two headers for the job of the example run. *)
Lemma run_two_headers : ∃ xs s, build_headers [job (wk Run.fed); job (wk Run.fed)] Run.fed = Some (xs, s) ∧
  xs = [str "00000001"; str "00000002"].
Proof. eexists _, _. split; [vm_compute; reflexivity|done]. Qed.

Lemma running_job_usable {Q} (s : stratum Q) :
  session_inv s → running (fl s) = true → usable_job (job (wk s)).
Proof.
  intros I Hr. split; [apply I|]. apply (job_time _ (inv_flags _ I)). by apply (run_job _ (inv_flags _ I)).
Qed.

Lemma run_extra2_size : (0 < extra2_size (ex Run.fed))%nat.
Proof. vm_compute. lia. Qed.

Lemma extranonces_fresh_witness : NoDup [str "00000001"; str "00000002"].
Proof.
  generalize run_two_headers run_extra2_size run_fed_inv (proj1 (proj2 (proj2 (proj2 run_flags)))).
  generalize Run.fed. intros s0 (xs & s & E & Hx) Hn I Hr.
  pose proof (running_job_usable s0 I Hr) as Hj.
  destruct (extranonces_fresh _ s0 s xs (inv_arrays _ I)
    (Forall_cons_2 _ _ _ Hj (Forall_cons_2 _ _ _ Hj (Forall_nil_2 _))) Hn E) as (_ & Hd & _).
  rewrite Hx in Hd. exact Hd.
Defined.
