(* ===== verification/Silence.v ===== *)
(** * A silent pool is dropped

    The session loop of stratum.c with the clock moving on between its
    iterations: each has its own reading of [xTaskGetTickCount] and its own
    result of [FreeRTOS_recv].  As long as no complete line arrives, nothing
    resets a deadline of the loop, so the first iteration that finds one
    passed ends the session. *)
From S2P Require Import Prelude Fips180 Sha256 Bitcoin Target Settings Bus Json Ina700 Protocol Telemetry.
From S2P Require Import Stratum StratumInv StratumTask.
Local Open Scope cword_scope.

Section silence.
Context {Q : Type} `{Queue Q} `{JsonLibrary}.
Context (dev : device) (send : list Z → list Z → Z).
Implicit Types s : stratum Q.

(** Iterations until one breaks; [true] when one did. *)
Fixpoint run_session (rs : list ((world Q → Z) * received)) (started : Z) (line : list Z) (last : Z) s
    : bool * list Z * Z * stratum Q :=
  match rs with
  | [] => (false, line, last, s)
  | (ticks, r) :: rs =>
      let '(bad, line, last, s) := iteration dev send ticks r started line last s in
      if bad then (true, line, last, s) else run_session rs started line last s
  end.

(** No line is completed. *)
Definition silent (r : received) : Prop := match r with Bytes chunk => 10 ∉ chunk | _ => True end.

(** What the deadlines of the loop look at: the session is still not
    authorized, and a share that waits for its reply goes on waiting. *)
Definition awaits s s' : Prop :=
  authorized (fl s') = authorized (fl s) ∧
  ∀ i p, pending (sh s) !! i = Some p → p_id p ≠ 0 → pending (sh s') !! i = Some p.

#[global] Instance awaits_preorder : PreOrder awaits.
Proof. split; [done|]. intros s1 s2 s3 [E1 H1] [E2 H2]. split; [congruence|]. intros i p Hp Hn. auto. Qed.

Lemma awaits_same s s' : authorized (fl s') = authorized (fl s) → pending (sh s') = pending (sh s) → awaits s s'.
Proof. intros E1 E2. split; [done|]. by rewrite E2. Qed.

Lemma build_header_awaits s : awaits s (snd (build_header s)).
Proof.
  unfold build_header. destruct (extra_exhausted (fl s)); [done|]. destruct (hex_decode _ _ _) as [rc time].
  case_bool_decide; [done|]. rewrite program_work_eq. destruct (increment _ _) as [e2 x]. by apply awaits_same.
Qed.

Lemma reg_read_awaits a s : awaits s (snd (reg_read dev a s)).
Proof. by apply awaits_same. Qed.

Lemma send_line_awaits text s : awaits s (snd (send_line send text s)).
Proof. unfold send_line. destruct (send_loop _ _ _ _). by apply awaits_same. Qed.

(** A share takes a free slot. *)
Lemma free_slot_zero ps slot : free_slot ps = Some slot → ∃ p, ps !! slot = Some p ∧ p_id p = 0.
Proof.
  unfold free_slot. destruct (list_find _ (take 8 ps)) as [[i p]|] eqn:E; [|done]. intros [= <-].
  apply list_find_Some in E as (Hp & Hz & _). exists p. split; [|done]. by apply lookup_take_Some in Hp as [? _].
Qed.

Lemma submit_result_awaits ticks nonce s : awaits s (snd (submit_result send ticks nonce s)).
Proof.
  unfold submit_result. destruct (negb _); [by apply awaits_same|].
  destruct (free_slot _) as [slot|] eqn:Hf; [|by apply awaits_same]. case_bool_decide; [by apply awaits_same|].
  destruct (snprintf _ _) as [n request]. destruct (_ || _); [by apply awaits_same|].
  match goal with |- context [send_line send ?l ?s0] =>
    assert (awaits s s0) as A0 by (by apply awaits_same); pose proof (send_line_awaits l s0) as A1;
    destruct (send_line send l s0) as [failed s1] end.
  cbn [snd] in A1. assert (awaits s s1) as [A2 A3] by (by etransitivity). destruct failed; [done|]. cbn [snd].
  split; [done|]. proj. intros i p Hp Hn. rewrite list_lookup_insert_ne; [by apply A3|].
  intros <-. apply free_slot_zero in Hf as (p' & Hp' & Hz). proj in *. congruence.
Qed.

Lemma drain_awaits ticks k s : awaits s (snd (drain dev send ticks k s)).
Proof.
  revert s. induction k as [|k IH]; intros s; cbn [drain]; [done|].
  pose proof (reg_read_awaits 0x98 s) as A1. destruct (reg_read dev 0x98 s) as [v s1]. case_bool_decide; [done|].
  pose proof (reg_read_awaits 0x90 s1) as A2. destruct (reg_read dev 0x90 s1) as [nonce s2]. cbn [snd] in *.
  assert (awaits s (reg_write 0x98 1 s2)) as A3 by (do 2 (etransitivity; [done|]); by apply awaits_same).
  pose proof (submit_result_awaits ticks nonce (reg_write 0x98 1 s2)) as A4.
  destruct (submit_result _ _ _ _) as [[] s4]; cbn [snd] in *; [by etransitivity|].
  etransitivity; [exact A3|]. etransitivity; [exact A4|apply IH].
Qed.

Lemma service_results_awaits ticks s : awaits s (snd (service_results dev send ticks s)).
Proof.
  unfold service_results. destruct (negb _); [done|].
  pose proof (reg_read_awaits 4 s) as A1. destruct (reg_read dev 4 s) as [v s1]. cbn [snd] in A1.
  etransitivity; [exact A1|]. case_bool_decide; [by apply awaits_same|].
  pose proof (drain_awaits ticks 16 s1) as A2. destruct (drain _ _ _ _ _) as [[] s2]; [done|]. cbn [snd] in A2.
  etransitivity; [exact A2|]. unfold next_range.
  pose proof (reg_read_awaits 4 s2) as A3. destruct (reg_read dev 4 s2) as [v2 s3]. case_bool_decide; [done|].
  etransitivity; [exact A3|]. pose proof (reg_read_awaits 0x98 s3) as A4. destruct (reg_read dev 0x98 s3) as [v3 s4].
  case_bool_decide; [done|]. etransitivity; [exact A4|]. case_bool_decide; [|by apply awaits_same].
  etransitivity; [|apply build_header_awaits]. by apply awaits_same.
Qed.

(** ** Iterations without a line *)

Lemma feed_silent ticks chunk line last s :
  10 ∉ chunk →
  let '(bad, _, last', s') := feed send ticks chunk line last s in
  bad = false → last' = last ∧ s' = s.
Proof.
  revert line. induction chunk as [|c chunk IH]; intros line; cbn [feed]; [done|].
  intros [Hc Hn]%not_elem_of_cons. rewrite bool_decide_false by congruence.
  case_bool_decide; [by apply IH|done].
Qed.

Lemma process_silent ticks chunk started line last s line' last' s' :
  10 ∉ chunk → process dev send ticks chunk started line last s = (false, line', last', s') →
  last' = last ∧ awaits s s' ∧
  let now := ticks (wd s) in
  (authorized (fl s) = true ∨ now -32 started <= 1500) ∧ now -32 last <= 12000 ∧
  ∀ i p, (i < 8)%nat → pending (sh s') !! i = Some p → p_id p ≠ 0 → now -32 p_sent p <= 3000.
Proof.
  intros Hn Hp. pose proof (process_continues dev send ticks chunk started line last s line' last' s' Hp) as
    (s1 & Hf & Ha & Hl & _ & Hi). pose proof (feed_silent ticks chunk line last s Hn) as Hs. rewrite Hf in Hs.
  destruct (Hs eq_refl) as [-> ->]. split_and!; try done. revert Hp. unfold process. rewrite Hf.
  destruct (_ || _); [done|]. pose proof (service_results_awaits ticks s) as A.
  destruct (service_results dev send ticks s) as [rc s2]. case_bool_decide; [done|].
  destruct (for_loop 0 8 _ (false, s2)) as [bad s3] eqn:Et. intros [= -> <-]. by apply timeouts_false in Et as [-> _].
Qed.

Lemma iteration_silent ticks r started line last s line' last' s' :
  silent r → iteration dev send ticks r started line last s = (false, line', last', s') →
  last' = last ∧ awaits s s' ∧
  let now := ticks (wd s) in
  (authorized (fl s) = true ∨ now -32 started <= 1500) ∧ now -32 last <= 12000 ∧
  ∀ i p, (i < 8)%nat → pending (sh s') !! i = Some p → p_id p ≠ 0 → now -32 p_sent p <= 3000.
Proof.
  destruct r as [chunk| |]; cbn [silent iteration]; [apply process_silent| |done].
  intros _. apply process_silent. apply not_elem_of_nil.
Qed.

(** A deadline has passed when the clock is read: 120 seconds without a line,
    15 seconds without authorization, or 30 seconds without the reply to a
    share. *)
Definition late (ticks : world Q → Z) (started last : Z) s : Prop :=
  (∀ w, ticks w -32 last > 12000) ∨
  (authorized (fl s) = false ∧ ∀ w, ticks w -32 started > 1500) ∨
  (∃ i p, (i < 8)%nat ∧ pending (sh s) !! i = Some p ∧ p_id p ≠ 0 ∧ ∀ w, ticks w -32 p_sent p > 3000).

Lemma late_awaits ticks started last s s' : awaits s s' → late ticks started last s → late ticks started last s'.
Proof.
  intros [Ea Hp] [Hl|[[Ha Hl]|(i & p & Hi & Hpi & Hid & Hl)]]; [by left|right; left; by rewrite Ea|].
  right. right. exists i, p. auto.
Qed.

Lemma run_session_late rs started line last s :
  Forall silent rs.*2 → Exists (λ ticks, late ticks started last s) rs.*1 →
  fst (fst (fst (run_session rs started line last s))) = true.
Proof.
  revert line last s. induction rs as [|[ticks r] rs IH]; intros line last s Hs Hl; [by inversion Hl|].
  cbn [run_session fmap list_fmap] in *. apply Forall_cons in Hs as [Hr Hs].
  destruct (iteration dev send ticks r started line last s) as [[[bad line'] last'] s'] eqn:E. destruct bad; [done|].
  destruct (iteration_silent _ _ _ _ _ _ _ _ _ Hr E) as (E' & A & Ha & Hlast & Hp); subst last'.
  apply IH; [done|]. apply Exists_cons in Hl as [Hl|Hl].
  - exfalso. cbn [fst] in Hl. destruct Hl as [Hl|[[Hna Hl]|(i & p & Hi & Hpi & Hid & Hl)]].
    + specialize (Hl (wd s)). lia.
    + specialize (Hl (wd s)). destruct Ha; [congruence|lia].
    + specialize (Hl (wd s)). destruct A as [_ A]. specialize (Hp i p Hi (A i p Hpi Hid) Hid). lia.
  - eapply Exists_impl; [exact Hl|]. intros ticks'. by apply late_awaits.
Qed.
End silence.

(** ** Claims *)

(** C40. A silent pool is dropped.  Let a session loop run for any number of
    iterations, whatever the clock reads in each of them and whatever arrives
    as long as no line is completed (a timeout of the receive counts).  If in
    one of them the clock reads more than 120 seconds after the last line, or
    more than 15 seconds after the start of a session that is not authorized,
    or more than 30 seconds after a share that waits for its reply was sent,
    the session ends by that iteration. *)
Theorem silent_pool_dropped {Q} `{Queue Q} `{JsonLibrary} dev send rs started line last (s : stratum Q) :
  Forall silent rs.*2 → Exists (λ ticks, late ticks started last s) rs.*1 →
  fst (fst (fst (run_session dev send rs started line last s))) = true.
Proof. apply run_session_late. Qed.

(** The example session, authorized and with a share submitted at tick 0: the
    pool says nothing for 31 seconds. *)
Lemma silent_pool_dropped_witness :
  let quiet := (λ _ : world (list miner_event), 100, WouldBlock) in
  let late := (λ _ : world (list miner_event), 3101, WouldBlock) in
  fst (fst (fst (run_session Run.dev Run.send [quiet; quiet] 0 [] 0 (snd Run.after)))) = false ∧
  fst (fst (fst (run_session Run.dev Run.send [quiet; late; quiet] 0 [] 0 (snd Run.after)))) = true.
Proof.
  cbv zeta. split; [vm_compute; reflexivity|].
  assert (∃ p, pending (sh (snd Run.after)) !! 0%nat = Some p ∧ p_id p ≠ 0 ∧ p_sent p = 0) as (p & Hp & Hid & Hsent)
    by (eexists; split; [vm_compute; reflexivity|split; [discriminate|reflexivity]]).
  revert Hp. generalize (snd Run.after). intros s Hp.
  apply silent_pool_dropped; [by repeat constructor|]. apply Exists_cons. right. apply Exists_cons. left.
  right. right. exists 0%nat, p. rewrite Hsent. split; [lia|]. split; [exact Hp|]. split; [exact Hid|].
  intros w. reflexivity.
Defined.
