(* ===== verification/StratumTel.v ===== *)
(** * The reports of the Stratum client are typed

    Every event the client reports fits its fields, and what it keeps for
    later reports (the job id, the job number, the events of pending shares)
    stays within bounds, through every operation of Stratum and every step of
    its task; and no operation changes the settings of the session. *)
From S2P Require Import Prelude Fips180 Sha256 Bitcoin Target Settings Bus Json.
From S2P Require Import Ina700 Protocol Telemetry TelemetryOk Stratum StratumInv Session StratumTask.
Local Open Scope cword_scope.

(** ** Lengths *)

Lemma cstr_length_zero l i : l !! i = Some 0 → (length (cstr l) <= i)%nat.
Proof.
  revert i. induction l as [|c l IH]; intros i Hi; [done|]. cbn [cstr].
  case_bool_decide as Hc; [simpl; lia|]. destruct i as [|i]; [by injection Hi|].
  simpl. specialize (IH i Hi). lia.
Qed.

Lemma length_sha256d m : length (sha256d m) = 32%nat.
Proof.
  unfold sha256d. destruct (sha256_final _) as [c out]. unfold sha256_final. cbv zeta. cbn [snd].
  match goal with |- length (for_loop 0 8 ?f ?b) = _ =>
    apply (for_loop_ind (λ _ d, length d = 32%nat) 0 8 f b) end; [done|].
  intros i d _ Hd. unfold store_be32. by rewrite !length_insert.
Qed.

(** The hash of a share as text has at most 64 characters. *)
Lemma hash_text_length m : (length (cstr (hex_encode (rev (sha256d m)) (replicate 65 0%Z))) <= 64)%nat.
Proof.
  apply cstr_length_zero. rewrite hex_encode_to_hex, memcpy_eq
    by (rewrite length_app, length_to_hex, length_rev, length_sha256d; simpl; lia).
  cbn [take]. rewrite app_nil_l, <-app_assoc, lookup_app_r by (rewrite length_to_hex, length_rev, length_sha256d; lia).
  by rewrite length_to_hex, length_rev, length_sha256d.
Qed.

Section reports.
Context {Q : Type} `{QueueLaws Q} `{JsonLibrary}.
Context (dev : device) (send : list Z → list Z → Z) (ticks : world Q → Z).
(** The settings of the session. *)
Context (st : miner_settings).
Implicit Types s : stratum Q.

Record reports_ok s : Prop := {
  rep_tel : tel_ok (w_tel (wd s));
  rep_id : (length (j_id (job (wk s))) <= 127)%nat;
  rep_number : is_u32 (j_number (job (wk s)));
  rep_pending : Forall (λ p, event_ok (p_event p)) (pending (sh s));
  rep_session : session s = st;
}.

(** An operation that reports nothing and leaves alone what is kept. *)
Definition calm s s' : Prop :=
  w_tel (wd s') = w_tel (wd s) ∧ j_id (job (wk s')) = j_id (job (wk s)) ∧
  j_number (job (wk s')) = j_number (job (wk s)) ∧ pending (sh s') = pending (sh s) ∧ session s' = session s.

#[global] Instance calm_preorder : PreOrder calm.
Proof. split; [done|]. intros s1 s2 s3 (? & ? & ? & ? & ?) (? & ? & ? & ? & ?). split_and!; congruence. Qed.

Lemma reports_calm s s' : calm s s' → reports_ok s → reports_ok s'.
Proof. intros (E1 & E2 & E3 & E4 & E5) [R1 R2 R3 R4 R5]. split; congruence. Qed.

Ltac quietly R := eapply reports_calm; [|exact R]; done.

Lemma tell_ok name s : reports_ok s → reports_ok (tell name s).
Proof. intros [R1 R2 R3 R4 R5]. split; try done. by apply telemetry_event_ok. Qed.

Lemma mining_ok b s : reports_ok s → reports_ok (set_tel (telemetry_mining b (w_tel (wd s))) s).
Proof. intros [R1 R2 R3 R4 R5]. split; try done. by apply telemetry_mining_ok. Qed.

Lemma detail_ok e s : event_ok e → reports_ok s → reports_ok (set_tel (telemetry_detail e (w_tel (wd s))) s).
Proof. intros He [R1 R2 R3 R4 R5]. split; try done. by apply telemetry_detail_ok. Qed.

Lemma stop_reports s : reports_ok s → reports_ok (stop s).
Proof. intros R. unfold stop. apply mining_ok. quietly R. Qed.

Lemma start_range_reports s : reports_ok s → reports_ok (start_range s).
Proof. intros R. unfold start_range. apply mining_ok. quietly R. Qed.

Lemma send_loop_tel fuel rest (w : world Q) : w_tel (snd (send_loop send fuel rest w)) = w_tel w.
Proof.
  revert rest w. induction fuel as [|fuel IH]; intros [|c rest] w; try done. cbn [send_loop].
  case_bool_decide; [done|]. by rewrite IH.
Qed.

Lemma send_line_calm text s : calm s (snd (send_line send text s)).
Proof.
  unfold send_line. pose proof (send_loop_tel (length text) text (wd s)) as Ht.
  by destruct (send_loop send (length text) text (wd s)).
Qed.

Lemma program_work_calm mid tail target s : calm s (program_work mid tail target s).
Proof. by rewrite program_work_eq. Qed.

Lemma build_header_reports s : reports_ok s → reports_ok (snd (build_header s)).
Proof.
  intros R. unfold build_header. destruct (extra_exhausted (fl s)); [done|].
  destruct (hex_decode _ _ _) as [rc time]. case_bool_decide; [quietly R|].
  destruct (increment _ _) as [e2 x]. cbn [snd]. apply start_range_reports.
  match goal with |- context [program_work ?m ?t ?g ?s1] => pose proof (program_work_calm m t g s1) as (E1 & E2 & E3 & E4 & E5);
    revert E1 E2 E3 E4 E5; generalize (program_work m t g s1) end.
  intros s2 E1 E2 E3 E4 E5. proj in *. apply (reports_calm s); [|done]. by split_and!.
Qed.

(** ** Messages from the pool *)

Lemma read_id_reports b s : reports_ok s → reports_ok (snd (read_id b s)).
Proof.
  intros [R1 R2 R3 R4 R5]. unfold read_id. destruct (json_string b (str "params[0]") 128) as [id|] eqn:E; [|done].
  apply json_string_spec in E as [Hl _]. split; try done. cbn. lia.
Qed.

(** Steps of a condition one after the other. *)
Lemma orelse_reports (a b : step) s :
  (∀ s, reports_ok s → reports_ok (snd (a s))) → (∀ s, reports_ok s → reports_ok (snd (b s))) →
  reports_ok s → reports_ok (snd (orelse a b s)).
Proof.
  intros Ha Hb R. unfold orelse. specialize (Ha s R). destruct (a s) as [[] s1]; [done|]. by apply Hb.
Qed.

Ltac read_field :=
  intros ? [? ? ? ? ?];
  unfold read_prev, read_version, read_bits, read_coin1, read_coin2, read_time, has_type;
  try destruct (json_hex _ _ _ _); try destruct (json_string _ _ _); by split.

Lemma read_branches_calm b k i s : calm s (snd (read_branches b k i s)).
Proof.
  revert i s. induction k as [|k IH]; intros i s; cbn [read_branches]; [done|].
  destruct (JSON_SearchConst b _) as [v t| |]; [|done..]. destruct (_ || _); [done|].
  destruct (hex_decode v _ 32) as [rc a]. case_bool_decide; [done|]. etransitivity; [|apply IH]. done.
Qed.

Lemma read_job_reports b s : reports_ok s → reports_ok (snd (read_job b s)).
Proof.
  intros R. unfold read_job.
  pose proof (orelse_reports (read_id b) (read_prev b) s (read_id_reports b) ltac:(read_field) R) as R1.
  destruct (orelse (read_id b) (read_prev b) s) as [[] s1]; [done|]. cbn [snd] in R1.
  assert (reports_ok (snd (read_coin1 b s1))) as R2 by (revert R1; generalize s1; read_field).
  destruct (read_coin1 b s1) as [n1 s2]. case_bool_decide; [done|]. cbn [snd] in R2.
  assert (reports_ok (snd (read_coin2 b s2))) as R3 by (revert R2; generalize s2; read_field).
  destruct (read_coin2 b s2) as [n2 s3]. case_bool_decide; [done|]. cbn [snd] in R3.
  match goal with |- context [orelse (read_version b) ?rest s3] =>
    assert (reports_ok (snd (orelse (read_version b) rest s3))) as R4 end.
  { do 3 (apply orelse_reports; [read_field| |done]; intros). apply orelse_reports; [read_field|read_field|done]. }
  destruct (orelse _ _ s3) as [[] s4]; [done|]. cbn [snd] in R4.
  eapply reports_calm; [apply read_branches_calm|]. quietly R4.
Qed.

Lemma notify_reports b s : reports_ok s → reports_ok (snd (notify b s)).
Proof.
  intros R. unfold notify. destruct (subscribed (fl s)); cbn [negb]; [|done].
  assert (reports_ok (set_have_job false (stop s))) as R1.
  { apply stop_reports in R. revert R. generalize (stop s). intros s' R. quietly R. }
  pose proof (read_job_reports b _ R1) as R2. destruct (read_job b _) as [[] s2]; [done|]. cbn [snd] in R2.
  destruct R2 as [T2 I2 N2 P2 S2].
  pose proof (telemetry_job_ok (j_id (job (wk s2))) (w_tel (wd s2)) T2) as [Hn Ht].
  change (w_tel (wd (set_have_job true s2))) with (w_tel (wd s2)).
  destruct (telemetry_job (j_id (job (wk s2))) (w_tel (wd s2))) as [number tel]. cbn [fst snd] in Hn, Ht.
  match goal with |- context [if authorized (fl ?s3) then _ else _] => assert (reports_ok s3) as R3 by (by split);
    destruct (authorized (fl s3)); [by apply build_header_reports|done] end.
Qed.

Lemma notification_reports b s : reports_ok s → reports_ok (snd (notification b s)).
Proof.
  intros R. unfold notification. destruct (json_string b (str "method") 64); [|done].
  case_bool_decide; [|case_bool_decide; [|case_bool_decide; [done|by apply notify_reports]]].
  - unfold set_difficulty. destruct (JSON_SearchConst b (str "params[0]")) as [v []| |]; try done.
    destruct (bitcoin_target v); [|done]. cbn [snd]. apply tell_ok. quietly R.
  - unfold set_extranonce. destruct (json_hex b (str "params[0]") _ 32) as [k a].
    case_bool_decide; [quietly R|]. destruct (json_u32 b (str "params[1]")); [|quietly R].
    destruct (_ || _); [quietly R|]. cbn [snd].
    match goal with |- context [stop ?s1] =>
      assert (reports_ok (stop s1)) as R1 by (apply stop_reports; quietly R); revert R1; generalize (stop s1) end.
    intros s' R1. quietly R1.
Qed.

Lemma settle_reports b id k i s : reports_ok s → reports_ok (settle b id k i s).
Proof.
  revert i s. induction k as [|k IH]; intros i s R; cbn [settle]; [done|].
  destruct (pending (sh s) !! i) as [p|] eqn:Hp; [|done]. destruct (_ && _); [|by apply IH].
  assert (event_ok (p_event p)) as He by (by eapply Forall_lookup_1 in Hp; [|apply R]).
  destruct He as (_ & H2 & H3 & H4 & H5).
  match goal with |- context [telemetry_detail ?e _] => assert (event_ok e) as He' end.
  { split_and!; try done. cbn. rewrite length_str. destruct (json_true b _); simpl; lia. }
  apply detail_ok; [done|]. destruct R as [T I' N P S]. split; try done. proj.
  apply Forall_insert; [done|exact He'].
Qed.

Lemma reply_reports b s : reports_ok s → reports_ok (snd (reply send b s)).
Proof.
  intros R. unfold reply. destruct (json_u32 b (str "id")) as [id|]; [|done].
  case_bool_decide; [|case_bool_decide].
  - unfold reply_subscribe. destruct (subscribed (fl s)); [done|].
    destruct (json_hex b (str "result[1]") _ 32) as [k a]. case_bool_decide; [quietly R|].
    destruct (json_u32 b (str "result[2]")); [|quietly R]. destruct (_ || _); [quietly R|].
    match goal with |- context [send_line send ?text ?s1] => pose proof (send_line_calm text s1) as C;
      destruct (send_line send text s1) as [failed s2] end.
    cbn [snd] in *. eapply reports_calm; [exact C|]. quietly R.
  - unfold reply_authorize. destruct (_ || _); [done|]. destruct (json_true b (str "result")); cbn [negb];
      [|by apply tell_ok].
    match goal with |- context [send_line send ?text (tell ?n ?s1)] =>
      assert (reports_ok (tell n s1)) as R1 by (apply tell_ok; quietly R);
      pose proof (send_line_calm text (tell n s1)) as C; destruct (send_line send text (tell n s1)) as [failed s2] end.
    pose proof (reports_calm _ _ C R1) as R2. cbn [snd] in R2. destruct failed; [done|].
    destruct (have_job (fl s2)); [by apply build_header_reports|done].
  - by apply settle_reports.
Qed.

Lemma handle_line_reports b s : reports_ok s → reports_ok (snd (handle_line send b s)).
Proof.
  intros R. unfold handle_line. destruct (JSON_Validate b); cbn [negb]; [|done].
  destruct (JSON_SearchConst b (str "method")); [by apply notification_reports|by apply reply_reports..].
Qed.

(** ** Results *)

Lemma submit_result_reports nonce s : reports_ok s → reports_ok (snd (submit_result send ticks nonce s)).
Proof.
  intros R. unfold submit_result. set (h := put_nonce _ _).
  assert (reports_ok (set_header h s)) as R0 by quietly R. proj.
  destruct (meets_target _ _ _ _); cbn [negb]; [|by apply tell_ok].
  destruct (free_slot (pending (sh s))) as [slot|]; [|by apply tell_ok].
  case_bool_decide; [done|]. unfold snprintf. set (text := submit_text _ _ _ _ _ _).
  destruct (_ || _) eqn:Hlen; [quietly R|]. apply orb_false_elim in Hlen as [_ Hlen%bool_decide_eq_false].
  match goal with |- context [send_line send ?t ?s1] => pose proof (send_line_calm t s1) as C;
    destruct (send_line send t s1) as [failed s2] end.
  assert (reports_ok s2) as R2 by (eapply reports_calm; [exact C|]; quietly R). destruct failed; [done|]. cbn [snd].
  match goal with |- context [telemetry_detail ?e _] => assert (event_ok e) as He end.
  { split_and!; cbn [ev_name ev_job_id ev_submission ev_hash ev_job_number]; [rewrite length_str; simpl; lia|apply R| | |apply R].
    - rewrite length_take. lia.
    - apply hash_text_length. }
  destruct R2 as [T I' N P S]. split; proj; [by apply telemetry_detail_ok|done|done|by apply Forall_insert|done].
Qed.

Lemma drain_reports k s : reports_ok s → reports_ok (snd (drain dev send ticks k s)).
Proof.
  revert s. induction k as [|k IH]; intros s R; cbn [drain]; [done|].
  unfold reg_read. destruct (Xil_In32 dev _ _) as [v t]. case_bool_decide; [quietly R|].
  destruct (Xil_In32 dev _ _) as [nonce t2].
  match goal with |- context [submit_result send ticks nonce ?s1] =>
    pose proof (submit_result_reports nonce s1) as Hs; destruct (submit_result send ticks nonce s1) as [[] s2] end;
    cbn [snd] in Hs; [|apply IH]; apply Hs; quietly R.
Qed.

Lemma service_results_reports s : reports_ok s → reports_ok (snd (service_results dev send ticks s)).
Proof.
  intros R. unfold service_results. destruct (running (fl s)); cbn [negb]; [|done].
  destruct (reg_read dev 4 s) as [v s1] eqn:E. assert (reports_ok s1) as R1.
  { unfold reg_read in E. destruct (Xil_In32 dev _ _). injection E as _ <-. quietly R. }
  case_bool_decide; [by apply tell_ok|]. pose proof (drain_reports 16 s1 R1) as R2.
  destruct (drain dev send ticks 16 s1) as [[] s2]; [done|]. cbn [snd] in R2. clear E R1. unfold next_range.
  unfold reg_read. destruct (Xil_In32 dev _ _) as [v2 t2]. case_bool_decide; [quietly R2|].
  destruct (Xil_In32 dev _ _) as [v3 t3]. case_bool_decide; [quietly R2|]. case_bool_decide.
  - apply build_header_reports, stop_reports. quietly R2.
  - cbn [snd]. apply start_range_reports. quietly R2.
Qed.

(** ** The task *)

Lemma feed_reports chunk line last s :
  reports_ok s → reports_ok (snd (feed send ticks chunk line last s)).
Proof.
  revert line last s. induction chunk as [|c chunk IH]; intros line last s R; cbn [feed]; [done|].
  case_bool_decide; [case_bool_decide|case_bool_decide]; try done; try by apply IH.
  pose proof (handle_line_reports line s R) as Rh. destruct (handle_line send line s) as [rc s1].
  case_bool_decide; [done|]. by apply IH.
Qed.

Lemma timeout_reports now i b s : reports_ok s → reports_ok (snd (timeout_slot now i (b, s))).
Proof.
  intros R. unfold timeout_slot. destruct (pending (sh s) !! i) as [p|] eqn:Hp; [|done].
  destruct (_ && _); [|done]. cbn [snd].
  assert (event_ok (p_event p)) as (_ & H2 & H3 & H4 & H5) by (by eapply Forall_lookup_1 in Hp; [|apply R]).
  match goal with |- context [telemetry_detail ?e _] => assert (event_ok e) as He end.
  { split_and!; try done. cbn. lia. }
  apply detail_ok; [done|]. destruct R as [T I' N P S]. split; try done. proj. apply Forall_insert; [done|exact He].
Qed.

Lemma iteration_reports r started line last s :
  reports_ok s → reports_ok (snd (iteration dev send ticks r started line last s)).
Proof.
  intros R.
  assert (∀ chunk, reports_ok (snd (process dev send ticks chunk started line last s))) as Hp.
  { intros chunk. unfold process. pose proof (feed_reports chunk line last s R) as R1.
    destruct (feed send ticks chunk line last s) as [[[bad l1] u1] s1]. cbn [snd] in R1.
    destruct (_ || _); [done|]. pose proof (service_results_reports s1 R1) as R2.
    destruct (service_results dev send ticks s1) as [rc s2]. cbn [snd] in R2. case_bool_decide; [done|].
    match goal with |- context [for_loop 0 8 ?f ?x] => assert (reports_ok (snd (for_loop 0 8 f x))) as R3 end.
    { apply (for_loop_ind (λ _ x, reports_ok (snd x))); [done|]. intros i [b s3] _ R3. by apply timeout_reports. }
    by destruct (for_loop 0 8 _ (false, s2)). }
  destruct r; [apply Hp..|done].
Qed.

Lemma session_begin_reports s : reports_ok s → reports_ok (session_begin s).
Proof.
  intros [T I' N P S]. split; try done. proj. apply Forall_replicate. cbn. unfold event_ok, no_event. cbn.
  split_and!; lia || (unfold in_bits; lia).
Qed.

Lemma session_end_reports s : reports_ok s → reports_ok (session_end s).
Proof.
  intros R%stop_reports. unfold session_end. revert R. generalize (stop s). intros s' R.
  assert (reports_ok (tell "pool_disconnected" (set_have_job false s'))) as R1 by (apply tell_ok; quietly R).
  revert R1. generalize (tell "pool_disconnected" (set_have_job false s')). intros s2 R1. quietly R1.
Qed.
End reports.
