(* ===== verification/StratumFine.v ===== *)
(** * The session loop step by step (stratum_task, lines 198-213 of
    src/software/application/stratum.c)

    The body of the session loop in small steps: a received character, a
    result of the hardware, a slot of the pending shares at a time.  Other
    tasks run between them.  The steps from one test of the loop's condition
    to the next are the iteration of Stratum. *)
From S2P Require Import Prelude Fips180 Sha256 Bitcoin Target Settings Bus Json Ina700 Protocol Telemetry.
From S2P Require Import TelemetryOk Stratum StratumInv Session StratumTask StratumTel.
Local Open Scope cword_scope.

(** Where the task is in the loop: before the loop's condition, with
    characters left to look at, with rounds left in the result loop, before
    the range check, and at a slot of the timeout loop.  [now] is the local
    variable of the code. *)
Inductive moment :=
  | AtTop
  | Feeding (chunk : list Z)
  | Serving (now : Z) (k : nat)
  | Ranging (now : Z)
  | Expiring (now : Z) (i : nat) (bad : bool).

Section fine.
Context {Q : Type} `{Queue Q} `{JsonLibrary}.
Context (dev : device) (send : list Z → list Z → Z) (ticks : world Q → Z).
Implicit Types s : stratum Q.

(** One round of the result loop: whether there was a result, and whether it
    ended in [return -1]. *)
Definition serve_one s : bool * bool * stratum Q :=
  let '(v, s) := reg_read dev 0x98 s in
  if bool_decide (v .& 1 = 0) then (false, false, s) else
  let '(nonce, s) := reg_read dev 0x90 s in
  let s := reg_write 0x98 1 s in
  let '(failed, s) := submit_result send ticks nonce s in
  (true, failed, s).

(** The next character of the chunk; [None] is a break. *)
Definition feed_one (c : Z) (line : list Z) (last : Z) s : option () * list Z * Z * stratum Q :=
  if bool_decide (c = 10) then
    if bool_decide (length line ≠ 0%nat) then
      let '(rc, s) := handle_line send line s in
      if bool_decide (rc ≠ 0) then (None, line, last, s) else (Some (), [], ticks (wd s), s)
    else (Some (), [], ticks (wd s), s)
  else if bool_decide (length line < LINE_MAX)%nat then (Some (), line ++ [c], last, s)
  else (None, line, last, s).

(** The tests after the chunk, and the start of [service_results]. *)
Definition check_session (started last : Z) s : option moment * stratum Q :=
  let now := ticks (wd s) in
  if (negb (authorized (fl s)) && bool_decide (now -32 started > pdMS_TO_TICKS 15000)) ||
     bool_decide (now -32 last > pdMS_TO_TICKS 120000) then (None, s) else
  if negb (running (fl s)) then (Some (Expiring now 0 false), s) else
  let '(v, s) := reg_read dev 4 s in
  if bool_decide (v .& 8 ≠ 0) then (None, tell "result_fifo_overflow" s) else (Some (Serving now 16), s).

(** One step; [r] is what [FreeRTOS_recv] returns at the top.  [None] is a
    break. *)
Definition fine (r : received) (m : moment) (started : Z) (line : list Z) (last : Z) s
    : option moment * list Z * Z * stratum Q :=
  match m with
  | AtTop =>
      (match r with ReceiveError => None | WouldBlock => Some (Feeding []) | Bytes chunk => Some (Feeding chunk) end,
       line, last, s)
  | Feeding [] => let '(m, s) := check_session started last s in (m, line, last, s)
  | Feeding (c :: chunk) =>
      let '(ok, line, last, s) := feed_one c line last s in ((λ _, Feeding chunk) <$> ok, line, last, s)
  | Serving now O => (Some (Ranging now), line, last, s)
  | Serving now (S k) =>
      let '(served, failed, s) := serve_one s in
      (if failed then None else Some (if served then Serving now k else Ranging now), line, last, s)
  | Ranging now =>
      let '(rc, s) := next_range dev s in
      (if bool_decide (rc ≠ 0) then None else Some (Expiring now 0 false), line, last, s)
  | Expiring now i bad =>
      if bool_decide (i < 8)%nat then
        let '(bad, s) := timeout_slot now i (bad, s) in (Some (Expiring now (i + 1) bad), line, last, s)
      else (if bad : bool then None else Some AtTop, line, last, s)
  end.

(** Steps until the loop breaks or is back at its condition. *)
Fixpoint fine_run (fuel : nat) (r : received) (m : moment) (started : Z) (line : list Z) (last : Z) s
    : option (bool * list Z * Z * stratum Q) :=
  match fuel with
  | O => None
  | S fuel =>
      let '(m', line, last, s) := fine r m started line last s in
      match m' with
      | None => Some (true, line, last, s)
      | Some AtTop => Some (false, line, last, s)
      | Some m' => fine_run fuel r m' started line last s
      end
  end.

(** ** The steps make up the iteration *)

Lemma drain_step k s :
  drain dev send ticks (S k) s =
  let '(served, failed, s') := serve_one s in
  if served then if failed then (true, s') else drain dev send ticks k s' else (false, s').
Proof.
  unfold serve_one. cbn [drain]. destruct (reg_read dev 0x98 s) as [v s1]. case_bool_decide; [done|].
  destruct (reg_read dev 0x90 s1) as [nonce s2]. by destruct (submit_result _ _ _ _) as [[] s3].
Qed.

Lemma for_loop_first {S} lo n (f : nat → S → S) x :
  for_loop lo (Datatypes.S n) f x = for_loop (Datatypes.S lo) n f (f lo x).
Proof. done. Qed.

Lemma run_expiring k i fuel r now bad started line last s :
  (i + k = 8)%nat → (k < fuel)%nat →
  fine_run fuel r (Expiring now i bad) started line last s =
  let '(bad, s) := for_loop i k (timeout_slot now) (bad, s) in Some (bad, line, last, s).
Proof.
  revert i fuel bad s. induction k as [|k IH]; intros i fuel bad s Hi Hf; (destruct fuel as [|fuel]; [lia|]);
    cbn [fine_run fine].
  - rewrite bool_decide_false by lia. by destruct bad.
  - rewrite bool_decide_true by lia. rewrite for_loop_first. destruct (timeout_slot now i (bad, s)) as [bad' s'].
    rewrite IH by lia. by rewrite Nat.add_1_r.
Qed.

(** What is left of the iteration after [service_results] returned [rc]. *)
Definition finish_iteration (now rc : Z) (line : list Z) (last : Z) s : bool * list Z * Z * stratum Q :=
  if bool_decide (rc ≠ 0) then (true, line, last, s) else
  let '(bad, s) := for_loop 0 8 (timeout_slot now) (false, s) in (bad, line, last, s).

Lemma run_finish fuel r now started line last s :
  (8 < fuel)%nat →
  fine_run fuel r (Expiring now 0 false) started line last s = Some (finish_iteration now 0 line last s).
Proof.
  intros Hf. rewrite (run_expiring 8) by lia. unfold finish_iteration. change (bool_decide (0 ≠ 0)) with false.
  by destruct (for_loop 0 8 _ _).
Qed.

Lemma run_ranging fuel r now started line last s :
  (9 < fuel)%nat →
  fine_run fuel r (Ranging now) started line last s =
  let '(rc, s) := next_range dev s in Some (finish_iteration now rc line last s).
Proof.
  intros Hf. destruct fuel as [|fuel]; [lia|]. cbn [fine_run fine]. destruct (next_range dev s) as [rc s'].
  destruct (bool_decide_reflect (rc ≠ 0)) as [Hrc|Hrc].
  - unfold finish_iteration. by rewrite bool_decide_true by done.
  - assert (rc = 0) as -> by lia. by rewrite run_finish by lia.
Qed.

Lemma run_serving k fuel r now started line last s :
  (k + 10 < fuel)%nat →
  fine_run fuel r (Serving now k) started line last s =
  let '(failed, s) := drain dev send ticks k s in
  if failed then Some (true, line, last, s) else let '(rc, s) := next_range dev s in Some (finish_iteration now rc line last s).
Proof.
  revert fuel s. induction k as [|k IH]; intros fuel s Hf; (destruct fuel as [|fuel]; [lia|]); cbn [fine_run fine].
  - cbn [drain]. by rewrite run_ranging by lia.
  - rewrite drain_step. destruct (serve_one s) as [[[] []] s'] eqn:E; [done|by apply IH; lia| |by rewrite run_ranging by lia].
    unfold serve_one in E. destruct (reg_read dev 0x98 s) as [v s1]. case_bool_decide; [done|].
    destruct (reg_read dev 0x90 s1) as [nonce s2]. by destruct (submit_result _ _ _ _).
Qed.
(** The iteration after the chunk. *)
Definition after_chunk (started : Z) (line : list Z) (last : Z) s : bool * list Z * Z * stratum Q :=
  let now := ticks (wd s) in
  if (negb (authorized (fl s)) && bool_decide (now -32 started > pdMS_TO_TICKS 15000)) ||
     bool_decide (now -32 last > pdMS_TO_TICKS 120000) then (true, line, last, s) else
  let '(rc, s) := service_results dev send ticks s in finish_iteration now rc line last s.

Lemma run_check fuel r started line last s :
  (27 < fuel)%nat → fine_run fuel r (Feeding []) started line last s = Some (after_chunk started line last s).
Proof.
  intros Hf. destruct fuel as [|fuel]; [lia|]. cbn [fine_run fine]. unfold check_session, after_chunk.
  destruct (_ || _); [done|]. unfold service_results. destruct (running (fl s)); cbn [negb];
    [|by rewrite run_finish by lia].
  destruct (reg_read dev 4 s) as [v s1]. case_bool_decide; [done|]. rewrite run_serving by lia.
  destruct (drain dev send ticks 16 s1) as [[] s2]; [done|]. by destruct (next_range dev s2).
Qed.

Lemma process_after chunk started line last s :
  process dev send ticks chunk started line last s =
  let '(bad, line, last, s) := feed send ticks chunk line last s in
  if bad then (true, line, last, s) else after_chunk started line last s.
Proof.
  unfold process, after_chunk, finish_iteration. destruct (feed send ticks chunk line last s) as [[[[] l] u] s1]; [done|].
  cbn [orb]. destruct (_ || _); [done|]. by destruct (service_results dev send ticks s1).
Qed.

Lemma run_feeding chunk fuel r started line last s :
  (length chunk + 27 < fuel)%nat →
  fine_run fuel r (Feeding chunk) started line last s = Some (process dev send ticks chunk started line last s).
Proof.
  rewrite process_after. revert fuel line last s.
  induction chunk as [|c chunk IH]; intros fuel line last s Hf; cbn [length] in Hf; [by rewrite run_check by lia|].
  destruct fuel as [|fuel]; [lia|]. cbn [fine_run fine feed]. unfold feed_one.
  case_bool_decide; [case_bool_decide; [|by apply IH; lia]|case_bool_decide; [by apply IH; lia|done]].
  destruct (handle_line send line s) as [rc s1]. case_bool_decide; [done|]. by apply IH; lia.
Qed.

Definition steps_enough (r : received) : nat :=
  match r with Bytes chunk => length chunk + 29 | _ => 29 end.

Lemma fine_iteration r fuel started line last s :
  (steps_enough r <= fuel)%nat →
  fine_run fuel r AtTop started line last s = Some (iteration dev send ticks r started line last s).
Proof.
  intros Hf. destruct fuel as [|fuel]; [by destruct r; cbn in Hf; lia|].
  destruct r as [chunk| |]; cbn [steps_enough] in Hf; cbn [fine_run fine iteration]; [| |done].
  - by rewrite run_feeding by lia.
  - by rewrite run_feeding by (simpl; lia).
Qed.

(** ** Every step keeps the session in order *)

Definition fine_ok (m : moment) (line : list Z) s : Prop :=
  session_inv s ∧ conversation s ∧ (length line <= LINE_MAX)%nat ∧
  match m with Serving _ _ | Ranging _ => running (fl s) = true | _ => True end.

Lemma running_authorized s : session_inv s → running (fl s) = true → authorized (fl s) = true.
Proof. intros I Hr. by destruct (run_job _ (inv_flags _ I) Hr). Qed.

Lemma serve_one_spec s :
  session_inv s → conversation s → running (fl s) = true →
  let '(_, failed, s') := serve_one s in
  session_inv s' ∧ broken s' ∧ running (fl s') = true ∧ (failed = false → conversation s').
Proof.
  intros I C Hr. pose proof (drain_spec dev send ticks 1 s I Hr) as Hd. rewrite drain_step in Hd.
  destruct (serve_one s) as [[served failed] s'].
  assert (result_step s s' ∧ sends_shares s failed s') as [R Sh].
  { destruct served; [destruct failed; exact Hd|]. destruct failed; [|exact Hd].
    destruct Hd as [R (xs & p & n & ? & ? & ? & Hok & ?)]. split; [exact R|]. by exists xs, p, n. }
  pose proof R as (Ef & _ & _ & _ & Ess & _).
  destruct (sends_outcome failed s s' I C) as [B Hc]; [by apply running_authorized|done|done|by rewrite Ef..|].
  split_and!; [by eapply inv_result_step|done|by rewrite Ef|done].
Qed.
(** A state after a step, or after a break. *)
Definition fine_result (m : option moment) (line : list Z) s : Prop :=
  match m with Some m => fine_ok m line s | None => arrays_ok s ∧ broken s end.

Lemma inv_broken s : session_inv s → conversation s → arrays_ok s ∧ broken s.
Proof. intros I C. split; [apply I|]. by apply conversation_broken; [apply I|]. Qed.

Lemma feed_one_ok c chunk line last s :
  session_inv s → conversation s → (length line <= LINE_MAX)%nat →
  let '(ok, line', _, s') := feed_one c line last s in fine_result ((λ _, Feeding chunk) <$> ok) line' s'.
Proof.
  intros I C Hl. unfold feed_one. assert (length ([] : list Z) <= LINE_MAX)%nat by (simpl; lia).
  case_bool_decide; [case_bool_decide; [|by split_and!]|].
  - pose proof (handle_line_spec send line s I C) as Hh. destruct (handle_line send line s) as [rc s1].
    destruct Hh as (A1 & B1 & Hok). case_bool_decide as Hrc; [done|]. assert (rc = 0) as -> by lia.
    destruct (Hok eq_refl). by split_and!.
  - case_bool_decide; [|by apply inv_broken]. split_and!; [done|done| |done]. rewrite length_app. simpl. lia.
Qed.

Lemma check_session_ok started line last s :
  session_inv s → conversation s → (length line <= LINE_MAX)%nat →
  let '(m, s') := check_session started last s in fine_result m line s'.
Proof.
  intros I C Hl. unfold check_session. destruct (_ || _); [by apply inv_broken|].
  destruct (running (fl s)) eqn:Hr; cbn [negb]; [|by split_and!].
  destruct (reg_read_step dev 4 s) as [W1 S1]. destruct (reg_read dev 4 s) as [v s1]. cbn [snd] in W1, S1.
  assert (session_inv s1) as I1 by (by eapply inv_world_step).
  assert (conversation s1) as C1.
  { rewrite <-(quiet_silent s s1); [done|by apply world_quiet]. }
  case_bool_decide.
  - apply inv_broken; [by eapply inv_world_step, tell_step|exact C1].
  - split_and!; [done|done|done|]. by rewrite (proj1 W1).
Qed.

Lemma fine_spec r m started line last s :
  fine_ok m line s →
  let '(m', line', _, s') := fine r m started line last s in fine_result m' line' s'.
Proof.
  intros (I & C & Hl & Hm). destruct m as [|[|c chunk]|now [|k]|now|now i bad]; cbn [fine].
  - destruct r; [by split_and!..|by apply inv_broken].
  - pose proof (check_session_ok started line last s I C Hl) as Hc. by destruct (check_session started last s).
  - pose proof (feed_one_ok c chunk line last s I C Hl) as Hf. by destruct (feed_one c line last s) as [[[ok l] u] s'].
  - by split_and!.
  - pose proof (serve_one_spec s I C Hm) as Hs. destruct (serve_one s) as [[served failed] s'].
    destruct Hs as (I' & B & Hr & Hc). destruct failed; [split; [apply I'|done]|].
    split_and!; [done|by apply Hc|done|by destruct served].
  - pose proof (next_range_spec dev s I Hm) as Hn. destruct (next_range dev s) as [rc s']. destruct Hn as [I' Q'].
    assert (conversation s') as C' by (by rewrite <-(quiet_silent s s')).
    case_bool_decide; [by apply inv_broken|by split_and!].
  - case_bool_decide.
    + destruct (timeout_slot_step now i bad s) as [R S]. destruct (timeout_slot now i (bad, s)) as [bad' s'].
      cbn [snd] in R, S. split_and!; [by eapply inv_result_step|by rewrite <-S|done|done].
    + destruct bad; [by apply inv_broken|by split_and!].
Qed.
End fine.

(** ** Every step keeps the reports typed *)
Section reports.
Context {Q : Type} `{QueueLaws Q} `{JsonLibrary}.
Context (dev : device) (send : list Z → list Z → Z) (ticks : world Q → Z).
Implicit Types s : stratum Q.

Lemma next_range_reports st s : reports_ok st s → reports_ok st (snd (next_range dev s)).
Proof.
  intros R. unfold next_range, reg_read. destruct (Xil_In32 dev _ _) as [v2 t2].
  case_bool_decide; [by apply (reports_calm st s)|].
  destruct (Xil_In32 dev _ _) as [v3 t3]. case_bool_decide; [by apply (reports_calm st s)|]. case_bool_decide.
  - apply build_header_reports, stop_reports. by apply (reports_calm st s).
  - cbn [snd]. apply start_range_reports. by apply (reports_calm st s).
Qed.

Lemma serve_one_reports st s : reports_ok st s → reports_ok st (snd (serve_one dev send ticks s)).
Proof.
  intros R. pose proof (drain_reports dev send ticks st 1 s R) as Hd. rewrite drain_step in Hd.
  by destruct (serve_one dev send ticks s) as [[[] []] s'].
Qed.

Lemma check_session_reports st started last s :
  reports_ok st s → reports_ok st (snd (check_session dev ticks started last s)).
Proof.
  intros R. unfold check_session. destruct (_ || _); [done|]. destruct (negb _); [done|].
  unfold reg_read. destruct (Xil_In32 dev _ _) as [v t].
  assert (reports_ok st (set_wd (World t (w_sent (wd s)) (w_tel (wd s))) s)) as R1 by (by apply (reports_calm st s)).
  case_bool_decide; [by apply tell_ok|done].
Qed.

Lemma fine_reports st r m started line last s :
  reports_ok st s → reports_ok st (snd (fine dev send ticks r m started line last s)).
Proof.
  intros R. destruct m as [|[|c chunk]|now [|k]|now|now i bad]; cbn [fine]; try done.
  - pose proof (check_session_reports st started last s R). by destruct (check_session _ _ _ _ _).
  - unfold feed_one. repeat case_bool_decide; try done. pose proof (handle_line_reports send st line s R) as Rh.
    destruct (handle_line send line s) as [rc s1]. by case_bool_decide.
  - pose proof (serve_one_reports st s R). by destruct (serve_one _ _ _ _) as [[? ?] ?].
  - pose proof (next_range_reports st s R). by destruct (next_range dev s).
  - case_bool_decide; [|done]. pose proof (timeout_reports st now i bad s R) as Rt.
    by destruct (timeout_slot now i (bad, s)).
Qed.
End reports.
