(* ===== verification/Secrecy.v ===== *)
(** * The password of the pool goes nowhere but to the pool

    dashboard.c promises that what the board publishes never contains
    passwords.  The password is in the state of the Stratum task (stratum.c,
    [session]), beside everything that is reported, sent and stored in the
    registers.  Two runs of the task are compared: one with the settings it
    took, one with other passwords in their place.  [masked] is the state of
    the second run; an operation that commutes with it never looks at the
    password.  The class [Peers] says what the comparison needs of the
    outside: that the connection and the clock treat the two runs alike. *)
From stdpp Require Import relations.
From S2P Require Import Prelude Fips180 Sha256 Bitcoin Target Settings Bus Json Ina700 Protocol Telemetry.
From S2P Require Import Stratum StratumInv StratumTask.
Local Open Scope cword_scope.

Create Rewrite HintDb masked.

(** ** The state of the second run *)
Section state.
Context {Q : Type} `{Queue Q}.
Implicit Types s : stratum Q.

(** The state with other settings and another history of the connection. *)
Definition masked (f : miner_settings → miner_settings) (h : list Z) s : stratum Q :=
  Stratum (fl s) (ex s) (wk s) (sh s) (f (session s)) (World (w_tr (wd s)) h (w_tel (wd s))).

Lemma masked_same s : masked id (w_sent (wd s)) s = s.
Proof. by destruct s as [? ? ? ? ? []]. Qed.

(** The fields of the second state, and assignments to them. *)
Lemma fl_masked f h s : fl (masked f h s) = fl s.
Proof. done. Qed.
Lemma ex_masked f h s : ex (masked f h s) = ex s.
Proof. done. Qed.
Lemma wk_masked f h s : wk (masked f h s) = wk s.
Proof. done. Qed.
Lemma sh_masked f h s : sh (masked f h s) = sh s.
Proof. done. Qed.
Lemma tr_masked f h s : w_tr (wd (masked f h s)) = w_tr (wd s).
Proof. done. Qed.
Lemma tel_masked f h s : w_tel (wd (masked f h s)) = w_tel (wd s).
Proof. done. Qed.
Lemma set_fl_masked x f h s : set_fl x (masked f h s) = masked f h (set_fl x s).
Proof. done. Qed.
Lemma set_ex_masked x f h s : set_ex x (masked f h s) = masked f h (set_ex x s).
Proof. done. Qed.
Lemma set_wk_masked x f h s : set_wk x (masked f h s) = masked f h (set_wk x s).
Proof. done. Qed.
Lemma set_sh_masked x f h s : set_sh x (masked f h s) = masked f h (set_sh x s).
Proof. done. Qed.
Lemma set_tel_masked x f h s : set_tel x (masked f h s) = masked f h (set_tel x s).
Proof. done. Qed.
Lemma set_job_masked x f h s : set_job x (masked f h s) = masked f h (set_job x s).
Proof. done. Qed.
Lemma set_header_masked x f h s : set_header x (masked f h s) = masked f h (set_header x s).
Proof. done. Qed.
Lemma set_range_masked x f h s : set_range x (masked f h s) = masked f h (set_range x s).
Proof. done. Qed.
Lemma set_have_job_masked x f h s : set_have_job x (masked f h s) = masked f h (set_have_job x s).
Proof. done. Qed.
Lemma set_sizes_masked a b c f h s : set_sizes a b c (masked f h s) = masked f h (set_sizes a b c s).
Proof. done. Qed.
Lemma reg_write_masked a v f h s : reg_write a v (masked f h s) = masked f h (reg_write a v s).
Proof. done. Qed.
Lemma delay_masked n f h s : delay_ticks n (masked f h s) = masked f h (delay_ticks n s).
Proof. done. Qed.
Lemma tell_masked name f h s : tell name (masked f h s) = masked f h (tell name s).
Proof. done. Qed.
Lemma stop_masked f h s : stop (masked f h s) = masked f h (stop s).
Proof. done. Qed.
Lemma start_range_masked f h s : start_range (masked f h s) = masked f h (start_range s).
Proof. done. Qed.
Lemma program_work_masked mid tail target f h s :
  program_work mid tail target (masked f h s) = masked f h (program_work mid tail target s).
Proof. by rewrite !program_work_eq. Qed.

End state.

#[export] Hint Rewrite @fl_masked @ex_masked @wk_masked @sh_masked @tel_masked @set_fl_masked @set_ex_masked @set_wk_masked
  @set_sh_masked @set_tel_masked @set_job_masked @set_header_masked @set_range_masked @set_have_job_masked @set_sizes_masked
  @reg_write_masked @delay_masked @tell_masked @stop_masked @start_range_masked @program_work_masked : masked.

(** An operation on the masked state looks at the fields of the other. *)
Ltac fields := cbv zeta; autorewrite with masked.

(** What a blind operation returns. *)
Ltac pairs := cbn [prod_map id fst snd].

(** ** Operations that do not look at the settings *)
Section masked.
Context {Q : Type} `{Queue Q} `{JsonLibrary}.
Context (dev : device).
Implicit Types s : stratum Q.

(** An operation that does and returns the same whatever the settings are and
    whatever was sent. *)
Definition blind {A} (op : stratum Q → A * stratum Q) : Prop :=
  ∀ f h s, op (masked f h s) = prod_map id (masked f h) (op s).

(** A blind operation sends nothing. *)
Lemma blind_sent {A} (op : stratum Q → A * stratum Q) s :
  blind op → w_sent (wd (snd (op s))) = w_sent (wd s).
Proof.
  intros Hop. specialize (Hop id (w_sent (wd s)) s). rewrite masked_same in Hop. rewrite Hop.
  by destruct (op s).
Qed.
Lemma reg_read_blind a : blind (reg_read dev a).
Proof.
  intros f h s. unfold reg_read. rewrite tr_masked. by destruct (Xil_In32 dev (MINER + a) (w_tr (wd s))).
Qed.

Lemma build_header_blind : blind build_header.
Proof.
  intros f h s. unfold build_header. fields. destruct (extra_exhausted (fl s)); [done|].
  destruct (hex_decode _ _ _) as [rc time]. case_bool_decide; [done|]. fields.
  destruct (increment _ _) as [e2 y]. fields. done.
Qed.

(** ** Messages from the pool *)

Lemma orelse_blind (a b : step) : blind a → blind b → blind (orelse a b).
Proof.
  intros Ha Hb f h s. unfold orelse. rewrite Ha. destruct (a s) as [[] s1]; [done|]. apply Hb.
Qed.

Lemma read_id_blind b : blind (read_id b).
Proof. intros f h s. unfold read_id. by destruct (json_string b _ _). Qed.
Lemma read_prev_blind b : blind (read_prev b).
Proof. intros f h s. unfold read_prev. fields. by destruct (json_hex b _ _ _). Qed.
Lemma read_coin1_blind b : blind (read_coin1 b).
Proof. intros f h s. unfold read_coin1. fields. by destruct (json_hex b _ _ _). Qed.
Lemma read_coin2_blind b : blind (read_coin2 b).
Proof. intros f h s. unfold read_coin2. fields. by destruct (json_hex b _ _ _). Qed.
Lemma read_version_blind b : blind (read_version b).
Proof. intros f h s. unfold read_version. fields. by destruct (json_hex b _ _ _). Qed.
Lemma read_bits_blind b : blind (read_bits b).
Proof. intros f h s. unfold read_bits. fields. by destruct (json_hex b _ _ _). Qed.
Lemma read_time_blind b : blind (read_time b).
Proof. intros f h s. unfold read_time. by destruct (json_string b _ _). Qed.
Lemma has_type_blind b q ts : blind (has_type b q ts).
Proof. done. Qed.

Lemma read_branches_blind b k i : blind (read_branches b k i).
Proof.
  revert i. induction k as [|k IH]; intros i f h s; cbn [read_branches]; [done|].
  destruct (JSON_SearchConst b _) as [v t| |]; [|done..]. destruct (_ || _); [done|].
  fields. destruct (hex_decode v _ 32) as [rc a]. case_bool_decide; [done|]. fields. apply IH.
Qed.

Lemma read_job_blind b : blind (read_job b).
Proof.
  intros f h s. unfold read_job. rewrite (orelse_blind _ _ (read_id_blind b) (read_prev_blind b)).
  destruct (orelse _ _ s) as [[] s1]; [done|]. pairs. rewrite read_coin1_blind.
  destruct (read_coin1 b s1) as [n1 s2]. pairs. case_bool_decide; [done|]. rewrite read_coin2_blind.
  destruct (read_coin2 b s2) as [n2 s3]. pairs. case_bool_decide; [done|].
  rewrite (orelse_blind _ _ (read_version_blind b) (orelse_blind _ _ (read_bits_blind b) (orelse_blind _ _ (read_time_blind b)
    (orelse_blind _ _ (has_type_blind b _ _) (has_type_blind b _ _))))).
  destruct (orelse _ _ s3) as [[] s4]; [done|]. pairs. fields. apply read_branches_blind.
Qed.

Lemma notify_blind b : blind (notify b).
Proof.
  intros f h s. unfold notify. fields. destruct (subscribed (fl s)); cbn [negb]; [|done].
  rewrite (read_job_blind b f h). destruct (read_job b _) as [[] s1]; [done|]. pairs. fields.
  destruct (telemetry_job _ _) as [number tel]. fields. destruct (authorized _); [|done]. apply build_header_blind.
Qed.

Lemma notification_blind b : blind (notification b).
Proof.
  intros f h s. unfold notification. destruct (json_string b (str "method") 64); [|done].
  case_bool_decide; [|case_bool_decide; [|case_bool_decide; [done|apply notify_blind]]].
  - unfold set_difficulty. destruct (JSON_SearchConst b _) as [v []| |]; try done. destruct (bitcoin_target v); [|done].
    by fields.
  - unfold set_extranonce. fields. destruct (json_hex b _ _ _) as [k a]. case_bool_decide; [done|].
    destruct (json_u32 b _); [|done]. destruct (_ || _); [done|]. by fields.
Qed.

Lemma settle_blind b id k i f h s : settle b id k i (masked f h s) = masked f h (settle b id k i s).
Proof.
  revert i. induction k as [|k IH]; intros i; cbn [settle]; [done|].
  fields. destruct (pending (sh s) !! i) as [p|]; [|done]. destruct (_ && _); [by fields|]. apply IH.
Qed.

(** ** The session loop *)

Lemma next_range_blind : blind (next_range dev).
Proof.
  intros f h s. unfold next_range. rewrite reg_read_blind. destruct (reg_read dev 4 s) as [v s1].
  pairs. case_bool_decide; [done|]. rewrite reg_read_blind.
  destruct (reg_read dev 0x98 s1) as [v' s2]. pairs. case_bool_decide; [done|]. fields.
  case_bool_decide; [|done]. apply build_header_blind.
Qed.

Lemma timeout_slot_blind now i bad : blind (λ s, timeout_slot now i (bad, s)).
Proof.
  intros f h s. unfold timeout_slot. fields. destruct (pending (sh s) !! i) as [p|]; [|done].
  destruct (_ && _); [by fields|done].
Qed.

Lemma timeouts_blind n now bad : blind (λ s, for_loop 0 n (timeout_slot now) (bad, s)).
Proof.
  intros f h s. induction n as [|n IH]; [done|]. rewrite !for_loop_S, IH.
  destruct (for_loop 0 n _ (bad, s)) as [bad' s']. apply timeout_slot_blind.
Qed.
End masked.

(** ** Two runs *)

(** The connections and the clocks of two runs treat them alike: [peer]
    relates what has been sent in one and in the other.  A line, or the two
    requests for authorization, are sent in both or fail in both. *)
Class Peers {Q} (send send' : list Z → list Z → Z) (ticks ticks' : world Q → Z) (peer : list Z → list Z → Prop) := {
  peer_begin : peer [] [];
  peer_line : ∀ text tr h h' (tel : telemetry Q), peer h h' →
    let '(failed, w) := send_loop send (length text) text (World tr h tel) in
    let '(failed', w') := send_loop send' (length text) text (World tr h' tel) in
    failed' = failed ∧ peer (w_sent w) (w_sent w');
  peer_authorize : ∀ worker password password' tr h h' (tel : telemetry Q), peer h h' →
    let text := snd (snprintf 512 (authorize_text worker password)) in
    let text' := snd (snprintf 512 (authorize_text worker password')) in
    let '(failed, w) := send_loop send (length text) text (World tr h tel) in
    let '(failed', w') := send_loop send' (length text') text' (World tr h' tel) in
    failed' = failed ∧ peer (w_sent w) (w_sent w');
  peer_ticks : ∀ tr h h' tel, peer h h' → ticks' (World tr h' tel) = ticks (World tr h tel);
}.

(** Other settings of which only the password may differ. *)
Definition same_but_password (st st' : miner_settings) : Prop :=
  mac st' = mac st ∧ port st' = port st ∧ host st' = host st ∧ worker st' = worker st.

Section twins.
Context {Q : Type} `{Queue Q} `{JsonLibrary}.
Context (dev : device) (send send' : list Z → list Z → Z) (ticks ticks' : world Q → Z) (peer : list Z → list Z → Prop).
Context `{Hpeers : !Peers send send' ticks ticks' peer}.
Context (f : miner_settings → miner_settings) (Hf : ∀ st, same_but_password st (f st)).
Implicit Types s : stratum Q.

(** The states of the two runs agree but for the password and the bytes sent. *)
Definition twin s s' : Prop := ∃ h, peer (w_sent (wd s)) h ∧ s' = masked f h s.
(** So they do after an operation that returned the same in both. *)
Definition twins {A} (x x' : A * stratum Q) : Prop := fst x' = fst x ∧ twin (snd x) (snd x').

Lemma twins_intro {A} (r : A) s s' : twin s s' → twins (r, s) (r, s').
Proof. done. Qed.

(** One operation after another. *)
Lemma bind_twins {A B} (x x' : A * stratum Q) (k k' : A → stratum Q → B * stratum Q) :
  twins x x' → (∀ r s s', twin s s' → twins (k r s) (k' r s')) →
  twins (let '(r, s) := x in k r s) (let '(r, s) := x' in k' r s).
Proof. destruct x as [r s], x' as [r' s']. intros [E Ht] Hk. cbn in E, Ht. subst. by apply Hk. Qed.

(** Blind operations of the two runs. *)
Lemma blind_twins {A} (op : stratum Q → A * stratum Q) s s' : blind op → twin s s' → twins (op s) (op s').
Proof.
  intros Hop (h & Hh & ->). rewrite Hop. destruct (op s) as [r s1] eqn:E. split; [done|].
  exists h. split; [|done]. pose proof (blind_sent op s Hop) as Hs. rewrite E in Hs. cbn [snd] in *. by rewrite Hs.
Qed.

Lemma blind_twin (op : stratum Q → stratum Q) s s' : blind (λ s, ((), op s)) → twin s s' → twin (op s) (op s').
Proof. intros Hop Ht. apply (blind_twins (λ s, ((), op s)) s s' Hop Ht). Qed.

Lemma ticks_twin s s' : twin s s' → ticks' (wd s') = ticks (wd s).
Proof. intros (h & Hh & ->). destruct s as [? ? ? ? ? [tr h0 tel]]. by apply peer_ticks. Qed.

Lemma fl_twin s s' : twin s s' → fl s' = fl s.
Proof. by intros (h & _ & ->). Qed.

(** ** Lines sent *)

Lemma send_loop_world g fuel rest (w : world Q) :
  snd (send_loop g fuel rest w) = World (w_tr w) (w_sent (snd (send_loop g fuel rest w))) (w_tel w).
Proof.
  revert rest w. induction fuel as [|fuel IH]; intros [|c rest] [tr h tel]; try done. cbn [send_loop].
  case_bool_decide; [done|]. by rewrite IH.
Qed.

Lemma sent_twins text text' s s' :
  (∀ tr h h' (tel : telemetry Q), peer h h' →
    let '(failed, w) := send_loop send (length text) text (World tr h tel) in
    let '(failed', w') := send_loop send' (length text') text' (World tr h' tel) in
    failed' = failed ∧ peer (w_sent w) (w_sent w')) →
  twin s s' → twins (send_line send text s) (send_line send' text' s').
Proof.
  intros Hp (h & Hh & ->). destruct s as [F e k x st [tr h0 tel]]. unfold send_line, masked. proj.
  specialize (Hp tr h0 h tel Hh).
  pose proof (send_loop_world send (length text) text (World tr h0 tel)) as Hw.
  pose proof (send_loop_world send' (length text') text' (World tr h tel)) as Hw'.
  destruct (send_loop send _ _ _) as [failed w], (send_loop send' _ _ _) as [failed' w']. cbn [fst snd] in *.
  destruct Hp as [-> Hp]. split; [done|]. exists (w_sent w'). split; [done|]. by rewrite Hw, Hw'.
Qed.

Lemma line_twins text s s' : twin s s' → twins (send_line send text s) (send_line send' text s').
Proof. apply sent_twins. intros *. apply peer_line. Qed.

(** ** The operations of the client *)

Lemma reply_subscribe_twins b s s' : twin s s' → twins (reply_subscribe send b s) (reply_subscribe send' b s').
Proof.
  intros (h & Hh & ->). unfold reply_subscribe. fields. destruct (subscribed (fl s)); [by apply twins_intro; exists h|].
  destruct (json_hex b _ _ _) as [k a]. fields. case_bool_decide; [by apply twins_intro; exists h|].
  destruct (json_u32 b _); [|by apply twins_intro; exists h]. destruct (_ || _); [by apply twins_intro; exists h|]. fields.
  match goal with |- context [send_line send _ ?y] => assert (twin y (masked f h y)) as Ht by (by exists h);
    assert (worker (session (masked f h y)) = worker (session y)) as Hw by apply Hf; revert Ht Hw; generalize y end.
  intros s1 Ht Hw. rewrite Hw. apply bind_twins; [|done].
  apply sent_twins; [|done]. intros *. apply peer_authorize.
Qed.

Lemma reply_authorize_twins b s s' : twin s s' → twins (reply_authorize send b s) (reply_authorize send' b s').
Proof.
  intros (h & Hh & ->). unfold reply_authorize. fields. destruct (_ || _); [by apply twins_intro; exists h|].
  destruct (json_true b _); cbn [negb]; [|by apply twins_intro; exists h].
  apply bind_twins; [apply line_twins; by exists h|]. intros failed s1 s1' Ht. rewrite (fl_twin _ _ Ht).
  destruct failed; [done|]. destruct (have_job (fl s1)); [|done]. by apply blind_twins; [apply build_header_blind|].
Qed.

Lemma handle_line_twins b s s' : twin s s' → twins (handle_line send b s) (handle_line send' b s').
Proof.
  intros Ht. unfold handle_line. destruct (JSON_Validate b); cbn [negb]; [|done].
  assert (twins (reply send b s) (reply send' b s')) as Hr.
  { unfold reply. destruct (json_u32 b (str "id")) as [id|]; [|done].
    case_bool_decide; [by apply reply_subscribe_twins|]. case_bool_decide; [by apply reply_authorize_twins|].
    destruct Ht as (h & Hh & ->). apply (blind_twins (λ s, (0, settle b id 8 0 s))); [|by exists h].
    intros g h' s1. by rewrite settle_blind. }
  destruct (JSON_SearchConst b (str "method")); [|done..].
  by apply blind_twins; [apply notification_blind|].
Qed.

Lemma submit_result_twins nonce s s' :
  twin s s' → twins (submit_result send ticks nonce s) (submit_result send' ticks' nonce s').
Proof.
  intros (h & Hh & ->). unfold submit_result. fields.
  assert (worker (session (masked f h s)) = worker (session s)) as Hw by apply Hf.
  destruct (meets_target _ _ _ _); cbn [negb]; [|by apply twins_intro; exists h].
  destruct (free_slot _) as [slot|]; [|by apply twins_intro; exists h].
  case_bool_decide; [by apply twins_intro; exists h|].
  match goal with |- context [send_line send _ ?y] => change (session (masked f h y)) with (session (masked f h s));
    change (session y) with (session s); rewrite Hw; assert (twin y (masked f h y)) as Ht by (by exists h) end.
  destruct (snprintf 640 _) as [length request]. destruct (_ || _); [done|].
  apply bind_twins; [by apply line_twins|]. intros failed s1 s1' Ht1. destruct failed; [done|].
  rewrite (ticks_twin _ _ Ht1). destruct Ht1 as (h1 & Hh1 & ->). fields. apply twins_intro. by exists h1.
Qed.

Lemma drain_twins k s s' : twin s s' → twins (drain dev send ticks k s) (drain dev send' ticks' k s').
Proof.
  revert s s'. induction k as [|k IH]; intros s s' Ht; cbn [drain]; [done|].
  apply bind_twins; [by apply blind_twins; [apply reg_read_blind|]|]. intros v s1 s1' T1. case_bool_decide; [done|].
  apply bind_twins; [by apply blind_twins; [apply reg_read_blind|]|]. intros nonce s2 s2' (h & Hh & ->). fields.
  apply bind_twins; [apply submit_result_twins; by exists h|]. intros failed s3 s3' T3. destruct failed; [done|by apply IH].
Qed.

Lemma service_results_twins s s' :
  twin s s' → twins (service_results dev send ticks s) (service_results dev send' ticks' s').
Proof.
  intros Ht. unfold service_results. rewrite (fl_twin _ _ Ht). destruct (running (fl s)); cbn [negb]; [|done].
  apply bind_twins; [by apply blind_twins; [apply reg_read_blind|]|]. intros v s1 s1' T1. case_bool_decide.
  { by apply (blind_twins (λ s, (-1, tell _ s))). }
  apply bind_twins; [by apply drain_twins|]. intros failed s2 s2' T2. destruct failed; [done|].
  by apply blind_twins; [apply next_range_blind|].
Qed.

(** ** The task *)

Lemma feed_twins chunk line last s s' :
  twin s s' → twins (feed send ticks chunk line last s) (feed send' ticks' chunk line last s').
Proof.
  revert line last s s'. induction chunk as [|c chunk IH]; intros line last s s' Ht; cbn [feed]; [done|].
  case_bool_decide; [case_bool_decide|].
  - apply bind_twins; [by apply handle_line_twins|]. intros rc s1 s1' T1. case_bool_decide; [done|].
    rewrite (ticks_twin _ _ T1). by apply IH.
  - rewrite (ticks_twin _ _ Ht). by apply IH.
  - case_bool_decide; [by apply IH|done].
Qed.

Lemma iteration_twins r started line last s s' :
  twin s s' → twins (iteration dev send ticks r started line last s) (iteration dev send' ticks' r started line last s').
Proof.
  intros Ht.
  assert (∀ chunk, twins (process dev send ticks chunk started line last s)
    (process dev send' ticks' chunk started line last s')) as Hp; [|destruct r; [apply Hp|apply Hp|done]].
  intros chunk. unfold process. apply (feed_twins chunk line last) in Ht.
  destruct (feed send _ _ _ _ s) as [[[bad l1] u1] s1], (feed send' _ _ _ _ s') as [[[bad' l1'] u1'] s1'].
  destruct Ht as [E Ht]. cbn in E, Ht. injection E as -> -> ->. rewrite (ticks_twin _ _ Ht), (fl_twin _ _ Ht).
  cbv zeta. destruct (_ || _); [done|].
  apply bind_twins; [by apply service_results_twins|]. intros rc s2 s2' T2. case_bool_decide; [done|].
  apply bind_twins; [|done]. by apply (blind_twins (λ s, for_loop 0 8 _ (false, s))); [apply timeouts_blind|].
Qed.

(** The phases of the two runs. *)
Definition twin_phase (p p' : phase (Q:=Q)) : Prop :=
  match p, p' with
  | Idle s, Idle s' | Closing s, Closing s' => twin s s'
  | Active started line last s, Active started' line' last' s' =>
      started' = started ∧ line' = line ∧ last' = last ∧ twin s s'
  | _, _ => False
  end.

Lemma take_settings_twin st s s' : twin s s' → twin (take_settings st s) (take_settings (f st) s').
Proof. intros (h & Hh & ->). by exists h. Qed.

Lemma configured_twin s s' : twin s s' → configured s' = configured s.
Proof. intros (h & _ & ->). unfold configured. cbn. destruct (Hf (session s)) as (_ & _ & -> & ->). done. Qed.

Lemma session_begin_twin s s' : twin s s' → twin (session_begin s) (session_begin s').
Proof. intros (h & _ & ->). exists []. split; [apply peer_begin|done]. Qed.

Lemma tell_twin name s s' : twin s s' → twin (tell name s) (tell name s').
Proof. by apply (blind_twin (tell name)). Qed.

Lemma delay_twin n s s' : twin s s' → twin (delay_ticks n s) (delay_ticks n s').
Proof. by apply (blind_twin (delay_ticks n)). Qed.

Lemma session_end_twin s s' : twin s s' → twin (session_end s) (session_end s').
Proof. intros (h & Hh & ->). exists h. unfold session_end. by fields. Qed.

(** Each step of the first run has its twin in the second. *)
Lemma task_step_twin p p' q :
  twin_phase p p' → task_step dev send ticks p q → ∃ q', task_step dev send' ticks' p' q' ∧ twin_phase q q'.
Proof.
  intros Hp Hst. revert p' Hp.
  destruct Hst as [s st|s st C|s st C|s st s1 C Es|s st s1 C Es s2|r u l v s l1 v1 s1 Ei|r u l v s l1 v1 s1 Ei|u l v s|s];
    intros [s'|u' l' v' s'|s'] Hp; try done.
  1-5: pose proof (take_settings_twin st _ _ Hp) as Ht.
  2-5: rewrite <-(configured_twin _ _ Ht) in C.
  4-5: pose proof (line_twins subscribe_text _ _ (session_begin_twin _ _ Ht)) as Hs; rewrite Es in Hs;
    destruct (send_line send' subscribe_text _) as [failed s1'] eqn:Es'; destruct Hs as [E Hs]; cbn in E, Hs; subst failed.
  - eexists. split; [apply (Wait _ _ _ s' (f st))|]. by apply delay_twin.
  - eexists. split; [by apply (NoName _ _ _ s' (f st))|]. by apply delay_twin, tell_twin.
  - eexists. split; [by apply (Refused _ _ _ s' (f st))|]. by apply session_begin_twin.
  - eexists. split; [by eapply (Unheard _ _ _ s' (f st))|done].
  - eexists. split; [by eapply (Connect _ _ _ s' (f st))|]. apply (tell_twin "pool_connected") in Hs.
    fold s2 in Hs. cbv zeta. cbn [twin_phase]. by rewrite (ticks_twin _ _ Hs).
  - destruct Hp as (-> & -> & -> & Ht). apply (iteration_twins r u l v) in Ht. rewrite Ei in Ht.
    destruct (iteration _ send' _ _ _ _ _ s') as [[[b l1'] v1'] s1'] eqn:Ei'. destruct Ht as [E Ht]. cbn in E, Ht.
    injection E as -> -> ->. eexists. split; [by eapply Iterate|done].
  - destruct Hp as (-> & -> & -> & Ht). apply (iteration_twins r u l v) in Ht. rewrite Ei in Ht.
    destruct (iteration _ send' _ _ _ _ _ s') as [[[b l1'] v1'] s1'] eqn:Ei'. destruct Ht as [E Ht]. cbn in E, Ht.
    injection E as -> -> ->. eexists. split; [by eapply Break|done].
  - destruct Hp as (-> & -> & -> & Ht). eexists. split; [apply Leave|done].
  - eexists. split; [apply Close|]. by apply session_end_twin.
Qed.

Lemma task_run_twin p p' q :
  twin_phase p p' → rtc (task_step dev send ticks) p q →
  ∃ q', rtc (task_step dev send' ticks') p' q' ∧ twin_phase q q'.
Proof.
  intros Hp Hr. revert p' Hp. induction Hr as [p|p p1 q Hst _ IH]; intros p' Hp; [by exists p'; split; [apply rtc_refl|]|].
  destruct (task_step_twin _ _ _ Hp Hst) as (p1' & Hst' & Hp1). destruct (IH _ Hp1) as (q' & Hr' & Hq).
  exists q'. split; [by eapply rtc_l|done].
Qed.
End twins.

(** ** Claims *)

(** C7. The pool password goes nowhere but to the pool.  Take any run of the
    Stratum task and put any other passwords in the place of those it takes
    from the settings: as long as the connection and the clock treat the two
    requests for authorization alike and the pool sends the same, there is a
    run that stores the same in the registers of the miner, reports the same
    telemetry and events, and holds the same job, header, extranonces and
    shares.  So nothing that is published, programmed or submitted as a share
    depends on the password. *)
Theorem password_private {Q} `{Queue Q} `{JsonLibrary} dev send send' ticks ticks' peer
    `{!Peers send send' ticks ticks' peer} f st (w : world Q) p :
  (∀ st, same_but_password st (f st)) → w_sent w = [] →
  rtc (task_step dev send ticks) (task_start st w) p →
  ∃ p', rtc (task_step dev send' ticks') (task_start (f st) w) p' ∧
    let s := task_state p in let s' := task_state p' in
    session s' = f (session s) ∧ w_tr (wd s') = w_tr (wd s) ∧ w_tel (wd s') = w_tel (wd s) ∧
    fl s' = fl s ∧ ex s' = ex s ∧ wk s' = wk s ∧ sh s' = sh s.
Proof.
  intros Hf Hw Hr.
  assert (twin_phase peer f (task_start st w) (task_start (f st) w)) as Hp.
  { destruct w as [tr h tel]. cbn in Hw. subst h. exists []. split; [apply peer_begin|done]. }
  destruct (task_run_twin dev send send' ticks ticks' peer f Hf _ _ _ Hp Hr) as (p' & Hr' & Hp').
  exists p'. split; [done|]. destruct p as [s|u l v s|s], p' as [s'|u' l' v' s'|s']; try done; cbn [twin_phase task_state] in *.
  2: destruct Hp' as (_ & _ & _ & Hp').
  all: by destruct Hp' as (h & _ & ->).
Qed.

(** The example run beside one without a password, over a connection that
    takes one character at a time. *)
Module SecrecyRun.
Definition slowly (sent data : list Z) : Z := 1.
Definition erased (st : miner_settings) : miner_settings :=
  MinerSettings (mac st) (port st) (host st) (worker st) (replicate 64 0).

Lemma erased_password st : password (erased st) = replicate 64 0.
Proof. reflexivity. Qed.

Lemma sent_at_once text tr h (tel : telemetry (list miner_event)) :
  send_loop Run.send (length text) text (World tr h tel) = (false, World tr (h ++ text) tel).
Proof.
  destruct text as [|c text]; cbn [length send_loop]; [by rewrite app_nil_r|]. unfold Run.send at 1.
  rewrite bool_decide_false by (cbn [length]; lia).
  change (length (c :: text)) with (S (length text)). unfold Run.send.
  rewrite Nat2Z.id, drop_ge, take_ge by done. by destruct (length text).
Qed.

Lemma sent_slowly text tr h (tel : telemetry (list miner_event)) :
  send_loop slowly (length text) text (World tr h tel) = (false, World tr (h ++ text) tel).
Proof.
  revert h. induction text as [|c text IH]; intros h; cbn [length send_loop]; [by rewrite app_nil_r|].
  unfold slowly at 1. rewrite bool_decide_false by lia. cbn [w_tr w_sent w_tel]. unfold slowly.
  change (drop (Z.to_nat 1) (c :: text)) with text. change (take (Z.to_nat 1) (c :: text)) with [c].
  rewrite IH. by rewrite <-app_assoc.
Qed.

(** Both connections take everything. *)
#[global] Instance peers : Peers Run.send slowly Run.ticks Run.ticks (λ _ _, True).
Proof. split; intros; rewrite ?sent_at_once, ?sent_slowly; done. Qed.
End SecrecyRun.

Lemma password_private_witness :
  password (session (snd Run.after)) ≠ replicate 64 0 ∧
  ∃ p', rtc (task_step Run.dev SecrecyRun.slowly Run.ticks)
          (task_start (SecrecyRun.erased example_settings) Run.world0) p' ∧
    password (session (task_state p')) = replicate 64 0 ∧
    w_tel (wd (task_state p')) = w_tel (wd (snd Run.after)).
Proof.
  split; [vm_compute; discriminate|]. pose proof run_after_steps as Hrun. revert Hrun. generalize Run.after. intros x Hrun.
  destruct (password_private Run.dev Run.send SecrecyRun.slowly Run.ticks Run.ticks (λ _ _, True) SecrecyRun.erased
    example_settings Run.world0 _ (λ st, conj eq_refl (conj eq_refl (conj eq_refl eq_refl))) eq_refl Hrun)
    as (p' & Hr & Hs & _ & Ht & _).
  exists p'. split; [exact Hr|]. rewrite Hs.
  split; [apply SecrecyRun.erased_password|exact Ht].
Defined.
