(* ===== verification/Quiesce.v ===== *)
(** * Work is replaced only on a stopped miner

    The comment at the top of stratum.c: "New work cannot race result
    metadata; stop, drain, clear precedes every replacement job".  The bus
    history tells how far the engines have been brought to rest ([engines]);
    whenever a midstate, tail or target register is stored, they have been
    stopped, have had a tick to finish what was in flight, and then their
    results have been cleared and the result registers flushed, with no start
    since. *)
From stdpp Require Import relations.
From S2P Require Import Prelude Fips180 Sha256 Bitcoin Target Settings Bus Json Ina700 Protocol Telemetry Stratum StratumInv Session StratumTask.
Local Open Scope cword_scope.

(** How far the engines have been brought to rest by the commands so far: bit
    0 of the control register starts them, bit 1 tells them to stop, which
    takes until a tick has passed, and bit 2 clears their results; bits 0 and
    1 of the result status give up a pending result and an overflow.  A clear
    or a flush counts only once the engines can add no more results. *)
Inductive stage := Mining | Stopping | Stopped | Cleared | Quiesced.

Fixpoint engines (t : trace) : stage :=
  match t with
  | [] => Mining
  | Out32 a v :: t =>
      if bool_decide (a = MINER) then
        if Z.testbit v 0 then Mining
        else if Z.testbit v 1 then Stopping
        else match engines t with Stopped => if Z.testbit v 2 then Cleared else Stopped | s => s end
      else if bool_decide (a = MINER + 0x98) then
        match engines t with
        | Cleared => if Z.testbit v 0 && Z.testbit v 1 then Quiesced else Cleared
        | s => s
        end
      else engines t
  | Delay n :: t => match engines t with Stopping => if bool_decide (1 <= n) then Stopped else Stopping | s => s end
  | _ :: t => engines t
  end.
Definition quiesced (t : trace) : Prop := engines t = Quiesced.

(** Every store to a work register happened on a quiesced miner. *)
Fixpoint replaced_quiesced (t : trace) : Prop :=
  match t with
  | [] => True
  | Out32 b _ :: t => replaced_quiesced t ∧ ((∃ a, work_reg a ∧ b = MINER + a) → quiesced t)
  | _ :: t => replaced_quiesced t
  end.

Lemma replaced_out a v t : ¬ work_reg a → replaced_quiesced t → replaced_quiesced (Xil_Out32 (MINER + a) v t).
Proof.
  intros Ha Ht. split; [done|]. intros (b & Hb & E). destruct Ha. by replace a with b by lia.
Qed.

Lemma replaced_work a v t :
  work_reg a → replaced_quiesced t ∧ quiesced t →
  replaced_quiesced (Xil_Out32 (MINER + a) v t) ∧ quiesced (Xil_Out32 (MINER + a) v t).
Proof.
  intros Ha [Ht Hq]. split; [by split|]. unfold work_reg in Ha.
  unfold quiesced, Xil_Out32. cbn [engines]. by rewrite !bool_decide_false by lia.
Qed.

Section quiesce.
Context {Q : Type} `{Queue Q} `{JsonLibrary}.
Context (dev : device) (send : list Z → list Z → Z) (ticks : world Q → Z).
Implicit Types s : stratum Q.

Record quiet_inv s : Prop := {
  q_replaced : replaced_quiesced (w_tr (wd s));
  q_idle : running (fl s) = false → quiesced (w_tr (wd s));
  q_auth : running (fl s) = true → authorized (fl s) = true;
}.

(** Nothing on the bus, nothing on the flags that matter. *)
Definition off_bus s s' : Prop :=
  w_tr (wd s') = w_tr (wd s) ∧ running (fl s') = running (fl s) ∧
  (authorized (fl s) = true → authorized (fl s') = true).

#[global] Instance off_bus_preorder : PreOrder off_bus.
Proof. split; [done|]. intros s1 s2 s3 (?&?&?) (?&?&?). split_and!; [congruence..|auto]. Qed.

Lemma quiet_off_bus s s' : quiet_inv s → off_bus s s' → quiet_inv s'.
Proof. intros [H1 H2 H3] (E & Er & Ha). split; rewrite ?E, ?Er; auto. Qed.

(** Waiting never undoes it. *)
Lemma quiesced_delay n t : quiesced t → quiesced (vTaskDelay n t).
Proof. unfold quiesced, vTaskDelay. cbn [engines]. by intros ->. Qed.

Lemma quiet_delay n s : quiet_inv s → quiet_inv (delay_ticks n s).
Proof. intros [G1 G2 G3]. split; [done|intros Hr; by apply quiesced_delay, G2|done]. Qed.

Lemma quiet_stop s : replaced_quiesced (w_tr (wd s)) → quiet_inv (stop s).
Proof.
  intros Ht. split; [|by intros _|done].
  apply (replaced_out 0x98), (replaced_out 0); [not_work_reg..|].
  apply (replaced_out 0 2), (replaced_out 0xa0); [not_work_reg..|done].
Qed.

Lemma quiet_start_range s :
  replaced_quiesced (w_tr (wd s)) → authorized (fl s) = true → quiet_inv (start_range s).
Proof.
  intros Ht Ha. split; [|done|by intros _].
  apply (replaced_out 0), (replaced_out 0x84), (replaced_out 0x80), (replaced_out 0); [not_work_reg..|done].
Qed.

Lemma program_trace_replaced mid tail target t :
  replaced_quiesced t → quiesced t → replaced_quiesced (program_trace mid tail target t).
Proof.
  intros Ht Hq. apply (proj1 (B := quiesced (program_trace mid tail target t))).
  unfold program_trace. cbn [foldl seq]. do 20 (apply replaced_work; [not_work_reg|]). done.
Qed.

Lemma quiet_build_header s :
  quiet_inv s → running (fl s) = false → authorized (fl s) = true → quiet_inv (snd (build_header s)).
Proof.
  intros I Hr Ha. unfold build_header. destruct (extra_exhausted (fl s)); [done|].
  destruct (hex_decode _ _ _) as [rc time]. case_bool_decide; [by apply (quiet_off_bus s)|].
  rewrite program_work_eq. destruct (increment _ _) as [e2 x]. cbn [snd].
  apply quiet_start_range; [|done]. proj.
  apply program_trace_replaced; [apply I|by apply (q_idle _ I)].
Qed.

Lemma off_bus_send line s : off_bus s (snd (send_line send line s)).
Proof.
  pose proof (send_line_spec send line s) as Hs. destruct (send_line send line s) as [failed s'].
  destruct Hs as ((Ef & _) & Et & _). unfold off_bus. cbn [snd]. by rewrite Et, Ef.
Qed.

Lemma quiet_notify b s : session_inv s → quiet_inv s → quiet_inv (snd (notify b s)).
Proof.
  intros I Hq. unfold notify. destruct (subscribed (fl s)); cbn [negb]; [|done].
  pose proof (quiet_stop s (q_replaced _ Hq)) as Q1. pose proof (inv_stop s I) as I1.
  assert (running (fl (stop s)) = false) as Hr by done. revert Q1 I1 Hr. generalize (stop s). intros s1 Q1 I1 Hr.
  pose proof (read_job_spec b (set_have_job false s1) (ok_job _ (arr_wk _ (inv_arrays _ I1)))) as Hread.
  destruct (read_job b (set_have_job false s1)) as [failed s2]. destruct Hread as [(Ef & _ & _ & _ & Ewd & _) _].
  assert (quiet_inv s2) as Q2 by (apply (quiet_off_bus s1); [done|]; unfold off_bus; by rewrite Ewd, Ef).
  assert (running (fl s2) = false) as Hr2 by (by rewrite Ef).
  destruct failed; [done|]. destruct (telemetry_job _ _) as [number tel].
  match goal with |- quiet_inv (snd (if _ then build_header ?s3 else _)) =>
    assert (quiet_inv s3) as Q3 by (by apply (quiet_off_bus s2)) end.
  destruct (authorized _) eqn:Ha; [by apply quiet_build_header|done].
Qed.

Lemma quiet_set_extranonce b s : quiet_inv s → quiet_inv (snd (set_extranonce b s)).
Proof.
  intros Hq. unfold set_extranonce. destruct (json_hex _ _ _ _) as [k a].
  case_bool_decide; [by apply (quiet_off_bus s)|].
  destruct (json_u32 _ _) as [count|]; [|by apply (quiet_off_bus s)].
  destruct (bool_decide _ || bool_decide _); [by apply (quiet_off_bus s)|]. cbn [snd].
  match goal with |- context [stop ?s0] =>
    assert (quiet_inv (stop s0)) as Q1 by (apply quiet_stop, Hq); revert Q1; generalize (stop s0) end.
  intros s1 Q1. by apply (quiet_off_bus s1).
Qed.

Lemma quiet_reply_subscribe b s : quiet_inv s → quiet_inv (snd (reply_subscribe send b s)).
Proof.
  intros Hq. unfold reply_subscribe. destruct (subscribed (fl s)); [done|].
  destruct (json_hex _ _ _ _) as [k a]. case_bool_decide; [by apply (quiet_off_bus s)|].
  destruct (json_u32 _ _) as [count|]; [|by apply (quiet_off_bus s)].
  destruct (bool_decide _ || bool_decide _); [by apply (quiet_off_bus s)|].
  match goal with |- context [send_line send ?l ?s0] =>
    pose proof (off_bus_send l s0) as Ho; destruct (send_line send l s0) as [failed s1] end.
  apply (quiet_off_bus s); [done|]. exact Ho.
Qed.

Lemma quiet_reply_authorize b s : quiet_inv s → quiet_inv (snd (reply_authorize send b s)).
Proof.
  intros Hq. unfold reply_authorize. destruct (negb _); cbn [orb]; [done|].
  destruct (authorized (fl s)) eqn:Ha; [done|].
  destruct (negb _); [by apply (quiet_off_bus s)|].
  assert (running (fl s) = false) as Hr by (destruct (running (fl s)) eqn:E; [|done]; rewrite (q_auth _ Hq E) in Ha; done).
  match goal with |- context [send_line send ?l ?s0] =>
    assert (off_bus s s0) as Ho1 by done; assert (authorized (fl s0) = true) as Ha1 by done;
    pose proof (off_bus_send l s0) as Ho; destruct (send_line send l s0) as [failed s1] eqn:E end.
  cbn [snd] in Ho. destruct Ho as (Et & Er & Hau). specialize (Hau Ha1).
  assert (quiet_inv s1) as Q1 by (apply (quiet_off_bus s); [done|]; split_and!; [by rewrite Et|by rewrite Er|by rewrite Hau]).
  destruct failed; [done|]. destruct (have_job (fl s1)); [|done].
  apply quiet_build_header; [done| |done]. rewrite Er. exact Hr.
Qed.

Lemma settle_off_bus b id k i s : off_bus s (settle b id k i s).
Proof.
  revert i. induction k as [|k IH]; intros i; cbn [settle]; [done|].
  destruct (pending (sh s) !! i); [|done]. destruct (bool_decide _ && bool_decide _); [done|apply IH].
Qed.

Lemma quiet_handle_line b s : session_inv s → quiet_inv s → quiet_inv (snd (handle_line send b s)).
Proof.
  intros I Hq. unfold handle_line. destruct (negb _); [done|].
  assert (quiet_inv (snd (reply send b s))) as Hreply.
  { unfold reply. destruct (json_u32 _ _) as [id|]; [|done].
    case_bool_decide; [by apply quiet_reply_subscribe|]. case_bool_decide; [by apply quiet_reply_authorize|].
    apply (quiet_off_bus s); [done|apply settle_off_bus]. }
  destruct (JSON_SearchConst _ _) as [v t| |]; [|done..].
  unfold notification. destruct (json_string _ _ _) as [method|]; [|done].
  case_bool_decide.
  { unfold set_difficulty. destruct (JSON_SearchConst _ _) as [v' t'| |]; [|done..].
    destruct t'; try done. destruct (bitcoin_target v'); [|done]. by apply (quiet_off_bus s). }
  case_bool_decide; [by apply quiet_set_extranonce|]. case_bool_decide; [done|]. by apply quiet_notify.
Qed.

(** ** Results *)

Lemma submit_result_off_bus nonce s : off_bus s (snd (submit_result send ticks nonce s)).
Proof.
  unfold submit_result. destruct (negb _); [done|]. destruct (free_slot _) as [slot|]; [|done].
  case_bool_decide; [done|]. destruct (snprintf _ _) as [n request].
  destruct (bool_decide _ || bool_decide _); [done|].
  match goal with |- context [send_line send ?l ?s0] =>
    assert (off_bus s s0) as Ho1 by done;
    pose proof (off_bus_send l s0) as Ho; destruct (send_line send l s0) as [failed s1] end.
  destruct failed; cbn [snd] in *; by etransitivity.
Qed.

Lemma quiet_reg_read a s : quiet_inv s → quiet_inv (snd (reg_read dev a s)) ∧ fl (snd (reg_read dev a s)) = fl s.
Proof. intros [H1 H2 H3]. split; [|done]. by split. Qed.

Lemma quiet_drain k s :
  quiet_inv s → running (fl s) = true →
  quiet_inv (snd (drain dev send ticks k s)) ∧ running (fl (snd (drain dev send ticks k s))) = true.
Proof.
  revert s. induction k as [|k IH]; intros s Hq Hr; cbn [drain]; [done|].
  destruct (quiet_reg_read 0x98 s Hq) as [Q1 E1]. destruct (reg_read dev 0x98 s) as [v s1]. cbn [snd] in *.
  case_bool_decide; [cbn [snd]; by rewrite E1|].
  destruct (quiet_reg_read 0x90 s1 Q1) as [Q2 E2]. destruct (reg_read dev 0x90 s1) as [nonce s2]. cbn [snd] in *.
  set (s3 := reg_write 0x98 1 s2).
  assert (running (fl s3) = true) as Hr3 by (unfold s3; cbn; by rewrite E2, E1).
  assert (quiet_inv s3) as Q3.
  { split; [apply (replaced_out 0x98); [not_work_reg|apply Q2]|congruence|apply Q2]. }
  clearbody s3. pose proof (submit_result_off_bus nonce s3) as Ho.
  destruct (submit_result send ticks nonce s3) as [failed s4]. cbn [snd] in Ho.
  assert (quiet_inv s4) as Q4 by (by eapply quiet_off_bus). destruct Ho as (_ & Er & _).
  destruct failed; cbn [snd]; [split; [done|congruence]|]. apply IH; [done|congruence].
Qed.

Lemma quiet_service_results s : quiet_inv s → quiet_inv (snd (service_results dev send ticks s)).
Proof.
  intros Hq. unfold service_results. destruct (running (fl s)) eqn:Hr; cbn [negb]; [|done].
  destruct (quiet_reg_read 4 s Hq) as [Q1 E1]. destruct (reg_read dev 4 s) as [v s1]. cbn [snd] in *.
  case_bool_decide; [by apply (quiet_off_bus s1)|].
  destruct (quiet_drain 16 s1 Q1) as [Q2 Hr2]; [by rewrite E1|].
  destruct (drain dev send ticks 16 s1) as [failed s2]. cbn [snd] in *. destruct failed; [done|].
  unfold next_range. destruct (quiet_reg_read 4 s2 Q2) as [Q3 E3]. destruct (reg_read dev 4 s2) as [v3 s3].
  cbn [snd] in *. case_bool_decide; [done|].
  destruct (quiet_reg_read 0x98 s3 Q3) as [Q4 E4]. destruct (reg_read dev 0x98 s3) as [v4 s4].
  cbn [snd] in *. case_bool_decide; [done|].
  assert (authorized (fl s4) = true) as Ha by (apply (q_auth _ Q4); congruence).
  case_bool_decide; [|apply quiet_start_range; [apply Q4|done]].
  apply quiet_build_header; [apply quiet_stop, Q4|done|exact Ha].
Qed.

(** ** The task *)

Lemma quiet_feed chunk line last s :
  session_inv s → conversation s → (length line <= LINE_MAX)%nat → quiet_inv s →
  quiet_inv (snd (feed send ticks chunk line last s)).
Proof.
  revert line last s. induction chunk as [|c chunk IH]; intros line last s I C Hl Hq; cbn [feed]; [done|].
  case_bool_decide.
  - case_bool_decide; [|apply IH; [done|done|simpl; lia|done]].
    pose proof (handle_line_spec send line s I C) as Hh. pose proof (quiet_handle_line line s I Hq) as Q1.
    destruct (handle_line send line s) as [rc s1]. destruct Hh as (_ & _ & Hok).
    case_bool_decide as Hrc; [done|]. assert (rc = 0) as -> by lia. destruct (Hok eq_refl).
    apply IH; [done|done|simpl; lia|done].
  - case_bool_decide; [|done]. apply IH; try done. rewrite length_app. simpl. lia.
Qed.

Lemma timeouts_off_bus now n s : off_bus s (snd (for_loop 0 n (timeout_slot now) (false, s))).
Proof.
  induction n as [|n IH]; [done|]. rewrite for_loop_S.
  destruct (for_loop 0 n (timeout_slot now) (false, s)) as [b s1]. cbn [snd] in IH.
  etransitivity; [exact IH|]. unfold timeout_slot. destruct (pending _ !! _) as [p|]; [|done].
  by destruct (bool_decide _ && bool_decide _).
Qed.

Lemma quiet_process chunk started line last s :
  session_inv s → conversation s → (length line <= LINE_MAX)%nat → quiet_inv s →
  quiet_inv (snd (process dev send ticks chunk started line last s)).
Proof.
  intros I C Hl Hq. unfold process. pose proof (quiet_feed chunk line last s I C Hl Hq) as Q1.
  destruct (feed send ticks chunk line last s) as [[[bad line1] last1] s1]. cbn [snd] in Q1.
  destruct (_ || _ || _); [done|]. pose proof (quiet_service_results s1 Q1) as Q2.
  destruct (service_results dev send ticks s1) as [rc s2]. cbn [snd] in Q2. case_bool_decide; [done|].
  pose proof (timeouts_off_bus (ticks (wd s1)) 8 s2) as Ho.
  destruct (for_loop 0 8 _ (false, s2)) as [b s3]. cbn [snd] in *. by eapply quiet_off_bus.
Qed.

Lemma quiet_iteration r started line last s :
  session_inv s → conversation s → (length line <= LINE_MAX)%nat → quiet_inv s →
  quiet_inv (snd (iteration dev send ticks r started line last s)).
Proof. intros I C Hl Hq. destruct r; cbn [iteration]; [by apply quiet_process..|done]. Qed.

Definition phase_quiet (p : phase) : Prop := phase_ok p ∧ quiet_inv (task_state p).

Lemma session_begin_quiet s : quiet_inv s → running (fl s) = false → quiet_inv (session_begin s).
Proof. intros [G1 G2 G3] Hr. split; [done|by intros _; apply G2|done]. Qed.

Lemma session_end_quiet s : quiet_inv s → quiet_inv (session_end s).
Proof.
  intros Hq. unfold session_end. pose proof (quiet_stop s (q_replaced _ Hq)) as Q1.
  revert Q1. generalize (stop s). intros s1 Q1.
  by apply quiet_delay, (quiet_off_bus s1).
Qed.

Lemma task_step_quiet p p' : phase_quiet p → task_step dev send ticks p p' → phase_quiet p'.
Proof.
  intros [Hp Hq] Hst. split; [by eapply task_step_ok|].
  destruct Hst as [s st|s st|s st|s st s' _ E|s st s' _ E|r t l u s l' u' s' E|r t l u s l' u' s' E|t l u s|s];
    cbn [phase_ok task_state] in *.
  - by apply quiet_delay, (quiet_off_bus s).
  - by apply quiet_delay, (quiet_off_bus s).
  - apply session_begin_quiet; [by apply (quiet_off_bus s)|apply Hp].
  - pose proof (off_bus_send subscribe_text (session_begin (take_settings st s))) as Ho. rewrite E in Ho.
    apply (quiet_off_bus (session_begin (take_settings st s))); [|exact Ho].
    apply session_begin_quiet; [by apply (quiet_off_bus s)|apply Hp].
  - pose proof (off_bus_send subscribe_text (session_begin (take_settings st s))) as Ho. rewrite E in Ho.
    apply (quiet_off_bus (session_begin (take_settings st s))); [|exact Ho].
    apply session_begin_quiet; [by apply (quiet_off_bus s)|apply Hp].
  - destruct Hp as (I & C & Hl). pose proof (quiet_iteration r t l u s I C Hl Hq) as Hi. by rewrite E in Hi.
  - destruct Hp as (I & C & Hl). pose proof (quiet_iteration r t l u s I C Hl Hq) as Hi. by rewrite E in Hi.
  - done.
  - by apply session_end_quiet.
Qed.

Lemma reachable_quiet st (w : world Q) p :
  replaced_quiesced (w_tr w) → rtc (task_step dev send ticks) (task_start st w) p → phase_quiet p.
Proof.
  intros Hw Hr. assert (phase_quiet (task_start st w)) as Hstart.
  { split; [apply task_start_ok|]. by apply quiet_stop. }
  revert Hstart. generalize dependent (task_start st w). intros p0 Hr.
  induction Hr as [|p0 p1 p2 Hst _ IH]; [done|]. intros H0'. apply IH. by eapply task_step_quiet.
Qed.
End quiesce.

(** ** Claims *)

(** C3. New work never races the miner.  In every reachable state of the
    client task, started on a bus history without earlier work stores, each
    store to a midstate, tail or target register was made on quiesced engines:
    told to stop and not started since, given a tick to finish, then cleared,
    then their result registers flushed; and whenever the miner is not running
    they are quiesced. *)
Theorem work_replaced_quiesced {Q} `{Queue Q} `{JsonLibrary} dev send ticks st (w : world Q) p :
  replaced_quiesced (w_tr w) → rtc (task_step dev send ticks) (task_start st w) p →
  replaced_quiesced (w_tr (wd (task_state p))) ∧
  (running (fl (task_state p)) = false → quiesced (w_tr (wd (task_state p)))).
Proof. intros Hw Hr. by destruct (reachable_quiet dev send ticks st w p Hw Hr) as [_ [? ? _]]. Qed.

(** In the example run the job has been programmed. *)
Lemma work_replaced_quiesced_witness :
  running (fl (snd Run.after)) = true ∧ replaced_quiesced (w_tr (wd (snd Run.after))).
Proof.
  generalize run_after_steps (proj2 (proj2 (proj2 (proj2 run_flags)))). generalize Run.after.
  intros x Hsteps Hr. split; [exact Hr|].
  exact (proj1 (work_replaced_quiesced Run.dev Run.send Run.ticks example_settings Run.world0 _ I Hsteps)).
Defined.
