(* ===== verification/Firmware.v ===== *)
(** * The firmware as a whole

    The tasks of the application run on one state: the settings under their
    lock, the statistics and the event queue under critical sections.  A step
    is a connection to the configuration server up to the point where it puts
    new settings in use, the count of a save, its report, a turn of the
    beacon, a turn of the power task, or a small step of the Stratum task: a
    character, a result or a slot of its session loop at a time.  Only the
    Stratum task's copy of the settings needs the lock; the test of its loop
    reads the generation without.
    Bus histories, received data and times are whatever the environment
    supplies.  The invariant of all reachable states discharges what the
    theorems on the single tasks assume of each other. *)
From stdpp Require Import relations.
From S2P Require Import Prelude Settings Bus Json Ina700 Protocol Telemetry Power.
From S2P Require Import Beacon TelemetryOk Dashboard AppMain Stratum StratumInv Session StratumTask StratumTel StratumFine.
Local Open Scope cword_scope.

(** ** Phases of the Stratum task with the shared telemetry *)
Section phases.
Context {Q : Type}.
Implicit Types (p : phase (Q:=Q)) (s : stratum Q).

Lemma arrays_tel t s : arrays_ok s → arrays_ok (set_tel t s).
Proof. by intros [? ? ?]. Qed.
Lemma inv_tel t s : session_inv s → session_inv (set_tel t s).
Proof. intros [A F W]. split; [by apply arrays_tel|by destruct F|done]. Qed.
End phases.

Section firmware.
Context {D Q : Type} `{StoreLaws D} `{QueueLaws Q} `{JsonLibrary}.
Context (dev : device) (send : list Z → list Z → Z) (ticks : world Q → Z).
Context (sysmon : Z) (clock : trace → Z) (fuel : nat).

(** Where the configuration task is: between connections or before it changes
    anything, between [settings=next] and [settings_generation++] with the
    lock in its hands, and between giving it back and the report. *)
Inductive saver := Resting | Assigned | Counted.

(** The shared variables and the locals of the tasks.  [fw_generation] is the
    [generation] of the Stratum task.  Two counts are kept for the proofs:
    [fw_saves], the saves counted so far, and [fw_taken], those before the
    Stratum task took the settings, [None] at the top of its loop. *)
Record firmware := Firmware {
  fw_app : app D Q; fw_saver : saver; fw_mac : list Z;
  fw_task : phase (Q:=Q); fw_moment : moment; fw_generation : Z;
  fw_beacon : bool * beacon; fw_event_seq : Z; fw_power : sensor * sensor;
  fw_saves : Z; fw_taken : option Z
}.
Implicit Types f : firmware.

Definition with_telemetry (t : telemetry Q) (a : app D Q) : app D Q :=
  App (settings a) (settings_generation a) (eeprom a) t.
(** The Stratum task after a step: its telemetry is the shared one. *)
Definition with_task (p : phase) (m : moment) (generation : Z) (taken : option Z) f : firmware :=
  Firmware (with_telemetry (w_tel (wd (task_state p))) (fw_app f)) (fw_saver f) (fw_mac f) p m generation
    (fw_beacon f) (fw_event_seq f) (fw_power f) (fw_saves f) taken.
(** The configuration task after a step, with the saves it counted. *)
Definition with_app (a : app D Q) (c : saver) (saves : Z) f : firmware :=
  Firmware a c (fw_mac f) (fw_task f) (fw_moment f) (fw_generation f) (fw_beacon f) (fw_event_seq f) (fw_power f)
    (fw_saves f + saves) (fw_taken f).
Definition shared f (s : stratum Q) : stratum Q := set_tel (app_tel (fw_app f)) s.

(** The static variables of dashboard.c. *)
Definition static_stats : miner_stats :=
  MinerStats [] 0 0 0 0 0 0 0 0 0 0 0 0 false false false false (no_sample, no_sample).

(** [main], [dashboard_start] and [stratum_start]. *)
Inductive fw_start : firmware → Prop :=
| FwStart timer now d q tr tr' st w rc a active r :
    is_bytes (contents d) → q_items q = [] →
    main timer (fst (dashboard_start dev q (Telemetry static_stats None) tr)) d = (rc, a, active, r) →
    w_tel w = app_tel a →
    fw_start (with_task (task_start st w) AtTop 0 None
      (Firmware a Resting active (task_start st w) AtTop 0 (fst (beacon_start dev now tr')) 0 power_init 0 None)).

Inductive fw_step : firmware → firmware → Prop :=
(** A connection that saves nothing, or one that saves, in three steps. *)
| FwConfig f es reply a :
    fw_saver f = Resting → config_turn (fw_mac f) es (fw_app f) = (reply, a) →
    settings_generation a = settings_generation (fw_app f) →
    fw_step f (with_app a Resting 0 f)
| FwAssign f es reply a :
    fw_saver f = Resting → config_turn (fw_mac f) es (fw_app f) = (reply, a) →
    settings_generation a ≠ settings_generation (fw_app f) →
    fw_step f (with_app (assign_settings (settings a) (eeprom a) (fw_app f)) Assigned 0 f)
| FwCount f :
    fw_saver f = Assigned → fw_step f (with_app (count_save (fw_app f)) Counted 1 f)
| FwReport f :
    fw_saver f = Counted → fw_step f (with_app (report_saved (fw_app f)) Resting 0 f)
| FwBeacon f link request now tr out ev b t tr' :
    broadcast_turn dev sysmon (fw_mac f) link (fst (fw_beacon f)) request now (fw_event_seq f) (snd (fw_beacon f))
      (app_tel (fw_app f)) tr = (out, ev, b, t, tr') →
    fw_step f (Firmware (with_telemetry t (fw_app f)) (fw_saver f) (fw_mac f) (fw_task f) (fw_moment f) (fw_generation f) (fst (fw_beacon f), b) ev (fw_power f)
      (fw_saves f) (fw_taken f))
| FwPower f d x0 x1 d' t :
    power_turn dev clock fuel (fw_power f) d (app_tel (fw_app f)) = (x0, x1, d', t) →
    fw_step f (Firmware (with_telemetry t (fw_app f)) (fw_saver f) (fw_mac f) (fw_task f) (fw_moment f) (fw_generation f) (fw_beacon f)
      (fw_event_seq f) (x0, x1) (fw_saves f) (fw_taken f))
(** The task takes the settings and their generation under the lock, and then
    waits or connects with the settings it took. *)
| FwTake f s :
    fw_saver f ≠ Assigned → fw_task f = Idle s → fw_taken f = None →
    fw_step f (with_task (Idle (take_settings (settings (fw_app f)) (shared f s))) AtTop
                 (settings_generation (fw_app f)) (Some (fw_saves f)) f)
| FwIdle f s n p :
    fw_task f = Idle s → fw_taken f = Some n →
    task_step dev send ticks (Idle (shared f s)) p → session (task_state p) = session s →
    fw_step f (with_task p AtTop (fw_generation f) (match p with Idle _ => None | _ => Some n end) f)
(** The loop goes on only under the generation it began with. *)
| FwSession f r started line last s m line' last' s' :
    fw_task f = Active started line last s →
    (fw_moment f = AtTop → fw_generation f = settings_generation (fw_app f)) →
    fine dev send ticks r (fw_moment f) started line last (shared f s) = (m, line', last', s') →
    fw_step f (with_task (match m with Some _ => Active started line' last' s' | None => Closing s' end)
                 (default AtTop m) (fw_generation f) (fw_taken f) f)
| FwLeave f started line last s :
    fw_task f = Active started line last s → fw_moment f = AtTop →
    fw_step f (with_task (Closing (shared f s)) AtTop (fw_generation f) (fw_taken f) f)
| FwClose f s :
    fw_task f = Closing s →
    fw_step f (with_task (Idle (session_end (shared f s))) AtTop (fw_generation f) None f).

Definition fw_reachable f : Prop := ∃ f0, fw_start f0 ∧ rtc fw_step f0 f.

(** ** The invariant *)

(** The settings the Stratum task works with are those in use when it took
    them, and still are unless a save has been counted since or is about to
    be; it works with some outside the top of its loop. *)
Definition taken_ok f : Prop :=
  match fw_taken f with
  | Some n =>
      0 <= n <= fw_saves f ∧ fw_generation f = u32 n ∧
      (n = fw_saves f → fw_saver f ≠ Assigned → session (task_state (fw_task f)) = settings (fw_app f))
  | None => match fw_task f with Idle _ => True | _ => False end
  end.

(** The Stratum task is in order, in the middle of its loop too. *)
Definition task_ok (p : phase) (m : moment) : Prop :=
  match p with Active _ line _ s => fine_ok m line s | _ => phase_ok (Q:=Q) p end.

Record fw_ok f : Prop := {
  fw_settings : settings_ok (settings (fw_app f));
  fw_phase : task_ok (fw_task f) (fw_moment f);
  fw_reports : reports_ok (session (task_state (fw_task f))) (shared f (task_state (fw_task f)));
  fw_table : table_ok (clients (snd (fw_beacon f)));
  fw_seq : is_u32 (fw_event_seq f);
  fw_samples : sample_ok (sample (fst (fw_power f))) ∧ sample_ok (sample (snd (fw_power f)));
  fw_gen_app : settings_generation (fw_app f) = u32 (fw_saves f);
  fw_count : 0 <= fw_saves f;
  fw_session : taken_ok f;
}.

Lemma reports_tel st (s : stratum Q) t : reports_ok st s → tel_ok t → reports_ok st (set_tel t s).
Proof. by intros [? ? ? ? ?] ?. Qed.

Lemma shared_reports st f (s : stratum Q) t :
  reports_ok st (shared f s) → tel_ok t → reports_ok st (set_tel t s).
Proof. by intros [? ? ? ? ?] ?. Qed.

Lemma fw_tel f : fw_ok f → tel_ok (app_tel (fw_app f)).
Proof. intros O. apply (fw_reports _ O). Qed.

(** ** Steps of the Stratum task *)

Lemma phase_shared f p m : task_ok p m →
  task_ok (match p with
           | Idle s => Idle (shared f s)
           | Active started line last s => Active started line last (shared f s)
           | Closing s => Closing (shared f s)
           end) m.
Proof.
  destruct p; cbn [task_ok phase_ok].
  - intros (A & ? & ?). split; [by apply arrays_tel|done].
  - intros (I & C & ?). split; [by apply inv_tel|done].
  - intros (A & B). split; [by apply arrays_tel|done].
Qed.

(** A step of the task from outside its loop. *)
Lemma coarse_ok p p' m : task_ok p m → (∀ u l v s, p ≠ Active u l v s) → task_step dev send ticks p p' → task_ok p' AtTop.
Proof.
  intros Hp Hna Hst. assert (phase_ok p') as Hp'.
  { eapply task_step_ok; [|done]. by destruct p; [|by edestruct Hna|]. }
  destruct p'; [done| |done]. destruct Hp' as (I & C & Hl). by split_and!.
Qed.

Lemma take_reports st st' (s : stratum Q) : reports_ok st s → reports_ok st' (take_settings st' s).
Proof. by intros [? ? ? ? ?]. Qed.

Lemma idle_reports st (s : stratum Q) p :
  reports_ok st s → task_step dev send ticks (Idle s) p →
  reports_ok (session (task_state p)) (task_state p).
Proof.
  intros R Hst. remember (Idle s) as p0 eqn:E.
  destruct Hst as [s0 st'|s0 st'|s0 st'|s0 st' s' _ Es|s0 st' s' _ Es s''| | | |]; try discriminate E;
    injection E as ->; apply (take_reports st st') in R; cbn [task_state].
  - revert R. generalize (take_settings st' s). intros s1 R. rewrite <-(rep_session _ _ R) in R.
    by apply (reports_calm _ s1).
  - apply (tell_ok _ "pool_dns_failed") in R. revert R. generalize (tell "pool_dns_failed" (take_settings st' s)).
    intros s1 R. rewrite <-(rep_session _ _ R) in R. by apply (reports_calm _ s1).
  - apply session_begin_reports in R. by rewrite (rep_session _ _ R).
  - apply session_begin_reports in R. pose proof (send_line_calm send subscribe_text (session_begin (take_settings st' s))) as C.
    rewrite Es in C. apply (reports_calm _ _ _ C) in R. cbn [snd] in R. by rewrite (rep_session _ _ R).
  - apply session_begin_reports in R. pose proof (send_line_calm send subscribe_text (session_begin (take_settings st' s))) as C.
    rewrite Es in C. apply (reports_calm _ _ _ C) in R. cbn [snd] in R.
    apply (tell_ok _ "pool_connected") in R. fold s'' in R. revert R. generalize s''. intros s2 R.
    by rewrite (rep_session _ _ R).
Qed.

(** A step of the Stratum task keeps the invariant if its phase and reports
    are in order and it works with the settings it took. *)
Lemma with_task_ok f p m generation taken :
  fw_ok f → task_ok p m → reports_ok (session (task_state p)) (task_state p) →
  taken_ok (with_task p m generation taken f) → fw_ok (with_task p m generation taken f).
Proof.
  intros [] Hp R Hs. split; try done. apply reports_tel; [done|apply R].
Qed.

(** As long as the session stays the same, so does what was taken. *)
Lemma same_taken f p m :
  taken_ok f → session (task_state p) = session (task_state (fw_task f)) → is_Some (fw_taken f) →
  taken_ok (with_task p m (fw_generation f) (fw_taken f) f).
Proof.
  unfold taken_ok. cbn [with_task fw_taken fw_saves fw_generation fw_task fw_moment]. intros Ht Es [n En].
  rewrite En in *. by rewrite Es.
Qed.

Lemma working f : taken_ok f → (∀ s, fw_task f ≠ Idle s) → is_Some (fw_taken f).
Proof.
  unfold taken_ok. intros Ht Hi. destruct (fw_taken f); [done|]. destruct (fw_task f); [by edestruct Hi|done..].
Qed.

Lemma session_step_ok f r started line last s m line' last' s' :
  fw_ok f → fw_task f = Active started line last s →
  fine dev send ticks r (fw_moment f) started line last (shared f s) = (m, line', last', s') →
  task_ok (match m with Some _ => Active started line' last' s' | None => Closing s' end) (default AtTop m) ∧
  reports_ok (session s) s'.
Proof.
  intros O Ht Hi. pose proof (phase_shared f _ _ (fw_phase _ O)) as Hp. rewrite Ht in Hp.
  pose proof (fw_reports _ O) as R. rewrite Ht in R. cbn [task_state] in R. split.
  - pose proof (fine_spec dev send ticks r (fw_moment f) started line last (shared f s) Hp) as Hs. rewrite Hi in Hs.
    by destruct m.
  - pose proof (fine_reports dev send ticks (session s) r (fw_moment f) started line last (shared f s) R) as R'.
    by rewrite Hi in R'.
Qed.

(** A step of the configuration task keeps the invariant if the settings and
    the telemetry it leaves are in order and it counts what it should. *)
Lemma with_app_ok f a c saves :
  fw_ok f → settings_ok (settings a) → tel_ok (app_tel a) → settings_generation a = u32 (fw_saves f + saves) → 0 <= saves →
  (saves = 0 → c ≠ Assigned → fw_saver f ≠ Assigned ∧ settings a = settings (fw_app f)) →
  fw_ok (with_app a c saves f).
Proof.
  intros [O1 O2 O3 O4 O5 O6 O7 O8 O9] Hs Ht Hg Hn Hsame. pose proof (shared_reports _ _ _ _ O3 Ht) as R.
  split; cbn [with_app fw_app fw_task fw_moment fw_beacon fw_event_seq fw_power fw_saves fw_taken fw_generation];
    try done; [lia|]. unfold taken_ok in *. cbn. destruct (fw_taken f) as [n|]; [|done].
  destruct O9 as (Hr & Hgn & Hse). split_and!; [lia..|done|]. intros En Hc.
  destruct (Hsame ltac:(lia) Hc) as [Hns ->]. apply Hse; [lia|done].
Qed.

Lemma config_ok f es reply a :
  fw_ok f → config_turn (fw_mac f) es (fw_app f) = (reply, a) →
  settings_ok (settings a) ∧
  (settings_generation a = settings_generation (fw_app f) →
    settings a = settings (fw_app f) ∧ app_tel a = app_tel (fw_app f)).
Proof.
  intros O Hc. pose proof (config_turn_step (fw_mac f) es (fw_app f) (fw_settings _ O)) as Hs.
  destruct (receive_request es []) as [line complete]. rewrite Hc in Hs.
  destruct Hs as (text & _ & _ & Ho & Hok). split; [done|]. intros Hg.
  destruct (outcome_generation _ _ _ _ _ _ Ho) as [(Es & _ & Et)|[Eg _]]; [done|].
  rewrite Hg, (fw_gen_app _ O) in Eg. unfold u32 in Eg. revert Eg. clear. dlia.
Qed.

Lemma beacon_ok f link request now tr :
  fw_ok f →
  let '(_, ev, b, t, _) := broadcast_turn dev sysmon (fw_mac f) link (fst (fw_beacon f)) request now (fw_event_seq f) (snd (fw_beacon f))
    (app_tel (fw_app f)) tr in
  tel_ok t ∧ is_u32 ev ∧ table_ok (clients b).
Proof.
  intros O. pose proof (fw_tel _ O) as Ht. destruct (next_event_ok _ Ht) as [_ He].
  pose proof (broadcast_turn_ok dev sysmon (fw_mac f) link (fst (fw_beacon f)) request now (fw_event_seq f) (snd (fw_beacon f))
    (app_tel (fw_app f)) tr Ht (fw_seq _ O)) as Hok.
  pose proof (broadcast_turn_table dev sysmon (fw_mac f) link (fst (fw_beacon f)) request now (fw_event_seq f) (snd (fw_beacon f))
    (app_tel (fw_app f)) tr (tel_stats _ Ht) He (fw_seq _ O) (fw_table _ O)) as Htab.
  destruct (broadcast_turn _ _ _ _ _ _ _ _ _ _ _) as [[[[out ev'] b'] t'] tr']. tauto.
Qed.

(** The phase and the reports of the Stratum task as it next runs. *)
Lemma resume f : fw_ok f →
  task_ok (match fw_task f with
           | Idle s => Idle (shared f s)
           | Active started line last s => Active started line last (shared f s)
           | Closing s => Closing (shared f s)
           end) (fw_moment f) ∧
  reports_ok (session (task_state (fw_task f))) (shared f (task_state (fw_task f))).
Proof. intros O. split; [by apply phase_shared, O|apply O]. Qed.

Lemma fw_step_ok f f' : fw_ok f → fw_step f f' → fw_ok f'.
Proof.
  intros O Hst. pose proof (fw_tel _ O) as Ht. destruct (resume f O) as [Hp R]. revert O Ht Hp R.
  destruct Hst as [f es reply a Hr Hc Hg|f es reply a Hr Hc Hg|f Hr|f Hr|f link request now tr out ev b t tr' Hb|f d x0 x1 d' t Hw|f s Hr E En
    |f s n p E En Hst Hse|f r u l v s m l' v' s' E Hg Hi|f u l v s E Em|f s E]; intros O Ht Hp R;
    try (rewrite E in Hp; rewrite E in R; cbn [task_state] in R).
  - destruct (config_ok f es reply a O Hc) as [Hs He]. destruct (He Hg) as [Es Et].
    apply with_app_ok; try done; [by rewrite Et|rewrite Z.add_0_r, Hg; apply O|]. by rewrite Hr.
  - destruct (config_ok f es reply a O Hc) as [Hs _].
    apply with_app_ok; try done. rewrite Z.add_0_r. apply O.
  - apply with_app_ok; try done; [apply O|]. cbn. rewrite (fw_gen_app _ O). u32_ring.
  - apply with_app_ok; try done; [apply O|by apply telemetry_event_ok|rewrite Z.add_0_r; apply O|]. by rewrite Hr.
  - pose proof (beacon_ok f link request now tr O) as Hok. rewrite Hb in Hok.
    destruct Hok as (Ht' & Hev & Htab). destruct O. split; try done. exact (shared_reports _ _ _ _ R Ht').
  - pose proof (power_turn_ok dev clock fuel (fw_power f) d (app_tel (fw_app f)) (proj1 (fw_samples _ O))
      (proj2 (fw_samples _ O)) Ht) as Hok. rewrite Hw in Hok. destruct Hok as (H0' & H1' & Ht').
    destruct O. split; try done. exact (shared_reports _ _ _ _ R Ht').
  - destruct Hp as ([? ? ?] & ?).
    apply with_task_ok; [done|by split; [split|]|exact (take_reports _ _ _ R)|].
    split_and!; [apply O|apply Z.le_refl|apply O|done].
  - apply with_task_ok; [done|by eapply coarse_ok|exact (idle_reports _ _ _ R Hst)|].
    pose proof (fw_session _ O) as Hs. unfold taken_ok in *. rewrite En in Hs. rewrite E in Hs.
    destruct p; [done|cbn in *; by rewrite Hse..].
  - destruct (session_step_ok f r u l v s m l' v' s' O E Hi) as [Hp' R'].
    assert (task_state (match m with Some _ => Active u l' v' s' | None => Closing s' end) = s') as Es by by destruct m.
    pose proof (rep_session _ _ R') as Er. apply with_task_ok; [done|done|rewrite Es; by rewrite Er|].
    apply same_taken; [apply O|by rewrite Es, E|]. apply working; [apply O|by rewrite E].
  - apply with_task_ok; [done| |done|].
    + destruct Hp as (I & C & _). by apply inv_broken.
    + apply same_taken; [apply O|by rewrite E|]. apply working; [apply O|by rewrite E].
  - apply session_end_reports in R.
    assert (task_ok (Idle (session_end (shared f s))) AtTop) as Hp' by (by eapply coarse_ok, Close).
    revert R Hp'. generalize (session_end (shared f s)). intros s1 R Hp'.
    apply with_task_ok; [done|done| |done]. cbn [task_state]. by rewrite (rep_session _ _ R).
Qed.

(** ** The start *)

Lemma start_reports st (w : world Q) : tel_ok (w_tel w) → reports_ok st (stop (static_state st w)).
Proof.
  intros Ht. apply stop_reports. split; [done|simpl; lia|done| |done].
  apply Forall_replicate. by_decide.
Qed.

Lemma main_settings timer (tel : telemetry Q) (d : D) :
  is_bytes (contents d) →
  let '(_, a, _, _) := main timer tel d in
  settings_ok (settings a) ∧ settings_generation a = 0 ∧ app_tel a = tel.
Proof.
  intros Hb. pose proof (main_spec timer tel d) as Hm.
  assert (settings_generation (snd (fst (fst (main timer tel d)))) = 0 ∧
    app_tel (snd (fst (fst (main timer tel d)))) = tel) as [Hg Ht].
  { unfold main. by destruct (settings_load d) as [[rc x] d']. }
  destruct (main timer tel d) as [[[rc a] active] r]. cbn [fst snd] in Hg, Ht.
  split; [|done]. assert (settings_ok settings_defaults) as Hdef by by_decide.
  destruct Hm as (_ & _ & _ & Hm). destruct Hm as [[_ ->]|Hm]; [done|].
  destruct (stored (contents d)) as [x|] eqn:Hx; destruct Hm as [_ ->]; [|done].
  eapply stored_ok; [|done]. split; [|done]. pose proof (contents_length d). lia.
Qed.

Lemma fw_start_ok f : fw_start f → fw_ok f.
Proof.
  intros [timer now d q tr tr' st w rc a active r Hd Hq Hm Hw].
  pose proof (main_settings timer (fst (dashboard_start dev q (Telemetry static_stats None) tr)) d Hd) as Hs.
  rewrite Hm in Hs. destruct Hs as (Hs & Hg & Ht).
  assert (tel_ok (w_tel w)) as Hok.
  { rewrite Hw, Ht. apply dashboard_start_ok; [by_decide|done]. }
  pose proof (task_start_ok st w) as Hp. pose proof (start_reports st w Hok) as R. revert Hp R.
  unfold task_start. generalize (stop (static_state st w)). intros s Hp R.
  split; try done.
  - cbn. rewrite (rep_session _ _ R). apply reports_tel; [done|apply R].
  - cbn [with_task fw_beacon]. unfold beacon_start, Xil_In32. by case_bool_decide; apply start_table_ok.
Qed.

Lemma fw_reachable_ok f : fw_reachable f → fw_ok f.
Proof.
  intros (f0 & Hf0 & Hr). apply fw_start_ok in Hf0.
  induction Hr as [|f0 f1 f2 Hst _ IH]; [done|]. apply IH. by eapply fw_step_ok.
Qed.
End firmware.

(** ** Claims *)

(** C5. The telemetry of the running firmware is sound.  However the
    configuration server, the beacon, the power task and the Stratum task
    interleave, whatever the pool, the buses and the network deliver, in every
    reachable state the statistics are within their C types, every event in
    the queue fits its fields and the samples are within theirs.  So the next
    turn of the beacon sends nothing, with no event taken and no question
    asked, or complete, numbered messages of at most 1472 bytes, to the board
    that asked and to every live subscriber. *)
Theorem firmware_telemetry {D Q} `{StoreLaws D} `{QueueLaws Q} `{JsonLibrary} dev send ticks sysmon clock fuel
    (f : firmware (D:=D) (Q:=Q)) link request now tr :
  fw_reachable dev send ticks sysmon clock fuel f →
  let t := app_tel (fw_app f) in
  stats_ok (stats t) ∧ Forall event_ok (waiting t) ∧
  sample_ok (sample (fst (fw_power f))) ∧ sample_ok (sample (snd (fw_power f))) ∧
  let '(discovery, b1) := take_request request now (snd (fw_beacon f)) in
  let queued := fst (next_event t) in
  let '(out, ev', b', t', _) :=
    broadcast_turn dev sysmon (fw_mac f) link (fst (fw_beacon f)) request now (fw_event_seq f)
      (snd (fw_beacon f)) t tr in
  discovery = None ∧ queued = None ∧ out = [] ∨
  ∃ centi texts,
    out = sent_to (recipients discovery now (clients b1)) texts ∧
    announced (fw_mac f) link (stats t') (default status_event queued) ev' (u32 (now * portTICK_PERIOD_MS)) centi
      (seq (snd (fw_beacon f))) texts (seq b') ∧
    Forall (λ text, (length text <= 1472)%nat) texts.
Proof.
  intros O%fw_reachable_ok. cbv zeta. destruct (fw_tel _ O) as [Hs Hq].
  split_and!; [done|done|apply O|apply O|].
  pose proof (broadcast_turn_spec dev sysmon (fw_mac f) link (fst (fw_beacon f)) request now (fw_event_seq f)
    (snd (fw_beacon f)) (app_tel (fw_app f)) tr) as Hb.
  destruct (take_request _ _ _) as [discovery b1].
  specialize (Hb Hs (fw_seq _ O) (proj2 (next_event_ok _ (fw_tel _ O)))).
  destruct (broadcast_turn _ _ _ _ _ _ _ _ _ _ _) as [[[[out ev'] b'] t'] tr'].
  destruct Hb as (_ & _ & [(? & ? & _ & ? & _)|(centi & texts & ? & _ & ? & ?)]); [by left|right; eauto].
Qed.

(** C6. A pool session runs under the settings in use.  In every reachable
    state with a pool session, provided fewer than 2^32 saves were counted
    since the session took its settings, the loop's test that the generation
    is still the one taken holds exactly when none was; and then the session's
    host, worker and password are the ones in use, except while the
    configuration task, with the lock, has put new settings in place and not
    yet counted the save, which the loop's test cannot see.  Its next step
    counts it, and the test fails from then on.  The session is in order
    throughout. *)
Theorem firmware_session {D Q} `{StoreLaws D} `{QueueLaws Q} `{JsonLibrary} dev send ticks sysmon clock fuel
    (f : firmware (D:=D) (Q:=Q)) started line last s :
  fw_reachable dev send ticks sysmon clock fuel f → fw_task f = Active started line last s →
  session_inv s ∧ conversation s ∧
  ∃ n, fw_taken f = Some n ∧ n <= fw_saves f ∧
    (fw_saves f - n < 2 ^ 32 → fw_generation f = settings_generation (fw_app f) ↔ n = fw_saves f) ∧
    (n = fw_saves f → session s = settings (fw_app f) ∨ fw_saver f = Assigned) ∧
    (fw_saver f = Assigned → fw_saves f - n < 2 ^ 32 - 1 →
      fw_generation f ≠ settings_generation (fw_app (with_app (count_save (fw_app f)) Counted 1 f))).
Proof.
  intros O%fw_reachable_ok E. pose proof (fw_phase _ O) as Hp. pose proof (fw_session _ O) as Ht.
  pose proof (fw_gen_app _ O) as Hg. unfold taken_ok in Ht. rewrite E in *. destruct Hp as (I & C & _).
  split_and!; [done|done|]. destruct (fw_taken f) as [n|]; [|done]. destruct Ht as (Hn & Hgn & Hs).
  exists n. split_and!; [done|lia| | |].
  - rewrite Hg, Hgn. intros Hlt. split; [|by intros ->]. unfold u32. dlia.
  - intros En. destruct (fw_saver f); [left; by apply Hs|by right|left; by apply Hs].
  - intros _ Hlt. cbn. rewrite Hg, Hgn. unfold u32. dlia.
Qed.

(** A board whose store holds a configuration: it starts, and the Stratum task
    takes the settings and connects to the pool; then a request changes the
    settings. *)
Module FirmwareRun.
Definition clock (t : trace) : Z := Z.of_nat (length t).
#[local] Existing Instance OneRequest.library.
Abbreviation reached := (fw_reachable (D:=FaultyRam.good) (Q:=list miner_event) Run.dev Run.send Run.ticks
  0x44a40000 clock 20).
Abbreviation steps := (fw_step (D:=FaultyRam.good) (Q:=list miner_event) Run.dev Run.send Run.ticks
  0x44a40000 clock 20).

Definition store : FaultyRam.good := snd (settings_save example_settings ([] : FaultyRam.good)).
Definition tel : telemetry (list miner_event) := fst (dashboard_start Run.dev [] (Telemetry static_stats None) []).
Definition booted : Z * app FaultyRam.good (list miner_event) * list Z * Z := main 5 tel store.
Definition a0 := snd (fst (fst booted)).
Definition world0 : world (list miner_event) := World [] [] (app_tel a0).
Definition start : firmware (D:=FaultyRam.good) (Q:=list miner_event) :=
  with_task (task_start example_settings world0) AtTop 0 None
    (Firmware a0 Resting (snd (fst booted)) (task_start example_settings world0) AtTop 0 (fst (beacon_start Run.dev 0 [])) 0
       power_init 0 None).
Definition took := with_task (Idle (take_settings (settings (fw_app start)) (shared start (task_state (fw_task start))))) AtTop
  (settings_generation (fw_app start)) (Some (fw_saves start)) start.
Definition subscribed_state :=
  tell "pool_connected" (snd (send_line Run.send subscribe_text
    (session_begin (take_settings (settings a0) (shared took (task_state (fw_task took))))))).
Definition connected :=
  with_task (Active (Run.ticks (wd subscribed_state)) [] (Run.ticks (wd subscribed_state)) subscribed_state) AtTop
    (fw_generation took) (Some 0) took.

Lemma store_bytes : is_bytes (contents store).
Proof. change (is_bytes (FaultyRam.cells store)). by_decide. Qed.
Lemma a0_settings : settings a0 = example_settings.
Proof. vm_compute. reflexivity. Qed.

Lemma start_ok : reached start.
Proof.
  exists start. split; [|apply rtc_refl]. unfold start, world0, a0, booted.
  destruct (main 5 tel store) as [[[rc a] active] r] eqn:E. cbn [fst snd].
  apply (FwStart _ 5 0 store [] [] [] example_settings (World [] [] (app_tel a)) rc a active r).
  - exact store_bytes.
  - reflexivity.
  - exact E.
  - reflexivity.
Qed.
Lemma took_ok : reached took.
Proof.
  destruct start_ok as (f0 & Hf0 & Hr). exists f0. split; [exact Hf0|].
  eapply rtc_r; [exact Hr|]. apply FwTake; [discriminate|reflexivity..].
Qed.

(** The whole line is accepted at once. *)
Lemma send_whole (s : stratum (list miner_event)) text : fst (send_line Run.send text s) = false.
Proof.
  unfold send_line. destruct text as [|c text]; [done|]. cbn [length send_loop].
  rewrite bool_decide_false by (unfold Run.send; simpl length; lia).
  unfold Run.send. rewrite Nat2Z.id, drop_all. by destruct (length text).
Qed.

Lemma took_session : session (task_state (fw_task took)) = example_settings.
Proof.
  unfold took, start. cbn [with_task fw_task fw_app task_state session take_settings with_telemetry settings].
  rewrite a0_settings. reflexivity.
Qed.

Lemma connected_ok : reached connected.
Proof.
  destruct took_ok as (f0 & Hf0 & Hr). exists f0. split; [exact Hf0|]. eapply rtc_r; [exact Hr|].
  pose proof took_session as Hs. unfold connected, subscribed_state. rewrite a0_settings.
  assert (∃ s, fw_task took = Idle s) as [s E] by (eexists; reflexivity).
  assert (fw_taken took = Some 0) as En by reflexivity. revert Hs E En. generalize took. intros f Hs E En.
  rewrite E in *. cbn [task_state] in *.
  pose proof (send_whole (session_begin (take_settings example_settings (shared f s))) subscribe_text) as Hw.
  destruct (send_line Run.send subscribe_text _) as [failed s'] eqn:Es. cbn [fst snd] in *. subst failed.
  refine (FwIdle Run.dev Run.send Run.ticks 0x44a40000 clock 20 f s 0 _ E En (Connect _ _ _ _ _ _ _ Es) _);
    [by_decide|]. cbn [task_state].
  pose proof (send_line_calm Run.send subscribe_text (session_begin (take_settings example_settings (shared f s))))
    as (_ & _ & _ & _ & Ec). rewrite Es in Ec. cbn [snd] in Ec. rewrite Hs. exact Ec.
Qed.

Lemma connected_active : ∃ t, fw_task connected = Active t [] t subscribed_state.
Proof. eexists. reflexivity. Qed.
Lemma connected_taken : fw_taken connected = Some 0 ∧ fw_saves connected = 0.
Proof. split; reflexivity. Qed.
(** The event of the connection waits in the queue. *)
Lemma connected_event : (ev_name <$> waiting (app_tel (fw_app connected))) = [str "pool_connected"].
Proof. vm_compute. reflexivity. Qed.
End FirmwareRun.

Lemma firmware_telemetry_witness :
  Forall event_ok (waiting (app_tel (fw_app FirmwareRun.connected))) ∧
  ev_name <$> waiting (app_tel (fw_app FirmwareRun.connected)) = [str "pool_connected"].
Proof.
  pose proof (firmware_telemetry Run.dev Run.send Run.ticks 0x44a40000 FirmwareRun.clock 20 FirmwareRun.connected
    BeaconRun.link None 100 [] FirmwareRun.connected_ok) as H. cbv zeta in H.
  split; [exact (proj1 (proj2 H))|exact FirmwareRun.connected_event].
Defined.

Lemma firmware_session_witness :
  session FirmwareRun.subscribed_state = settings (fw_app FirmwareRun.connected) ∧
  fw_generation FirmwareRun.connected = settings_generation (fw_app FirmwareRun.connected).
Proof.
  destruct FirmwareRun.connected_active as [t Ha].
  destruct (firmware_session Run.dev Run.send Run.ticks 0x44a40000 FirmwareRun.clock 20 FirmwareRun.connected
    _ _ _ _ FirmwareRun.connected_ok Ha) as (_ & _ & n & Hn & _ & Hg & Hs & _).
  destruct FirmwareRun.connected_taken as [En Es]. rewrite En in Hn. injection Hn as <-. rewrite Es in *.
  split; [|apply Hg; [lia|reflexivity]]. destruct (Hs eq_refl) as [H|H]; [exact H|discriminate H].
Defined.
