(* ===== verification/Startup.v ===== *)
(** * Starting the application (main, dashboard_start, stratum_start,
    power_start and the DHCP watch)

    The whole of [main] (src/software/application/main.c) as a computation of
    Rtos: it creates the objects and tasks and starts the scheduler, or stops
    at the first call that fails.  What it sets up is the start of Firmware. *)
From stdpp Require Import strings.
From S2P Require Import Prelude Settings Bus Json Ina700 Protocol Telemetry Power Beacon TelemetryOk Dashboard AppMain.
From S2P Require Import Stratum StratumInv Session StratumTask StratumTel StratumFine Firmware Rtos.
Local Open Scope cword_scope.

Section start.
Context {D Q : Type} `{Store D} `{Queue Q}.
Context (env : environment) (dev : device).
(** The queue [xQueueCreate] makes. *)
Context (queue : Q).

(** ** The code *)

Definition create_task (name : string) (stack priority : Z) (file : string) (line : Z) : rtos () :=
  rc ← invoke env (xTaskCreate name stack priority);
  configASSERT (bool_decide (rc = pdPASS)) file line.

(** [power_start] with the creation of its task. *)
Definition power_task_start : rtos () :=
  present ← on_bus (power_start dev);
  if negb present then mret () else create_task "power" 1024 1 "power.c" 75.

(** [sizeof(miner_event)] *)
Definition event_size : Z := 904.

Definition dashboard_tasks (tel : telemetry Q) : rtos (telemetry Q) :=
  tel ← on_bus (dashboard_start dev queue tel);
  events ← invoke env (xQueueCreate 32 event_size);
  configASSERT (negb (bool_decide (events = 0))) "dashboard.c" 188;;
  create_task "telemetry" 3072 2 "dashboard.c" 189;;
  create_task "config" 3072 2 "dashboard.c" 190;;
  power_task_start;;
  mret tel.

Definition stratum_start : rtos () := create_task "stratum" 4096 3 "stratum.c" 218.

Definition banner : string := "SCU35 Bitcoin miner v1.1.0 / FreeRTOS 202604-LTS / CPU 50MHz\r\n".

(** [main] up to the scheduler: the result of the load, the shared state, the
    MAC address in use and the random seed. *)
Definition main_setup (d : D) : rtos (Z * app D Q * list Z * Z) :=
  on_bus (λ t, ((), console_init t));;
  void Xil_ICacheEnable;;
  void Xil_DCacheEnable;;
  void (xil_printf banner []);;
  hw ← on_bus (Xil_In32 dev MINER_HW_VERSION_REG);
  boot ← on_bus (Xil_In32 dev MINER_BOOT_VERSION_REG);
  lanes ← on_bus (Xil_In32 dev MINER_ENGINES_REG);
  void (xil_printf "Hardware version %08x / bootloader version %08x / lanes %d\r\n" [Num hw; Num boot; Num lanes]);;
  let '(stored, settings, d) := settings_load d in
  let active_mac := mac settings in
  timer ← on_bus (Xil_In32 dev 0x41c00008);
  let random_state := seed_random random_state_init timer active_mac in
  void (xil_printf "EEPROM settings %d; MAC %02x:%02x:%02x:%02x:%02x:%02x\r\n" (Num stored :: (Num <$> active_mac)));;
  settings_lock ← invoke env xSemaphoreCreateMutex;
  configASSERT (negb (bool_decide (settings_lock = 0))) "main.c" 50;;
  rc ← invoke env (FreeRTOS_IPInit [0; 0; 0; 0] [255; 255; 255; 0] [0; 0; 0; 0] [0; 0; 0; 0] active_mac);
  configASSERT (bool_decide (rc = pdPASS)) "main.c" 52;;
  tel ← dashboard_tasks (Telemetry static_stats None);
  stratum_start;;
  create_task "network_watch" 512 1 "main.c" 54;;
  mret (stored, App settings 0 d tel, active_mac, random_state).

(** [vTaskStartScheduler] returns, here 0, only when there is no memory for
    the idle task; [main] then loops.  Otherwise the tasks run. *)
Definition main_start (d : D) : rtos (Z * app D Q * list Z * Z) :=
  x ← main_setup d;
  runs ← invoke env vTaskStartScheduler;
  if bool_decide (runs = 0) then forever else mret x.

(** One round of [network_watch], [iface] is set by [initialise]. *)
Definition retry_dhcp (iface : bool) : rtos () :=
  if iface then void FreeRTOS_NetworkDown else mret ().
Definition network_watch_turn (iface : bool) : rtos () :=
  on_bus (λ t, ((), vTaskDelay (pdMS_TO_TICKS 10000) t));;
  up ← invoke env FreeRTOS_IsNetworkUp;
  if bool_decide (up = 0) then mret () else
  address ← invoke env FreeRTOS_GetIPAddress;
  if network_watch true address then retry_dhcp iface else mret ().

(** ** Failures *)

Lemma fail_stop_task name stack priority file line : fail_stop (create_task name stack priority file line).
Proof. unfold create_task. stop_step. Qed.

Lemma fail_stop_power : fail_stop power_task_start.
Proof.
  unfold power_task_start. apply fail_stop_bind; [apply fail_stop_bus|].
  intros []; [apply fail_stop_task|apply fail_stop_ret].
Qed.
#[local] Hint Resolve fail_stop_task fail_stop_power : rtos.

Lemma fail_stop_dashboard tel : fail_stop (dashboard_tasks tel).
Proof. unfold dashboard_tasks. repeat stop_step. Qed.
#[local] Hint Resolve fail_stop_dashboard : rtos.

Lemma fail_stop_main d : fail_stop (main_setup d).
Proof.
  unfold main_setup, stratum_start. do 8 stop_step. destruct (settings_load d) as [[stored x] d'].
  repeat stop_step.
Qed.

(** ** What a start that does not fail leaves *)

(** The calls that create objects and tasks or start them, oldest first. *)
Definition creates (c : call) : bool :=
  match c with
  | xSemaphoreCreateMutex | xQueueCreate _ _ | xTaskCreate _ _ _ | FreeRTOS_IPInit _ _ _ _ _ | vTaskStartScheduler => true
  | _ => false
  end.
Definition created (s : rt) : list call := List.filter creates (rev (map fst (calls s))).

Lemma created_cons t l c v : created (Rt t ((c, v) :: l)) = created (Rt t l) ++ (if creates c then [c] else []).
Proof.
  unfold created. cbn [calls map fst rev]. rewrite List.filter_app. cbn [List.filter]. by destruct (creates c).
Qed.
Definition creation (c : call) : list call := if creates c then [c] else [].

Lemma void_run c s u s' : void c s = (Returned u, s') → created s' = created s ++ creation c.
Proof. intros [= _ <-]. rewrite created_cons. by destruct s. Qed.
Lemma invoke_run c s v s' : invoke env c s = (Returned v, s') → created s' = created s ++ creation c.
Proof. intros [= _ <-]. rewrite created_cons. by destruct s. Qed.
Lemma bus_run {A} (g : trace → A * trace) s (x : A) s' : on_bus g s = (Returned x, s') → created s' = created s ++ [].
Proof. unfold on_bus. destruct (g (bus s)). intros [= _ <-]. rewrite app_nil_r. by destruct s. Qed.
Lemma assert_run b file line s u s' :
  configASSERT b file line s = (Returned u, s') → created s' = created s ++ [].
Proof. destruct b; [|done]. intros [= _ <-]. by rewrite app_nil_r. Qed.

Lemma create_task_run name stack priority file line s u s' :
  create_task name stack priority file line s = (Returned u, s') →
  bus s' = bus s ∧ created s' = created s ++ [xTaskCreate name stack priority].
Proof.
  unfold create_task, mbind, rtos_bind, invoke, configASSERT. cbn. case_bool_decide; [|done].
  intros [= _ <-]. split; [done|]. rewrite created_cons. by destruct s.
Qed.

(** The power task is created on the hardware that has the sensors. *)
Lemma power_start_run s u s' :
  power_task_start s = (Returned u, s') →
  created s' = created s ++ (if fst (power_start dev (bus s)) then [xTaskCreate "power" 1024 1] else []).
Proof.
  unfold power_task_start. destruct (power_start dev (bus s)) as [present t] eqn:E.
  unfold mbind at 1, rtos_bind, on_bus. rewrite E. cbn [fst]. destruct present; cbn [negb].
  - by intros [_ ->]%create_task_run.
  - intros [= _ <-]. by rewrite app_nil_r.
Qed.

Lemma bind_returned {A B} (m : rtos A) (k : A → rtos B) s b s' :
  (a ← m; k a) s = (Returned b, s') → ∃ a s1, m s = (Returned a, s1) ∧ k a s1 = (Returned b, s').
Proof. unfold mbind, rtos_bind. destruct (m s) as [[a|] s1]; [eauto|done]. Qed.

Lemma dashboard_tasks_run tel s tel' s' :
  dashboard_tasks tel s = (Returned tel', s') →
  tel' = fst (dashboard_start dev queue tel (bus s)) ∧
  ∃ power, created s' = created s ++ [xQueueCreate 32 event_size; xTaskCreate "telemetry" 3072 2;
    xTaskCreate "config" 3072 2] ++ (if power : bool then [xTaskCreate "power" 1024 1] else []).
Proof.
  unfold dashboard_tasks. intros (t1 & s1 & E1 & (v & s2 & E2 & ([] & s3 & E3 & ([] & s4 & E4 & ([] & s5 & E5 &
    ([] & s6 & E6 & E7)%bind_returned)%bind_returned)%bind_returned)%bind_returned)%bind_returned)%bind_returned.
  injection E7 as <- <-. apply power_start_run in E6. apply create_task_run in E5 as [_ E5], E4 as [_ E4].
  unfold on_bus in E1. destruct (dashboard_start dev queue tel (bus s)) as [t tr]. injection E1 as <- <-.
  split; [done|]. rewrite E6, E5, E4. unfold configASSERT in E3. destruct (negb _); [|done]. injection E3 as <-.
  injection E2 as _ <-. rewrite created_cons. eexists. rewrite <-!app_assoc. cbn. destruct s. reflexivity.
Qed.

(** The steps of a run that returns. *)
Ltac returned H :=
  lazymatch type of H with
  | (_ ≫= _) _ = (Returned _, _) =>
      let a := fresh "a" in let s := fresh "s" in let E := fresh "E" in
      apply bind_returned in H as (a & s & E & H); returned H
  | _ => idtac
  end.

Definition startup_calls (active_mac : list Z) (power : bool) : list call :=
  [xSemaphoreCreateMutex;
   FreeRTOS_IPInit [0; 0; 0; 0] [255; 255; 255; 0] [0; 0; 0; 0] [0; 0; 0; 0] active_mac;
   xQueueCreate 32 event_size;
   xTaskCreate "telemetry" 3072 2; xTaskCreate "config" 3072 2] ++
  (if power then [xTaskCreate "power" 1024 1] else []) ++
  [xTaskCreate "stratum" 4096 3; xTaskCreate "network_watch" 512 1].

(** Limits of FreeRTOSConfig.h: priorities, stacks in words of four bytes,
    names with their terminator, and the heap all of them come from. *)
Definition configMAX_PRIORITIES : Z := 7.
Definition configMINIMAL_STACK_SIZE : Z := 256.
Definition configTOTAL_HEAP_SIZE : Z := 2 * 1024 * 1024.
Definition configMAX_TASK_NAME_LEN : nat := 16.

Definition configured_call (c : call) : bool :=
  match c with
  | xTaskCreate name stack priority =>
      bool_decide (0 <= priority < configMAX_PRIORITIES) && bool_decide (configMINIMAL_STACK_SIZE <= stack) &&
      bool_decide (String.length name < configMAX_TASK_NAME_LEN)%nat
  | _ => true
  end.
Definition storage (c : call) : Z :=
  match c with
  | xTaskCreate _ stack _ => stack * 4
  | xQueueCreate n size => n * size
  | _ => 0
  end.

Lemma startup_configured active_mac power :
  forallb configured_call (startup_calls active_mac power) = true ∧
  foldr (λ c n, storage c + n) 0 (startup_calls active_mac power) <= configTOTAL_HEAP_SIZE.
Proof. destruct power; (split; [reflexivity|vm_compute; discriminate]). Qed.

Lemma main_setup_run d s stored a active r s' :
  main_setup d s = (Returned (stored, a, active, r), s') →
  (∃ timer t, main timer (fst (dashboard_start dev queue (Telemetry static_stats None) t)) d = (stored, a, active, r)) ∧
  ∃ power, created s' = created s ++ startup_calls active power.
Proof.
  unfold main_setup. intros Hm. returned Hm. unfold main. destruct (settings_load d) as [[st x] d'].
  returned Hm. injection Hm as <- <- <- <- <-.
  apply dashboard_tasks_run in E13 as [-> [power E13]]. split; [by eexists _, _|].
  repeat match goal with
    | E : void _ _ = _ |- _ => apply void_run in E
    | E : invoke _ _ _ = _ |- _ => apply invoke_run in E
    | E : on_bus _ _ = _ |- _ => apply bus_run in E
    | E : configASSERT _ _ _ _ = _ |- _ => apply assert_run in E
    | E : create_task _ _ _ _ _ _ = _ |- _ => apply create_task_run in E as [_ E]
    | E : stratum_start _ = _ |- _ => apply create_task_run in E as [_ E]
    end.
  exists power. repeat match goal with E : created ?x = _ |- context [created ?x] => rewrite E end. by rewrite <-!app_assoc.
Qed.

(** ** A start in which nothing fails *)

Section nothing_fails.
Context (Hgood : ∀ s c, failed (c, env s c) = false).

Lemma task_clean name stack priority file line : stays_clean (create_task name stack priority file line).
Proof. unfold create_task. repeat clean_step. Qed.
Lemma power_clean : stays_clean power_task_start.
Proof.
  unfold power_task_start. clean_step. destruct (negb _); [apply stays_clean_ret|apply task_clean].
Qed.
#[local] Hint Resolve task_clean power_clean : rtos.
Lemma dashboard_clean tel : stays_clean (dashboard_tasks tel).
Proof. unfold dashboard_tasks. repeat clean_step. Qed.
#[local] Hint Resolve dashboard_clean : rtos.
Lemma main_clean d : stays_clean (main_setup d).
Proof.
  unfold main_setup, stratum_start. do 8 clean_step. destruct (settings_load d) as [[stored x] d'].
  repeat clean_step.
Qed.
End nothing_fails.
End start.

(** ** Claims *)

(** C18. The application starts completely or not at all.  Whatever the calls
    to FreeRTOS, the IP stack and the devices return, [main] either starts the
    scheduler after creating, once each and in this order, the settings lock,
    the IP stack with the MAC address of the settings, the event queue and the
    tasks, within the limits of the FreeRTOS configuration and without any
    call having failed, and what it leaves is a start state of the firmware;
    or it stops at the first call that fails, with the
    assertion printed and interrupts off, or loops when the scheduler returns.
    If no call fails and the scheduler does not return, it starts. *)
Theorem startup_all_or_nothing {D Q} `{StoreLaws D} `{QueueLaws Q} env dev (queue : Q) (d : D) :
  is_bytes (contents d) → q_items queue = [] →
  match main_start env dev queue d (Rt [] []) with
  | (Returned (stored, a, active, r), s) =>
      clean (calls s) ∧ active = mac (settings a) ∧
      (∃ power, created s = startup_calls active power ++ [vTaskStartScheduler]) ∧
      forallb configured_call (created s) = true ∧
      foldr (λ c n, storage c + n) 0 (created s) <= configTOTAL_HEAP_SIZE ∧
      ∀ st w now t, w_tel w = app_tel a →
        fw_start dev (with_task (task_start st w) AtTop 0 None
          (Firmware a Resting active (task_start st w) AtTop 0 (fst (beacon_start dev now t)) 0 power_init 0 None))
  | (Halted, s) => stopped (calls s) ∨ ∃ l, calls s = (vTaskStartScheduler, 0) :: l ∧ clean l
  end ∧
  ((∀ s c, failed (c, env s c) = false) → (∀ s, env s vTaskStartScheduler ≠ 0) →
   fst (main_start env dev queue d (Rt [] [])) ≠ Halted).
Proof.
  intros Hd Hq. pose proof (fail_stop_main env dev queue d (Rt [] []) (Forall_nil_2 _)) as Hf.
  pose proof (main_setup_run env dev queue d (Rt [] [])) as Hrun.
  pose proof (λ Hgood, clean_returns (main_setup env dev queue d) (Rt [] []) (fail_stop_main env dev queue d)
    (main_clean env dev queue Hgood d) (Forall_nil_2 _)) as Hlive.
  unfold main_start. unfold mbind at 1 3, rtos_bind.
  destruct (main_setup env dev queue d (Rt [] [])) as [[[[[stored a] active] r]|] s] eqn:E.
  2: { split; [by left|]. intros Hgood _ _. by apply Hlive. }
  destruct (Hrun _ _ _ _ _ eq_refl) as [(timer & t0 & Em) [power Ec]].
  unfold mbind, rtos_bind, invoke. cbn [fst].
  destruct (bool_decide_reflect (env s vTaskStartScheduler = 0)) as [E0|E0].
  - split; [right; exists (calls s); cbn; by rewrite E0|]. intros _ Hs _. by apply (Hs s).
  - split; [|done]. cbv beta iota. split; [by apply Forall_cons_2|].
    assert (active = mac (settings a)) as ->.
    { pose proof (main_spec timer (fst (dashboard_start dev queue (Telemetry static_stats None) t0)) d) as Hm.
      rewrite Em in Hm. apply Hm. }
    rewrite created_cons. destruct s as [b l]. cbn [bus calls]. rewrite Ec. cbn [creates].
    destruct (startup_configured (mac (settings a)) power) as [Hc Hh].
    split_and!; [done|by exists power| | |intros; by eapply FwStart].
    + by rewrite forallb_app, forallb_app, Hc.
    + rewrite !foldr_app. exact Hh.
Qed.

(** A board on which every call succeeds, and one on which the fifth fails. *)
Module StartupRun.
Definition env : environment := λ _ c,
  match c with XTmrCtr_Initialize _ | XStartInterruptCntrl _ => 0 | _ => 1 end.
Lemma good s c : failed (c, env s c) = false.
Proof. by destruct c. Qed.
Definition no_room : environment := λ s c,
  if bool_decide (c = xTaskCreate "config" 3072 2) then -1 else env s c.
(** Nothing after the telemetry task is created. *)
Lemma no_room_stops :
  let '(o, s) := main_start no_room Run.dev ([] : list miner_event) RestartRun.blank (Rt [] []) in
  o = Halted ∧ List.last (created s) vTaskStartScheduler = xTaskCreate "config" 3072 2.
Proof. vm_compute. split; reflexivity. Qed.
End StartupRun.

Lemma startup_all_or_nothing_witness :
  fst (main_start StartupRun.env Run.dev ([] : list miner_event) RestartRun.blank (Rt [] [])) ≠ Halted.
Proof.
  apply (startup_all_or_nothing StartupRun.env Run.dev ([] : list miner_event) RestartRun.blank).
  - exact RestartRun.blank_bytes.
  - reflexivity.
  - exact StartupRun.good.
  - discriminate.
Defined.
